(* ===== verification/_CoqProject ===== *)
-Q . S2P
Prelude.v
GoStrings.v
GoNet.v
Base64.v
GoTime.v
GoDuration.v
Config.v
Pb.v
NTime.v
TimeJson.v
ExtCron.v
Execution.v
Job.v
BuntDB.v
Store.v
StoreSim.v
StoreSpec.v
StoreRefine.v
StoreExecs.v
Instances.v
StoreProps.v
StoreLinks.v
StoreHistory.v
Ends.v
Scheduler.v
JobTree.v
Fsm.v
Cluster.v
ClusterProps.v
Leader.v
LeaderReconcile.v
Targets.v
Notifier.v
Server.v
ServerProps.v
Stream.v
RetryJoin.v
Api.v
ApiProps.v
ApiRestore.v
Dashboard.v
Processors.v
Executors.v
PluginRpc.v
Logging.v
Setup.v
RaftLayer.v
Lifecycle.v
Routes.v
Cmd.v
Flags.v
Commands.v
Threads.v
Handlers.v
Interleaving.v
Counting.v
Results.v
Races.v
