(* ===== verification/Prelude.v ===== *)
(** * Dkron: a verification library of the distributed job scheduler

    Dkron runs cron jobs on a cluster.  Servers gossip with serf, agree through a raft
    log on the jobs and on the results of their executions, and keep both in an embedded
    key-value store; the leader runs the cron scheduler, picks the nodes of a job by
    their tags and calls them over gRPC; a node runs the job with an executor plugin and
    reports back in a stream; the leader passes the result through processor plugins,
    stores it, retries what failed, notifies the owner and runs the dependent jobs.  An
    HTTP interface creates, toggles, runs and deletes jobs and restores backups, and a
    dashboard shows them.

    ** Method

    Definitions are translated from the Go sources and are executable.  An operation
    that may fail returns [res] ([Ok], [Err] with a Go error, [Crash] for a panic); an
    operation that also changes state is a program of the monad [M] (below).  Fixed-width
    integers are [Z] with their wrap-around or range written out ([intN], [uintN] and the
    [in_int] predicates), strings are sequences of bytes, Go maps are [gmap]s, and an
    iteration over a Go map takes the order as an argument, since Go leaves it open.

    Libraries that are not part of the repository are type classes or section variables:
    buntdb ([BuntDB]), protobuf ([Ptypes], [Proto]), robfig/cron ([CronParser],
    [CronEngine]), raft ([Raft], [RaftFiles]), go-version ([Versions]), go-intersect
    ([Intersect]), address templates and resolution ([Resolver]), delivery of mail and
    webhooks ([Delivery]), circbuf ([Circbuf]), processes, HTTP and AMQP ([System],
    [Http], [Amqp]), decoding of bodies ([Decoding]), gin's router ([Router]), go-plugin's
    broker ([Broker]), viper ([Viper]), logrus ([Logrus]), connections ([Net]), the host of
    an agent ([Host]), the rest of the cluster ([World]).
    Their laws are documented behaviour.  [Instances] and the example modules implement
    every one of them, so that each theorem is applied to a concrete input.

    ** Files

    - The language and its library: [Prelude] (this file: errors, results, the monad
      and its notations, integers), [GoStrings], [GoNet], [Base64], [GoTime],
      [GoDuration].
    - Data: [Config] (config.go), [Pb] (the messages of dkron.pb.go), [NTime] and
      [TimeJson] (nullabletime.go), [ExtCron] (extcron/), [Execution] (execution.go), [Job] (job.go).
    - The store, store.go: [BuntDB] (its database), [Store] (its methods, under their Go
      names), [StoreSim] (any database behaves like a finite map), [StoreSpec] (what the
      methods promise on a map of jobs and a map of executions), [StoreRefine] and
      [StoreExecs] (they do), [StoreProps], [StoreLinks] (parents and children),
      [StoreHistory] (executions, retention, snapshots, histories), [Ends] (the order in
      which executions are reported).
    - Replication and scheduling: [Fsm] (fsm.go), [Scheduler] (scheduler.go), [Leader] and
      [LeaderReconcile] (leader.go), [Cluster] and [ClusterProps] (serf.go, utils.go and
      the membership part of agent.go), [RetryJoin] (retry_join.go), [Setup] (setupSerf
      and setupRaft of agent.go), [RaftLayer] (raft_grpc.go), [Lifecycle] (Start,
      StartServer and Stop of agent.go, options.go, metrics.go).
    - Running jobs: [Targets] (the nodes of a job, agent.go), [Server] and [ServerProps]
      (grpc.go, run.go, the rest of agent.go), [Stream] (grpc_client.go, grpc_agent.go),
      [Notifier] (notifier.go), [Processors] and [Executors] (builtin/bins/), [PluginRpc]
      (plugin/: both sides of the protocol of the plugins), [Logging] (log.go,
      hclog_adapter.go).
    - Concurrency: [Threads] (programs of atomic actions, schedules, rely and guarantee,
      and what a thread adds to a measure), [Handlers] (the handlers of [Server] as threads),
      [Interleaving] (requests, disciplines, the store as the replay of the log),
      [Counting] (counters under interleaving), [Results] (what a request commits, and runs
      from the executors to the counters), [Races] (schedules of a small server).
    - The outside: [JobTree] (the trees of a backup, job.go and agent.go), [Api],
      [ApiProps] and [ApiRestore] (api.go), [Dashboard] (dashboard.go), [Routes] (the tables of
      routes of both), [Cmd] (cmd/: tags, keys, plugins on disk, signals), [Flags]
      (ConfigFlagSet and initConfig), [Commands] (agent, leave, raft list-peers and
      remove-peer).

    ** How the state corresponds to the code

    A database is any instance of [BuntDB]; [Holds d σ] says that it stands for the maps
    of jobs and executions [σ].  The state of a server ([Server]) is its agent
    ([Cluster]: configuration, peers, raft, serf's members), its scheduler with the cron
    engine, its store, and the calls it has made to other nodes.  The state of the
    leader's loops is a machine whose events are the values of the channels ([Leader]).
    The response of an HTTP handler is the list of its calls to gin's context ([Api]).
    Handlers that interleave are threads ([Handlers]): an action is a transaction of the
    store, a command that is appended to the log and applied, a look at the scheduler or at
    serf, or a call to another node; the state also records the commands that were applied.
    Run alone, a thread is the handler of [Server] ([Interleaving.request_alone]).
    Starting and stopping an agent records the calls to the outside in their order
    ([Lifecycle]); the process that waits for signals is a step relation ([Cmd]).

    ** What the theorems show

    - The store never breaks: after any sequence of operations every stored value
      decodes to a valid job or execution, and the next operation does not panic; its
      methods refine the specification on maps; parents and children stay linked; a job
      that is a parent cannot be deleted; at most 100 executions of a job are kept, the
      newest; a snapshot brings everything back; everything that is read is well typed
      ([StoreProps], [StoreLinks], [StoreHistory]).
    - From end to end: when a job has run on a fleet, and the nodes have streamed what
      happened to the servers that called them, the leader's store counts as many successes
      more as executors returned a response without an error, and as many errors more as
      did not, whatever else it is asked meanwhile ([Results]).
    - Requests that interleave: the store is what the commands of the log make of the state
      before; what was answered is in the log; a result is never lost to a run or a toggle
      that writes back a stale copy of the job; the order of the reports matters for the
      instants of the last success and error only ([Interleaving], [Counting], [Ends]).  What
      is not promised, and goes wrong, is in [Races]: stale copies undo toggles, deletions
      and links.
    - Servers that apply the same log agree, up to the next activation, which is
      computed from the local clock ([Fsm]).
    - The scheduler runs exactly on an established leader; adding a job leaves exactly
      its entry; reconciliation leaves raft with one peer per alive server; bootstrap and
      joining happen when they should ([Scheduler], [Leader], [LeaderReconcile],
      [ClusterProps], [RetryJoin], [Setup]).
    - A run calls, once each, exactly the nodes that carry the tags; the end of an
      execution is recorded once, retried while retries are left, and starts the
      dependents only on success; concurrency is forbidden when asked
      ([Targets], [ServerProps], [Stream]).
    - A proper backup is restored completely, parents first; the HTTP interface answers
      according to what was stored; its routes do not conflict, and requests reach their
      handlers ([JobTree], [ApiRestore], [ApiProps], [Routes]).
    - An agent that has started did so in order and is read by the others as what it was
      configured to be; every option reaches its field; it exits cleanly only after it
      was asked to and no job was left; a peer is removed exactly when it is known
      ([Lifecycle], [Flags], [Commands]).
    - A job that runs in a plugin behaves as if it ran in the agent; nullable times survive
      JSON ([PluginRpc], [TimeJson]).
    - Processors change at most the output; an HTTP job succeeds exactly when its response
      is as expected; flags, tags, keys and addresses are read back as they were
      written ([Processors], [Executors], [Cmd], [ClusterProps], [Base64]).
    - Behaviour that differs from what is documented is stated as closed theorems on
      concrete states (the modules named ...Example).

    ** Fuel

    [SetJob] calls itself through [removeFromParent] and [addToParent]: two levels are
    enough, and the refinement theorem holds for every fuel of at least two.
    [AddrParts_fuel] decides every address in two rounds, except those on which the code
    loops for ever, for which no fuel is enough.  [retry_loop] returns [None] when the
    fuel is spent; the theorem says when some fuel is enough and when none is.  The
    remaining loops recurse on their data, or on a number that bounds their rounds: one
    round per job ([generate_loop], as in the code), per byte ([runes]) or per group of an
    IPv6 address, eight at most ([parse_groups]).

    [duration_items] has a round per byte, and more change nothing.

    ** Not modelled

    The lines that the agent itself logs, the metrics it emits and its expvar counters;
    the generated codecs of the messages (dkron.pb.go, executor.pb.go; only their laws);
    the embedded files, which are generated data; html/template, which renders the pages;
    the tables of commands of cobra, and the commands version and doc, which print.
    A command of the log is applied in one action of the threads, so that a reader that
    comes between the transactions of one [SetJob] (of a job and of its parents) is not
    modelled.  The executions that other servers are running are asked of the world, which
    does not change while threads run: two ticks of a job that forbids concurrency may both
    find nothing running, and this race is not stated.  The instants at which requests are
    answered are arguments, and need not advance along a schedule.

    Beyond this, what is left of the repository is generated (the codecs and getters of
    the messages, the embedded files), prints, or is an accessor that the model reads as a
    field ([Members], [LocalMember], [Leader], [Config], [DB], [RetryJoinCh]). *)
From Stdlib Require Import ZArith Lia.
From stdpp Require Import base list gmap strings sorting pretty.

Set Default Goal Selector "!".

(** ** Go error values

    The sentinel errors of the [dkron] package, one constructor each (they are
    compared by identity in the code), buntdb's [ErrNotFound], and
    [NumError] for [strconv]'s parse errors (syntax or range), and [ErrOther text]
    for every [errors.New] / [fmt.Errorf] made on the fly and every error that a
    library returns. *)
Inductive error : Type :=
  | ErrParentJobNotFound
  | ErrNoAgent
  | ErrSameParent
  | ErrNoParent
  | ErrNoCommand
  | ErrWrongConcurrency
  | ErrScheduleParse
  | ErrDependentJobs
  | ErrExecutionDoneForDeletedJob
  | ErrRPCDialing
  | ErrNotLeader
  | ErrBrokenStream
  | ErrLeaderNotFound
  | ErrNoSuitableServer
  | ErrNotFound
  | NumError (fn num : string) (range : bool)
  | ErrOther (text : string).

#[export] Instance error_eq_dec : EqDecision error.
Proof. solve_decision. Defined.

(** A double quote character, as a string. *)
Definition dquote : string := String (Ascii.ascii_of_nat 34) "".

(** The text of an error, Go's [err.Error()]. *)
Definition Error (e : error) : string :=
  match e with
  | ErrParentJobNotFound => "specified parent job not found"
  | ErrNoAgent => "no agent defined"
  | ErrSameParent => "the job can not have itself as parent"
  | ErrNoParent => "the job doesn't have a parent job set"
  | ErrNoCommand => "unspecified command for job"
  | ErrWrongConcurrency =>
      "invalid concurrency policy value, use " +:+ dquote +:+ "allow" +:+ dquote
        +:+ " or " +:+ dquote +:+ "forbid" +:+ dquote
  | ErrScheduleParse => "can't parse job schedule"
  | ErrDependentJobs =>
      "store: could not delete job with dependent jobs, delete childs first"
  | ErrExecutionDoneForDeletedJob => "grpc: Received execution done for a deleted job"
  | ErrRPCDialing => "grpc: Error dialing, verify the network connection to the server"
  | ErrNotLeader =>
      "grpc: Error, server is not leader, this operation should be run on the leader"
  | ErrBrokenStream =>
      "grpc: Error on execution streaming, agent connection was abruptly terminated"
  | ErrLeaderNotFound => "no member leader found in member list"
  | ErrNoSuitableServer => "no suitable server found to send the request, aborting"
  | ErrNotFound => "not found"
  | NumError fn num range =>
      "strconv." +:+ fn +:+ ": parsing " +:+ dquote +:+ num +:+ dquote +:+ ": "
        +:+ (if range then "value out of range" else "invalid syntax")
  | ErrOther text => text
  end.

(** ** Outcomes and the state monad

    A Go call returns a value, returns a non-nil [error], or brings the process
    down (a nil dereference, a [panic], [log.Fatal]): [Ok], [Err], [Crash]. *)
Inductive res (A : Type) : Type :=
  | Ok (a : A)
  | Err (e : error)
  | Crash (why : string).
Arguments Ok {A} a.
Arguments Err {A} e.
Arguments Crash {A} why.

#[export] Instance res_eq_dec {A} `{EqDecision A} : EqDecision (res A).
Proof. solve_decision. Defined.

Definition res_bind {A B} (r : res A) (k : A → res B) : res B :=
  match r with
  | Ok a => k a
  | Err e => Err e
  | Crash w => Crash w
  end.

(** A decidable property of the value of a computed outcome. *)
Lemma forall_Ok {A} (r : res A) (P : A → Prop) `{!∀ a, Decision (P a)} :
  match r with Ok a => bool_decide (P a) | _ => true end = true → ∀ a, r = Ok a → P a.
Proof. intros Hr a ->. by apply bool_decide_eq_true in Hr. Qed.

(** Code that mutates a state [S] and can fail. *)
Definition M (S A : Type) : Type := S → res A * S.

Definition retM {S A} (a : A) : M S A := λ s, (Ok a, s).
Definition errM {S A} (e : error) : M S A := λ s, (Err e, s).
Definition crashM {S A} (why : string) : M S A := λ s, (Crash why, s).
Definition liftM {S A} (r : res A) : M S A := λ s, (r, s).
Definition getM {S} : M S S := λ s, (Ok s, s).

Definition bindM {S A B} (m : M S A) (k : A → M S B) : M S B := λ s,
  match m s with
  | (Ok a, s') => k a s'
  | (Err e, s') => (Err e, s')
  | (Crash w, s') => (Crash w, s')
  end.

(** [v, err := m] with the error kept as a value: the caller decides. *)
Definition tryM {S A} (m : M S A) : M S (A + error) := λ s,
  match m s with
  | (Ok a, s') => (Ok (inl a), s')
  | (Err e, s') => (Ok (inr e), s')
  | (Crash w, s') => (Crash w, s')
  end.

Lemma bindM_ext {S A B} (m m' : M S A) (k k' : A → M S B) s :
  m s = m' s → (∀ a s', k a s' = k' a s') → bindM m k s = bindM m' k' s.
Proof. intros Hm Hk. unfold bindM. rewrite Hm. by destruct (m' s) as [[] ?]. Qed.

(** A sequence that succeeds: both parts do. *)
Lemma bindM_Ok {S A B} (m : M S A) (k : A → M S B) s b s'' :
  bindM m k s = (Ok b, s'') ↔ ∃ a s', m s = (Ok a, s') ∧ k a s' = (Ok b, s'').
Proof.
  unfold bindM. split.
  - destruct (m s) as [[a| |] s'] eqn:E; [|done..]. intros H. by exists a, s'.
  - by intros (a & s' & -> & ->).
Qed.

Lemma tryM_Ok {S A} (m : M S A) s x s' :
  tryM m s = (Ok x, s') ↔
  (∃ a, x = inl a ∧ m s = (Ok a, s')) ∨ (∃ e, x = inr e ∧ m s = (Err e, s')).
Proof. unfold tryM. destruct (m s) as [[a|e|w] s1]; naive_solver. Qed.

Declare Scope go_scope.
Delimit Scope go_scope with go.
Notation "x <- m ;; k" := (bindM m (λ x, k))
  (at level 60, m at next level, right associativity) : go_scope.
Notation "m ;;; k" := (bindM m (λ _, k))
  (at level 60, right associativity) : go_scope.
Notation "x <-? r ;; k" := (res_bind r (λ x, k))
  (at level 60, r at next level, right associativity) : go_scope.
Open Scope go_scope.

(** ** Machine integers

    Go's conversions keep the low bits: [uintN w] is the unsigned and [intN w]
    the signed value of a [w]-bit word. *)
#[local] Open Scope Z_scope.

Definition uintN (w z : Z) : Z := z mod 2 ^ w.
Definition intN (w z : Z) : Z := (z + 2 ^ (w - 1)) mod 2 ^ w - 2 ^ (w - 1).

Definition in_int (w z : Z) : Prop := - 2 ^ (w - 1) ≤ z < 2 ^ (w - 1).
Definition in_uint (w z : Z) : Prop := 0 ≤ z < 2 ^ w.
#[export] Instance in_int_dec w z : Decision (in_int w z).
Proof. unfold in_int. apply _. Defined.
#[export] Instance in_uint_dec w z : Decision (in_uint w z).
Proof. unfold in_uint. apply _. Defined.

Lemma intN_id w z : 0 < w → in_int w z → intN w z = z.
Proof.
  unfold in_int, intN. intros Hw H.
  assert (2 ^ w = 2 * 2 ^ (w - 1)) as E.
  { rewrite <- Z.pow_succ_r by lia. f_equal. lia. }
  rewrite Z.mod_small; lia.
Qed.

Lemma uintN_id w z : in_uint w z → uintN w z = z.
Proof. apply Z.mod_small. Qed.

Lemma intN_range w z : 0 < w → in_int w (intN w z).
Proof.
  unfold in_int, intN. intros Hw.
  assert (2 ^ w = 2 * 2 ^ (w - 1)) as E.
  { rewrite <- Z.pow_succ_r by lia. f_equal. lia. }
  pose proof (Z.mod_pos_bound (z + 2 ^ (w - 1)) (2 ^ w)). lia.
Qed.
#[local] Close Scope Z_scope.

(** ** Lists of pairs with distinct keys *)

Lemma nodup_fst_inj {K A} (l : list (K * A)) k v1 v2 :
  NoDup l.*1 → (k, v1) ∈ l → (k, v2) ∈ l → v1 = v2.
Proof.
  induction l as [|[k' v'] l IH]; intros Hn H1 H2; [set_solver|].
  rewrite fmap_cons in Hn. apply NoDup_cons in Hn as [Hk Hn]. simpl in Hk.
  assert (∀ v, (k, v) ∈ l → k ≠ k') as Hne.
  { intros v Hv ->. apply Hk, list_elem_of_fmap. by exists (k', v). }
  apply elem_of_cons in H1 as [H1|H1], H2 as [H2|H2]; simplify_eq; try done.
  - by destruct (Hne _ H2).
  - by destruct (Hne _ H1).
  - by apply IH.
Qed.

(** ** Sorted lists *)

Lemma StronglySorted_filter {A} (R : relation A) (P : A → Prop) `{!∀ x, Decision (P x)} l :
  StronglySorted R l → StronglySorted R (filter P l).
Proof.
  induction 1 as [|x l Hs IH Hx]; [constructor|]. rewrite filter_cons. case_decide; [|done].
  constructor; [done|]. rewrite Forall_forall in Hx |- *.
  intros y [_ Hy]%list_elem_of_filter. auto.
Qed.

Lemma StronglySorted_fmap {A B} (f : A → B) (R : relation A) (S : relation B) l :
  (∀ x y, R x y → S (f x) (f y)) → StronglySorted R l → StronglySorted S (f <$> l).
Proof.
  intros Hf. induction 1 as [|x l Hs IH Hx]; simpl; constructor; [done|].
  rewrite Forall_fmap. eapply Forall_impl; [done|]. simpl. auto.
Qed.

Lemma filter_fst {A} (P : string → Prop) `{!∀ x, Decision (P x)} (l : list (string * A)) :
  (filter (λ kv, P kv.1) l).*1 = filter P l.*1.
Proof.
  induction l as [|[k v] l IH]; [done|]. rewrite fmap_cons, !filter_cons. cbn [fst].
  case_decide; [|done]. rewrite fmap_cons. by f_equal.
Qed.

Lemma filter_all {A} (P : A → Prop) `{!∀ x, Decision (P x)} (l : list A) :
  (∀ x, x ∈ l → P x) → filter P l = l.
Proof.
  induction l as [|x l IH]; intros Hl; [done|].
  rewrite filter_cons_True by (apply Hl; set_solver). f_equal. apply IH. set_solver.
Qed.

Lemma filter_none {A} (P : A → Prop) `{!∀ x, Decision (P x)} (l : list A) :
  (∀ x, x ∈ l → ¬ P x) → filter P l = [].
Proof.
  intros Hl. destruct (filter P l) as [|x l'] eqn:E; [done|].
  assert (x ∈ filter P l) as [? ?]%list_elem_of_filter by (rewrite E; set_solver).
  by destruct (Hl x).
Qed.

Lemma length_filter_pos {A} (P : A → Prop) `{!∀ x, Decision (P x)} (l : list A) :
  0 < length (filter P l) ↔ Exists P l.
Proof.
  rewrite Exists_exists. split.
  - destruct (filter P l) as [|x l'] eqn:E; simpl; [lia|]. intros _.
    assert (x ∈ filter P l) as [? ?]%list_elem_of_filter by (rewrite E; set_solver). eauto.
  - intros (x & Hx & HP). assert (x ∈ filter P l) as Hin by by apply list_elem_of_filter.
    destruct (filter P l); [set_solver|simpl; lia].
Qed.

Lemma length_filter_zero {A} (P : A → Prop) `{!∀ x, Decision (P x)} (l : list A) :
  length (filter P l) = 0 ↔ Forall (λ x, ¬ P x) l.
Proof.
  rewrite Forall_forall. split.
  - intros H0 x Hx HP. assert (0 < length (filter P l)); [|lia].
    apply length_filter_pos, Exists_exists. eauto.
  - intros Hl. by rewrite filter_none.
Qed.

Lemma StronglySorted_strict {A} (R S : relation A) l :
  (∀ x y, R x y → x ≠ y → S x y) → StronglySorted R l → NoDup l → StronglySorted S l.
Proof.
  intros HS. induction 1 as [|x l Hs IH Hx]; intros Hn; [constructor|].
  apply NoDup_cons in Hn as [Hxl Hn]. constructor; [auto|].
  rewrite Forall_forall in Hx |- *. intros y Hy. apply HS; [auto|]. by intros ->.
Qed.
