(* ===== verification/GoStrings.v ===== *)
(** * The parts of Go's [strings], [strconv] and [unicode/utf8] that dkron uses

    A Go string is a sequence of bytes; it is modelled by [string] (a sequence
    of 8-bit [ascii]).  Decimal printing ([%d], [strconv.Itoa],
    [strconv.FormatInt]) is stdpp's [pretty] on [Z]. *)
From Stdlib Require Import ZArith Lia Ascii.
From stdpp Require Import base list gmap strings sorting pretty.
From S2P Require Import Prelude.

#[local] Open Scope Z_scope.

(** ** [strings] *)

(** [strings.HasPrefix(s, prefix)] *)
Definition HasPrefix (s prefix : string) : bool := String.prefix prefix s.

(** [strings.Contains(s, substr)] *)
Fixpoint Contains (s substr : string) : bool :=
  HasPrefix s substr ||
  match s with
  | EmptyString => false
  | String _ s' => Contains s' substr
  end.

(** The text before and after the first separator byte, if there is one. *)
Fixpoint cut (c : Ascii.ascii) (s : string) : option (string * string) :=
  match s with
  | EmptyString => None
  | String a s' =>
      if decide (a = c) then Some (EmptyString, s')
      else match cut c s' with
           | Some (x, y) => Some (String a x, y)
           | None => None
           end
  end.

(** [strings.Split(s, sep)] for a one-byte separator. *)
Fixpoint Split (c : Ascii.ascii) (s : string) : list string :=
  match s with
  | EmptyString => [EmptyString]
  | String a s' =>
      if decide (a = c) then EmptyString :: Split c s'
      else match Split c s' with
           | x :: xs => String a x :: xs
           | [] => [String a EmptyString]
           end
  end.

(** [strings.SplitN(s, sep, n)] for a one-byte separator and [n > 0]: at most [n]
    pieces, the last one holding the unsplit rest. *)
Fixpoint SplitN (c : Ascii.ascii) (s : string) (n : nat) : list string :=
  match n with
  | O => []
  | S n' =>
      match n', cut c s with
      | O, _ | _, None => [s]
      | _, Some (x, y) => x :: SplitN c y n'
      end
  end.

(** [strings.Join(elems, sep)] *)
Fixpoint Join (elems : list string) (sep : string) : string :=
  match elems with
  | [] => EmptyString
  | [x] => x
  | x :: xs => x +:+ sep +:+ Join xs sep
  end.

(** Does the byte occur in the string? *)
Fixpoint has_byte (c : Ascii.ascii) (s : string) : bool :=
  match s with
  | EmptyString => false
  | String a s' => bool_decide (a = c) || has_byte c s'
  end.

(** ** [strconv] *)

Definition byte_val (c : Ascii.ascii) : Z := Z.of_N (Ascii.N_of_ascii c).

Fixpoint digits (acc : N) (s : string) : option N :=
  match s with
  | EmptyString => Some acc
  | String c s' =>
      match Ascii.is_nat c with
      | Some d => digits (10 * acc + N.of_nat d) s'
      | None => None
      end
  end.

(** [strconv.Atoi(s)] on a 64-bit platform.  Like the Go function it returns a
    value next to the error: 0 on a syntax error, the nearest bound when the
    number is out of range. *)
Definition Atoi (s : string) : Z * option error :=
  let syntax := (0, Some (NumError "Atoi" s false)) in
  let '(neg, ds) :=
    match s with
    | String "-"%char r => (true, r)
    | String "+"%char r => (false, r)
    | _ => (false, s)
    end in
  match ds with
  | EmptyString => syntax
  | _ =>
      match digits 0 ds with
      | None => syntax
      | Some n =>
          let z := if neg : bool then - Z.of_N n else Z.of_N n in
          if decide (z < - 2 ^ 63) then (- 2 ^ 63, Some (NumError "Atoi" s true))
          else if decide (2 ^ 63 ≤ z) then (2 ^ 63 - 1, Some (NumError "Atoi" s true))
          else (z, None)
      end
  end.

(** [strconv.ParseBool(s)] *)
Definition ParseBool (s : string) : res bool :=
  if bool_decide (s ∈ ["1"; "t"; "T"; "TRUE"; "true"; "True"]) then Ok true
  else if bool_decide (s ∈ ["0"; "f"; "F"; "FALSE"; "false"; "False"]) then Ok false
  else Err (NumError "ParseBool" s false).

(** [strconv.FormatBool(b)], and the verb [%t] *)
Definition FormatBool (b : bool) : string := if b then "true" else "false".

(** ** [unicode/utf8] *)

Definition in_range (lo hi b : Z) : bool := (lo <=? b) && (b <=? hi).

(** [utf8.DecodeRuneInString(s)]: the first rune of a non-empty string and its
    width in bytes; [RuneError] (U+FFFD) of width 1 when the bytes are not a
    well-formed UTF-8 sequence. *)
Definition decode_rune (s : string) : Z * nat :=
  let bad := (65533, 1%nat) in
  let cont := in_range 128 191 in
  match s with
  | EmptyString => (65533, 0%nat)
  | String c0 s1 =>
      let b0 := byte_val c0 in
      if b0 <? 128 then (b0, 1%nat)
      else if in_range 194 223 b0 then
        match s1 with
        | String c1 _ =>
            let b1 := byte_val c1 in
            if cont b1 then (64 * (b0 - 192) + (b1 - 128), 2%nat) else bad
        | EmptyString => bad
        end
      else if in_range 224 239 b0 then
        match s1 with
        | String c1 (String c2 _) =>
            let b1 := byte_val c1 in
            let b2 := byte_val c2 in
            let lo := if b0 =? 224 then 160 else 128 in
            let hi := if b0 =? 237 then 159 else 191 in
            if in_range lo hi b1 && cont b2
            then (4096 * (b0 - 224) + 64 * (b1 - 128) + (b2 - 128), 3%nat) else bad
        | _ => bad
        end
      else if in_range 240 244 b0 then
        match s1 with
        | String c1 (String c2 (String c3 _)) =>
            let b1 := byte_val c1 in
            let b2 := byte_val c2 in
            let b3 := byte_val c3 in
            let lo := if b0 =? 240 then 144 else 128 in
            let hi := if b0 =? 244 then 143 else 191 in
            if in_range lo hi b1 && cont b2 && cont b3
            then (262144 * (b0 - 240) + 4096 * (b1 - 128) + 64 * (b2 - 128) + (b3 - 128), 4%nat)
            else bad
        | _ => bad
        end
      else bad
  end.

#[global] Arguments decode_rune : simpl never.

(** The first [n] bytes of a string, Go's [s[:n]]. *)
Definition take_bytes (n : nat) (s : string) : string := String.substring 0 n s.

(** [FindString] of a regular expression [[^...]] that matches one rune: the
    bytes of the leftmost rune that is not [legal], or the empty string.  [skip]
    counts the continuation bytes of a rune already decoded. *)
Fixpoint find_rune_not (legal : Z → bool) (skip : nat) (s : string) : string :=
  match s with
  | EmptyString => EmptyString
  | String _ s' =>
      match skip with
      | S k => find_rune_not legal k s'
      | O =>
          let '(r, w) := decode_rune s in
          if legal r then find_rune_not legal (w - 1) s' else take_bytes w s
      end
  end.

(** [utf8.ValidString(s)] *)
Fixpoint utf8_scan (skip : nat) (s : string) : bool :=
  match s with
  | EmptyString => true
  | String _ s' =>
      match skip with
      | S k => utf8_scan k s'
      | O =>
          let '(r, w) := decode_rune s in
          if (r =? 65533) && (w =? 1)%nat then false else utf8_scan (w - 1) s'
      end
  end.
Definition valid_utf8 (s : string) : bool := utf8_scan 0 s.

(** ** Lemmas on strings *)

Lemma app_cons c (s t : string) : String c s +:+ t = String c (s +:+ t).
Proof. done. Qed.

Lemma app_nil_l (s : string) : "" +:+ s = s.
Proof. done. Qed.

Lemma app_nil_r (s : string) : s +:+ "" = s.
Proof. induction s as [|c s IH]; [done|]. by rewrite app_cons, IH. Qed.

Lemma app_assoc_s (s t u : string) : (s +:+ t) +:+ u = s +:+ t +:+ u.
Proof. induction s as [|c s IH]; [done|]. by rewrite !app_cons, IH. Qed.

Lemma app_length_s (s t : string) :
  String.length (s +:+ t) = (String.length s + String.length t)%nat.
Proof. induction s as [|c s IH]; [done|]. rewrite app_cons. simpl. by rewrite IH. Qed.

Create Rewrite HintDb gostr.
#[export] Hint Rewrite app_nil_l app_nil_r app_assoc_s app_cons app_length_s : gostr.

Lemma HasPrefix_spec s p : HasPrefix s p = true ↔ ∃ r, s = p +:+ r.
Proof.
  unfold HasPrefix. revert s. induction p as [|c p IH]; intros s; simpl.
  { split; [by exists s|by destruct s]. }
  destruct s as [|d s]; simpl.
  { split; [done|intros [r Hr]; by rewrite app_cons in Hr]. }
  destruct (Ascii.ascii_dec c d) as [->|Hne].
  - rewrite IH. split; intros [r Hr]; exists r; rewrite app_cons in *; congruence.
  - split; [done|]. intros [r Hr]. rewrite app_cons in Hr. congruence.
Qed.

Lemma HasPrefix_app p r : HasPrefix (p +:+ r) p = true.
Proof. apply HasPrefix_spec. by exists r. Qed.

(** Two texts that agree up to a byte that neither head contains have equal heads. *)
Lemma app_sep_inj c (s1 s2 t1 t2 : string) :
  has_byte c s1 = false → has_byte c s2 = false →
  s1 +:+ String c t1 = s2 +:+ String c t2 → s1 = s2 ∧ t1 = t2.
Proof.
  revert s2. induction s1 as [|a s1 IH]; intros [|b s2] H1 H2 E;
    rewrite ?app_cons, ?app_nil_l in E; simpl in *.
  - naive_solver.
  - injection E as <- _. by rewrite bool_decide_true in H2.
  - injection E as -> _. by rewrite bool_decide_true in H1.
  - injection E as <- E. apply orb_false_iff in H1, H2.
    destruct (IH s2) as [-> ->]; [apply H1|apply H2|done|done].
Qed.

Lemma has_byte_app c s t : has_byte c (s +:+ t) = has_byte c s || has_byte c t.
Proof.
  induction s as [|a s IH]; [done|]. rewrite app_cons. simpl.
  by rewrite IH, orb_assoc.
Qed.

Lemma Split_nonempty c s : Split c s ≠ [].
Proof. destruct s; simpl; [done|]. by repeat case_match. Qed.

(** Splitting loses nothing: the pieces, joined by the separator, are the text. *)
Lemma Join_Split c s : Join (Split c s) (String c "") = s.
Proof.
  induction s as [|a s IH]; [done|]. simpl.
  pose proof (Split_nonempty c s). destruct (Split c s) as [|x xs] eqn:E; [done|].
  case_decide as Hd.
  - subst a. simpl. simpl in IH. by rewrite IH.
  - rewrite <- IH. destruct xs; simpl; by autorewrite with gostr.
Qed.

Lemma Split_no_sep c s : Forall (λ x, has_byte c x = false) (Split c s).
Proof.
  induction s as [|a s IH]; simpl; [by repeat constructor|].
  case_decide; [by constructor|].
  destruct (Split c s) as [|x xs]; constructor; simpl.
  - by rewrite bool_decide_false.
  - done.
  - inversion IH; subst. by rewrite bool_decide_false.
  - by inversion IH.
Qed.

Lemma Split_no_byte c s : has_byte c s = false → Split c s = [s].
Proof.
  induction s as [|a s IH]; [done|]; simpl. intros [H1 H2]%orb_false_iff.
  rewrite IH by done. apply bool_decide_eq_false in H1. by rewrite decide_False.
Qed.

(** ** Decimal printing and reading *)

Lemma is_nat_pretty_char d :
  (d < 10)%N → Ascii.is_nat (pretty_N_char d) = Some (N.to_nat d).
Proof.
  intros H. assert (d = 0 ∨ d = 1 ∨ d = 2 ∨ d = 3 ∨ d = 4 ∨ d = 5 ∨ d = 6 ∨ d = 7
    ∨ d = 8 ∨ d = 9)%N as Hd by lia.
  by destruct_or!; subst d.
Qed.

Lemma digits_pretty_go x s : digits 0 (pretty_N_go x s) = digits x s.
Proof.
  revert s. induction (N.lt_wf_0 x) as [x _ IH]; intros s.
  destruct (decide (x = 0)%N) as [->|Hx]; [by rewrite pretty_N_go_0|].
  rewrite pretty_N_go_step, IH by (try apply N.div_lt; lia). simpl.
  rewrite is_nat_pretty_char by (by apply N.mod_lt).
  rewrite N2Nat.id. by rewrite <- (N.div_mod x 10).
Qed.

Definition is_digit (c : Ascii.ascii) : bool := in_range 48 57 (byte_val c).

Fixpoint all_bytes (P : Ascii.ascii → bool) (s : string) : bool :=
  match s with
  | EmptyString => true
  | String c s' => P c && all_bytes P s'
  end.

Lemma pretty_go_digits x s : all_bytes is_digit s → all_bytes is_digit (pretty_N_go x s).
Proof.
  revert s. induction (N.lt_wf_0 x) as [x _ IH]; intros s Hs.
  destruct (decide (x = 0)%N) as [->|Hx]; [by rewrite pretty_N_go_0|].
  rewrite pretty_N_go_step by lia. apply IH; [by apply N.div_lt; lia|]. simpl.
  apply andb_prop_intro. split; [|done].
  unfold pretty_N_char. by repeat case_match.
Qed.

Lemma pretty_N_digits (x : N) : all_bytes is_digit (pretty x).
Proof. unfold pretty, pretty_N. case_decide; [done|]. by apply pretty_go_digits. Qed.

Lemma digits_pretty_N (x : N) : digits 0 (pretty x) = Some x.
Proof.
  unfold pretty, pretty_N. case_decide; [by subst|]. by rewrite digits_pretty_go.
Qed.

Lemma pretty_N_nonempty (x : N) : pretty x ≠ "".
Proof. intros H. pose proof (digits_pretty_N x) as E. rewrite H in E. simpl in E.
  injection E as <-. done. Qed.

Lemma all_bytes_no_byte P c s : all_bytes P s → P c = false → has_byte c s = false.
Proof.
  induction s as [|a s IH]; simpl; [done|]. intros [H1 H2]%andb_prop_elim Hc.
  rewrite IH by done. rewrite orb_false_r. apply bool_decide_eq_false. intros ->.
  by rewrite Hc in H1.
Qed.

(** Reading back a printed 64-bit integer gives it back, with no error. *)
Lemma Atoi_pretty (z : Z) : in_int 64 z → Atoi (pretty z) = (z, None).
Proof.
  intros [Hlo Hhi]. change (2 ^ (64 - 1)) with (2 ^ 63) in *.
  destruct z as [|p|p]; [done|..].
  - change (pretty (Z.pos p)) with (pretty (N.pos p)). unfold Atoi.
    pose proof (pretty_N_digits (N.pos p)) as Hd.
    pose proof (digits_pretty_N (N.pos p)) as Hv.
    destruct (pretty (N.pos p)) as [|c s] eqn:E; [done|].
    destruct (decide (c = "-"%char)) as [->|]; [done|].
    destruct (decide (c = "+"%char)) as [->|]; [done|].
    assert ((match String c s with
             | String "-"%char r => (true, r)
             | String "+"%char r => (false, r)
             | _ => (false, String c s) end) = (false, String c s)) as ->
      by (by repeat case_match).
    rewrite Hv. simpl Z.of_N. by rewrite !decide_False by lia.
  - change (pretty (Z.neg p)) with (String "-"%char (pretty (N.pos p))). unfold Atoi.
    pose proof (digits_pretty_N (N.pos p)) as Hv.
    destruct (pretty (N.pos p)) as [|c s] eqn:E; [done|].
    rewrite Hv. simpl Z.of_N. by rewrite !decide_False by lia.
Qed.

Lemma pretty_Z_nonneg (z : Z) : 0 ≤ z → pretty z = pretty (Z.to_N z).
Proof. by destruct z. Qed.

Lemma pretty_Z_neg (z : Z) : z < 0 → pretty z = String "-"%char (pretty (Z.to_N (- z))).
Proof. by destruct z. Qed.

(** A printed integer and the text after its dash can be told apart. *)
Lemma pretty_dash_inj (z1 z2 : Z) (t1 t2 : string) :
  pretty z1 +:+ "-" +:+ t1 = pretty z2 +:+ "-" +:+ t2 → z1 = z2 ∧ t1 = t2.
Proof.
  assert (∀ x : N, has_byte "-"%char (pretty x) = false) as Hnd.
  { intros x. by apply (all_bytes_no_byte is_digit); [apply pretty_N_digits|]. }
  assert (∀ (x : N) t u, pretty x +:+ t ≠ String "-"%char u) as Hhd.
  { intros x t u E. specialize (Hnd x).
    destruct (pretty x) as [|c s] eqn:Ex; [by apply pretty_N_nonempty in Ex|].
    rewrite app_cons in E. injection E as -> _. done. }
  assert (∀ (x y : N) t u, pretty x +:+ "-" +:+ t = pretty y +:+ "-" +:+ u → x = y ∧ t = u) as Hpos.
  { intros x y t u E. apply (app_sep_inj "-"%char) in E as [E ->]; [|done..].
    by apply (inj pretty) in E. }
  intros E. destruct (decide (0 ≤ z1)), (decide (0 ≤ z2)).
  - rewrite (pretty_Z_nonneg z1), (pretty_Z_nonneg z2) in E by lia.
    apply Hpos in E as [E ->]. split; [lia|done].
  - rewrite (pretty_Z_nonneg z1), (pretty_Z_neg z2), (app_cons _ (pretty _)) in E by lia.
    by apply Hhd in E.
  - rewrite (pretty_Z_neg z1), (pretty_Z_nonneg z2), (app_cons _ (pretty _)) in E by lia.
    symmetry in E. by apply Hhd in E.
  - rewrite (pretty_Z_neg z1), (pretty_Z_neg z2), !(app_cons _ (pretty _)) in E by lia.
    injection E as E. apply Hpos in E as [E ->]. split; [lia|done].
Qed.

(** ** The scan for an illegal rune *)

Lemma decode_rune_ascii c s : byte_val c < 128 → decode_rune (String c s) = (byte_val c, 1%nat).
Proof. intros H. unfold decode_rune. by rewrite (proj2 (Z.ltb_lt _ _) H). Qed.

(** Every byte the decoder consumes after the first is 128 or more. *)
Fixpoint high_bytes (k : nat) (s : string) : Prop :=
  match k, s with
  | O, _ | _, EmptyString => True
  | S k', String c s' => 128 ≤ byte_val c ∧ high_bytes k' s'
  end.

Lemma in_range_spec lo hi b : in_range lo hi b = true ↔ lo ≤ b ≤ hi.
Proof. unfold in_range. rewrite andb_true_iff, !Z.leb_le. lia. Qed.

Lemma decode_rune_high c s : high_bytes (snd (decode_rune (String c s)) - 1) s.
Proof.
  unfold decode_rune.
  repeat match goal with
  | |- high_bytes (snd (if ?b then _ else _) - 1) _ => destruct b eqn:?
  | |- high_bytes (snd (match ?t with EmptyString => _ | String _ _ => _ end) - 1) _ =>
      destruct t
  end; simpl; try done;
  rewrite ?andb_true_iff, ?in_range_spec in *; repeat case_match; destruct_and?; lia.
Qed.

(** A text in which no illegal rune is found has no illegal ASCII byte. *)
Lemma find_rune_not_ascii legal k s :
  find_rune_not legal k s = "" → high_bytes k s →
  all_bytes (λ c, (128 <=? byte_val c) || legal (byte_val c)) s.
Proof.
  revert k. induction s as [|c s IH]; intros k Hf Hh; [done|]. simpl in Hf |- *.
  destruct k as [|k].
  - pose proof (decode_rune_high c s) as Hhi.
    destruct (decode_rune (String c s)) as [r w] eqn:Ed. simpl in Hhi.
    destruct (legal r) eqn:El.
    + apply andb_prop_intro. split; [|by eapply IH].
      destruct (Z.leb_spec 128 (byte_val c)); [done|]. simpl.
      rewrite decode_rune_ascii in Ed by done. injection Ed as <- _. by rewrite El.
    + exfalso. assert (w ≠ 0)%nat as Hw.
      { unfold decode_rune in Ed. by repeat case_match; simplify_eq. }
      by destruct w.
  - destruct Hh as [Hc Hh]. apply andb_prop_intro. split; [|by eapply IH].
    by rewrite (proj2 (Z.leb_le _ _) Hc).
Qed.

(** If the replacement character is illegal, a text of legal runes is valid UTF-8. *)
Lemma find_rune_not_utf8 legal k s :
  legal 65533 = false → find_rune_not legal k s = "" → utf8_scan k s = true.
Proof.
  intros Hl. revert k. induction s as [|c s IH]; intros k Hf; [done|]. simpl in *.
  destruct k as [|k]; [|by apply IH].
  destruct (decode_rune (String c s)) as [r w] eqn:Ed.
  destruct (Z.eqb_spec r 65533) as [->|]; simpl.
  - rewrite Hl in Hf. destruct w; [|done]. exfalso.
    unfold decode_rune in Ed. by repeat case_match; simplify_eq.
  - destruct (legal r) eqn:El; [by apply IH|]. destruct w; [|done]. exfalso.
    unfold decode_rune in Ed. by repeat case_match; simplify_eq.
Qed.
