(* ===== verification/GoNet.v ===== *)
(** * The parts of Go's [net] that dkron uses (go 1.14)

    An IP address is its bytes, 4 or 16 of them, and the nil address is the empty
    list.  [ParseIP] is the library's own algorithm, dotted decimal or colon
    hexadecimal with an ellipsis and a dotted tail; printing is dotted for the
    addresses that have a 4-byte form and hexadecimal with the longest run of zeros
    elided for the others. *)
From Stdlib Require Import ZArith Lia Ascii.
From stdpp Require Import base list strings pretty.
From S2P Require Import Prelude GoStrings.

#[local] Open Scope Z_scope.

Definition IP : Type := list Z.

Definition v4InV6Prefix : list Z := [0;0;0;0;0;0;0;0;0;0;255;255].

(** [net.IPv4(a, b, c, d)] *)
Definition IPv4 (bytes : list Z) : IP := v4InV6Prefix ++ bytes.

(** [ip.To4()], the empty list for nil. *)
Definition To4 (ip : IP) : IP :=
  if bool_decide (length ip = 4%nat) then ip
  else if bool_decide (length ip = 16%nat ∧ take 12 ip = v4InV6Prefix) then drop 12 ip
  else [].

(** ** Numbers *)

Definition hex_val (c : ascii) : option Z :=
  let b := byte_val c in
  if in_range 48 57 b then Some (b - 48)
  else if in_range 97 102 b then Some (b - 87)
  else if in_range 65 70 b then Some (b - 55)
  else None.

Definition dec_val (c : ascii) : option Z :=
  let b := byte_val c in if in_range 48 57 b then Some (b - 48) else None.

Definition big : Z := 16777215.

(** The loop of [dtoi] and [xtoi]: digits as long as there are any and the number
    stays below [big]; the value, what is left, and whether it did not overflow. *)
Fixpoint scan_number (val : ascii → option Z) (base n : Z) (s : string) : Z * string * bool :=
  match s with
  | EmptyString => (n, s, true)
  | String c s' =>
      match val c with
      | None => (n, s, true)
      | Some d =>
          if base * n + d >=? big then (big, s, false)
          else scan_number val base (base * n + d) s'
      end
  end.

(** [dtoi] and [xtoi]: the number in front of the string and the rest; nothing when
    there is no digit or it is too big. *)
Definition number (val : ascii → option Z) (base : Z) (s : string) : option (Z * string) :=
  match s with
  | EmptyString => None
  | String c _ =>
      if val c is Some _ then
        match scan_number val base 0 s with
        | (n, rest, true) => Some (n, rest)
        | _ => None
        end
      else None
  end.

Definition dtoi : string → option (Z * string) := number dec_val 10.
Definition xtoi : string → option (Z * string) := number hex_val 16.

(** ** Parsing *)

(** [parseIPv4]: [k] numbers below 256, a dot in front of each one but the first. *)
Fixpoint parse_octets (k : nat) (first : bool) (s : string) : option (list Z) :=
  match k with
  | O => match s with EmptyString => Some [] | _ => None end
  | S k' =>
      s' ← (if first then Some s
            else match s with String "."%char s' => Some s' | _ => None end);
      '(n, rest) ← dtoi s';
      if n >? 255 then None
      else r ← parse_octets k' false rest; Some (n :: r)
  end.

Definition parseIPv4 (s : string) : IP :=
  match parse_octets 4 true s with
  | Some b => IPv4 b
  | None => []
  end.

(** The loop of [parseIPv6].  [acc] holds the bytes parsed so far ([ip[:i]]) and
    [ell] the position of the ellipsis; the result is both at the end of the loop,
    when the whole string was used.  Eight rounds are enough: a round adds two
    bytes or ends. *)
Fixpoint parse_groups (fuel : nat) (acc : list Z) (ell : option nat) (s : string) :
    option (list Z * option nat) :=
  match fuel with
  | O => if bool_decide (s = "") then Some (acc, ell) else None
  | S fuel' =>
      '(n, rest) ← xtoi s;
      if n >? 65535 then None
      else match rest with
      | String "."%char _ =>
          if bool_decide (ell = None ∧ length acc ≠ 12%nat) then None
          else if bool_decide (12 < length acc)%nat then None
          else match parse_octets 4 true s with
               | Some b => Some (acc ++ b, ell)
               | None => None
               end
      | EmptyString => Some (acc ++ [n / 256; n mod 256], ell)
      | String c rest' =>
          let acc' := acc ++ [n / 256; n mod 256] in
          if bool_decide (c ≠ ":"%char) then None
          else match rest' with
          | EmptyString => None
          | String ":"%char rest'' =>
              if ell is Some _ then None
              else match rest'' with
                   | EmptyString => Some (acc', Some (length acc'))
                   | _ => parse_groups fuel' acc' (Some (length acc')) rest''
                   end
          | _ => parse_groups fuel' acc' ell rest'
          end
      end
  end.

(** The ellipsis stands for the zeros that are missing. *)
Definition expand (r : list Z * option nat) : IP :=
  let '(acc, ell) := r in
  if bool_decide (length acc < 16)%nat then
    match ell with
    | None => []
    | Some e => take e acc ++ replicate (16 - length acc) 0 ++ drop e acc
    end
  else match ell with Some _ => [] | None => acc end.

Definition parseIPv6 (s : string) : IP :=
  match s with
  | String ":"%char (String ":"%char EmptyString) => replicate 16 0
  | String ":"%char (String ":"%char s') =>
      match parse_groups 8 [] (Some O) s' with Some r => expand r | None => [] end
  | _ => match parse_groups 8 [] None s with Some r => expand r | None => [] end
  end.

(** [net.ParseIP(s)]: the first dot or colon decides. *)
Fixpoint first_sep (s : string) : option ascii :=
  match s with
  | EmptyString => None
  | String c s' => if bool_decide (c = "."%char ∨ c = ":"%char) then Some c else first_sep s'
  end.

Definition ParseIP (s : string) : IP :=
  match first_sep s with
  | Some c => if bool_decide (c = "."%char) then parseIPv4 s else parseIPv6 s
  | None => []
  end.

(** ** Printing *)

Definition hex_digit (n : Z) : string :=
  String (ascii_of_N (Z.to_N (if n <? 10 then 48 + n else 87 + n))) EmptyString.

(** [appendHex]: at most four digits, no leading zeros. *)
Definition hex16 (n : Z) : string :=
  (if n >=? 4096 then hex_digit (n / 4096) else "") +:+
  (if n >=? 256 then hex_digit (n / 256 mod 16) else "") +:+
  (if n >=? 16 then hex_digit (n / 16 mod 16) else "") +:+ hex_digit (n mod 16).

(** The sixteen-bit groups of an address. *)
Fixpoint groups (ip : list Z) : list Z :=
  match ip with
  | a :: b :: r => 256 * a + b :: groups r
  | _ => []
  end.

Fixpoint zero_run (g : list Z) : nat :=
  match g with
  | 0 :: r => S (zero_run r)
  | _ => O
  end.

(** The longest run of zero groups, the first one of that length: where it starts
    and how long it is.  [skip] groups belong to the run found last. *)
Fixpoint longest_run (i skip : nat) (best : nat * nat) (g : list Z) : nat * nat :=
  match g with
  | [] => best
  | _ :: r =>
      match skip with
      | S k => longest_run (S i) k best r
      | O =>
          let z := zero_run g in
          if bool_decide (best.2 < z)%nat then longest_run (S i) z (i, z) r
          else longest_run (S i) O best r
      end
  end.

Definition IP_String (ip : IP) : string :=
  match ip with
  | [] => "<nil>"
  | _ =>
      match To4 ip with
      | [a; b; c; d] =>
          pretty a +:+ "." +:+ pretty b +:+ "." +:+ pretty c +:+ "." +:+ pretty d
      | _ =>
          if bool_decide (length ip = 16%nat) then
            let g := groups ip in
            let '(e, z) := longest_run 0 0 (O, O) g in
            if bool_decide (z < 2)%nat then Join (hex16 <$> g) ":"
            else Join (hex16 <$> take e g) ":" +:+ "::" +:+ Join (hex16 <$> drop (e + z) g) ":"
          else "?" +:+ Join ((λ b, hex_digit (b / 16) +:+ hex_digit (b mod 16)) <$> ip) ""
      end
  end.

(** [net.JoinHostPort(host, port)] *)
Definition JoinHostPort (host port : string) : string :=
  if has_byte ":" host then "[" +:+ host +:+ "]:" +:+ port else host +:+ ":" +:+ port.

(** [net.TCPAddr] without a zone, and its [String()]. *)
Record TCPAddr := mkTCPAddr { TCP_IP : IP; TCP_Port : Z }.

#[export] Instance TCPAddr_eq_dec : EqDecision TCPAddr.
Proof. solve_decision. Defined.

Definition TCPAddr_String (a : TCPAddr) : string :=
  JoinHostPort (match a.(TCP_IP) with [] => "" | ip => IP_String ip end) (pretty a.(TCP_Port)).

Example parse_v4 : ParseIP "127.0.0.1" = IPv4 [127; 0; 0; 1].
Proof. reflexivity. Qed.
Example parse_v6 : IP_String (ParseIP "2001:db8::0:1") = "2001:db8::1".
Proof. vm_compute. reflexivity. Qed.
Example parse_mapped : IP_String (ParseIP "::ffff:10.0.0.1") = "10.0.0.1".
Proof. vm_compute. reflexivity. Qed.
Example parse_bad : ParseIP "1.2.3.4:80" = [] ∧ ParseIP "1::2::3" = [].
Proof. split; reflexivity. Qed.
Example print_v6 : IP_String (ParseIP "::1") = "::1" ∧ IP_String (replicate 16 0) = "::".
Proof. split; vm_compute; reflexivity. Qed.
Example print_v6_gap : IP_String (ParseIP "1:0:0:2:0:0:0:3") = "1:0:0:2::3".
Proof. vm_compute. reflexivity. Qed.

(** ** An address with its port is not an address *)

Lemma scan_number_no_byte b val base n s m rest ok :
  val b = None → scan_number val base n s = (m, rest, ok) →
  has_byte b rest = false → has_byte b s = false.
Proof.
  intros Hv. revert n. induction s as [|c s IH]; intros n; simpl; [done|].
  destruct (val c) as [d|] eqn:Hc; [|by intros [= <- <- <-]].
  case_match; [by intros [= <- <- <-]|]. intros Hs Hr.
  rewrite (IH _ Hs Hr), orb_false_r. apply bool_decide_eq_false. intros ->. congruence.
Qed.

Lemma dtoi_no_byte b s n rest :
  dec_val b = None → dtoi s = Some (n, rest) → has_byte b rest = false → has_byte b s = false.
Proof.
  unfold dtoi, number. intros Hv Hs. destruct s as [|c s]; [done|].
  destruct (dec_val c); [|done]. destruct (scan_number _ _ _ _) as [[m r] []] eqn:E; [|done].
  simplify_eq. by eapply scan_number_no_byte.
Qed.

Lemma parse_octets_no_colon k first s l :
  parse_octets k first s = Some l → has_byte ":" s = false.
Proof.
  revert first s l. induction k as [|k IH]; intros first s l; simpl.
  { by destruct s. }
  intros (s' & Hs' & H)%bind_Some. apply bind_Some in H as ([n rest] & Hd & H).
  case_match; [done|]. apply bind_Some in H as (r & Hr & _). apply IH in Hr.
  assert (has_byte ":" s' = false) as E by (eapply dtoi_no_byte; [|done..]; reflexivity).
  destruct first; [by simplify_eq|]. destruct s as [|c s]; [done|].
  destruct (decide (c = "."%char)) as [->|].
  - simplify_eq. simpl. by rewrite E.
  - exfalso. by destruct c as [[] [] [] [] [] [] [] []].
Qed.

Lemma first_sep_app h t :
  has_byte ":" h = false → has_byte "." h = true → first_sep (h +:+ t) = Some "."%char.
Proof.
  induction h as [|c h IH]; [done|]. simpl. intros [Hc Hh]%orb_false_iff.
  apply bool_decide_eq_false in Hc. rewrite orb_true_iff, bool_decide_eq_true.
  case_bool_decide as Hs; [|intros [->|?]; [naive_solver|by apply IH]].
  destruct Hs as [->|]; done.
Qed.

Lemma ParseIP_bracket s : ParseIP (String "[" s) = [].
Proof.
  unfold ParseIP. destruct (first_sep _) as [c|]; [|done]. case_bool_decide; [|done].
  unfold parseIPv4. by simpl.
Qed.

Lemma groups_length ip : (length (groups ip) = length ip / 2)%nat.
Proof.
  revert ip. fix IH 1. intros [|a [|b r]]; [done..|]. cbn [groups length]. rewrite IH.
  replace (S (S (length r))) with (1 * 2 + length r)%nat by lia.
  by rewrite Nat.div_add_l.
Qed.

(** The string of an address, dotted or with a colon. *)
Lemma IP_String_sep ip :
  length ip = 4%nat ∨ length ip = 16%nat →
  has_byte "." (IP_String ip) = true ∨ has_byte ":" (IP_String ip) = true.
Proof.
  intros Hl. unfold IP_String. destruct ip as [|x ip']; [simpl in Hl; lia|].
  remember (x :: ip') as ip eqn:Eip. clear Eip x ip'.
  assert (length (To4 ip) = 4%nat ∨ To4 ip = [] ∧ length ip = 16%nat) as [H4|[-> H16]].
  { unfold To4. repeat case_bool_decide; [by left| |right; naive_solver].
    left. rewrite length_drop. lia. }
  - left. destruct (To4 ip) as [|a [|b [|c [|d []]]]]; try done.
    rewrite !has_byte_app. simpl. by rewrite !orb_true_r.
  - right. rewrite bool_decide_eq_true_2 by done. destruct (longest_run _ _ _ _) as [e z].
    case_bool_decide.
    + pose proof (groups_length ip) as Hg. rewrite H16 in Hg. change (16 / 2)%nat with 8%nat in Hg.
      destruct (groups ip) as [|a [|b g]]; [done..|]. rewrite !fmap_cons.
      cbn [Join]. by rewrite !has_byte_app, orb_true_r.
    + rewrite !has_byte_app. by rewrite orb_true_r.
Qed.

(** A host and port never parse as an address, so that a tag holding one is not
    mistaken for one. *)
Lemma ParseIP_JoinHostPort ip port :
  length ip = 4%nat ∨ length ip = 16%nat → ParseIP (JoinHostPort (IP_String ip) port) = [].
Proof.
  intros Hl. unfold JoinHostPort. destruct (has_byte ":" (IP_String ip)) eqn:Hc.
  { rewrite (app_cons "[" ""). apply ParseIP_bracket. }
  destruct (IP_String_sep ip Hl) as [Hd|]; [|congruence].
  unfold ParseIP. rewrite first_sep_app by done. rewrite bool_decide_eq_true_2 by done.
  unfold parseIPv4. destruct (parse_octets _ _ _) eqn:E; [|done].
  apply parse_octets_no_colon in E. rewrite !has_byte_app in E. simpl in E.
  by rewrite orb_true_r in E.
Qed.

(** ** Host and port *)

(** The text before and after the last separator byte, if there is one. *)
Fixpoint cut_last (c : ascii) (s : string) : option (string * string) :=
  match s with
  | EmptyString => None
  | String a s' =>
      match cut_last c s' with
      | Some (x, y) => Some (String a x, y)
      | None => if decide (a = c) then Some (EmptyString, s') else None
      end
  end.

(** [net.AddrError] and its text. *)
Record AddrError := mkAddrError { AE_Err : string; AE_Addr : string }.

#[export] Instance AddrError_eq_dec : EqDecision AddrError.
Proof. solve_decision. Defined.

Definition AddrError_Error (e : AddrError) : string :=
  if bool_decide (e.(AE_Addr) = "") then e.(AE_Err)
  else "address " +:+ e.(AE_Addr) +:+ ": " +:+ e.(AE_Err).

Definition missingPort : string := "missing port in address".
Definition tooManyColons : string := "too many colons in address".

(** [net.SplitHostPort(hostport)] *)
Definition SplitHostPort (hostport : string) : string * string + AddrError :=
  let addrErr why := inr (mkAddrError why hostport) in
  match cut_last ":" hostport with
  | None => addrErr missingPort
  | Some (pre, port) =>
      match hostport with
      | String "["%char rest =>
          match cut "]" rest with
          | None => addrErr "missing ']' in address"
          | Some (host, EmptyString) => addrErr missingPort
          | Some (host, String c after) =>
              if bool_decide (c = ":"%char) && negb (has_byte ":" after) then
                if has_byte "[" rest then addrErr "unexpected '[' in address"
                else if has_byte "]" after then addrErr "unexpected ']' in address"
                else inl (host, port)
              else if bool_decide (c = ":"%char) then addrErr tooManyColons
              else addrErr missingPort
          end
      | _ =>
          if has_byte ":" pre then addrErr tooManyColons
          else if has_byte "[" hostport then addrErr "unexpected '[' in address"
          else if has_byte "]" hostport then addrErr "unexpected ']' in address"
          else inl (pre, port)
      end
  end.

Lemma cut_last_None c s : has_byte c s = false → cut_last c s = None.
Proof.
  induction s as [|a s IH]; simpl; [done|]. intros [Ha Hs]%orb_false_iff.
  rewrite IH by done. apply bool_decide_eq_false in Ha. by rewrite decide_False.
Qed.

Lemma cut_last_app c h p :
  has_byte c p = false → cut_last c (h +:+ String c p) = Some (h, p).
Proof.
  intros Hp. induction h as [|a h IH].
  - change (EmptyString +:+ String c p) with (String c p). simpl.
    rewrite cut_last_None by done. by rewrite decide_True.
  - rewrite app_cons. simpl. by rewrite IH.
Qed.

Lemma cut_app c h p : has_byte c h = false → cut c (h +:+ String c p) = Some (h, p).
Proof.
  induction h as [|a h IH]; intros Hh.
  - change (EmptyString +:+ String c p) with (String c p). simpl. by rewrite decide_True.
  - rewrite app_cons. simpl in *. apply orb_false_iff in Hh as [Ha Hh].
    apply bool_decide_eq_false in Ha. rewrite decide_False by done. by rewrite IH.
Qed.

Lemma not_bracket {A} (s : string) (x : string → A) (y : A) :
  has_byte "[" s = false → match s with String "["%char r => x r | _ => y end = y.
Proof.
  destruct s as [|c s]; [done|]. simpl. intros [Hc _]%orb_false_iff.
  apply bool_decide_eq_false in Hc. by destruct c as [[] [] [] [] [] [] [] []].
Qed.

(** What [JoinHostPort] joins, [SplitHostPort] splits. *)
Lemma SplitHostPort_JoinHostPort h p :
  has_byte "[" h = false → has_byte "]" h = false →
  has_byte "[" p = false → has_byte "]" p = false → has_byte ":" p = false →
  SplitHostPort (JoinHostPort h p) = inl (h, p).
Proof.
  intros H1 H2 H3 H4 H5. unfold SplitHostPort, JoinHostPort.
  assert (∀ s, ":" +:+ s = String ":" s) as Hcol by done.
  destruct (has_byte ":" h) eqn:Hc.
  - change ("[" +:+ h +:+ "]:" +:+ p) with (String "[" (h +:+ String "]" (String ":" p))).
    replace (String "[" (h +:+ String "]" (String ":" p)))
      with ((String "[" (h +:+ "]")) +:+ String ":" p) at 1
      by (by rewrite app_cons, app_assoc_s).
    rewrite cut_last_app, cut_app by done. rewrite bool_decide_eq_true_2 by done.
    rewrite H5. cbn [negb andb]. rewrite has_byte_app, H1. simpl. by rewrite H3, H4.
  - rewrite Hcol, cut_last_app by done.
    assert (has_byte "[" (h +:+ String ":" p) = false) as Hb
      by (rewrite has_byte_app, H1; simpl; by rewrite H3).
    rewrite not_bracket by done. rewrite Hc, Hb, has_byte_app, H2. simpl. by rewrite H4.
Qed.
