(* ===== verification/Base64.v ===== *)
(** * [encoding/base64], the standard encoding with padding

    [EncodeToString] and [DecodeString] of [base64.StdEncoding], as the Go library has
    them: line breaks are skipped, padding is required, and the position of the first
    corrupt byte is part of the error.  What is encoded is decoded again. *)
From Stdlib Require Import ZArith Lia Ascii.
From stdpp Require Import base list strings pretty.
From S2P Require Import Prelude GoStrings.

#[local] Open Scope Z_scope.

(** The characters of the alphabet, and the value of a character. *)
Definition encode_val (v : Z) : ascii :=
  if v <? 26 then ascii_of_N (Z.to_N (65 + v))
  else if v <? 52 then ascii_of_N (Z.to_N (97 + (v - 26)))
  else if v <? 62 then ascii_of_N (Z.to_N (48 + (v - 52)))
  else if v =? 62 then "+"%char else "/"%char.

Definition decode_val (c : ascii) : option Z :=
  let b := byte_val c in
  if in_range 65 90 b then Some (b - 65)
  else if in_range 97 122 b then Some (b - 97 + 26)
  else if in_range 48 57 b then Some (b - 48 + 52)
  else if b =? 43 then Some 62
  else if b =? 47 then Some 63
  else None.

Definition byte_of (z : Z) : ascii := ascii_of_N (Z.to_N (z mod 256)).

(** [enc.EncodeToString(src)] *)
Fixpoint EncodeToString (src : string) : string :=
  match src with
  | String a (String b (String c rest)) =>
      let val := byte_val a * 65536 + byte_val b * 256 + byte_val c in
      String (encode_val (val / 262144 mod 64)) (String (encode_val (val / 4096 mod 64))
        (String (encode_val (val / 64 mod 64)) (String (encode_val (val mod 64))
          (EncodeToString rest))))
  | String a (String b EmptyString) =>
      let val := byte_val a * 65536 + byte_val b * 256 in
      String (encode_val (val / 262144 mod 64)) (String (encode_val (val / 4096 mod 64))
        (String (encode_val (val / 64 mod 64)) "="))
  | String a EmptyString =>
      let val := byte_val a * 65536 in
      String (encode_val (val / 262144 mod 64)) (String (encode_val (val / 4096 mod 64)) "==")
  | EmptyString => EmptyString
  end.

(** [CorruptInputError] *)
Definition CorruptInputError (at_ : Z) : error :=
  ErrOther ("illegal base64 data at input byte " +:+ pretty at_).

Definition is_newline (c : ascii) : bool := (byte_val c =? 10) || (byte_val c =? 13).

(** Line breaks are skipped: the rest of the input and its position. *)
Fixpoint skip_newlines (si : Z) (s : string) : Z * string :=
  match s with
  | String c s' => if is_newline c then skip_newlines (si + 1) s' else (si, s)
  | EmptyString => (si, s)
  end.

(** The bytes of a quantum of two to four values. *)
Definition quantum_bytes (vals : list Z) : string :=
  match vals with
  | [v0; v1; v2; v3] =>
      let val := v0 * 262144 + v1 * 4096 + v2 * 64 + v3 in
      String (byte_of (val / 65536)) (String (byte_of (val / 256)) (String (byte_of val) ""))
  | [v0; v1; v2] =>
      let val := v0 * 262144 + v1 * 4096 + v2 * 64 in
      String (byte_of (val / 65536)) (String (byte_of (val / 256)) "")
  | [v0; v1] => String (byte_of ((v0 * 262144 + v1 * 4096) / 65536)) ""
  | _ => ""
  end.

(** After the padding only line breaks may follow. *)
Definition finish (si : Z) (s : string) (vals : list Z) : res string :=
  let '(si, rest) := skip_newlines si s in
  match rest with
  | EmptyString => Ok (quantum_bytes vals)
  | _ => Err (CorruptInputError si)
  end.

(** The input from position [si] on, after the values [vals] of an unfinished quantum. *)
Fixpoint decode_from (si : Z) (vals : list Z) (s : string) : res string :=
  match s with
  | EmptyString =>
      match vals with
      | [] => Ok ""
      | _ => Err (CorruptInputError (si - Z.of_nat (length vals)))
      end
  | String c s' =>
      match decode_val c with
      | Some v =>
          if (length vals =? 3)%nat then
            rest <-? decode_from (si + 1) [] s' ;;
            Ok (quantum_bytes (vals ++ [v]) +:+ rest)
          else decode_from (si + 1) (vals ++ [v]) s'
      | None =>
          if is_newline c then decode_from (si + 1) vals s'
          else if negb (byte_val c =? 61) then Err (CorruptInputError si)
          else
            match length vals with
            | O | 1%nat => Err (CorruptInputError si)
            | 2%nat =>
                let '(si', rest) := skip_newlines (si + 1) s' in
                match rest with
                | EmptyString => Err (CorruptInputError si')
                | String d rest' =>
                    if negb (byte_val d =? 61) then Err (CorruptInputError (si' - 1))
                    else finish (si' + 1) rest' vals
                end
            | _ => finish (si + 1) s' vals
            end
      end
  end.

(** [enc.DecodeString(s)] *)
Definition DecodeString (s : string) : res string := decode_from 0 [] s.

Example decode_padded : DecodeString "Zm8=" = Ok "fo" ∧ DecodeString "Zm9v" = Ok "foo" ∧
  DecodeString "Zg==" = Ok "f" ∧ EncodeToString "fo" = "Zm8=".
Proof. vm_compute. done. Qed.
Example decode_corrupt :
  DecodeString "Zm8" = Err (CorruptInputError 0) ∧ DecodeString "Z.8=" = Err (CorruptInputError 1) ∧
  DecodeString "Zg=" = Err (CorruptInputError 3) ∧ DecodeString "Zg==x" = Err (CorruptInputError 4).
Proof. vm_compute. done. Qed.

(** ** Round trip *)

Lemma decode_encode_val v : 0 ≤ v < 64 → decode_val (encode_val v) = Some v.
Proof.
  intros Hv. assert (Forall (λ v, decode_val (encode_val v) = Some v) (Z.of_nat <$> seq 0 64)) as H
    by (refine (bool_decide_unpack _ _); vm_compute; exact I).
  rewrite Forall_forall in H. apply H. apply list_elem_of_fmap. exists (Z.to_nat v).
  rewrite Z2Nat.id by lia. split; [done|]. apply elem_of_seq. lia.
Qed.

Lemma byte_val_bound c : 0 ≤ byte_val c < 256.
Proof. unfold byte_val. pose proof (N_ascii_bounded c). lia. Qed.

Lemma byte_of_val c z : z mod 256 = byte_val c → byte_of z = c.
Proof. unfold byte_of, byte_val. intros ->. by rewrite N2Z.id, ascii_N_embedding. Qed.

Lemma string_ind3 (P : string → Prop) :
  P "" → (∀ a, P (String a "")) → (∀ a b, P (String a (String b ""))) →
  (∀ a b c s, P s → P (String a (String b (String c s)))) → ∀ s, P s.
Proof.
  intros H0 H1 H2 H3. fix IH 1. intros [|a [|b [|c s]]]; [exact H0|apply H1|apply H2|].
  apply H3, IH.
Qed.

(** The values of a 24-bit quantum. *)
Lemma quantum_split val :
  0 ≤ val < 16777216 →
  val / 262144 mod 64 * 262144 + val / 4096 mod 64 * 4096 + val / 64 mod 64 * 64 + val mod 64 = val.
Proof. intros H. Z.to_euclidean_division_equations. lia. Qed.

Lemma byte_parts a b c :
  let val := byte_val a * 65536 + byte_val b * 256 + byte_val c in
  0 ≤ val < 16777216 ∧ byte_of (val / 65536) = a ∧ byte_of (val / 256) = b ∧ byte_of val = c.
Proof.
  pose proof (byte_val_bound a). pose proof (byte_val_bound b). pose proof (byte_val_bound c).
  intros val. split; [unfold val; lia|].
  split_and!; apply byte_of_val; unfold val; Z.to_euclidean_division_equations; lia.
Qed.

(** Decoding what was encoded gives it back. *)
Lemma decode_from_encode s si : decode_from si [] (EncodeToString s) = Ok s.
Proof.
  revert si. induction s as [|a|a b|a b c s IH] using string_ind3; intros si; [done|..];
    cbn [EncodeToString decode_from].
  all: rewrite !decode_encode_val by (apply Z.mod_pos_bound; lia).
  all: cbn [length Nat.eqb app decode_from finish skip_newlines].
  - destruct (byte_parts a zero zero) as (Hv & Ha & _). revert Hv Ha.
    change (byte_val zero) with 0. rewrite Z.mul_0_l, !Z.add_0_r. intros Hv Ha.
    pose proof (quantum_split _ Hv) as Hq.
    assert ((byte_val a * 65536) / 64 mod 64 = 0 ∧ (byte_val a * 65536) mod 64 = 0) as [E1 E2]
      by (split; Z.to_euclidean_division_equations; lia).
    rewrite E1, E2, Z.mul_0_l, !Z.add_0_r in Hq.
    change (decode_val "=") with (@None Z). change (is_newline "=") with false.
    change (byte_val "=" =? 61) with true. cbn [negb finish skip_newlines].
    unfold quantum_bytes. by rewrite Hq, Ha.
  - destruct (byte_parts a b zero) as (Hv & Ha & Hb & _). revert Hv Ha Hb.
    change (byte_val zero) with 0. rewrite Z.add_0_r. intros Hv Ha Hb.
    pose proof (quantum_split _ Hv) as Hq.
    assert ((byte_val a * 65536 + byte_val b * 256) mod 64 = 0) as E2
      by (Z.to_euclidean_division_equations; lia).
    rewrite E2, Z.add_0_r in Hq.
    change (decode_val "=") with (@None Z). change (is_newline "=") with false.
    change (byte_val "=" =? 61) with true. cbn [negb finish skip_newlines].
    unfold quantum_bytes. by rewrite Hq, Ha, Hb.
  - destruct (byte_parts a b c) as (Hv & Ha & Hb & Hc).
    rewrite IH. cbn [res_bind]. unfold quantum_bytes. rewrite (quantum_split _ Hv), Ha, Hb, Hc. done.
Qed.

Lemma DecodeString_EncodeToString s : DecodeString (EncodeToString s) = Ok s.
Proof. apply decode_from_encode. Qed.
