(* ===== verification/GoTime.v ===== *)
(** * Go's [time] package, as far as dkron uses it

    A [time.Time] is an instant: its nanoseconds since the Unix epoch, as a [Z].
    (The location that Go keeps next to the instant only changes how it is
    printed; the monotonic reading is not observable in a stored value.)

    [ParseRFC3339] is [time.Parse(time.RFC3339, value)] of Go 1.14, the version
    that [go.mod] names, with its error texts, and [ParseQuoted] the same between
    double quotes, as the JSON form of a time has it. *)
From Stdlib Require Import ZArith Lia Ascii.
From stdpp Require Import base list strings pretty.
From S2P Require Import Prelude GoStrings.

#[local] Open Scope Z_scope.

Abbreviation time := Z (only parsing).

Definition nanos_per_sec : Z := 1000000000.

(** [time.Time{}]: January 1, year 1, 00:00:00 UTC. *)
Definition time_zero : time := -62135596800 * nanos_per_sec.

Definition Before (t u : time) : bool := t <? u.
Definition After (t u : time) : bool := u <? t.

(** [t.Unix()] and [t.UnixNano()]; the latter is a 64-bit product and wraps. *)
Definition Unix (t : time) : Z := t / nanos_per_sec.
Definition UnixNano (t : time) : Z := intN 64 t.

(** ** The calendar *)

Definition is_leap (y : Z) : bool :=
  (y mod 4 =? 0) && (negb (y mod 100 =? 0) || (y mod 400 =? 0)).

Definition days_in (m y : Z) : Z :=
  if m =? 2 then (if is_leap y then 29 else 28)
  else if (m =? 4) || (m =? 6) || (m =? 9) || (m =? 11) then 30 else 31.

(** Days of a common year before the first of the month. *)
Definition days_before (m : Z) : Z :=
  nth (Z.to_nat (m - 1)) [0; 31; 59; 90; 120; 151; 181; 212; 243; 273; 304; 334] 0.

(** Days from 1970-01-01 to the given proleptic Gregorian date. *)
Definition unix_days (y m d : Z) : Z :=
  365 * (y - 1) + (y - 1) / 4 - (y - 1) / 100 + (y - 1) / 400
  + days_before m + (if is_leap y && (2 <? m) then 1 else 0)
  + (d - 1) - 719162.

(** [time.Date(y, m, d, h, mi, s, ns, UTC)] for normalised arguments. *)
Definition Date_UTC (y m d h mi s ns : Z) : time :=
  (unix_days y m d * 86400 + h * 3600 + mi * 60 + s) * nanos_per_sec + ns.

(** ** [time.Parse(time.RFC3339, value)] *)

Definition RFC3339 : string := "2006-01-02T15:04:05Z07:00".

(** [*time.ParseError]: the layout element, the rest of the value, a message. *)
Record ParseError := mkParseError
  { LayoutElem : string; ValueElem : string; Message : string }.

Definition ParseError_Error (layout value : string) (e : ParseError) : string :=
  let q s := dquote +:+ s +:+ dquote in
  if decide (e.(Message) = "")
  then "parsing time " +:+ q value +:+ " as " +:+ q layout +:+ ": cannot parse "
         +:+ q e.(ValueElem) +:+ " as " +:+ q e.(LayoutElem)
  else "parsing time " +:+ q value +:+ e.(Message).

(** A piece of the parser: consumes a prefix of the value or fails. *)
Definition P (A : Type) : Type := string → (A * string) + ParseError.

Definition bindP {A B} (p : P A) (k : A → P B) : P B := λ v,
  match p v with
  | inl (a, v') => k a v'
  | inr e => inr e
  end.

Definition failP {A} (elem msg : string) : P A := λ v, inr (mkParseError elem v msg).

Definition digit_val (c : ascii) : Z := byte_val c - 48.
Definition isDigit (c : ascii) : bool := in_range 48 57 (byte_val c).

(** [skip(value, prefix)] for a one-byte literal of the layout. *)
Definition lit (c : ascii) : P unit := λ v,
  match v with
  | String a v' => if decide (a = c) then inl (tt, v') else inr (mkParseError (String c "") v "")
  | EmptyString => inr (mkParseError (String c "") v "")
  end.

(** [getnum(s, fixed)] *)
Definition getnum (elem : string) (fixed : bool) : P Z := λ v,
  match v with
  | String a v1 =>
      if isDigit a then
        match v1 with
        | String b v2 =>
            if isDigit b then inl (10 * digit_val a + digit_val b, v2)
            else if fixed then inr (mkParseError elem v "") else inl (digit_val a, v1)
        | EmptyString => if fixed then inr (mkParseError elem v "") else inl (digit_val a, v1)
        end
      else inr (mkParseError elem v "")
  | EmptyString => inr (mkParseError elem v "")
  end.

(** A number with a range check, the error naming the field. *)
Definition field (elem : string) (fixed : bool) (lo hi : Z) (name : string) : P Z :=
  bindP (getnum elem fixed) (λ n v,
    if in_range lo hi n then inl (n, v)
    else inr (mkParseError elem v (": " +:+ name +:+ " out of range"))).

(** [atoi(s)] of the time package: an optional sign, then only digits. *)
Definition time_atoi (s : string) : option Z :=
  let '(neg, ds) :=
    match s with
    | String "-"%char r => (true, r)
    | String "+"%char r => (false, r)
    | _ => (false, s)
    end in
  match digits 0 ds with
  | Some n =>
      if decide (Z.of_N n < 2 ^ 63) then Some (if neg : bool then - Z.of_N n else Z.of_N n)
      else None
  | None => None
  end.

(** [stdLongYear]: four bytes, the first a digit. *)
Definition long_year : P Z := λ v,
  match v with
  | String a (String b (String c (String d v'))) =>
      if isDigit a then
        match time_atoi (String a (String b (String c (String d "")))) with
        | Some y => inl (y, v')
        | None => inr (mkParseError "2006" v' "")
        end
      else inr (mkParseError "2006" v "")
  | _ => inr (mkParseError "2006" v "")
  end.

Fixpoint span_digits (s : string) : string * string :=
  match s with
  | String c s' =>
      if isDigit c then let '(ds, r) := span_digits s' in (String c ds, r) else ("", s)
  | EmptyString => ("", "")
  end.

(** The fractional second that may follow the seconds although the layout has
    none: [parseNanoseconds(value, n)]. *)
Definition frac_second : P Z := λ v,
  match v with
  | String "."%char (String c v') =>
      if isDigit c then
        let '(ds, r) := span_digits (String c v') in
        match time_atoi ds with
        | None => inr (mkParseError "05" r "")
        | Some ns =>
            if nanos_per_sec <=? ns
            then inr (mkParseError "05" r ": fractional second out of range")
            else inl (ns * 10 ^ Z.of_nat (9 - String.length ds), r)
        end
      else inl (0, v)
  | _ => inl (0, v)
  end.

(** [stdISO8601ColonTZ]: [Z], or a sign, two bytes, a colon and two bytes.  The
    result is the zone offset in seconds. *)
Definition zone : P Z := λ v,
  match v with
  | String "Z"%char v' => inl (0, v')
  | String sg (String h1 (String h2 (String ":"%char (String m1 (String m2 v'))))) =>
      match time_atoi (String h1 (String h2 "")), time_atoi (String m1 (String m2 "")) with
      | Some hr, Some mm =>
          let off := (hr * 60 + mm) * 60 in
          if decide (sg = "+"%char) then inl (off, v')
          else if decide (sg = "-"%char) then inl (- off, v')
          else inr (mkParseError "Z07:00" v' "")
      | _, _ => inr (mkParseError "Z07:00" v' "")
      end
  | _ => inr (mkParseError "Z07:00" v "")
  end.

(** The fields of a time, each with the literal that follows it. *)
Record fields := mkFields
  { f_year : Z; f_month : Z; f_day : Z; f_hour : Z; f_min : Z; f_sec : Z; f_nsec : Z; f_zone : Z }.

Definition parse_fields : P fields :=
  bindP long_year (λ y, bindP (lit "-"%char) (λ _,
  bindP (field "01" true 1 12 "month") (λ mo, bindP (lit "-"%char) (λ _,
  bindP (getnum "02" true) (λ d, bindP (lit "T"%char) (λ _,
  bindP (field "15" false 0 23 "hour") (λ h, bindP (lit ":"%char) (λ _,
  bindP (field "04" true 0 59 "minute") (λ mi, bindP (lit ":"%char) (λ _,
  bindP (field "05" true 0 59 "second") (λ s,
  bindP frac_second (λ ns,
  bindP zone (λ off v, inl (mkFields y mo d h mi s ns off, v)))))))))))))).

(** The end of the value: nothing may follow, and the day must be one of the month. *)
Definition finish (f : fields) : P time := λ v,
  if decide (v = "") then
    if in_range 1 (days_in f.(f_month) f.(f_year)) f.(f_day)
    then inl (Date_UTC f.(f_year) f.(f_month) f.(f_day) f.(f_hour) f.(f_min) f.(f_sec) f.(f_nsec)
                - f.(f_zone) * nanos_per_sec, v)
    else inr (mkParseError "" v ": day out of range")
  else inr (mkParseError "" v (": extra text: " +:+ v)).

Definition Parse (layout : string) (p : P time) (value : string) : res time :=
  match p value with
  | inl (t, _) => Ok t
  | inr e => Err (ErrOther (ParseError_Error layout value e))
  end.

Definition ParseRFC3339 (value : string) : res time := Parse RFC3339 (bindP parse_fields finish) value.

(** The double quote. *)
Definition dq : ascii := Ascii.ascii_of_nat 34.

Definition ParseQuoted (value : string) : res time :=
  Parse (dquote +:+ RFC3339 +:+ dquote)
    (bindP (lit dq) (λ _, bindP parse_fields (λ f, bindP (lit dq) (λ _, finish f)))) value.

(** ** Examples *)

Example parse_zero : ParseRFC3339 "0001-01-01T00:00:00Z" = Ok time_zero.
Proof. vm_compute. done. Qed.
Example parse_2020 : ParseRFC3339 "2020-02-29T23:59:58.25+01:30"
  = Ok (1583015398250000000).
Proof. vm_compute. done. Qed.
Example parse_bad_day : ParseRFC3339 "2019-02-29T00:00:00Z"
  = Err (ErrOther ("parsing time " +:+ dquote +:+ "2019-02-29T00:00:00Z" +:+ dquote
      +:+ ": day out of range")).
Proof. vm_compute. done. Qed.
