(* ===== verification/GoDuration.v ===== *)
(** * Durations of the package [time]: [ParseDuration] and [Duration.String]

    A duration is a number of nanoseconds in 64 bits.  The fraction of a number is scaled
    in binary64, as the package does, with the formal floats of the library. *)
From Stdlib Require Import ZArith Lia Ascii.
From Stdlib Require SpecFloat.
From stdpp Require Import base list gmap strings pretty.
From S2P Require Import Prelude GoStrings GoTime.

#[local] Open Scope Z_scope.

(** ** Binary64 *)
Module Float64.
Import SpecFloat.
Definition t : Type := spec_float.
Definition of_Z (z : Z) : t := binary_normalize 53 1024 z 0 false.
Definition mul : t → t → t := SFmul 53 1024.
Definition div : t → t → t := SFdiv 53 1024.
(** The conversion to an integer truncates. *)
Definition to_Z (f : t) : Z :=
  match f with
  | S754_finite s m e =>
      let a := if 0 <=? e then Zpos m * 2 ^ e else Zpos m / 2 ^ (- e) in if s then - a else a
  | _ => 0
  end.
End Float64.

Definition max_int64 : Z := 2 ^ 63 - 1.

(** [leadingInt(s)]: [None] on overflow. *)
Fixpoint leadingInt (x : Z) (s : string) : option (Z * string) :=
  match s with
  | String c s' =>
      if is_digit c then
        if max_int64 / 10 <? x then None
        else let x' := intN 64 (x * 10 + (byte_val c - 48)) in
             if x' <? 0 then None else leadingInt x' s'
      else Some (x, s)
  | EmptyString => Some (x, s)
  end.

(** [leadingFraction(s)]: digits beyond the range are skipped. *)
Fixpoint leadingFraction (x : Z) (scale : Float64.t) (overflow : bool) (s : string) :
    Z * Float64.t * string :=
  match s with
  | String c s' =>
      if is_digit c then
        if overflow || (max_int64 / 10 <? x) then leadingFraction x scale true s'
        else let y := intN 64 (x * 10 + (byte_val c - 48)) in
             if y <? 0 then leadingFraction x scale true s'
             else leadingFraction y (Float64.mul scale (Float64.of_Z 10)) false s'
      else (x, scale, s)
  | EmptyString => (x, scale, s)
  end.

(** The unit: the bytes up to a digit or a dot. *)
Fixpoint take_unit (s : string) : string * string :=
  match s with
  | String c s' =>
      if is_digit c || Ascii.eqb c "." then (EmptyString, s)
      else let '(u, rest) := take_unit s' in (String c u, rest)
  | EmptyString => (EmptyString, EmptyString)
  end.

(** [unitMap] *)
Definition unitMap : gmap string Z :=
  {["ns" := 1; "us" := 1000; "µs" := 1000; "μs" := 1000; "ms" := 1000000;
    "s" := nanos_per_sec; "m" := 60 * nanos_per_sec; "h" := 3600 * nanos_per_sec]}.

(** One number with its unit: what it is worth, and what is left. *)
Definition duration_item (orig s : string) : res (Z * string) :=
  let invalid := Err (ErrOther ("time: invalid duration " +:+ orig)) in
  match s with
  | EmptyString => invalid
  | String c _ =>
      if negb (is_digit c || Ascii.eqb c ".") then invalid
      else match leadingInt 0 s with
           | None => invalid
           | Some (v, s1) =>
               let pre := bool_decide (String.length s ≠ String.length s1) in
               let '(f, scale, s2, post) :=
                 match s1 with
                 | String "." s1' =>
                     let '(f, scale, s2) := leadingFraction 0 (Float64.of_Z 1) false s1' in
                     (f, scale, s2, bool_decide (String.length s1' ≠ String.length s2))
                 | _ => (0, Float64.of_Z 1, s1, false)
                 end in
               if negb pre && negb post then invalid
               else let '(u, rest) := take_unit s2 in
                    if bool_decide (u = "") then Err (ErrOther ("time: missing unit in duration " +:+ orig))
                    else match unitMap !! u with
                         | None => Err (ErrOther ("time: unknown unit " +:+ u +:+ " in duration " +:+ orig))
                         | Some unit =>
                             if max_int64 / unit <? v then invalid
                             else let v1 := if 0 <? f then
                                 intN 64 (v * unit + Float64.to_Z (Float64.mul (Float64.of_Z f)
                                   (Float64.div (Float64.of_Z unit) scale))) else v * unit in
                                  if v1 <? 0 then invalid else Ok (v1, rest)
                         end
           end
  end.

Fixpoint duration_items (fuel : nat) (orig s : string) (d : Z) : res Z :=
  match s, fuel with
  | EmptyString, _ => Ok d
  | _, O => Err (ErrOther ("time: invalid duration " +:+ orig))
  | _, S fuel =>
      it <-? duration_item orig s ;;
      let d' := intN 64 (d + it.1) in
      if d' <? 0 then Err (ErrOther ("time: invalid duration " +:+ orig))
      else duration_items fuel orig it.2 d'
  end.

(** [time.ParseDuration(s)] *)
Definition ParseDuration (orig : string) : res Z :=
  let '(neg, s) := match orig with
                   | String c s' => if Ascii.eqb c "-" then (true, s')
                                    else if Ascii.eqb c "+" then (false, s') else (false, orig)
                   | EmptyString => (false, orig)
                   end in
  if bool_decide (s = "0") then Ok 0
  else if bool_decide (s = "") then Err (ErrOther ("time: invalid duration " +:+ orig))
  else d <-? duration_items (String.length s) orig s 0 ;; Ok (if neg then - d else d).

(** Each item takes a byte at least, so that the fuel is never exhausted. *)
Lemma leadingInt_length x s v r : leadingInt x s = Some (v, r) → (String.length r ≤ String.length s)%nat.
Proof.
  revert x. induction s as [|c s IH]; intros x; cbn [leadingInt]; [by intros [= _ <-]|].
  destruct (is_digit c); [|by intros [= _ <-]]. destruct (_ <? x); [done|].
  destruct (_ <? 0); [done|]. intros H%IH. simpl. lia.
Qed.

Lemma leadingFraction_length x sc o s :
  (String.length (leadingFraction x sc o s).2 ≤ String.length s)%nat.
Proof.
  revert x sc o. induction s as [|c s IH]; intros; cbn [leadingFraction]; [done|].
  destruct (is_digit c); [|done]. repeat case_match; etrans; eauto; simpl; lia.
Qed.

Lemma take_unit_length s : (String.length (take_unit s).1 + String.length (take_unit s).2 = String.length s)%nat.
Proof.
  induction s as [|c s IH]; simpl; [done|]. destruct (_ || _); [done|].
  destruct (take_unit s); simpl in *. lia.
Qed.

Lemma duration_item_length orig s v r :
  duration_item orig s = Ok (v, r) → (String.length r < String.length s)%nat.
Proof.
  unfold duration_item. destruct s as [|c s]; [done|]. destruct (negb (is_digit c || _)); [done|].
  destruct (leadingInt 0 (String c s)) as [[x s1]|] eqn:E1; [|done].
  apply leadingInt_length in E1.
  match goal with |- context [match s1 with EmptyString => ?a | _ => _ end] =>
    set (t := match s1 with EmptyString => a | _ => _ end) end.
  assert (String.length t.1.2 ≤ String.length s1)%nat as Ht.
  { subst t. destruct s1 as [|[[] [] [] [] [] [] [] []] s1]; try done. 
    pose proof (leadingFraction_length 0 (Float64.of_Z 1) false s1) as Hl.
    destruct (leadingFraction _ _ _ _) as [[f sc] s2]. simpl in *. lia. }
  destruct t as [[[f sc] s2] post]. simpl in Ht. destruct (_ && _); [done|].
  pose proof (take_unit_length s2) as Hu. destruct (take_unit s2) as [u rest]. simpl in Hu.
  case_bool_decide as Hne; [done|].
  assert (0 < String.length u)%nat as Hpos by (destruct u; simpl; [done|lia]).
  intros H. assert (r = rest) as ->; [|lia].
  destruct (unitMap !! u); [|done]. destruct (_ <? _); [done|].
  destruct (_ <? 0); [done|]. by injection H.
Qed.

(** Having more fuel than bytes changes nothing. *)
Lemma duration_items_fuel f1 f2 orig s d :
  (String.length s ≤ f1)%nat → (String.length s ≤ f2)%nat →
  duration_items f1 orig s d = duration_items f2 orig s d.
Proof.
  revert f2 s d. induction f1 as [|f1 IH]; intros f2 s d H1 H2.
  { destruct s; [by destruct f2|simpl in H1; lia]. }
  destruct s as [|c s]; [by destruct f2|]. destruct f2 as [|f2]; [simpl in H2; lia|].
  cbn [duration_items]. destruct (duration_item orig (String c s)) as [[v r]| |] eqn:E; [|done..].
  cbn [res_bind]. apply duration_item_length in E. cbn [fst snd]. destruct (_ <? 0); [done|].
  apply IH; lia.
Qed.

(** ** [Duration.String] *)

(** [fmtFrac(buf, v, prec)]: the digits of [v] below [10 ^ prec] without their trailing
    zeros, after a dot; and the rest of [v]. *)
Fixpoint fmtFrac (prec : nat) (v : Z) (print : bool) (acc : string) : string * Z :=
  match prec with
  | O => (if print then "." +:+ acc else acc, v)
  | S prec =>
      let digit := v mod 10 in
      let print := print || negb (digit =? 0) in
      fmtFrac prec (v / 10) print (if print then pretty digit +:+ acc else acc)
  end.

(** [(d Duration) String()] *)
Definition Duration_String (d : Z) : string :=
  let u := Z.abs d in
  let sign := if d <? 0 then "-" else "" in
  if u <? nanos_per_sec then
    if u =? 0 then "0s"
    else if u <? 1000 then sign +:+ pretty u +:+ "ns"
    else if u <? 1000000 then let '(f, v) := fmtFrac 3 u false "" in sign +:+ pretty v +:+ f +:+ "µs"
    else let '(f, v) := fmtFrac 6 u false "" in sign +:+ pretty v +:+ f +:+ "ms"
  else
    let '(f, v) := fmtFrac 9 u false "" in
    let secs := pretty (v mod 60) +:+ f +:+ "s" in
    let mins := v / 60 in
    let hours := mins / 60 in
    sign +:+ (if 0 <? hours then pretty hours +:+ "h" else "")
         +:+ (if 0 <? mins then pretty (mins mod 60) +:+ "m" else "") +:+ secs.

Example durations :
  ParseDuration "24h" = Ok (24 * 3600 * nanos_per_sec) ∧
  ParseDuration "-1h15m30.918s" = Ok (- (4530 * nanos_per_sec + 918000000)) ∧
  ParseDuration "1.5µs" = Ok 1500 ∧ ParseDuration ".1s" = Ok 100000000 ∧
  ParseDuration "5" = Err (ErrOther "time: missing unit in duration 5") ∧
  ParseDuration "3000000h" = Err (ErrOther "time: invalid duration 3000000h") ∧
  Duration_String (4530 * nanos_per_sec + 918000000) = "1h15m30.918s" ∧
  Duration_String 1500 = "1.5µs" ∧ Duration_String (- 60 * nanos_per_sec) = "-1m0s".
Proof. vm_compute. done. Qed.
