(* ===== verification/Config.v ===== *)
(** * [dkron/config.go]: the configuration and its addresses

    The configuration record with its defaults, the normalisation of the bind and
    advertise addresses, and the split of an address into host and port.  The
    address templates ([go-sockaddr]) and name resolution are parameters. *)
From Stdlib Require Import ZArith Lia Ascii.
From stdpp Require Import base list gmap strings pretty.
From S2P Require Import Prelude GoStrings GoNet GoTime.

#[local] Open Scope Z_scope.

(** [type Config struct]: durations in nanoseconds. *)
Record Config := mkConfig {
  NodeName : string;
  BindAddr : string;
  HTTPAddr : string;
  Profile : string;
  AdvertiseAddr : string;
  Tags : gmap string string;
  Server : bool;
  EncryptKey : string;
  StartJoin : list string;
  RetryJoinLAN : list string;
  RetryJoinMaxAttemptsLAN : Z;
  RetryJoinIntervalLAN : Z;
  RPCPort : Z;
  AdvertiseRPCPort : Z;
  LogLevel : string;
  Datacenter : string;
  Region : string;
  Bootstrap : bool;
  BootstrapExpect : Z;
  DataDir : string;
  DevMode : bool;
  ReconcileInterval : Z;
  RaftMultiplier : Z;
  MailHost : string;
  MailPort : Z;
  MailUsername : string;
  MailPassword : string;
  MailFrom : string;
  MailPayload : string;
  MailSubjectPrefix : string;
  WebhookURL : string;
  WebhookPayload : string;
  WebhookHeaders : list string;
  DogStatsdAddr : string;
  DogStatsdTags : list string;
  StatsdAddr : string;
  SerfReconnectTimeout : string;
  EnablePrometheus : bool
}.

(** Assignments to a field. *)
Definition set_BindAddr (v : string) (c : Config) : Config :=
  mkConfig c.(NodeName) v c.(HTTPAddr) c.(Profile) c.(AdvertiseAddr) c.(Tags) c.(Server)
  c.(EncryptKey) c.(StartJoin) c.(RetryJoinLAN) c.(RetryJoinMaxAttemptsLAN)
  c.(RetryJoinIntervalLAN) c.(RPCPort) c.(AdvertiseRPCPort) c.(LogLevel) c.(Datacenter) c.(Region)
  c.(Bootstrap) c.(BootstrapExpect) c.(DataDir) c.(DevMode) c.(ReconcileInterval)
  c.(RaftMultiplier) c.(MailHost) c.(MailPort) c.(MailUsername) c.(MailPassword) c.(MailFrom)
  c.(MailPayload) c.(MailSubjectPrefix) c.(WebhookURL) c.(WebhookPayload) c.(WebhookHeaders)
  c.(DogStatsdAddr) c.(DogStatsdTags) c.(StatsdAddr) c.(SerfReconnectTimeout) c.(EnablePrometheus).

Definition set_HTTPAddr (v : string) (c : Config) : Config :=
  mkConfig c.(NodeName) c.(BindAddr) v c.(Profile) c.(AdvertiseAddr) c.(Tags) c.(Server)
  c.(EncryptKey) c.(StartJoin) c.(RetryJoinLAN) c.(RetryJoinMaxAttemptsLAN)
  c.(RetryJoinIntervalLAN) c.(RPCPort) c.(AdvertiseRPCPort) c.(LogLevel) c.(Datacenter) c.(Region)
  c.(Bootstrap) c.(BootstrapExpect) c.(DataDir) c.(DevMode) c.(ReconcileInterval)
  c.(RaftMultiplier) c.(MailHost) c.(MailPort) c.(MailUsername) c.(MailPassword) c.(MailFrom)
  c.(MailPayload) c.(MailSubjectPrefix) c.(WebhookURL) c.(WebhookPayload) c.(WebhookHeaders)
  c.(DogStatsdAddr) c.(DogStatsdTags) c.(StatsdAddr) c.(SerfReconnectTimeout) c.(EnablePrometheus).

Definition set_AdvertiseAddr (v : string) (c : Config) : Config :=
  mkConfig c.(NodeName) c.(BindAddr) c.(HTTPAddr) c.(Profile) v c.(Tags) c.(Server) c.(EncryptKey)
  c.(StartJoin) c.(RetryJoinLAN) c.(RetryJoinMaxAttemptsLAN) c.(RetryJoinIntervalLAN) c.(RPCPort)
  c.(AdvertiseRPCPort) c.(LogLevel) c.(Datacenter) c.(Region) c.(Bootstrap) c.(BootstrapExpect)
  c.(DataDir) c.(DevMode) c.(ReconcileInterval) c.(RaftMultiplier) c.(MailHost) c.(MailPort)
  c.(MailUsername) c.(MailPassword) c.(MailFrom) c.(MailPayload) c.(MailSubjectPrefix)
  c.(WebhookURL) c.(WebhookPayload) c.(WebhookHeaders) c.(DogStatsdAddr) c.(DogStatsdTags)
  c.(StatsdAddr) c.(SerfReconnectTimeout) c.(EnablePrometheus).

Definition set_AdvertiseRPCPort (v : Z) (c : Config) : Config :=
  mkConfig c.(NodeName) c.(BindAddr) c.(HTTPAddr) c.(Profile) c.(AdvertiseAddr) c.(Tags)
  c.(Server) c.(EncryptKey) c.(StartJoin) c.(RetryJoinLAN) c.(RetryJoinMaxAttemptsLAN)
  c.(RetryJoinIntervalLAN) c.(RPCPort) v c.(LogLevel) c.(Datacenter) c.(Region) c.(Bootstrap)
  c.(BootstrapExpect) c.(DataDir) c.(DevMode) c.(ReconcileInterval) c.(RaftMultiplier)
  c.(MailHost) c.(MailPort) c.(MailUsername) c.(MailPassword) c.(MailFrom) c.(MailPayload)
  c.(MailSubjectPrefix) c.(WebhookURL) c.(WebhookPayload) c.(WebhookHeaders) c.(DogStatsdAddr)
  c.(DogStatsdTags) c.(StatsdAddr) c.(SerfReconnectTimeout) c.(EnablePrometheus).

Definition set_Bootstrap (v : bool) (c : Config) : Config :=
  mkConfig c.(NodeName) c.(BindAddr) c.(HTTPAddr) c.(Profile) c.(AdvertiseAddr) c.(Tags)
  c.(Server) c.(EncryptKey) c.(StartJoin) c.(RetryJoinLAN) c.(RetryJoinMaxAttemptsLAN)
  c.(RetryJoinIntervalLAN) c.(RPCPort) c.(AdvertiseRPCPort) c.(LogLevel) c.(Datacenter) c.(Region)
  v c.(BootstrapExpect) c.(DataDir) c.(DevMode) c.(ReconcileInterval) c.(RaftMultiplier)
  c.(MailHost) c.(MailPort) c.(MailUsername) c.(MailPassword) c.(MailFrom) c.(MailPayload)
  c.(MailSubjectPrefix) c.(WebhookURL) c.(WebhookPayload) c.(WebhookHeaders) c.(DogStatsdAddr)
  c.(DogStatsdTags) c.(StatsdAddr) c.(SerfReconnectTimeout) c.(EnablePrometheus).

Definition set_BootstrapExpect (v : Z) (c : Config) : Config :=
  mkConfig c.(NodeName) c.(BindAddr) c.(HTTPAddr) c.(Profile) c.(AdvertiseAddr) c.(Tags)
  c.(Server) c.(EncryptKey) c.(StartJoin) c.(RetryJoinLAN) c.(RetryJoinMaxAttemptsLAN)
  c.(RetryJoinIntervalLAN) c.(RPCPort) c.(AdvertiseRPCPort) c.(LogLevel) c.(Datacenter) c.(Region)
  c.(Bootstrap) v c.(DataDir) c.(DevMode) c.(ReconcileInterval) c.(RaftMultiplier) c.(MailHost)
  c.(MailPort) c.(MailUsername) c.(MailPassword) c.(MailFrom) c.(MailPayload)
  c.(MailSubjectPrefix) c.(WebhookURL) c.(WebhookPayload) c.(WebhookHeaders) c.(DogStatsdAddr)
  c.(DogStatsdTags) c.(StatsdAddr) c.(SerfReconnectTimeout) c.(EnablePrometheus).

(** [const DefaultBindPort, DefaultRPCPort, DefaultRetryInterval] *)
Definition DefaultBindPort : Z := 8946.
Definition DefaultRPCPort : Z := 6868.
Definition DefaultRetryInterval : Z := 30 * nanos_per_sec.

(** [DefaultConfig()], with the outcome of [os.Hostname()]. *)
Definition DefaultConfig (hostname : res string) : res Config :=
  match hostname with
  | Ok hostname => Ok (
      mkConfig hostname ("{{ GetPrivateIP }}:" +:+ pretty DefaultBindPort) ":8080" "lan" "" ∅
      false "" [] [] 0 0 DefaultRPCPort 0 "info" "dc1" "global" false 0 "dkron.data" false (60 *
      nanos_per_sec) 1 "" 0 "" "" "" "" "[Dkron]" "" "" [] "" [] "" "24h" false)
  | Err e => Crash (Error e)
  | Crash w => Crash w
  end.

(** [go-sockaddr/template] and the resolver of the host: an address it finds is made
    of bytes. *)
Class Resolver := {
  template_Parse : string → res string;
  LookupIP : string → res (list IP);
  ResolveTCPAddr : string → res TCPAddr;
  LookupIP_bytes h ips : LookupIP h = Ok ips → Forall (Forall (in_uint 8)) ips
}.

(** ** [net.IP]'s classes of addresses *)

Definition IP_Equal (a b : IP) : bool :=
  bool_decide (a = b) || (bool_decide (To4 a ≠ []) && bool_decide (To4 a = To4 b)).

Definition IsLoopback (ip : IP) : bool :=
  match To4 ip with
  | a :: _ => a =? 127
  | [] => IP_Equal ip (replicate 15 0 ++ [1])
  end.

Definition IsLinkLocalUnicast (ip : IP) : bool :=
  match To4 ip, ip with
  | a :: b :: _, _ => (a =? 169) && (b =? 254)
  | _, a :: b :: _ => bool_decide (length ip = 16%nat) && (a =? 254) && (Z.land b 192 =? 128)
  | _, _ => false
  end.

Definition IsMulticast (ip : IP) : bool :=
  match To4 ip, ip with
  | a :: _, _ => Z.land a 240 =? 224
  | _, a :: _ => bool_decide (length ip = 16%nat) && (a =? 255)
  | _, _ => false
  end.

Definition IsUnspecified (ip : IP) : bool :=
  IP_Equal ip (IPv4 [0; 0; 0; 0]) || IP_Equal ip (replicate 16 0).

Definition IsGlobalUnicast (ip : IP) : bool :=
  bool_decide (length ip = 4%nat ∨ length ip = 16%nat)
  && negb (IP_Equal ip (IPv4 [255; 255; 255; 255])) && negb (IsUnspecified ip)
  && negb (IsLoopback ip) && negb (IsMulticast ip) && negb (IsLinkLocalUnicast ip).

(** ** Addresses *)
Section Addresses.
Context {RS : Resolver}.

(** [ParseSingleIPTemplate(ipTmpl)] *)
Definition ParseSingleIPTemplate (ipTmpl : string) : res string :=
  match template_Parse ipTmpl with
  | Ok out =>
      match Split " " out with
      | [] => Err (ErrOther "no addresses found, please configure one")
      | [ip] => Ok ip
      | _ => Err (ErrOther ("multiple addresses found (" +:+ dquote +:+ out +:+ dquote
                              +:+ "), please configure one"))
      end
  | Err e => Err (ErrOther ("unable to parse address template " +:+ dquote +:+ ipTmpl +:+ dquote
                              +:+ ": " +:+ Error e))
  | Crash w => Crash w
  end.

(** [isMissingPort(err)] and [isTooManyColons(err)] *)
Definition isMissingPort (e : AddrError) : bool := Contains (AddrError_Error e) missingPort.
Definition isTooManyColons (e : AddrError) : bool := Contains (AddrError_Error e) tooManyColons.

(** The first usable address of the host: [None] when the loop ends without one. *)
Fixpoint pick_ip (dev : bool) (defport : Z) (ips : list IP) : option (res string) :=
  match ips with
  | [] => None
  | ip :: ips' =>
      let joined := JoinHostPort (IP_String ip) (pretty defport) in
      if IsLinkLocalUnicast ip || IsGlobalUnicast ip then Some (Ok joined)
      else if IsLoopback ip then
        if dev then Some (Ok joined)
        else Some (Err (ErrOther
          "defaulting advertise to localhost is unsafe, please set advertise manually"))
      else pick_ip dev defport ips'
  end.

(** [fmt.Errorf(prefix + ": %v", err)] *)
Definition wrap_err {A} (prefix : string) (r : res A) : res A :=
  match r with
  | Err e => Err (ErrOther (prefix +:+ ": " +:+ Error e))
  | r => r
  end.

(** [normalizeAdvertise(addr, bind, defport, dev)] *)
Definition normalizeAdvertise (addr bind : string) (defport : Z) (dev : bool) : res string :=
  addr <-? wrap_err "Error parsing advertise address template" (ParseSingleIPTemplate addr) ;;
  if bool_decide (addr ≠ "") then
    match SplitHostPort addr with
    | inr e =>
        if negb (isMissingPort e) && negb (isTooManyColons e) then
          Err (ErrOther ("Error parsing advertise address " +:+ dquote +:+ addr +:+ dquote
                           +:+ ": " +:+ AddrError_Error e))
        else Ok (JoinHostPort addr (pretty defport))
    | inl _ => Ok addr
    end
  else
    ips <-? wrap_err ("Error resolving bind address " +:+ dquote +:+ bind +:+ dquote)
             (LookupIP bind) ;;
    match pick_ip dev defport ips with
    | Some r => r
    | None =>
        addr <-? wrap_err "unable to parse default advertise address"
                  (ParseSingleIPTemplate "{{ GetPrivateIP }}") ;;
        Ok (JoinHostPort addr (pretty defport))
    end.

(** [c.normalizeAddrs()]: the fields are assigned one after the other, so that those
    before an error stay assigned. *)
Definition normalizeAddrs : M Config unit :=
  c <- getM ;;
  (if bool_decide (c.(BindAddr) ≠ "") then
     ip <- liftM (wrap_err "bind address resolution failed" (ParseSingleIPTemplate c.(BindAddr))) ;;
     (λ c, (Ok tt, set_BindAddr ip c))
   else retM tt) ;;;
  c <- getM ;;
  (if bool_decide (c.(HTTPAddr) ≠ "") then
     ip <- liftM (wrap_err "bind address resolution failed" (ParseSingleIPTemplate c.(HTTPAddr))) ;;
     (λ c, (Ok tt, set_HTTPAddr ip c))
   else retM tt) ;;;
  c <- getM ;;
  addr <- liftM (wrap_err
    ("failed to parse HTTP advertise address (" +:+ c.(AdvertiseAddr) +:+ ", " +:+ c.(BindAddr)
       +:+ ", " +:+ pretty DefaultBindPort +:+ ", " +:+ FormatBool c.(DevMode) +:+ ")")
    (normalizeAdvertise c.(AdvertiseAddr) c.(BindAddr) DefaultBindPort c.(DevMode))) ;;
  (λ c, (Ok tt, set_AdvertiseAddr addr c)).

(** [c.AddrParts(address)]: the loop at [START] adds the default port as long as the
    port is missing.  [None]: still looping when the fuel is spent. *)
Fixpoint AddrParts_fuel (fuel : nat) (checkAddr : string) : option (res (string * Z)) :=
  match fuel with
  | O => None
  | S fuel' =>
      match SplitHostPort checkAddr with
      | inr e =>
          if bool_decide (e.(AE_Err) = missingPort) then
            AddrParts_fuel fuel' (checkAddr +:+ ":" +:+ pretty DefaultBindPort)
          else Some (Err (ErrOther (AddrError_Error e)))
      | inl _ =>
          Some (addr <-? ResolveTCPAddr checkAddr ;;
                Ok (IP_String addr.(TCP_IP), addr.(TCP_Port)))
      end
  end.

(** A bracketed host followed by something other than a colon. *)
Definition stray_bracket (s : string) : bool :=
  match s with
  | String "["%char rest =>
      match cut "]" rest with
      | Some (_, String c _) => bool_decide (c ≠ ":"%char)
      | _ => false
      end
  | _ => false
  end.

(** ** [AddrParts] *)

Lemma cut_app_r c s t x y : cut c s = Some (x, y) → cut c (s +:+ t) = Some (x, y +:+ t).
Proof.
  revert x y. induction s as [|a s IH]; intros x y; [done|]. rewrite app_cons. simpl.
  case_decide; [by intros [= <- <-]|]. destruct (cut c s) as [[x' y']|]; [|done].
  intros [= <- <-]. by rewrite (IH x' y').
Qed.

Lemma is_bracket {A} c (x y : A) :
  match c with "["%char => x | _ => y end = if decide (c = "["%char) then x else y.
Proof. by destruct c as [[] [] [] [] [] [] [] []]. Qed.

Lemma stray_bracket_app s t : stray_bracket s = true → stray_bracket (s +:+ t) = true.
Proof.
  destruct s as [|a s]; [done|]. rewrite app_cons. simpl. rewrite !is_bracket.
  case_decide; [|done]. destruct (cut "]" s) as [[h [|c after]]|] eqn:E; [done| |done].
  by rewrite (cut_app_r _ _ t _ _ E).
Qed.

Lemma stray_bracket_missing s :
  stray_bracket s = true → SplitHostPort s = inr (mkAddrError missingPort s).
Proof.
  unfold SplitHostPort. destruct s as [|a s]; [done|]. simpl stray_bracket.
  rewrite is_bracket. case_decide as Ha; [subst|done].
  destruct (cut "]" s) as [[h [|c after]]|]; [done| |done]. intros Hc%bool_decide_eq_true.
  destruct (cut_last ":" (String "[" s)) as [[pre port]|]; [|done].
  rewrite bool_decide_eq_false_2 by done. done.
Qed.

Lemma cut_None c s t : has_byte c t = false → cut c s = None → cut c (s +:+ t) = None.
Proof.
  intros Ht. induction s as [|a s IH]; simpl.
  - intros _. rewrite app_nil_l. induction t as [|b t IHt]; simpl in *; [done|].
    apply orb_false_iff in Ht as [Hb Ht]. apply bool_decide_eq_false in Hb.
    rewrite decide_False by done. by rewrite IHt.
  - case_decide; [done|].
    destruct (cut c s) as [[]|]; [done|]. intros _. by rewrite IH.
Qed.

Definition default_port_suffix : string := ":" +:+ pretty DefaultBindPort.

Lemma cut_last_no c s : cut_last c s = None → has_byte c s = false.
Proof.
  induction s as [|a s IH]; simpl; [done|].
  destruct (cut_last c s) as [[]|]; [done|]. case_decide; [done|]. intros _.
  rewrite IH by done. by rewrite bool_decide_eq_false_2.
Qed.

Lemma cut_no_byte c d s x y : cut c s = Some (x, y) → has_byte d s = false → has_byte d y = false.
Proof.
  revert x y. induction s as [|a s IH]; intros x y; simpl; [done|].
  intros Hcut [Ha Hs]%orb_false_iff. case_decide; [by simplify_eq|].
  destruct (cut c s) as [[x' y']|]; [|done]. simplify_eq. by eapply IH.
Qed.

Lemma has_byte_cons c a s : has_byte c (String a s) = bool_decide (a = c) || has_byte c s.
Proof. done. Qed.

(** With the default port added, the port is no longer missing. *)
Lemma missing_once s e :
  stray_bracket s = false → SplitHostPort s = inr e → e.(AE_Err) = missingPort →
  match SplitHostPort (s +:+ default_port_suffix) with
  | inr e' => e'.(AE_Err) ≠ missingPort
  | inl _ => True
  end.
Proof.
  intros Hs He Hm. change default_port_suffix with (String ":" "8946").
  assert (cut_last ":" s = None ∨ ∃ h, s = String "[" h ∧ ∃ h', cut "]" h = Some (h', "")) as Hcase.
  { unfold SplitHostPort in He. destruct (cut_last ":" s) as [[pre port]|] eqn:El; [right|by left].
    destruct s as [|a s]; [done|]. clear El.
    rewrite is_bracket in He. simpl in Hs. rewrite is_bracket in Hs. case_decide as Ha.
    - subst a. exists s. split; [done|]. destruct (cut "]" s) as [[h [|c after]]|]; [eauto| |].
      + apply bool_decide_eq_false in Hs. apply dec_stable in Hs as ->. simpl in He.
        repeat case_match; by simplify_eq.
      + by simplify_eq.
    - repeat case_match; by simplify_eq. }
  unfold SplitHostPort. rewrite cut_last_app by done. destruct Hcase as [Hn|(h & -> & h' & Hh)].
  - apply cut_last_no in Hn. destruct s as [|a s]; [simpl; done|]. rewrite app_cons, is_bracket.
    case_decide as Ha.
    + subst a. simpl in Hs. destruct (cut "]" s) as [[h [|c after]]|] eqn:Hc.
      * rewrite (cut_app_r _ _ _ _ _ Hc). simpl. repeat destruct (has_byte _ _); simpl; done.
      * apply bool_decide_eq_false, dec_stable in Hs as ->.
        rewrite has_byte_cons in Hn. apply orb_false_iff in Hn as [_ Hn].
        apply (cut_no_byte _ ":" _ _ _ Hc) in Hn. by rewrite has_byte_cons in Hn.
      * rewrite cut_None by done. done.
    + repeat destruct (has_byte _ _); simpl; done.
  - rewrite app_cons. rewrite (cut_app_r _ _ _ _ _ Hh). simpl. repeat destruct (has_byte _ _); simpl; done.
Qed.

Lemma AddrParts_diverges address :
  stray_bracket address = true → ∀ fuel, AddrParts_fuel fuel address = None.
Proof.
  intros Hs fuel. revert address Hs. induction fuel as [|fuel IH]; intros address Hs; [done|].
  simpl. rewrite stray_bracket_missing by done. rewrite bool_decide_eq_true_2 by done.
  by apply IH, stray_bracket_app.
Qed.

(** C34: when [AddrParts] ends.  An address with something other than a colon behind
    a closing bracket never gets a port: the loop adds the default port for ever and
    no fuel is enough.  Every other address is decided within two rounds. *)
Theorem AddrParts_decided address :
  if stray_bracket address then ∀ fuel, AddrParts_fuel fuel address = None
  else ∃ r, ∀ fuel, AddrParts_fuel (2 + fuel) address = Some r.
Proof.
  destruct (stray_bracket address) eqn:Hs.
  - by apply AddrParts_diverges.
  - change (∃ r, ∀ fuel : nat, AddrParts_fuel (S (S fuel)) address = Some r). simpl.
    destruct (SplitHostPort address) as [hp|e] eqn:He; [by eexists|].
    case_bool_decide as Hm; [|by eexists].
    pose proof (missing_once address e Hs He Hm) as Ho. fold default_port_suffix.
    destruct (SplitHostPort (address +:+ default_port_suffix)) as [hp|e'] eqn:He'; [by eexists|].
    rewrite bool_decide_eq_false_2 by done. by eexists.
Qed.

(** ** The advertise address *)

Definition no_brackets (s : string) : Prop := has_byte "[" s = false ∧ has_byte "]" s = false.

Lemma no_brackets_app s t : no_brackets (s +:+ t) ↔ no_brackets s ∧ no_brackets t.
Proof. unfold no_brackets. rewrite !has_byte_app, !orb_false_iff. tauto. Qed.

Lemma pretty_no_brackets (z : Z) :
  no_brackets (pretty z) ∧ has_byte ":" (pretty z) = false.
Proof.
  assert (∀ n : N, no_brackets (pretty n) ∧ has_byte ":" (pretty n) = false) as HN.
  { intros n. split; [split|]; (eapply all_bytes_no_byte; [apply pretty_N_digits|done]). }
  destruct (decide (0 ≤ z)); [rewrite pretty_Z_nonneg by done; apply HN|].
  rewrite pretty_Z_neg by lia. destruct (HN (Z.to_N (- z))) as [[H1 H2] H3].
  unfold no_brackets. simpl. by rewrite H1, H2, H3.
Qed.

Lemma hex_digit_no_brackets n : 0 ≤ n < 16 → no_brackets (hex_digit n).
Proof.
  intros Hn. assert (∃ k : nat, n = Z.of_nat k ∧ (k < 16)%nat) as (k & -> & Hk).
  { exists (Z.to_nat n). lia. }
  do 16 (destruct k as [|k]; [split; reflexivity|]). lia.
Qed.

Lemma hex16_no_brackets n : 0 ≤ n < 65536 → no_brackets (hex16 n).
Proof.
  intros Hn. unfold hex16. rewrite !no_brackets_app.
  split_and!; try (case_match; [|by split]); apply hex_digit_no_brackets;
    try apply Z.mod_pos_bound; try lia.
  split; [apply Z.div_pos; lia|]. apply Z.div_lt_upper_bound; lia.
Qed.

Lemma Join_no_brackets l sep :
  no_brackets sep → Forall no_brackets l → no_brackets (Join l sep).
Proof.
  intros Hs. induction 1 as [|x l Hx Hl IH]; [done|]. simpl. destruct l; [done|].
  by rewrite !no_brackets_app.
Qed.

Lemma groups_bound ip : Forall (in_uint 8) ip → Forall (λ n, 0 ≤ n < 65536) (groups ip).
Proof.
  revert ip. fix IH 1. intros [|a [|b r]] Hip; [constructor..|].
  inversion_clear Hip as [|? ? Ha Hr]. inversion_clear Hr as [|? ? Hb Hr'].
  cbn [groups]. constructor; [|by apply IH]. unfold in_uint in *. lia.
Qed.

Lemma IP_String_no_brackets ip : Forall (in_uint 8) ip → no_brackets (IP_String ip).
Proof.
  intros Hip. unfold IP_String. destruct ip as [|x ip']; [done|].
  remember (x :: ip') as ip eqn:Eip. clear Eip x ip'.
  assert (∀ l, Forall (in_uint 8) l → no_brackets
    (Join ((λ b, hex_digit (b / 16) +:+ hex_digit (b mod 16)) <$> l) "")) as Hhex.
  { intros l Hl. apply Join_no_brackets; [done|]. rewrite Forall_fmap.
    eapply Forall_impl; [exact Hl|]. intros b Hb. unfold in_uint in Hb. simpl.
    apply no_brackets_app. split; apply hex_digit_no_brackets; [|by apply Z.mod_pos_bound].
    split; [apply Z.div_pos; lia|apply Z.div_lt_upper_bound; lia]. }
  assert (∀ g, Forall (λ n, 0 ≤ n < 65536) g → no_brackets (Join (hex16 <$> g) ":")) as Hg.
  { intros g H. apply Join_no_brackets; [done|]. rewrite Forall_fmap.
    eapply Forall_impl; [exact H|]. apply hex16_no_brackets. }
  pose proof (groups_bound ip Hip) as Hb.
  assert (no_brackets (if bool_decide (length ip = 16%nat) then
            let '(e, z) := longest_run 0 0 (O, O) (groups ip) in
            if bool_decide (z < 2)%nat then Join (hex16 <$> groups ip) ":"
            else Join (hex16 <$> take e (groups ip)) ":" +:+ "::"
                   +:+ Join (hex16 <$> drop (e + z) (groups ip)) ":"
          else "?" +:+ Join ((λ b, hex_digit (b / 16) +:+ hex_digit (b mod 16)) <$> ip) ""))
    as Hother.
  { case_bool_decide; [|apply no_brackets_app; split; [done|by apply Hhex]].
    destruct (longest_run _ _ _ _) as [e z]. case_bool_decide; [by apply Hg|].
    rewrite !no_brackets_app. split_and!; [|done|]; apply Hg;
      [by apply Forall_take|by apply Forall_drop]. }
  destruct (To4 ip) as [|a [|b [|c [|d []]]]]; try done.
  rewrite !no_brackets_app. split_and!; try done; apply pretty_no_brackets.
Qed.


Lemma SplitHostPort_join host (defport : Z) :
  no_brackets host →
  SplitHostPort (JoinHostPort host (pretty defport)) = inl (host, pretty defport).
Proof.
  intros [? ?]. destruct (pretty_no_brackets defport) as [[? ?] ?].
  by apply SplitHostPort_JoinHostPort.
Qed.

Lemma loopback_not_link_local ip : IsLoopback ip = true → IsLinkLocalUnicast ip = false.
Proof.
  unfold IsLoopback, IsLinkLocalUnicast. destruct (To4 ip) as [|a [|b l]] eqn:E4.
  - unfold IP_Equal. rewrite E4. intros [Hb|Hb]%orb_true_iff.
    { apply bool_decide_eq_true in Hb as ->. done. }
    apply andb_true_iff in Hb as [Hb _]. by apply bool_decide_eq_true in Hb.
  - exfalso. unfold To4 in E4. repeat case_bool_decide; [by subst| |done].
    apply (f_equal length) in E4. rewrite length_drop in E4. simpl in E4. lia.
  - intros Ha%Z.eqb_eq. apply andb_false_iff. left. apply Z.eqb_neq. lia.
Qed.

Lemma pick_ip_Ok dev defport ips r :
  pick_ip dev defport ips = Some (Ok r) →
  ∃ ip, ip ∈ ips ∧ r = JoinHostPort (IP_String ip) (pretty defport) ∧
    (IsLoopback ip = true → dev = true).
Proof.
  induction ips as [|ip ips IH]; simpl; [done|].
  destruct (IsLinkLocalUnicast ip || IsGlobalUnicast ip) eqn:Hu.
  - intros [= <-]. exists ip. split_and!; [set_solver|done|]. intros Hl. exfalso.
    rewrite loopback_not_link_local in Hu by done. unfold IsGlobalUnicast in Hu.
    rewrite Hl in Hu. cbn [negb] in Hu. by rewrite andb_false_r in Hu.
  - destruct (IsLoopback ip) eqn:Hl; [destruct dev; [|done]; intros [= <-]|].
    + exists ip. split_and!; [set_solver|done|done].
    + intros (ip' & Hin & -> & Hip')%IH. exists ip'. split_and!; [set_solver|done|done].
Qed.

(** The advertise address.  When [normalizeAdvertise] succeeds, the result splits
    into a host and a port: it is the configured address when that has a port, and
    otherwise carries the default port; when no address is configured the host is an
    address of the bind host (a loopback one only in development mode) or the private
    address of the machine.  Addresses without a port are to come without brackets. *)
Theorem normalizeAdvertise_spec addr bind defport dev r :
  (∀ a, ParseSingleIPTemplate addr = Ok a → no_brackets a ∨ ∃ hp, SplitHostPort a = inl hp) →
  (∀ p, ParseSingleIPTemplate "{{ GetPrivateIP }}" = Ok p → no_brackets p) →
  normalizeAdvertise addr bind defport dev = Ok r →
  ∃ host port, SplitHostPort r = inl (host, port) ∧
    (ParseSingleIPTemplate addr = Ok r ∨ port = pretty defport) ∧
    (ParseSingleIPTemplate addr = Ok "" → ∃ ips, LookupIP bind = Ok ips ∧
       ((∃ ip, ip ∈ ips ∧ host = IP_String ip ∧ (IsLoopback ip = true → dev = true)) ∨
        ParseSingleIPTemplate "{{ GetPrivateIP }}" = Ok host)).
Proof.
  intros Ha Hp. unfold normalizeAdvertise.
  destruct (ParseSingleIPTemplate addr) as [a|e|w]; [|done..]. cbn [wrap_err res_bind].
  case_bool_decide as Hne.
  { destruct (SplitHostPort a) as [[h p]|e] eqn:Hs.
    - intros [= <-]. exists h, p. split_and!; [done|by left|]. intros [= ->]. done.
    - case_match; [done|]. intros [= <-].
      destruct (Ha a eq_refl) as [Hb|[hp Hhp]]; [|congruence].
      exists a, (pretty defport). rewrite SplitHostPort_join by done.
      split_and!; [done|by right|]. intros [= ->]. done. }
  destruct (LookupIP bind) as [ips|e|w] eqn:Hl; [|done..]. cbn [wrap_err res_bind].
  destruct (pick_ip dev defport ips) as [[r'|?|?]|] eqn:Hpick; [|done..|].
  - intros [= ->]. destruct (pick_ip_Ok _ _ _ _ Hpick) as (ip & Hin & -> & Hlo).
    exists (IP_String ip), (pretty defport). rewrite SplitHostPort_join.
    { split_and!; [done|by right|]. intros _. exists ips. split; [done|]. left. eauto. }
    apply IP_String_no_brackets. apply LookupIP_bytes in Hl. rewrite Forall_forall in Hl. auto.
  - destruct (ParseSingleIPTemplate "{{ GetPrivateIP }}") as [p|?|?]; [|done..].
    cbn [wrap_err res_bind]. intros [= <-]. exists p, (pretty defport).
    rewrite SplitHostPort_join by auto. split_and!; [done|by right|].
    intros _. exists ips. split; [done|]. by right.
Qed.
End Addresses.

(** ** Examples *)
Module ConfigExample.

(** A host that knows two names, in a network without templates. *)
Definition toy_LookupIP (h : string) : res (list IP) :=
  if bool_decide (h = "localhost") then Ok [IPv4 [127; 0; 0; 1]]
  else if bool_decide (h = "node1") then Ok [IPv4 [10; 0; 0; 1]]
  else Err (ErrOther ("lookup " +:+ h +:+ ": no such host")).

Definition toy_Resolve (s : string) : res TCPAddr :=
  match SplitHostPort s with
  | inl (h, p) => Ok (mkTCPAddr (ParseIP h) (Atoi p).1)
  | inr e => Err (ErrOther (AddrError_Error e))
  end.

#[export, refine] Instance ToyResolver : Resolver :=
  {| template_Parse s := Ok s; LookupIP := toy_LookupIP; ResolveTCPAddr := toy_Resolve |}.
Proof.
  intros h ips. unfold toy_LookupIP.
  repeat case_bool_decide; intros [= <-]; refine (bool_decide_unpack _ _); vm_compute; exact I.
Defined.

Lemma normalizeAdvertise_spec_witness :
  normalizeAdvertise "10.0.0.1" "" 8946 false = Ok "10.0.0.1:8946" ∧
  ∃ host port, SplitHostPort "10.0.0.1:8946" = inl (host, port) ∧
    (ParseSingleIPTemplate "10.0.0.1" = Ok "10.0.0.1:8946" ∨ port = pretty 8946).
Proof.
  split; [vm_compute; reflexivity|].
  destruct (normalizeAdvertise_spec "10.0.0.1" "" 8946 false "10.0.0.1:8946")
    as (h & p & H1 & H2 & _).
  - intros a [= <-]. left. split; reflexivity.
  - intros a Ha. vm_compute in Ha. discriminate Ha.
  - vm_compute. reflexivity.
  - exists h, p. split; [exact H1|exact H2].
Defined.

(** An advertised loopback address is refused outside development mode. *)
Example localhost_refused :
  normalizeAdvertise "" "localhost" 8946 true = Ok "127.0.0.1:8946" ∧
  normalizeAdvertise "" "localhost" 8946 false =
    Err (ErrOther "defaulting advertise to localhost is unsafe, please set advertise manually").
Proof. split; vm_compute; reflexivity. Qed.

Example address_parts :
  AddrParts_fuel 2 "[::1]" = Some (Ok ("::1", 8946)) ∧
  AddrParts_fuel 2 "10.0.0.1:80" = Some (Ok ("10.0.0.1", 80)) ∧
  AddrParts_fuel 100 "[::1]8946" = None.
Proof. split_and!; vm_compute; reflexivity. Qed.

(** A bracketed IPv6 advertise address without a port gets a second pair of
    brackets, and the result is not an address that can be split again. *)
Theorem advertise_brackets :
  normalizeAdvertise "[fe80::1]" "" 8946 false = Ok "[[fe80::1]]:8946" ∧
  SplitHostPort "[[fe80::1]]:8946" =
    inr (mkAddrError missingPort "[[fe80::1]]:8946") ∧
  ∀ fuel, AddrParts_fuel fuel "[[fe80::1]]:8946" = None.
Proof.
  split_and!; [vm_compute; reflexivity..|]. by apply AddrParts_diverges.
Qed.
End ConfigExample.
