(* ===== verification/Pb.v ===== *)
(** * Protocol-buffer messages and the libraries that convert them

    The message structs of [plugin/types/dkron.pb.go] that the core exchanges and
    stores, and the interfaces of the two libraries that handle them:
    [golang/protobuf/ptypes] (timestamps) and [golang/protobuf/proto] (wire
    format).  Neither library is part of the repository, so both are type
    classes: their operations are parameters, and the fields that follow the
    operations are the documented behaviour that the code relies on.

    Go maps are [gmap]s and slices are lists; nil and empty are only told apart
    where the code does ([PluginConfig.Config], a nil map that would panic when
    written to). *)
From Stdlib Require Import ZArith Lia.
From stdpp Require Import base list gmap strings.
From S2P Require Import Prelude GoStrings GoTime.

#[local] Open Scope Z_scope.

(** [google.protobuf.Timestamp] *)
Record timestamp := mkTimestamp { Seconds : Z; Nanos : Z }.

(** [type Job_NullableTime struct] *)
Record pbNullableTime := mkpbNullableTime
  { pbNT_HasValue : bool; pbNT_Time : option timestamp }.

(** [type PluginConfig struct]; [None] is the nil map. *)
Record pbPluginConfig := mkpbPluginConfig
  { pbPC_Config : option (gmap string string) }.

(** [type Job struct] of package [types] *)
Record pbJob := mkpbJob {
  pbJob_Name : string;
  pbJob_Timezone : string;
  pbJob_Schedule : string;
  pbJob_Owner : string;
  pbJob_OwnerEmail : string;
  pbJob_SuccessCount : Z;              (* int32 *)
  pbJob_ErrorCount : Z;                (* int32 *)
  pbJob_Disabled : bool;
  pbJob_Tags : gmap string string;
  pbJob_Retries : Z;                   (* uint32 *)
  pbJob_DependentJobs : list string;
  pbJob_ParentJob : string;
  pbJob_Concurrency : string;
  pbJob_Executor : string;
  pbJob_ExecutorConfig : gmap string string;
  pbJob_Status : string;
  pbJob_Metadata : gmap string string;
  pbJob_LastSuccess : option pbNullableTime;
  pbJob_LastError : option pbNullableTime;
  pbJob_Next : option timestamp;
  pbJob_Displayname : string;
  pbJob_Processors : gmap string pbPluginConfig
}.

(** [type Execution struct] of package [types] *)
Record pbExecution := mkpbExecution {
  pbEx_JobName : string;
  pbEx_Success : bool;
  pbEx_Output : string;
  pbEx_NodeName : string;
  pbEx_Group : Z;                      (* int64 *)
  pbEx_Attempt : Z;                    (* uint32 *)
  pbEx_StartedAt : option timestamp;
  pbEx_FinishedAt : option timestamp
}.

(** [type DeleteJobRequest struct] *)
Record pbDeleteJobRequest := mkpbDeleteJobRequest { pbDJR_JobName : string }.

(** [type ExecutionDoneRequest struct]; the execution is a pointer. *)
Record pbExecutionDoneRequest := mkpbExecutionDoneRequest
  { pbEDR_Execution : option pbExecution }.

(** The zero value of a message, [var pbj dkronpb.Job]. *)
Definition pbJob_zero : pbJob :=
  mkpbJob "" "" "" "" "" 0 0 false ∅ 0 [] "" "" "" ∅ "" ∅ None None None "" ∅.

Definition pbExecution_zero : pbExecution :=
  mkpbExecution "" false "" "" 0 0 None None.

(** [GetHasValue] and [GetTime] of [Job_NullableTime]: safe on a nil receiver. *)
Definition GetHasValue (m : option pbNullableTime) : bool :=
  match m with Some v => v.(pbNT_HasValue) | None => false end.
Definition GetTime (m : option pbNullableTime) : option timestamp :=
  match m with Some v => v.(pbNT_Time) | None => None end.

(** ** [golang/protobuf/ptypes] *)

(** The instants that a [Timestamp] message may hold: years 1 to 9999. *)
Definition valid_time (t : time) : Prop :=
  -62135596800 * nanos_per_sec ≤ t < 253402300800 * nanos_per_sec.
#[export] Instance valid_time_dec t : Decision (valid_time t).
Proof. unfold valid_time. apply _. Defined.

Class Ptypes := {
  (** [ptypes.Timestamp(ts)], whose error the code always drops *)
  Timestamp : option timestamp → time;
  (** [ptypes.TimestampProto(t)]; nil when the instant is out of range *)
  TimestampProto : time → option timestamp;
  (** a nil message is treated like the empty one: the Unix epoch *)
  Timestamp_nil : Timestamp None = 0;
  (** a representable instant is converted without loss *)
  Timestamp_TimestampProto t :
    valid_time t → ∃ ts, TimestampProto t = Some ts ∧ Timestamp (Some ts) = t
                         ∧ ts.(Seconds) = Unix t;
  TimestampProto_invalid t : ¬ valid_time t → TimestampProto t = None
}.

Lemma TimestampProto_Some `{!Ptypes} t ts :
  TimestampProto t = Some ts → valid_time t ∧ Timestamp (Some ts) = t ∧ ts.(Seconds) = Unix t.
Proof.
  intros E. destruct (decide (valid_time t)) as [Hv|Hv].
  - destruct (Timestamp_TimestampProto t Hv) as (ts' & E' & ? & ?). naive_solver.
  - rewrite TimestampProto_invalid in E by done. done.
Qed.

Lemma Timestamp_id `{!Ptypes} t : valid_time t → Timestamp (TimestampProto t) = t.
Proof. intros Hv. by destruct (Timestamp_TimestampProto t Hv) as (ts & -> & ? & _). Qed.

Lemma time_zero_valid : valid_time time_zero.
Proof. unfold valid_time, time_zero, nanos_per_sec. lia. Qed.

(** ** [golang/protobuf/proto] *)

(** The wire format of a message type.  [Unmarshal] returns the message as far as
    it was read, next to the error.  [wire] is what a round trip makes of a
    message: the wire format does not tell an empty map from a nil one.
    [encodable] messages are the ones [Marshal] accepts. *)
Class Codec (A : Type) := {
  Marshal : A → res string;
  Unmarshal : string → A * option error;
  wire : A → A;
  encodable : A → Prop;
  Marshal_no_crash a w : Marshal a ≠ Crash w;
  Marshal_encodable a : encodable a ↔ ∃ s, Marshal a = Ok s;
  Unmarshal_Marshal a s : Marshal a = Ok s → Unmarshal s = (wire a, None)
}.
#[global] Hint Mode Codec ! : typeclass_instances.

(** A plugin configuration after a round trip. *)
Definition wire_PluginConfig (c : pbPluginConfig) : pbPluginConfig :=
  match c.(pbPC_Config) with
  | Some m => mkpbPluginConfig (if decide (m = ∅) then None else Some m)
  | None => c
  end.

(** A job after a round trip. *)
Definition wire_Job (j : pbJob) : pbJob :=
  mkpbJob j.(pbJob_Name) j.(pbJob_Timezone) j.(pbJob_Schedule) j.(pbJob_Owner)
    j.(pbJob_OwnerEmail) j.(pbJob_SuccessCount) j.(pbJob_ErrorCount) j.(pbJob_Disabled)
    j.(pbJob_Tags) j.(pbJob_Retries) j.(pbJob_DependentJobs) j.(pbJob_ParentJob)
    j.(pbJob_Concurrency) j.(pbJob_Executor) j.(pbJob_ExecutorConfig) j.(pbJob_Status)
    j.(pbJob_Metadata) j.(pbJob_LastSuccess) j.(pbJob_LastError) j.(pbJob_Next)
    j.(pbJob_Displayname) (wire_PluginConfig <$> j.(pbJob_Processors)).

(** Every string of a job message. *)
Definition pairs_strings (m : gmap string string) : list string :=
  (map_to_list m).*1 ++ (map_to_list m).*2.
Definition config_strings (c : pbPluginConfig) : list string :=
  match c.(pbPC_Config) with Some m => pairs_strings m | None => [] end.
Definition job_strings (j : pbJob) : list string :=
  [j.(pbJob_Name); j.(pbJob_Timezone); j.(pbJob_Schedule); j.(pbJob_Owner);
   j.(pbJob_OwnerEmail); j.(pbJob_ParentJob); j.(pbJob_Concurrency); j.(pbJob_Executor);
   j.(pbJob_Status); j.(pbJob_Displayname)]
  ++ j.(pbJob_DependentJobs)
  ++ pairs_strings j.(pbJob_Tags) ++ pairs_strings j.(pbJob_ExecutorConfig)
  ++ pairs_strings j.(pbJob_Metadata)
  ++ (map_to_list j.(pbJob_Processors)).*1
  ++ concat (config_strings <$> (map_to_list j.(pbJob_Processors)).*2).

(** The codec of the four messages that are stored or sent through the log, with
    what a round trip makes of each. *)
Class Proto := {
  Job_codec :: Codec pbJob;
  Execution_codec :: Codec pbExecution;
  DeleteJobRequest_codec :: Codec pbDeleteJobRequest;
  ExecutionDoneRequest_codec :: Codec pbExecutionDoneRequest;
  (** the strings of a message must be valid UTF-8, and that is all *)
  encodable_pbJob (j : pbJob) : encodable j ↔ Forall (λ s, valid_utf8 s = true) (job_strings j);
  encodable_pbExecution (e : pbExecution) :
    encodable e ↔ valid_utf8 e.(pbEx_JobName) = true ∧ valid_utf8 e.(pbEx_NodeName) = true;
  (** the empty byte string is the encoding of the zero message *)
  Unmarshal_empty : Unmarshal (A:=pbExecution) "" = (pbExecution_zero, None);
  wire_pbJob (j : pbJob) : wire j = wire_Job j;
  wire_pbExecution (e : pbExecution) : wire e = e;
  wire_pbDeleteJobRequest (r : pbDeleteJobRequest) : wire r = r;
  wire_pbExecutionDoneRequest (r : pbExecutionDoneRequest) : wire r = r
}.
