(* ===== verification/NTime.v ===== *)
(** * [ntime/nullabletime.go]: a time that may be unset *)
From Stdlib Require Import ZArith Lia.
From stdpp Require Import base strings.
From S2P Require Import Prelude GoStrings GoTime.

#[local] Open Scope Z_scope.

(** [type NullableTime struct] *)
Record NullableTime := mkNullableTime { hasValue : bool; ntime : time }.

(** The zero value of the struct. *)
Definition NullableTime_zero : NullableTime := mkNullableTime false time_zero.

Definition HasValue (t : NullableTime) : bool := t.(hasValue).

(** [Set]: the equivalent of an assignment. *)
Definition NullableTime_Set (t : NullableTime) (newTime : time) : NullableTime :=
  mkNullableTime true newTime.

(** [Unset]: only the flag is cleared, the old instant stays in the field. *)
Definition NullableTime_Unset (t : NullableTime) : NullableTime :=
  mkNullableTime false t.(ntime).

(** [Get] panics if no value is set. *)
Definition NullableTime_Get (t : NullableTime) : res time :=
  if t.(hasValue) then Ok t.(ntime)
  else Crash "runtime error: attempt to get value of NullableTime set to nil.".

Definition NullableTime_After (t u : NullableTime) : bool :=
  if negb t.(hasValue) then false
  else if negb u.(hasValue) then true
  else After t.(ntime) u.(ntime).

(** What the two fields mean: an optional instant. *)
Definition nt_value (t : NullableTime) : option time :=
  if t.(hasValue) then Some t.(ntime) else None.

(** The order [After] implements on optional instants: unset is below everything. *)
Definition opt_time_lt (a b : option time) : Prop :=
  match a, b with
  | None, Some _ => True
  | Some x, Some y => x < y
  | _, None => False
  end.

(** [NullableTime_After t u] decides that [u] is strictly below [t] in that order. *)
Lemma NullableTime_After_spec t u :
  NullableTime_After t u = true ↔ opt_time_lt (nt_value u) (nt_value t).
Proof.
  unfold NullableTime_After, nt_value, After.
  destruct t as [[] x], u as [[] y]; simpl; try done. by rewrite Z.ltb_lt.
Qed.

(** The later of two optional instants, unset counting as the earliest. *)
Definition nt_max (t u : option time) : option time :=
  match t, u with
  | Some x, Some y => Some (Z.max x y)
  | Some x, None => Some x
  | None, _ => u
  end.

(** Keeping [t] when it is [After] [u], and [u] otherwise, keeps the later one. *)
Lemma NullableTime_merge_max t u :
  nt_value (if NullableTime_After t u then t else u) = nt_max (nt_value t) (nt_value u).
Proof.
  unfold NullableTime_After, nt_value, nt_max, After.
  destruct t as [[] x], u as [[] y]; simpl; try done.
  destruct (Z.ltb_spec y x); simpl; f_equal; lia.
Qed.

Lemma opt_time_lt_irrefl a : ¬ opt_time_lt a a.
Proof. destruct a; simpl; [lia|tauto]. Qed.

Lemma opt_time_lt_trans a b c : opt_time_lt a b → opt_time_lt b c → opt_time_lt a c.
Proof. destruct a, b, c; simpl; try done. lia. Qed.
