(* ===== verification/TimeJson.v ===== *)
(** * The JSON form of times: [time.Time] and [NullableTime]

    [time.Time.MarshalJSON] prints an instant in the RFC 3339 form, at the offset of its
    location (an argument here, since an instant is all that the model keeps of a time);
    [UnmarshalJSON] reads it back.  [ntime/nullabletime.go] adds the [null] of a time that
    is not set.  What is printed is read back as the same instant, for every offset of
    whole minutes: the calendar is inverted, and every field is parsed again. *)
From Stdlib Require Import ZArith Lia Ascii.
From stdpp Require Import base list strings.
From S2P Require Import Prelude GoStrings GoTime NTime.

#[local] Open Scope Z_scope.

(** ** The calendar, from days to dates *)

(** A year of the 400-year cycle: the year and the day in it, of the days since the first
    of January of year 1 ([absDate]).  The last day of a cycle belongs to its last year. *)
Definition year_day (days : Z) : Z * Z :=
  let n400 := days / 146097 in
  let d := days mod 146097 in
  let n100 := d / 36524 - d / 36524 / 4 in
  let d := d - 36524 * n100 in
  let n4 := d / 1461 in
  let d := d - 1461 * n4 in
  let n1 := d / 365 - d / 365 / 4 in
  (400 * n400 + 100 * n100 + 4 * n4 + n1 + 1, d - 365 * n1).

(** Month and day of the month. *)
Definition month_day (leap : bool) (yday : Z) : Z * Z :=
  if leap && (yday =? 59) then (2, 29)
  else
    let day := if leap && (59 <? yday) then yday - 1 else yday in
    let month := day / 31 in
    if (month <? 11) && (days_before (month + 2) <=? day)
    then (month + 2, day - days_before (month + 2) + 1)
    else (month + 1, day - days_before (month + 1) + 1).

(** [t.Date()] of the days since the first of January 1970. *)
Definition civil (unix_day : Z) : Z * Z * Z :=
  let '(y, yday) := year_day (unix_day + 719162) in
  let '(m, d) := month_day (is_leap y) yday in
  (y, m, d).

Lemma year_day_parts days :
  ∃ a b c e, 0 ≤ b ≤ 3 ∧ 0 ≤ c ≤ 24 ∧ 0 ≤ e ≤ 3 ∧
    let yday := days - 146097 * a - 36524 * b - 1461 * c - 365 * e in
    year_day days = (400 * a + 100 * b + 4 * c + e + 1, yday) ∧
    0 ≤ yday < 366 ∧ (yday = 365 → e = 3 ∧ (c = 24 → b = 3)).
Proof.
  unfold year_day. set (a := days / 146097).
  pose proof (Z.mod_pos_bound days 146097 ltac:(lia)) as Hd.
  assert (days = 146097 * a + days mod 146097) as Ed by (apply Z_div_mod_eq_full).
  set (d := days mod 146097) in *. clearbody a d. cbv zeta.
  set (b := d / 36524 - d / 36524 / 4).
  assert (0 ≤ b ≤ 3 ∧ 0 ≤ d - 36524 * b ≤ 36524 ∧ (d - 36524 * b = 36524 → b = 3)) as (Hb & Hd1 & Hb3).
  { subst b. Z.to_euclidean_division_equations. lia. }
  clearbody b. set (d1 := d - 36524 * b) in *. assert (d = 36524 * b + d1) as Ed1 by (subst d1; lia).
  clearbody d1. set (c := d1 / 1461).
  assert (0 ≤ c ≤ 24 ∧ 0 ≤ d1 - 1461 * c < 1461 ∧ (c = 24 → d1 - 1461 * c = 1460 → b = 3)) as (Hc & Hd2 & Hc24).
  { subst c. Z.to_euclidean_division_equations. lia. }
  clearbody c. set (d2 := d1 - 1461 * c) in *. assert (d1 = 1461 * c + d2) as Ed2 by (subst d2; lia).
  clearbody d2. set (e := d2 / 365 - d2 / 365 / 4).
  assert (0 ≤ e ≤ 3 ∧ 0 ≤ d2 - 365 * e ≤ 365 ∧ (d2 - 365 * e = 365 → e = 3)) as (He & Hd3 & He3).
  { subst e. Z.to_euclidean_division_equations. lia. }
  clearbody e. exists a, b, c, e. split_and!; try lia. f_equal. lia.
Qed.

(** The number of days before a year, and whether it is a leap year, from its parts. *)
Lemma year_parts a b c e :
  0 ≤ b ≤ 3 → 0 ≤ c ≤ 24 → 0 ≤ e ≤ 3 →
  let y := 400 * a + 100 * b + 4 * c + e + 1 in
  365 * (y - 1) + (y - 1) / 4 - (y - 1) / 100 + (y - 1) / 400
    = 146097 * a + 36524 * b + 1461 * c + 365 * e ∧
  (is_leap y = true ↔ e = 3 ∧ (c = 24 → b = 3)).
Proof.
  intros Hb Hc He y.
  assert ((y - 1) / 4 = 100 * a + 25 * b + c) as -> by (subst y; Z.to_euclidean_division_equations; lia).
  assert ((y - 1) / 100 = 4 * a + b) as -> by (subst y; Z.to_euclidean_division_equations; lia).
  assert ((y - 1) / 400 = a) as -> by (subst y; Z.to_euclidean_division_equations; lia).
  split; [subst y; lia|]. unfold is_leap.
  rewrite andb_true_iff, orb_true_iff, negb_true_iff, !Z.eqb_eq, Z.eqb_neq.
  assert (y mod 4 = 0 ↔ e = 3) as -> by (subst y; Z.to_euclidean_division_equations; lia).
  assert (y mod 100 = 0 ↔ e = 3 ∧ c = 24) as -> by (subst y; Z.to_euclidean_division_equations; lia).
  assert (y mod 400 = 0 ↔ e = 3 ∧ c = 24 ∧ b = 3) as -> by (subst y; Z.to_euclidean_division_equations; lia).
  split; [lia|]. intros [-> H]. split; [done|]. destruct (decide (c = 24)); lia.
Qed.

(** All days of a year. *)
Lemma month_day_spec leap yday :
  0 ≤ yday < (if leap : bool then 366 else 365) →
  let '(m, d) := month_day leap yday in
  1 ≤ m ≤ 12 ∧ 1 ≤ d ≤ (if m =? 2 then if leap then 29 else 28
                        else if (m =? 4) || (m =? 6) || (m =? 9) || (m =? 11) then 30 else 31) ∧
  days_before m + (if leap && (2 <? m) then 1 else 0) + (d - 1) = yday.
Proof.
  intros H. set (check := λ yday : Z, let '(m, d) := month_day leap yday in
    in_range 1 12 m && in_range 1 (if m =? 2 then if leap then 29 else 28
        else if (m =? 4) || (m =? 6) || (m =? 9) || (m =? 11) then 30 else 31) d &&
    (days_before m + (if leap && (2 <? m) then 1 else 0) + (d - 1) =? yday)).
  assert (check yday = true) as Hc.
  { assert (forallb (λ n, check (Z.of_nat n)) (seq 0 (if leap then 366 else 365)) = true) as Hall
      by (subst check; by destruct leap; vm_compute).
    rewrite forallb_forall in Hall. specialize (Hall (Z.to_nat yday)).
    rewrite Z2Nat.id in Hall by lia. apply Hall, in_seq. destruct leap; lia. }
  subst check. cbv beta in Hc. destruct (month_day leap yday) as [m d].
  unfold in_range in Hc. rewrite !andb_true_iff, !Z.leb_le, Z.eqb_eq in Hc. lia.
Qed.

(** [civil] is the inverse of [unix_days]. *)
Lemma civil_spec n :
  let '(y, m, d) := civil n in
  unix_days y m d = n ∧ 1 ≤ m ≤ 12 ∧ 1 ≤ d ≤ days_in m y.
Proof.
  unfold civil. destruct (year_day_parts (n + 719162)) as (a & b & c & e & Hb & Hc & He & Ey & Hd & H365).
  rewrite Ey. destruct (year_parts a b c e Hb Hc He) as [Hdays Hleap].
  set (y := 400 * a + 100 * b + 4 * c + e + 1) in *. set (yday := n + 719162 - _ - _ - _ - _) in *.
  pose proof (month_day_spec (is_leap y) yday) as H.
  assert (0 ≤ yday < (if is_leap y then 366 else 365)) as Hy.
  { destruct (is_leap y) eqn:El; [lia|]. split; [lia|]. destruct (decide (yday = 365)) as [E|]; [|lia].
    by apply Hleap in H365. }
  specialize (H Hy). destruct (month_day (is_leap y) yday) as [m d]. destruct H as (Hm & Hdm & Hs).
  split; [|done]. unfold unix_days. lia.
Qed.

(** ** Printing *)

(** The character of a digit. *)
Definition digit (k : Z) : ascii := ascii_of_nat (48 + Z.to_nat k).

(** [appendInt(b, x, width)] *)
Fixpoint int_digits (fuel : nat) (u : Z) (acc : string) : string :=
  match fuel with
  | O => acc
  | S fuel' => if u <? 10 then String (digit u) acc
               else int_digits fuel' (u / 10) (String (digit (u mod 10)) acc)
  end.
Fixpoint zeros (n : nat) (s : string) : string :=
  match n with O => s | S n' => String "0" (zeros n' s) end.
Definition appendInt (x : Z) (width : nat) : string :=
  let buf := int_digits 20 (Z.abs x) "" in
  (if x <? 0 then "-" else "") +:+ zeros (width - String.length buf) buf.

(** [formatNano(b, nanosec, 9, true)]: nine digits without the zeros at the end. *)
Fixpoint low_digits (n : nat) (x : Z) : list Z :=
  match n with O => [] | S n' => low_digits n' (x / 10) ++ [x mod 10] end.
Fixpoint trim_zeros (l : list Z) : list Z :=
  match l with
  | [] => []
  | d :: l' => match trim_zeros l' with
               | [] => if d =? 0 then [] else [d]
               | r => d :: r
               end
  end.
Fixpoint digit_string (l : list Z) (s : string) : string :=
  match l with [] => s | d :: l' => String (digit d) (digit_string l' s) end.
Definition formatNano (nanosec : Z) : string :=
  match trim_zeros (low_digits 9 nanosec) with
  | [] => ""
  | ds => "." +:+ digit_string ds ""
  end.

(** [stdISO8601ColonTZ] for an offset in seconds *)
Definition format_zone (offset : Z) : string :=
  if offset =? 0 then "Z"
  else
    let zone := Z.quot offset 60 in
    (if zone <? 0 then "-" else "+") +:+ appendInt (Z.quot (Z.abs zone) 60) 2
      +:+ ":" +:+ appendInt (Z.rem (Z.abs zone) 60) 2.

(** The instant as the clock of a location shows it, [t.AppendFormat(b, RFC3339Nano)]. *)
Definition clock (offset t : Z) : Z := (t + offset * nanos_per_sec) / nanos_per_sec.
Definition local_year (offset t : Z) : Z := (civil (clock offset t / 86400)).1.1.

Definition FormatRFC3339Nano (offset : Z) (t : time) : string :=
  let secs := clock offset t in
  let '(y, m, d) := civil (secs / 86400) in
  let s := secs mod 86400 in
  appendInt y 4 +:+ "-" +:+ appendInt m 2 +:+ "-" +:+ appendInt d 2 +:+ "T"
    +:+ appendInt (s / 3600) 2 +:+ ":" +:+ appendInt (s / 60 mod 60) 2 +:+ ":"
    +:+ appendInt (s mod 60) 2 +:+ formatNano (t mod nanos_per_sec) +:+ format_zone offset.

(** [json.Marshal(t)] of a time: the error of [MarshalJSON] is wrapped. *)
Definition Marshal_time (offset : Z) (t : time) : res string :=
  if in_range 0 9999 (local_year offset t)
  then Ok (dquote +:+ FormatRFC3339Nano offset t +:+ dquote)
  else Err (ErrOther ("json: error calling MarshalJSON for type time.Time: "
                        +:+ "Time.MarshalJSON: year outside of range [0,9999]")).

(** [MarshalJSON()] *)
Definition NullableTime_MarshalJSON (offset : Z) (t : NullableTime) : res string :=
  if t.(hasValue) then Marshal_time offset t.(ntime) else Ok "null".

(** [UnmarshalJSON(data)], for the text of one JSON value.  [json.Unmarshal] into the time
    calls its [UnmarshalJSON], which assigns the zero time when the text does not parse. *)
Definition NullableTime_UnmarshalJSON (data : string) : M NullableTime unit := λ t,
  if bool_decide (data = "null") then (Ok tt, mkNullableTime false t.(ntime))
  else match ParseQuoted data with
       | Ok u => (Ok tt, mkNullableTime true u)
       | Err e => (Err e, mkNullableTime true time_zero)
       | Crash w => (Crash w, t)
       end.

Example json_epoch : NullableTime_MarshalJSON 5400 (mkNullableTime true 250000000) =
  Ok (dquote +:+ "1970-01-01T01:30:00.25+01:30" +:+ dquote).
Proof. vm_compute. done. Qed.
Example json_leap : NullableTime_MarshalJSON 0 (mkNullableTime true 1583020798000000000) =
  Ok (dquote +:+ "2020-02-29T23:59:58Z" +:+ dquote).
Proof. vm_compute. done. Qed.
(** A text that is not a time leaves the zero time, as a value that is set. *)
Example json_bad : (NullableTime_UnmarshalJSON "5" (mkNullableTime false 7)).2 =
  mkNullableTime true time_zero.
Proof. vm_compute. done. Qed.

(** ** Reading back what was printed *)

(** The ten cases of a digit. *)
Lemma digit_cases (k : Z) (Q : Z → Prop) :
  0 ≤ k < 10 → Q 0 → Q 1 → Q 2 → Q 3 → Q 4 → Q 5 → Q 6 → Q 7 → Q 8 → Q 9 → Q k.
Proof.
  intros H ? ? ? ? ? ? ? ? ? ?.
  assert (k = 0 ∨ k = 1 ∨ k = 2 ∨ k = 3 ∨ k = 4 ∨ k = 5 ∨ k = 6 ∨ k = 7 ∨ k = 8 ∨ k = 9) as Hk by lia.
  by repeat destruct Hk as [->|Hk]; [..|subst k].
Qed.

Lemma digit_facts k : 0 ≤ k < 10 →
  isDigit (digit k) = true ∧ digit_val (digit k) = k ∧ Ascii.is_nat (digit k) = Some (Z.to_nat k).
Proof. intros H. by apply (digit_cases k); [done|..]. Qed.

(** The digits of a number that fits the width. *)
Lemma appendInt_2 x :
  0 ≤ x < 100 → appendInt x 2 = String (digit (x / 10)) (String (digit (x mod 10)) "").
Proof.
  intros H. unfold appendInt. rewrite Z.abs_eq, (proj2 (Z.ltb_ge x 0)) by lia.
  cbn [int_digits]. destruct (Z.ltb_spec x 10).
  - rewrite Z.div_small, Z.mod_small by lia. done.
  - rewrite (proj2 (Z.ltb_lt (x / 10) 10)) by (Z.to_euclidean_division_equations; lia). done.
Qed.

Lemma appendInt_4 x :
  0 ≤ x < 10000 → appendInt x 4 = String (digit (x / 1000)) (String (digit (x / 100 mod 10))
    (String (digit (x / 10 mod 10)) (String (digit (x mod 10)) ""))).
Proof.
  intros H. unfold appendInt. rewrite Z.abs_eq, (proj2 (Z.ltb_ge x 0)) by lia.
  assert (x / 10 / 10 = x / 100) as E2 by (by rewrite Z.div_div).
  assert (x / 100 / 10 = x / 1000) as E3 by (by rewrite Z.div_div).
  cbn [int_digits]. rewrite ?E2, ?E3.
  destruct (Z.ltb_spec x 10); [|destruct (Z.ltb_spec (x / 10) 10);
    [|destruct (Z.ltb_spec (x / 100) 10)]].
  - rewrite (Z.div_small x 10), (Z.div_small x 100), (Z.div_small x 1000), (Z.mod_small x) by lia. done.
  - rewrite (Z.div_small x 100), (Z.div_small x 1000), (Z.mod_small (x / 10))
      by (Z.to_euclidean_division_equations; lia). done.
  - rewrite (Z.div_small x 1000), (Z.mod_small (x / 100))
      by (Z.to_euclidean_division_equations; lia). done.
  - by rewrite (proj2 (Z.ltb_lt (x / 1000) 10)) by (Z.to_euclidean_division_equations; lia).
Qed.

(** The pieces of the parser on what was printed. *)
Lemma lit_ok c v : lit c (String c v) = inl (tt, v).
Proof. unfold lit. by rewrite decide_True. Qed.

Lemma getnum_ok elem fixed x v :
  0 ≤ x < 100 → getnum elem fixed (appendInt x 2 +:+ v) = inl (x, v).
Proof.
  intros H. rewrite appendInt_2 by done. autorewrite with gostr. unfold getnum.
  assert (0 ≤ x / 10 < 10 ∧ 0 ≤ x mod 10 < 10 ∧ 10 * (x / 10) + x mod 10 = x) as (H1 & H2 & E)
    by (Z.to_euclidean_division_equations; lia).
  destruct (digit_facts _ H1) as (-> & -> & _), (digit_facts _ H2) as (-> & -> & _). by rewrite E.
Qed.

Lemma field_ok elem fixed lo hi name x v :
  lo ≤ x ≤ hi → 0 ≤ x < 100 → field elem fixed lo hi name (appendInt x 2 +:+ v) = inl (x, v).
Proof.
  intros Hr H. unfold field, bindP. rewrite getnum_ok by done.
  unfold in_range. by rewrite (proj2 (Z.leb_le lo x)), (proj2 (Z.leb_le x hi)) by lia.
Qed.

(** A string of digits is read as the number they make. *)
Definition digits_value (acc : Z) (l : list Z) : Z := foldl (λ n d, 10 * n + d) acc l.

Lemma digits_ok l acc :
  Forall (λ d, 0 ≤ d < 10) l →
  digits acc (digit_string l "") = Some (Z.to_N (digits_value (Z.of_N acc) l)).
Proof.
  revert acc. induction l as [|d l IH]; intros acc; [intros _; simpl; by rewrite N2Z.id|].
  intros [Hd HF]%Forall_cons. cbn [digit_string digits]. destruct (digit_facts d Hd) as (_ & _ & ->).
  rewrite IH by done. unfold digits_value. cbn [foldl]. do 3 f_equal. lia.
Qed.

Lemma digits_value_nonneg l acc :
  Forall (λ d, 0 ≤ d < 10) l → 0 ≤ acc → 0 ≤ digits_value acc l.
Proof.
  revert acc. induction l as [|d l IH]; intros acc; [done|]. intros [Hd HF]%Forall_cons Ha.
  apply IH; [done|lia].
Qed.

Lemma time_atoi_ok d l :
  Forall (λ d, 0 ≤ d < 10) (d :: l) → digits_value 0 (d :: l) < 2 ^ 63 →
  time_atoi (digit_string (d :: l) "") = Some (digits_value 0 (d :: l)).
Proof.
  intros HF Hlt. pose proof (digits_value_nonneg _ 0 HF ltac:(done)) as H0.
  pose proof (digits_ok _ 0%N HF) as E. apply Forall_cons in HF as [Hd _].
  unfold time_atoi. change (Z.of_N 0) with 0 in E.
  cbn [digit_string] in *. assert (∀ s : string, match String (digit d) s with
    | String "-" r => (true, r) | String "+" r => (false, r) | _ => (false, String (digit d) s) end
    = (false, String (digit d) s)) as -> by (intros s; clear - Hd; by apply (digit_cases d)).
  rewrite E, decide_True by (rewrite Z2N.id; lia). by rewrite Z2N.id.
Qed.

Lemma long_year_ok y v : 0 ≤ y < 10000 → long_year (appendInt y 4 +:+ v) = inl (y, v).
Proof.
  intros H. rewrite appendInt_4 by done. autorewrite with gostr. unfold long_year.
  set (a := y / 1000). set (b := y / 100 mod 10). set (c := y / 10 mod 10). set (d := y mod 10).
  assert (0 ≤ a < 10 ∧ 0 ≤ b < 10 ∧ 0 ≤ c < 10 ∧ 0 ≤ d < 10 ∧ 1000 * a + 100 * b + 10 * c + d = y)
    as (Ha & Hb & Hc & Hd & E) by (subst a b c d; Z.to_euclidean_division_equations; lia).
  clearbody a b c d. destruct (digit_facts a Ha) as (-> & _).
  assert (digits_value 0 [a; b; c; d] = y) as Ev by (unfold digits_value; simpl; lia).
  pose proof (time_atoi_ok a [b; c; d] ltac:(by rewrite !Forall_cons) ltac:(rewrite Ev; lia)) as Ht.
  cbn [digit_string] in Ht. by rewrite Ht, Ev.
Qed.

(** ** Fractions of a second *)

Lemma low_digits_spec n x :
  0 ≤ x < 10 ^ Z.of_nat n →
  digits_value 0 (low_digits n x) = x ∧ length (low_digits n x) = n ∧
  Forall (λ d, 0 ≤ d < 10) (low_digits n x).
Proof.
  revert x. induction n as [|n IH]; intros x Hx; [simpl in *; repeat split; [lia|done]|].
  rewrite Nat2Z.inj_succ, Z.pow_succ_r in Hx by lia. cbn [low_digits].
  destruct (IH (x / 10)) as (Ev & El & HF); [Z.to_euclidean_division_equations; lia|].
  unfold digits_value in *. rewrite foldl_app, Ev, length_app, El. simpl.
  split_and!; [Z.to_euclidean_division_equations; lia|lia|]. apply Forall_app. split; [done|].
  apply Forall_singleton, Z.mod_pos_bound. lia.
Qed.

Lemma trim_zeros_spec l acc :
  digits_value acc (trim_zeros l) * 10 ^ Z.of_nat (length l - length (trim_zeros l))
    = digits_value acc l ∧
  (length (trim_zeros l) ≤ length l)%nat ∧
  (Forall (λ d, 0 ≤ d < 10) l → Forall (λ d, 0 ≤ d < 10) (trim_zeros l)).
Proof.
  revert acc. induction l as [|d l IH]; intros acc; [simpl; split_and!; [lia|done..]|].
  cbn [trim_zeros]. destruct (IH (10 * acc + d)) as (Ev & Hl & HF).
  destruct (trim_zeros l) as [|e r] eqn:Et.
  - simpl in Ev, Hl. rewrite Nat.sub_0_r in Ev. destruct (Z.eqb_spec d 0) as [->|].
    + cbn [length digits_value foldl]. rewrite Nat.sub_0_r, Nat2Z.inj_succ, Z.pow_succ_r by lia.
      unfold digits_value in *. simpl in *. split_and!; [rewrite <- Ev; ring|lia|constructor].
    + cbn [length digits_value foldl]. replace (S (length l) - 1)%nat with (length l) by lia.
      split_and!; [done|lia|]. intros [? ?]%Forall_cons. by apply Forall_singleton.
  - cbn [length] in *. replace (S (length l) - S (S (length r)))%nat with (length l - S (length r))%nat
      by lia.
    split_and!; [exact Ev|lia|]. intros [? ?]%Forall_cons. constructor; auto.
Qed.

(** What cannot be taken for a part of the seconds. *)
Definition stops (v : string) : Prop :=
  match v with String c _ => isDigit c = false ∧ c ≠ "."%char | EmptyString => True end.

Lemma span_digits_ok l v :
  Forall (λ d, 0 ≤ d < 10) l → stops v →
  span_digits (digit_string l "" +:+ v) = (digit_string l "", v).
Proof.
  intros HF Hv. induction HF as [|d l Hd HF IH].
  - destruct v as [|c v]; [done|]. cbn [digit_string]. rewrite app_nil_l. cbn [span_digits].
    by rewrite (proj1 Hv).
  - cbn [digit_string]. rewrite app_cons. cbn [span_digits].
    destruct (digit_facts d Hd) as (-> & _). by rewrite IH.
Qed.

Lemma digit_not_dot d : 0 ≤ d < 10 → digit d ≠ "."%char.
Proof. intros H. by apply (digit_cases d). Qed.

Lemma frac_second_ok ns v :
  0 ≤ ns < nanos_per_sec → stops v → frac_second (formatNano ns +:+ v) = inl (ns, v).
Proof.
  intros Hns Hv. unfold formatNano.
  destruct (low_digits_spec 9 ns Hns) as (Ev & El & HF).
  destruct (trim_zeros_spec (low_digits 9 ns) 0) as (Et & Hl & HFt). rewrite El, Ev in *.
  specialize (HFt HF). destruct (trim_zeros _) as [|d l].
  - simpl in Et. subst ns. rewrite app_nil_l. unfold frac_second.
    destruct v as [|c v]; [done|]. destruct Hv as [_ Hc]. unfold frac_second.
    clear - Hc. destruct c as [[] [] [] [] [] [] [] []]; try done; by destruct v.
  - autorewrite with gostr. cbn [digit_string]. rewrite app_cons. unfold frac_second.
    pose proof (span_digits_ok (d :: l) v HFt Hv) as Hs. cbn [digit_string] in Hs.
    rewrite app_cons in Hs. apply Forall_cons in HFt as Hd. destruct Hd as [Hd _].
    destruct (digit_facts d Hd) as (-> & _). rewrite Hs.
    pose proof (digits_value_nonneg _ 0 HFt ltac:(done)) as H0.
    set (k := Z.of_nat (9 - length (d :: l))) in *. assert (1 ≤ 10 ^ k) as Hk
      by (apply Z.lt_pred_le, Z.pow_pos_nonneg; lia).
    assert (digits_value 0 (d :: l) < nanos_per_sec) as Hlt by nia.
    pose proof (time_atoi_ok d l HFt ltac:(unfold nanos_per_sec in Hlt; lia)) as Ht.
    cbn [digit_string] in Ht. rewrite Ht. rewrite (proj2 (Z.leb_gt _ _) Hlt).
    assert (String.length (String (digit d) (digit_string l "")) = length (d :: l)) as ->.
    { change (String (digit d) (digit_string l "")) with (digit_string (d :: l) "").
      clear. induction (d :: l) as [|x xs IH]; [done|]. simpl. by rewrite IH. }
    fold k. by rewrite Et.
Qed.

(** ** The zone *)
Lemma zone_ok offset v :
  offset mod 60 = 0 → Z.abs offset < 360000 → zone (format_zone offset +:+ v) = inl (offset, v).
Proof.
  intros Hm Hb. unfold format_zone. destruct (Z.eqb_spec offset 0) as [->|Hne]; [done|].
  set (z := Z.quot offset 60). assert (offset = 60 * z) as Eo
    by (subst z; Z.to_euclidean_division_equations; lia).
  clearbody z. rewrite Z.quot_div_nonneg, Z.rem_mod_nonneg by lia.
  set (h := Z.abs z / 60). set (m := Z.abs z mod 60).
  assert (0 ≤ h < 100 ∧ 0 ≤ m < 100 ∧ Z.abs z = 60 * h + m) as (Hh & Hmm & Ez)
    by (subst h m; Z.to_euclidean_division_equations; lia).
  clearbody h m. rewrite !appendInt_2 by done.
  assert (∀ x, 0 ≤ x < 100 → time_atoi (String (digit (x / 10)) (String (digit (x mod 10)) "")) = Some x)
    as Hat.
  { intros x Hx. assert (digits_value 0 [x / 10; x mod 10] = x) as E
      by (unfold digits_value; simpl; Z.to_euclidean_division_equations; lia).
    pose proof (time_atoi_ok (x / 10) [x mod 10]) as H. cbn [digit_string] in H. rewrite H, E; [done| |].
    - rewrite !Forall_cons. split_and!; [..|done]; Z.to_euclidean_division_equations; lia.
    - rewrite E. lia. }
  destruct (Z.ltb_spec z 0); autorewrite with gostr; unfold zone; rewrite !Hat by done.
  - rewrite decide_False, decide_True by done. do 2 f_equal. lia.
  - rewrite decide_True by done. do 2 f_equal. lia.
Qed.

(** ** Round trip *)

Lemma bindP_ok {A B} (p : P A) (k : A → P B) v a v' :
  p v = inl (a, v') → bindP p k v = k a v'.
Proof. unfold bindP. by intros ->. Qed.

Lemma parse_fields_ok offset t v :
  offset mod 60 = 0 → Z.abs offset < 360000 → 0 ≤ local_year offset t ≤ 9999 →
  let '(y, m, d) := civil (clock offset t / 86400) in
  let s := clock offset t mod 86400 in
  parse_fields (FormatRFC3339Nano offset t +:+ v) =
  inl (mkFields y m d (s / 3600) (s / 60 mod 60) (s mod 60) (t mod nanos_per_sec) offset, v).
Proof.
  intros Hm Hb Hy. unfold FormatRFC3339Nano. unfold local_year in Hy.
  pose proof (civil_spec (clock offset t / 86400)) as Hc.
  destruct (civil _) as [[y m] d]. simpl in Hy. destruct Hc as (_ & Hmo & Hd).
  assert (days_in m y ≤ 31) as Hdi by (unfold days_in; repeat case_match; lia).
  pose proof (Z.mod_pos_bound (clock offset t) 86400 ltac:(lia)) as Hs.
  set (s := clock offset t mod 86400) in *. clearbody s.
  assert (0 ≤ s / 3600 ≤ 23) by (Z.to_euclidean_division_equations; lia).
  assert (0 ≤ s / 60 mod 60 ≤ 59) by (Z.to_euclidean_division_equations; lia).
  assert (0 ≤ s mod 60 ≤ 59) by (Z.to_euclidean_division_equations; lia).
  unfold parse_fields. autorewrite with gostr.
  erewrite bindP_ok by (apply long_year_ok; lia).
  erewrite bindP_ok by apply lit_ok. erewrite bindP_ok by (apply field_ok; lia).
  erewrite bindP_ok by apply lit_ok. erewrite bindP_ok by (apply getnum_ok; lia).
  erewrite bindP_ok by apply lit_ok.
  erewrite bindP_ok by (apply field_ok; lia).
  erewrite bindP_ok by apply lit_ok.
  erewrite bindP_ok by (apply field_ok; lia).
  erewrite bindP_ok by apply lit_ok.
  erewrite bindP_ok by (apply field_ok; lia).
  erewrite bindP_ok.
  - by erewrite bindP_ok by by apply zone_ok.
  - apply frac_second_ok; [apply Z.mod_pos_bound; unfold nanos_per_sec; lia|].
    unfold format_zone. destruct (offset =? 0); [done|]. by destruct (Z.quot offset 60 <? 0).
Qed.

Lemma ParseQuoted_ok offset t :
  offset mod 60 = 0 → Z.abs offset < 360000 → 0 ≤ local_year offset t ≤ 9999 →
  ParseQuoted (dquote +:+ FormatRFC3339Nano offset t +:+ dquote) = Ok t.
Proof.
  intros Hm Hb Hy. pose proof (parse_fields_ok offset t dquote Hm Hb Hy) as Hp.
  pose proof (civil_spec (clock offset t / 86400)) as Hc.
  destruct (civil _) as [[y m] d]. destruct Hc as (Hu & _ & Hd). cbv zeta in Hp.
  unfold ParseQuoted, Parse. change (dquote +:+ FormatRFC3339Nano offset t +:+ dquote) with
    (String dq (FormatRFC3339Nano offset t +:+ dquote)) at 1.
  erewrite bindP_ok by apply lit_ok. erewrite bindP_ok by exact Hp.
  erewrite bindP_ok by apply lit_ok. unfold finish. rewrite decide_True by done.
  cbn [f_year f_month f_day f_hour f_min f_sec f_nsec f_zone].
  unfold in_range. rewrite (proj2 (Z.leb_le 1 d)), (proj2 (Z.leb_le d _)) by lia. cbn [andb].
  f_equal. unfold Date_UTC. rewrite Hu. unfold clock, nanos_per_sec.
  Z.to_euclidean_division_equations. lia.
Qed.

(** C22: times survive JSON.  A nullable time that is marshalled, at any offset of whole
    minutes below a day, and unmarshalled into any other one, has the same value: not set,
    or set to the same instant, down to the nanosecond.  Marshalling fails only for a time
    that is set and lies, on that clock, outside the years 0 to 9999. *)
Theorem NullableTime_JSON_roundtrip offset t u :
  offset mod 60 = 0 → Z.abs offset < 86400 →
  match NullableTime_MarshalJSON offset t with
  | Ok text =>
      (NullableTime_UnmarshalJSON text u).1 = Ok tt ∧
      nt_value (NullableTime_UnmarshalJSON text u).2 = nt_value t
  | Err _ => t.(hasValue) = true ∧ (local_year offset t.(ntime) < 0 ∨ 9999 < local_year offset t.(ntime))
  | Crash _ => False
  end.
Proof.
  intros Hm Hb. unfold NullableTime_MarshalJSON, nt_value. destruct t as [[] t]; [|done].
  cbn [hasValue ntime]. unfold Marshal_time, in_range.
  destruct (Z.leb_spec 0 (local_year offset t)), (Z.leb_spec (local_year offset t) 9999);
    cbn [andb]; [|split; [done|lia]..].
  unfold NullableTime_UnmarshalJSON. rewrite bool_decide_eq_false_2 by done.
  by rewrite ParseQuoted_ok by lia.
Qed.

Lemma NullableTime_JSON_roundtrip_witness :
  let t := mkNullableTime true 1583020798000000001 in
  let text := dquote +:+ "2020-03-01T05:29:58.000000001+05:30" +:+ dquote in
  NullableTime_MarshalJSON 19800 t = Ok text ∧
  nt_value (NullableTime_UnmarshalJSON text NullableTime_zero).2 = Some 1583020798000000001.
Proof.
  intros t text. assert (NullableTime_MarshalJSON 19800 t = Ok text) as E by (vm_compute; reflexivity).
  pose proof (NullableTime_JSON_roundtrip 19800 t NullableTime_zero eq_refl eq_refl) as H.
  rewrite E in H. split; [exact E|exact (proj2 H)].
Defined.
