(* ===== verification/ExtCron.v ===== *)
(** * [extcron/]: dkron's schedule parser

    [extcron] extends the parser of [robfig/cron/v3] with [@at <date>] and
    [@manually].  The library parser and its schedules are an interface. *)
From Stdlib Require Import ZArith Lia.
From stdpp Require Import base list strings.
From S2P Require Import Prelude GoStrings GoTime.

#[local] Open Scope Z_scope.

(** ** [robfig/cron/v3]: [cron.Parser] and [cron.Schedule] *)
Class CronParser := {
  CronSchedule : Type;
  (** [p.parser.Parse(spec)] of the parser that [NewParser] configures *)
  cron_Parse : string → res CronSchedule;
  (** [schedule.Next(t)] *)
  cron_Next : CronSchedule → time → time;
  cron_Parse_no_crash spec w : cron_Parse spec ≠ Crash w;
  (** an empty spec string is refused *)
  cron_Parse_empty : ∃ e, cron_Parse "" = Err e;
  (** the next activation is later than the given time; the zero time when there
      is none to be found *)
  cron_Next_after s t : cron_Next s t = time_zero ∨ t < cron_Next s t
}.

Section ExtCron.
Context {CP : CronParser}.

(** [type SimpleSchedule struct] *)
Record SimpleSchedule := mkSimpleSchedule { Date : time }.

Definition At (date : time) : SimpleSchedule := mkSimpleSchedule date.

(** [(SimpleSchedule) Next] *)
Definition SimpleSchedule_Next (schedule : SimpleSchedule) (t : time) : time :=
  if After schedule.(Date) t then schedule.(Date) else time_zero.

(** [cron.Schedule]: what [Parse] returns, by its dynamic type. *)
Inductive Schedule :=
  | Simple (s : SimpleSchedule)
  | Cron (s : CronSchedule).

Definition Schedule_Next (s : Schedule) (t : time) : time :=
  match s with
  | Simple s => SimpleSchedule_Next s t
  | Cron s => cron_Next s t
  end.

(** [(ExtParser) Parse]; the package-level [Parse] is the same function. *)
Definition ExtParser_Parse (spec : string) : res Schedule :=
  if decide (spec = "@manually") then Ok (Simple (At time_zero))
  else
    let at_ := "@at " in
    if HasPrefix spec at_ then
      match ParseRFC3339 (String.substring 4 (String.length spec - 4) spec) with
      | Ok date => Ok (Simple (At date))
      | Err err =>
          Err (ErrOther ("failed to parse date " +:+ spec +:+ ": " +:+ Error err))
      | Crash w => Crash w
      end
    else s <-? cron_Parse spec ;; Ok (Cron s).

Lemma ParseRFC3339_no_crash v w : ParseRFC3339 v ≠ Crash w.
Proof. unfold ParseRFC3339, Parse. by repeat case_match. Qed.

Lemma ExtParser_Parse_no_crash spec w : ExtParser_Parse spec ≠ Crash w.
Proof.
  unfold ExtParser_Parse. case_decide; [done|].
  destruct (HasPrefix _ _).
  - destruct (ParseRFC3339 _) eqn:E; [done..|]. by apply ParseRFC3339_no_crash in E.
  - destruct (cron_Parse spec) eqn:E; [done..|]. by apply cron_Parse_no_crash in E.
Qed.

(** Every schedule the parser returns fires in the future or never. *)
Lemma Schedule_Next_after s t : Schedule_Next s t = time_zero ∨ t < Schedule_Next s t.
Proof.
  destruct s as [s|s]; simpl; [|apply cron_Next_after].
  unfold SimpleSchedule_Next, After. destruct (Z.ltb_spec t (Date s)); auto.
Qed.

(** An [@at] schedule fires at most once: asked again at (or after) its own
    activation, it has no next one. *)
Lemma SimpleSchedule_once s t t' :
  SimpleSchedule_Next s t ≠ time_zero → SimpleSchedule_Next s t ≤ t' →
  SimpleSchedule_Next s t' = time_zero.
Proof.
  unfold SimpleSchedule_Next, After.
  destruct (Z.ltb_spec t (Date s)); [|done]. intros _ Hle.
  destruct (Z.ltb_spec t' (Date s)); [lia|done].
Qed.
End ExtCron.
