(* ===== verification/Execution.v ===== *)
(** * [dkron/execution.go] and [plugin/types/execution.go]: executions *)
From Stdlib Require Import ZArith Lia Ascii.
From stdpp Require Import base list gmap strings pretty.
From S2P Require Import Prelude GoStrings GoTime Pb.

#[local] Open Scope Z_scope.

(** [type Execution struct] *)
Record Execution := mkExecution {
  Ex_JobName : string;
  Ex_StartedAt : time;
  Ex_FinishedAt : time;
  Ex_Success : bool;
  Ex_Output : string;
  Ex_NodeName : string;
  Ex_Group : Z;                        (* int64 *)
  Ex_Attempt : Z                       (* uint *)
}.

#[export] Instance Execution_eq_dec : EqDecision Execution.
Proof. solve_decision. Defined.

(** [NewExecution(jobName)], at the instant [now]. *)
Definition NewExecution (now : time) (jobName : string) : Execution :=
  mkExecution jobName time_zero time_zero false "" "" (UnixNano now) 1.

(** [(e Execution) Key()] *)
Definition Execution_Key (e : Execution) : string :=
  pretty (UnixNano e.(Ex_StartedAt)) +:+ "-" +:+ e.(Ex_NodeName).

(** [(e Execution) GetGroup()] *)
Definition GetGroup (e : Execution) : string := pretty e.(Ex_Group).

Section Conversions.
Context {PT : Ptypes}.

Definition NewExecutionFromProto (e : pbExecution) : Execution :=
  let startedAt := Timestamp e.(pbEx_StartedAt) in
  let finishedAt := Timestamp e.(pbEx_FinishedAt) in
  {| Ex_JobName := e.(pbEx_JobName);
     Ex_Success := e.(pbEx_Success);
     Ex_Output := e.(pbEx_Output);
     Ex_NodeName := e.(pbEx_NodeName);
     Ex_Group := e.(pbEx_Group);
     Ex_Attempt := e.(pbEx_Attempt);
     Ex_StartedAt := startedAt;
     Ex_FinishedAt := finishedAt |}.

Definition Execution_ToProto (e : Execution) : pbExecution :=
  let startedAt := TimestampProto e.(Ex_StartedAt) in
  let finishedAt := TimestampProto e.(Ex_FinishedAt) in
  {| pbEx_JobName := e.(Ex_JobName);
     pbEx_Success := e.(Ex_Success);
     pbEx_Output := e.(Ex_Output);
     pbEx_NodeName := e.(Ex_NodeName);
     pbEx_Group := e.(Ex_Group);
     pbEx_Attempt := uintN 32 e.(Ex_Attempt);
     pbEx_StartedAt := startedAt;
     pbEx_FinishedAt := finishedAt |}.

(** [(e types.Execution) Key()] *)
Definition pbExecution_Key (e : pbExecution) : string :=
  let sa := Timestamp e.(pbEx_StartedAt) in
  pretty (UnixNano sa) +:+ "-" +:+ e.(pbEx_NodeName).

(** What an execution must satisfy to survive the conversion: representable
    instants and an attempt number of 32 bits. *)
Definition Execution_wf (e : Execution) : Prop :=
  valid_time e.(Ex_StartedAt) ∧ valid_time e.(Ex_FinishedAt) ∧ in_uint 32 e.(Ex_Attempt).
#[export] Instance Execution_wf_dec e : Decision (Execution_wf e).
Proof. unfold Execution_wf. apply _. Defined.

Lemma Execution_roundtrip e :
  Execution_wf e → NewExecutionFromProto (Execution_ToProto e) = e.
Proof.
  intros (Hs & Hf & Ha). unfold NewExecutionFromProto, Execution_ToProto. simpl.
  rewrite !Timestamp_id, uintN_id by done. by destruct e.
Qed.

Lemma Execution_wf_new now jobName : Execution_wf (NewExecution now jobName).
Proof. split_and!; [apply time_zero_valid..|]. unfold in_uint. simpl. lia. Qed.

(** The two [Key] methods agree on the two forms of an execution. *)
Lemma Key_NewExecutionFromProto e :
  Execution_Key (NewExecutionFromProto e) = pbExecution_Key e.
Proof. done. Qed.
End Conversions.

(** A key tells the start instant (as a 64-bit number) and the node. *)
Lemma Execution_Key_inj e1 e2 :
  Execution_Key e1 = Execution_Key e2 →
  UnixNano e1.(Ex_StartedAt) = UnixNano e2.(Ex_StartedAt) ∧ e1.(Ex_NodeName) = e2.(Ex_NodeName).
Proof. apply pretty_dash_inj. Qed.
