(* ===== verification/Job.v ===== *)
(** * [dkron/job.go]: jobs, their conversion, validation and runnability

    The struct is modelled without its two in-memory pointers: [Agent] (the
    operations that use it take what they read from the agent as arguments) and
    [ChildJobs] (the tree of [generateJobTree], see [JobTree]). *)
From Stdlib Require Import ZArith Lia Ascii.
From stdpp Require Import base list gmap strings pretty.
From S2P Require Import Prelude GoStrings GoTime Pb NTime ExtCron.

#[local] Open Scope Z_scope.

Definition StatusNotSet : string := "".
Definition StatusSuccess : string := "success".
Definition StatusRunning : string := "running".
Definition StatusFailed : string := "failed".
Definition StatusPartialyFailed : string := "partially_failed".

Definition ConcurrencyAllow : string := "allow".
Definition ConcurrencyForbid : string := "forbid".

(** [type Job struct]; a processor configuration [None] is a nil map. *)
Record Job := mkJob {
  Job_Name : string;
  Job_DisplayName : string;
  Job_Timezone : string;
  Job_Schedule : string;
  Job_Owner : string;
  Job_OwnerEmail : string;
  Job_SuccessCount : Z;                (* int *)
  Job_ErrorCount : Z;                  (* int *)
  Job_LastSuccess : NullableTime;
  Job_LastError : NullableTime;
  Job_Disabled : bool;
  Job_Tags : gmap string string;
  Job_Metadata : gmap string string;
  Job_Retries : Z;                     (* uint *)
  Job_DependentJobs : list string;
  Job_ParentJob : string;
  Job_Processors : gmap string (option (gmap string string));
  Job_Concurrency : string;
  Job_Executor : string;
  Job_ExecutorConfig : gmap string string;
  Job_Status : string;
  Job_Next : time
}.

(** Assignments to fields, [job.DependentJobs = djs] and the like. *)
Definition set_DependentJobs (djs : list string) (j : Job) : Job :=
  {| Job_Name := j.(Job_Name); Job_DisplayName := j.(Job_DisplayName);
     Job_Timezone := j.(Job_Timezone); Job_Schedule := j.(Job_Schedule);
     Job_Owner := j.(Job_Owner); Job_OwnerEmail := j.(Job_OwnerEmail);
     Job_SuccessCount := j.(Job_SuccessCount); Job_ErrorCount := j.(Job_ErrorCount);
     Job_LastSuccess := j.(Job_LastSuccess); Job_LastError := j.(Job_LastError);
     Job_Disabled := j.(Job_Disabled); Job_Tags := j.(Job_Tags);
     Job_Metadata := j.(Job_Metadata); Job_Retries := j.(Job_Retries);
     Job_DependentJobs := djs; Job_ParentJob := j.(Job_ParentJob);
     Job_Processors := j.(Job_Processors); Job_Concurrency := j.(Job_Concurrency);
     Job_Executor := j.(Job_Executor); Job_ExecutorConfig := j.(Job_ExecutorConfig);
     Job_Status := j.(Job_Status); Job_Next := j.(Job_Next) |}.

Definition set_Next (next : time) (j : Job) : Job :=
  {| Job_Name := j.(Job_Name); Job_DisplayName := j.(Job_DisplayName);
     Job_Timezone := j.(Job_Timezone); Job_Schedule := j.(Job_Schedule);
     Job_Owner := j.(Job_Owner); Job_OwnerEmail := j.(Job_OwnerEmail);
     Job_SuccessCount := j.(Job_SuccessCount); Job_ErrorCount := j.(Job_ErrorCount);
     Job_LastSuccess := j.(Job_LastSuccess); Job_LastError := j.(Job_LastError);
     Job_Disabled := j.(Job_Disabled); Job_Tags := j.(Job_Tags);
     Job_Metadata := j.(Job_Metadata); Job_Retries := j.(Job_Retries);
     Job_DependentJobs := j.(Job_DependentJobs); Job_ParentJob := j.(Job_ParentJob);
     Job_Processors := j.(Job_Processors); Job_Concurrency := j.(Job_Concurrency);
     Job_Executor := j.(Job_Executor); Job_ExecutorConfig := j.(Job_ExecutorConfig);
     Job_Status := j.(Job_Status); Job_Next := next |}.

Definition set_Disabled (b : bool) (j : Job) : Job :=
  {| Job_Name := j.(Job_Name); Job_DisplayName := j.(Job_DisplayName);
     Job_Timezone := j.(Job_Timezone); Job_Schedule := j.(Job_Schedule);
     Job_Owner := j.(Job_Owner); Job_OwnerEmail := j.(Job_OwnerEmail);
     Job_SuccessCount := j.(Job_SuccessCount); Job_ErrorCount := j.(Job_ErrorCount);
     Job_LastSuccess := j.(Job_LastSuccess); Job_LastError := j.(Job_LastError);
     Job_Disabled := b; Job_Tags := j.(Job_Tags);
     Job_Metadata := j.(Job_Metadata); Job_Retries := j.(Job_Retries);
     Job_DependentJobs := j.(Job_DependentJobs); Job_ParentJob := j.(Job_ParentJob);
     Job_Processors := j.(Job_Processors); Job_Concurrency := j.(Job_Concurrency);
     Job_Executor := j.(Job_Executor); Job_ExecutorConfig := j.(Job_ExecutorConfig);
     Job_Status := j.(Job_Status); Job_Next := j.(Job_Next) |}.

Section Conversions.
Context {PT : Ptypes}.

(** [if in.GetLastSuccess().GetHasValue() { ...; job.LastSuccess.Set(t) }] *)
Definition NullableTime_FromProto (m : option pbNullableTime) : NullableTime :=
  if GetHasValue m then NullableTime_Set NullableTime_zero (Timestamp (GetTime m))
  else NullableTime_zero.

(** A processor configuration is never left nil. *)
Definition PluginConfig_FromProto (v : pbPluginConfig) : option (gmap string string) :=
  match v.(pbPC_Config) with
  | Some m => Some m
  | None => Some ∅
  end.

Definition NewJobFromProto (in_ : pbJob) : Job :=
  let next := Timestamp in_.(pbJob_Next) in
  let procs := PluginConfig_FromProto <$> in_.(pbJob_Processors) in
  {| Job_Name := in_.(pbJob_Name);
     Job_DisplayName := in_.(pbJob_Displayname);
     Job_Timezone := in_.(pbJob_Timezone);
     Job_Schedule := in_.(pbJob_Schedule);
     Job_Owner := in_.(pbJob_Owner);
     Job_OwnerEmail := in_.(pbJob_OwnerEmail);
     Job_SuccessCount := in_.(pbJob_SuccessCount);
     Job_ErrorCount := in_.(pbJob_ErrorCount);
     Job_Disabled := in_.(pbJob_Disabled);
     Job_Tags := in_.(pbJob_Tags);
     Job_Retries := in_.(pbJob_Retries);
     Job_DependentJobs := in_.(pbJob_DependentJobs);
     Job_ParentJob := in_.(pbJob_ParentJob);
     Job_Concurrency := in_.(pbJob_Concurrency);
     Job_Executor := in_.(pbJob_Executor);
     Job_ExecutorConfig := in_.(pbJob_ExecutorConfig);
     Job_Status := in_.(pbJob_Status);
     Job_Metadata := in_.(pbJob_Metadata);
     Job_Next := next;
     Job_LastSuccess := NullableTime_FromProto in_.(pbJob_LastSuccess);
     Job_LastError := NullableTime_FromProto in_.(pbJob_LastError);
     Job_Processors := procs |}.

(** [&proto.Job_NullableTime{HasValue: ...}], with [Time] set when there is one. *)
Definition NullableTime_ToProto (t : NullableTime) : pbNullableTime :=
  mkpbNullableTime (HasValue t) (if HasValue t then TimestampProto t.(ntime) else None).

Definition Job_ToProto (j : Job) : pbJob :=
  let next := TimestampProto j.(Job_Next) in
  let processors := mkpbPluginConfig <$> j.(Job_Processors) in
  {| pbJob_Name := j.(Job_Name);
     pbJob_Displayname := j.(Job_DisplayName);
     pbJob_Timezone := j.(Job_Timezone);
     pbJob_Schedule := j.(Job_Schedule);
     pbJob_Owner := j.(Job_Owner);
     pbJob_OwnerEmail := j.(Job_OwnerEmail);
     pbJob_SuccessCount := intN 32 j.(Job_SuccessCount);
     pbJob_ErrorCount := intN 32 j.(Job_ErrorCount);
     pbJob_Disabled := j.(Job_Disabled);
     pbJob_Tags := j.(Job_Tags);
     pbJob_Retries := uintN 32 j.(Job_Retries);
     pbJob_DependentJobs := j.(Job_DependentJobs);
     pbJob_ParentJob := j.(Job_ParentJob);
     pbJob_Concurrency := j.(Job_Concurrency);
     pbJob_Processors := processors;
     pbJob_Executor := j.(Job_Executor);
     pbJob_ExecutorConfig := j.(Job_ExecutorConfig);
     pbJob_Status := j.(Job_Status);
     pbJob_Metadata := j.(Job_Metadata);
     pbJob_LastSuccess := Some (NullableTime_ToProto j.(Job_LastSuccess));
     pbJob_LastError := Some (NullableTime_ToProto j.(Job_LastError));
     pbJob_Next := next |}.

(** A nullable time that survives the conversion: a representable instant, or
    the unset zero value. *)
Definition NullableTime_wf (t : NullableTime) : Prop :=
  if t.(hasValue) then valid_time t.(ntime) else t.(ntime) = time_zero.
#[export] Instance NullableTime_wf_dec t : Decision (NullableTime_wf t).
Proof. unfold NullableTime_wf. destruct (hasValue t); apply _. Defined.

(** A job that survives the conversion: 32-bit counters, representable instants
    and no nil processor configuration. *)
Record Job_wf (j : Job) : Prop := {
  wf_SuccessCount : in_int 32 j.(Job_SuccessCount);
  wf_ErrorCount : in_int 32 j.(Job_ErrorCount);
  wf_Retries : in_uint 32 j.(Job_Retries);
  wf_LastSuccess : NullableTime_wf j.(Job_LastSuccess);
  wf_LastError : NullableTime_wf j.(Job_LastError);
  wf_Next : valid_time j.(Job_Next);
  wf_Processors : map_Forall (λ _ c, c ≠ None) j.(Job_Processors)
}.

Lemma NullableTime_roundtrip t :
  NullableTime_wf t → NullableTime_FromProto (Some (NullableTime_ToProto t)) = t.
Proof.
  destruct t as [[] x]; unfold NullableTime_wf, NullableTime_FromProto; simpl.
  - intros. by rewrite Timestamp_id.
  - by intros ->.
Qed.

Lemma Processors_roundtrip (procs : gmap string (option (gmap string string))) :
  map_Forall (λ _ c, c ≠ None) procs →
  PluginConfig_FromProto <$> (wire_PluginConfig <$> (mkpbPluginConfig <$> procs)) = procs.
Proof.
  intros Hp. rewrite <- !map_fmap_compose. apply map_eq. intros k.
  rewrite lookup_fmap. destruct (procs !! k) as [[m|]|] eqn:E; [|by apply Hp in E|done].
  simpl. unfold wire_PluginConfig, PluginConfig_FromProto. simpl. by case_decide; subst.
Qed.

(** Converting a job to a message and back, with a trip over the wire in
    between, gives the job back. *)
Lemma Job_wire_roundtrip j :
  Job_wf j → NewJobFromProto (wire_Job (Job_ToProto j)) = j.
Proof.
  intros []. unfold NewJobFromProto. simpl.
  rewrite !intN_id, uintN_id, !NullableTime_roundtrip, Timestamp_id, Processors_roundtrip
    by done.
  by destruct j.
Qed.
End Conversions.

(** ** Validation *)

(** Unicode's lower-case letters ([\p{Ll}]); the table itself is data of the Go
    distribution, on ASCII it is [a-z]. *)
Class Unicode := {
  is_Ll : Z → bool;
  is_Ll_ascii r : 0 ≤ r < 128 → is_Ll r = in_range 97 122 r;
  (** the replacement character U+FFFD is not a letter *)
  is_Ll_RuneError : is_Ll 65533 = false
}.

(** [time.LoadLocation]: reads the time zone database of the host; the empty name
    is always known. *)
Class Locations := {
  LoadLocation : string → option error;
  LoadLocation_empty : LoadLocation "" = None
}.

Section Validate.
Context {CP : CronParser} {UC : Unicode} {TZ : Locations}.

(** The complement of the class [[^\p{Ll}0-9_-]]. *)
Definition slug_rune (r : Z) : bool :=
  is_Ll r || in_range 48 57 r || (r =? 95) || (r =? 45).

Definition isSlug (candidate : string) : bool * string :=
  let whyNot := find_rune_not slug_rune 0 candidate in
  (bool_decide (whyNot = ""), whyNot).

(** The schedule of a job; it may be empty if the parent job is set. *)
Definition schedule_error (j : Job) : option error :=
  if decide (j.(Job_Schedule) ≠ "" ∨ j.(Job_ParentJob) = "") then
    match ExtParser_Parse j.(Job_Schedule) with
    | Err err => Some (ErrOther (Error ErrScheduleParse +:+ ": " +:+ Error err))
    | _ => None
    end
  else None.

(** [(j Job) Validate()]; [None] is the nil error. *)
Definition Validate (j : Job) : option error :=
  if decide (j.(Job_Name) = "") then Some (ErrOther "name cannot be empty")
  else
    let '(valid, chr) := isSlug j.(Job_Name) in
    if negb valid
    then Some (ErrOther ("name contains illegal character '" +:+ chr +:+ "'"))
    else if decide (j.(Job_ParentJob) = j.(Job_Name)) then Some ErrSameParent
    else
      match schedule_error j with
      | Some e => Some e
      | None =>
          if decide (j.(Job_Concurrency) ≠ ConcurrencyAllow
                     ∧ j.(Job_Concurrency) ≠ ConcurrencyForbid
                     ∧ j.(Job_Concurrency) ≠ "")
          then Some ErrWrongConcurrency
          else LoadLocation j.(Job_Timezone)
      end.

(** [(j Job) GetNext()], at the instant [now]. *)
Definition GetNext (now : time) (j : Job) : res time :=
  if decide (j.(Job_Schedule) ≠ "") then
    s <-? ExtParser_Parse j.(Job_Schedule) ;; Ok (Schedule_Next s now)
  else Ok time_zero.

(** What an accepted job satisfies. *)
Record Valid (j : Job) : Prop := {
  valid_name : j.(Job_Name) ≠ "";
  valid_slug : find_rune_not slug_rune 0 j.(Job_Name) = "";
  valid_parent : j.(Job_ParentJob) ≠ j.(Job_Name);
  valid_schedule : j.(Job_Schedule) ≠ "" ∨ j.(Job_ParentJob) = "" →
    ∃ s, ExtParser_Parse j.(Job_Schedule) = Ok s;
  valid_concurrency : j.(Job_Concurrency) ∈ [ConcurrencyAllow; ConcurrencyForbid; ""];
  valid_timezone : LoadLocation j.(Job_Timezone) = None
}.

Lemma schedule_error_None j :
  schedule_error j = None ↔
  (j.(Job_Schedule) ≠ "" ∨ j.(Job_ParentJob) = "" →
    ∃ s, ExtParser_Parse j.(Job_Schedule) = Ok s).
Proof.
  unfold schedule_error. case_decide as Hd; [|naive_solver].
  destruct (ExtParser_Parse _) eqn:Hp; [naive_solver..|].
  by apply ExtParser_Parse_no_crash in Hp.
Qed.

Lemma concurrency_known (c : string) :
  ¬ (c ≠ ConcurrencyAllow ∧ c ≠ ConcurrencyForbid ∧ c ≠ "")
  ↔ c ∈ [ConcurrencyAllow; ConcurrencyForbid; ""].
Proof.
  rewrite !elem_of_cons, elem_of_nil.
  destruct (decide (c = ConcurrencyAllow)), (decide (c = ConcurrencyForbid)),
    (decide (c = "")); tauto.
Qed.

Lemma Validate_spec j : Validate j = None ↔ Valid j.
Proof.
  unfold Validate, isSlug. split.
  - intros H. case_decide; [done|].
    destruct (bool_decide _) eqn:Hslug; simpl in H; [|done].
    apply bool_decide_eq_true in Hslug. case_decide; [done|].
    destruct (schedule_error j) eqn:Hs; [done|]. case_decide as Hc; [done|].
    split; [done..| |by apply concurrency_known|done]. by apply schedule_error_None.
  - intros [Hn Hs Hp Hsch Hc Htz]. rewrite decide_False by done.
    rewrite bool_decide_true by done. simpl. rewrite decide_False by done.
    apply schedule_error_None in Hsch as ->. rewrite decide_False; [done|].
    by apply concurrency_known.
Qed.

(** Only letters, digits, dashes and underscores: a valid name holds no colon. *)
Lemma slug_no_colon name : find_rune_not slug_rune 0 name = "" → has_byte ":"%char name = false.
Proof.
  intros H. eapply all_bytes_no_byte; [by eapply (find_rune_not_ascii _ 0)|].
  unfold slug_rune. simpl. by rewrite is_Ll_ascii by (compute; done).
Qed.

Lemma slug_utf8 name : find_rune_not slug_rune 0 name = "" → valid_utf8 name = true.
Proof.
  intros H. eapply find_rune_not_utf8; [|done]. unfold slug_rune. by rewrite is_Ll_RuneError.
Qed.

Lemma GetNext_no_crash now j w : GetNext now j ≠ Crash w.
Proof.
  unfold GetNext. case_decide; [|done].
  destruct (ExtParser_Parse _) eqn:E; [done..|]. by apply ExtParser_Parse_no_crash in E.
Qed.

(** A valid job always has a next activation to compute. *)
Lemma GetNext_Valid now j : Valid j → ∃ t, GetNext now j = Ok t.
Proof.
  intros Hv. unfold GetNext. case_decide as Hd; [|by eexists].
  destruct (valid_schedule j Hv) as [s ->]; [by left|]. by eexists.
Qed.
End Validate.

(** ** [(j Job) isRunnable()]

    [globalLock] is the agent's flag and [active] what
    [j.Agent.GetActiveExecutions()] returns (it is only asked when the job
    forbids concurrency). *)
Definition isRunnable (globalLock : bool) (active : res (list pbExecution)) (j : Job) : bool :=
  if j.(Job_Disabled) then false
  else if globalLock then false
  else if decide (j.(Job_Concurrency) = ConcurrencyForbid) then
    match active with
    | Ok exs => negb (existsb (λ e, bool_decide (e.(pbEx_JobName) = j.(Job_Name))) exs)
    | _ => false
    end
  else true.

Lemma isRunnable_spec globalLock active j :
  isRunnable globalLock active j = true ↔
    j.(Job_Disabled) = false ∧ globalLock = false ∧
    (j.(Job_Concurrency) = ConcurrencyForbid →
      ∃ exs, active = Ok exs ∧ Forall (λ e, e.(pbEx_JobName) ≠ j.(Job_Name)) exs).
Proof.
  unfold isRunnable. destruct (Job_Disabled j); [naive_solver|].
  destruct globalLock; [naive_solver|]. case_decide as Hc; [|naive_solver].
  destruct active as [exs| |]; [|naive_solver..].
  rewrite negb_true_iff. split.
  - intros H. split_and!; [done..|]. intros _. exists exs. split; [done|].
    apply Forall_forall. intros e He Heq. apply not_true_iff_false in H. apply H.
    apply existsb_exists. exists e. rewrite bool_decide_true by done.
    by rewrite <- list_elem_of_In.
  - intros (_ & _ & H). destruct (H Hc) as (exs' & [= <-] & Hf).
    apply not_true_iff_false. rewrite existsb_exists. intros (e & He & Hd).
    rewrite <- list_elem_of_In in He. rewrite Forall_forall in Hf.
    apply bool_decide_eq_true in Hd. by eapply Hf.
Qed.
