(* ===== verification/BuntDB.v ===== *)
(** * [tidwall/buntdb]: the embedded key-value store, as an interface

    The repository only calls buntdb, so its operations are the parameters of a
    class and its documented behaviour the laws: [contents] is what a database
    holds, a map from keys to values; [Ascend] over the default index visits the
    pairs in key order; [Update] commits when the function returns no error and
    rolls back otherwise; [Save] and [Load] write and replay the pairs.

    [MapDB] is the reference implementation, a finite map.  [sim] relates a
    program run on any implementation to the same program run on the map: what
    holds of the store over [MapDB] then holds over every implementation. *)
From Stdlib Require Import ZArith Lia.
From stdpp Require Import base list gmap strings sorting.
From S2P Require Import Prelude GoStrings.

(** Pairs ordered by key, the order of buntdb's default index. *)
Definition key_le (x y : string * string) : Prop := String.le x.1 y.1.
#[export] Instance key_le_dec : RelDecision key_le.
Proof. intros x y. unfold key_le. apply _. Defined.
#[export] Instance key_le_total : Total key_le.
Proof. intros x y. apply String.le_total. Qed.
#[export] Instance key_le_trans : Transitive key_le.
Proof. intros x y z. unfold key_le. apply PreOrder_Transitive. Qed.

Class BuntDB (db : Type) := {
  contents : db → gmap string string;
  tx_Get : string → db → res string;
  tx_Set : string → string → M db unit;
  tx_Delete : string → M db string;
  tx_Ascend : db → list (string * string);
  db_Update {A} : M db A → M db A;
  db_View {A} : (db → res A) → M db A;
  (** what [Save] writes to an [io.Writer] and [Load] reads from an [io.Reader] *)
  snapshot : Type;
  db_Save : db → snapshot;
  db_Load : snapshot → M db unit;

  tx_Get_spec k d :
    tx_Get k d = match contents d !! k with Some v => Ok v | None => Err ErrNotFound end;
  tx_Set_ok k v d : (tx_Set k v d).1 = Ok tt;
  tx_Set_contents k v d : contents (tx_Set k v d).2 = <[k := v]> (contents d);
  tx_Delete_res k d :
    (tx_Delete k d).1 = match contents d !! k with Some v => Ok v | None => Err ErrNotFound end;
  tx_Delete_contents k d : contents (tx_Delete k d).2 = delete k (contents d);
  tx_Ascend_sorted d : Sorted key_le (tx_Ascend d);
  tx_Ascend_nodup d : NoDup (tx_Ascend d).*1;
  tx_Ascend_elem d k v : (k, v) ∈ tx_Ascend d ↔ contents d !! k = Some v;
  db_Update_commit {A} (m : M db A) d a d' : m d = (Ok a, d') → db_Update m d = (Ok a, d');
  db_Update_rollback {A} (m : M db A) d e d' : m d = (Err e, d') → db_Update m d = (Err e, d);
  db_Update_crash {A} (m : M db A) d w d' : m d = (Crash w, d') → db_Update m d = (Crash w, d);
  db_View_spec {A} (f : db → res A) d : db_View f d = (f d, d);
  (** [Load] replays what [Save] wrote on top of what is there *)
  db_Load_ok d d0 : (db_Load (db_Save d) d0).1 = Ok tt;
  db_Load_contents d d0 :
    contents (db_Load (db_Save d) d0).2 = contents d ∪ contents d0
}.
#[global] Hint Mode BuntDB ! : typeclass_instances.
#[global] Arguments snapshot db {_}.

(** ** The key order determines the listing *)

Definition ascend_list (m : gmap string string) : list (string * string) :=
  merge_sort key_le (map_to_list m).

Lemma ascend_list_perm m : ascend_list m ≡ₚ map_to_list m.
Proof. apply merge_sort_Permutation. Qed.

Lemma ascend_list_elem m k v : (k, v) ∈ ascend_list m ↔ m !! k = Some v.
Proof. by rewrite ascend_list_perm, elem_of_map_to_list. Qed.

Lemma ascend_list_nodup m : NoDup (ascend_list m).*1.
Proof. rewrite ascend_list_perm. apply NoDup_fst_map_to_list. Qed.

Lemma ascend_unique (l1 l2 : list (string * string)) :
  Sorted key_le l1 → Sorted key_le l2 → NoDup l1.*1 → NoDup l2.*1 →
  (∀ x, x ∈ l1 ↔ x ∈ l2) → l1 = l2.
Proof.
  intros Hs1 Hs2 Hn1 Hn2 Hel.
  apply (Sorted_unique_strong key_le); [|done..|].
  - intros [k1 v1] [k2 v2] Hx1 Hx2 Hle1 Hle2. unfold key_le in *. simpl in *.
    assert (k1 = k2) as -> by (by apply (anti_symm String.le)).
    apply Hel in Hx1. f_equal. by eapply nodup_fst_inj.
  - apply NoDup_Permutation; eauto using NoDup_fmap_1.
Qed.

Lemma tx_Ascend_list `{!BuntDB db} (d : db) : tx_Ascend d = ascend_list (contents d).
Proof.
  apply ascend_unique.
  - apply tx_Ascend_sorted.
  - apply Sorted_merge_sort. apply _.
  - apply tx_Ascend_nodup.
  - apply ascend_list_nodup.
  - intros [k v]. by rewrite tx_Ascend_elem, ascend_list_elem.
Qed.

(** ** The reference implementation *)

Definition map_Get (k : string) (m : gmap string string) : res string :=
  match m !! k with Some v => Ok v | None => Err ErrNotFound end.

Definition map_Update {A} (f : M (gmap string string) A) : M (gmap string string) A := λ m,
  match f m with
  | (Ok a, m') => (Ok a, m')
  | (Err e, _) => (Err e, m)
  | (Crash w, _) => (Crash w, m)
  end.

#[export] Instance MapDB : BuntDB (gmap string string).
Proof.
  refine {|
    contents := λ m, m;
    tx_Get := map_Get;
    tx_Set := λ k v m, (Ok tt, <[k := v]> m);
    tx_Delete := λ k m, (map_Get k m, delete k m);
    tx_Ascend := ascend_list;
    db_Update := @map_Update;
    db_View := λ _ f m, (f m, m);
    snapshot := gmap string string;
    db_Save := λ m, m;
    db_Load := λ s m, (Ok tt, s ∪ m)
  |}; try done.
  - intros d. apply Sorted_merge_sort. apply _.
  - intros d. apply ascend_list_nodup.
  - intros d k v. apply ascend_list_elem.
  - intros A m d a d' E. unfold map_Update. by rewrite E.
  - intros A m d a d' E. unfold map_Update. by rewrite E.
  - intros A m d a d' E. unfold map_Update. by rewrite E.
Defined.

(** ** Simulation of an implementation by the map *)

Section Sim.
Context `{BDB : !BuntDB db}.

(** The program [m1] over an implementation does what [m2] does over the map. *)
Definition sim {A} (m1 : M db A) (m2 : M (gmap string string) A) : Prop :=
  ∀ d, m2 (contents d) = ((m1 d).1, contents (m1 d).2).

(** Read-only programs. *)
Definition simr {A} (f1 : db → A) (f2 : gmap string string → A) : Prop :=
  ∀ d, f2 (contents d) = f1 d.

Lemma sim_retM {A} (a : A) : sim (retM a) (retM a).
Proof. done. Qed.
Lemma sim_errM {A} e : sim (A:=A) (errM e) (errM e).
Proof. done. Qed.
Lemma sim_crashM {A} w : sim (A:=A) (crashM w) (crashM w).
Proof. done. Qed.
Lemma sim_liftM {A} (r : res A) : sim (liftM r) (liftM r).
Proof. done. Qed.

Lemma sim_bindM {A B} m1 m2 (k1 : A → M db B) k2 :
  sim m1 m2 → (∀ a, sim (k1 a) (k2 a)) → sim (bindM m1 k1) (bindM m2 k2).
Proof.
  intros Hm Hk d. unfold bindM. rewrite Hm.
  destruct (m1 d) as [[a|e|w] d'] eqn:E; simpl; [|done..]. apply Hk.
Qed.

Lemma sim_tryM {A} (m1 : M db A) m2 : sim m1 m2 → sim (tryM m1) (tryM m2).
Proof.
  intros Hm d. unfold tryM. rewrite Hm. by destruct (m1 d) as [[a|e|w] d'].
Qed.

Lemma sim_Update {A} (m1 : M db A) m2 : sim m1 m2 → sim (db_Update m1) (db_Update m2).
Proof.
  intros Hm d. simpl. unfold map_Update. rewrite Hm.
  destruct (m1 d) as [[a|e|w] d'] eqn:E; simpl.
  - by rewrite (db_Update_commit m1 d a d').
  - by rewrite (db_Update_rollback m1 d e d').
  - by rewrite (db_Update_crash m1 d w d').
Qed.

Lemma sim_View {A} (f1 : db → res A) f2 : simr f1 f2 → sim (db_View f1) (db_View f2).
Proof. intros Hf d. rewrite !db_View_spec. simpl. by rewrite Hf. Qed.

Lemma simr_Get k : simr (tx_Get k) (tx_Get k).
Proof. intros d. by rewrite !tx_Get_spec. Qed.

Lemma simr_Ascend : simr tx_Ascend tx_Ascend.
Proof. intros d. by rewrite !tx_Ascend_list. Qed.

Lemma sim_Set k v : sim (tx_Set k v) (tx_Set k v).
Proof. intros d. by rewrite tx_Set_ok, tx_Set_contents. Qed.

Lemma sim_Delete k : sim (tx_Delete k) (tx_Delete k).
Proof.
  intros d. rewrite tx_Delete_res, tx_Delete_contents. simpl. done.
Qed.

(** A read-only function inside a state program. *)
Lemma sim_read {A} (f1 : db → res A) f2 :
  simr f1 f2 → sim (λ d, (f1 d, d)) (λ d, (f2 d, d)).
Proof. intros Hf d. simpl. by rewrite Hf. Qed.
End Sim.

Create HintDb sim.
#[export] Hint Resolve sim_retM sim_errM sim_crashM sim_liftM sim_bindM sim_tryM sim_Update
  sim_View simr_Get simr_Ascend sim_Set sim_Delete sim_read : sim.
