(* ===== verification/Store.v ===== *)
(** * [dkron/store.go]: the job and execution store

    The store keeps jobs under ["jobs:<name>"] and executions under
    ["executions:<job>:<start>-<node>"] in one buntdb database.  A method is a
    program of the state monad over the database; a [...TxFunc] is the body of a
    transaction.  [SetJob] calls itself through [removeFromParent] and
    [addToParent], so it takes fuel; [SetJob] proper runs with the fuel that
    [StoreProps] shows to be enough. *)
From Stdlib Require Import ZArith Lia Ascii.
From stdpp Require Import base list gmap strings sorting pretty.
From S2P Require Import Prelude GoStrings GoTime Pb NTime ExtCron Execution Job BuntDB.

#[local] Open Scope Z_scope.

(** [sort.Slice] and [sort.Sort]: some permutation in order; ties fall anyhow. *)
Class Sorting := {
  sort_Slice {A} : (A → A → bool) → list A → list A;
  sort_Slice_perm {A} (less : A → A → bool) l : sort_Slice less l ≡ₚ l;
  sort_Slice_sorted {A} (less : A → A → bool) l :
    (∀ x y, less x y = true → less y x = false) →
    (∀ x y z, less y x = false → less z y = false → less z x = false) →
    StronglySorted (λ x y, less y x = false) (sort_Slice less l)
}.

Definition MaxExecutions : Z := 100.
Definition jobsPrefix : string := "jobs".
Definition executionsPrefix : string := "executions".

(** [type JobOptions struct] *)
Record JobOptions := mkJobOptions { Options_Metadata : gmap string string }.

(** [fmt.Sprintf("%s:%s", jobsPrefix, name)] *)
Definition jobKey (name : string) : string := jobsPrefix +:+ ":" +:+ name.

(** [fmt.Sprintf("%s:%s:%s", executionsPrefix, jobName, key)] *)
Definition executionKey (jobName key : string) : string :=
  executionsPrefix +:+ ":" +:+ jobName +:+ ":" +:+ key.

(** [fmt.Sprintf("%s:%s:", executionsPrefix, jobName)] *)
Definition executionsDir (jobName : string) : string :=
  executionsPrefix +:+ ":" +:+ jobName +:+ ":".

Fixpoint last_byte (s : string) : option ascii :=
  match s with
  | EmptyString => None
  | String c EmptyString => Some c
  | String _ s' => last_byte s'
  end.

Definition isDirectoryKey (key : string) : bool := bool_decide (last_byte key = Some ":"%char).

Definition trimDirectoryKey (key : string) : string :=
  if isDirectoryKey key then take_bytes (String.length key - 1) key else key.

(** [(s Store) jobHasMetadata(job, metadata)], for a job that is not nil. *)
Definition jobHasMetadata (job : Job) (metadata : gmap string string) : bool :=
  if decide (job.(Job_Metadata) = ∅) then false
  else bool_decide (map_Forall (λ k v, job.(Job_Metadata) !! k = Some v) metadata).

(** The results of an execution written into a stored job. *)
Definition pbJob_set_results (ls le : option pbNullableTime) (sc ec : Z) (status : string)
    (j : pbJob) : pbJob :=
  mkpbJob j.(pbJob_Name) j.(pbJob_Timezone) j.(pbJob_Schedule) j.(pbJob_Owner)
    j.(pbJob_OwnerEmail) sc ec j.(pbJob_Disabled) j.(pbJob_Tags) j.(pbJob_Retries)
    j.(pbJob_DependentJobs) j.(pbJob_ParentJob) j.(pbJob_Concurrency) j.(pbJob_Executor)
    j.(pbJob_ExecutorConfig) status j.(pbJob_Metadata) ls le j.(pbJob_Next)
    j.(pbJob_Displayname) j.(pbJob_Processors).

(** The counting part of [computeStatus]. *)
Definition status_of (executions : list Execution) : string :=
  let success := length (filter (λ ex, ex.(Ex_Success) = true) executions) in
  let failed := length (filter (λ ex, ex.(Ex_Success) = false) executions) in
  if (failed =? 0)%nat then StatusSuccess
  else if (0 <? failed)%nat && (success =? 0)%nat then StatusFailed
  else if (0 <? failed)%nat && (0 <? success)%nat then StatusPartialyFailed
  else "".

Definition add_to_group (groups : gmap Z (list Execution)) (exec : Execution) :
    gmap Z (list Execution) :=
  <[exec.(Ex_Group) := default [] (groups !! exec.(Ex_Group)) ++ [exec]]> groups.

(** The fields of a stored job [ej] that an update keeps in [job] (lines 112-133). *)
Definition merge_stored (copyDependentJobs : bool) (ej job : Job) : Job :=
  if decide (ej.(Job_Name) = "") then job else
  {| Job_Name := job.(Job_Name); Job_DisplayName := job.(Job_DisplayName);
     Job_Timezone := job.(Job_Timezone); Job_Schedule := job.(Job_Schedule);
     Job_Owner := job.(Job_Owner); Job_OwnerEmail := job.(Job_OwnerEmail);
     Job_SuccessCount :=
       if job.(Job_SuccessCount) <? ej.(Job_SuccessCount)
       then ej.(Job_SuccessCount) else job.(Job_SuccessCount);
     Job_ErrorCount :=
       if job.(Job_ErrorCount) <? ej.(Job_ErrorCount)
       then ej.(Job_ErrorCount) else job.(Job_ErrorCount);
     Job_LastSuccess :=
       if NullableTime_After ej.(Job_LastSuccess) job.(Job_LastSuccess)
       then ej.(Job_LastSuccess) else job.(Job_LastSuccess);
     Job_LastError :=
       if NullableTime_After ej.(Job_LastError) job.(Job_LastError)
       then ej.(Job_LastError) else job.(Job_LastError);
     Job_Disabled := job.(Job_Disabled); Job_Tags := job.(Job_Tags);
     Job_Metadata := job.(Job_Metadata); Job_Retries := job.(Job_Retries);
     Job_DependentJobs :=
       if decide (ej.(Job_DependentJobs) ≠ [] ∧ copyDependentJobs = true)
       then ej.(Job_DependentJobs) else job.(Job_DependentJobs);
     Job_ParentJob := job.(Job_ParentJob);
     Job_Processors := job.(Job_Processors); Job_Concurrency := job.(Job_Concurrency);
     Job_Executor := job.(Job_Executor); Job_ExecutorConfig := job.(Job_ExecutorConfig);
     Job_Status :=
       if decide (ej.(Job_Status) ≠ "") then ej.(Job_Status) else job.(Job_Status);
     Job_Next := job.(Job_Next) |}.

Section Store.
Context {db : Type} {BDB : BuntDB db} {PT : Ptypes} {PB : Proto} {CP : CronParser}
        {UC : Unicode} {TZ : Locations} {SO : Sorting}.

(** ** Jobs *)

Definition setJobTxFunc (pbj : pbJob) : M db unit :=
  jb <- liftM (Marshal pbj) ;;
  tx_Set (jobKey pbj.(pbJob_Name)) jb.

Definition getJobTxFunc (name : string) (d : db) : res pbJob :=
  item <-? tx_Get (jobKey name) d ;;
  match Unmarshal item with
  | (pbj, None) => Ok pbj
  | (_, Some err) => Err err
  end.

(** The same inside a transaction. *)
Definition getJobTx (name : string) : M db pbJob := λ d, (getJobTxFunc name d, d).

Definition GetJob (name : string) : M db Job :=
  pbj <- db_View (getJobTxFunc name) ;;
  retM (NewJobFromProto pbj).

Definition GetJobs (options : option JobOptions) : M db (list Job) :=
  db_View (λ d,
    let jobs := omap (λ '(key, value),
      if HasPrefix key (jobsPrefix +:+ ":") then
        let job := NewJobFromProto (fst (Unmarshal value)) in
        let keep :=
          match options with
          | None => true
          | Some o =>
              bool_decide (o.(Options_Metadata) = ∅) || jobHasMetadata job o.(Options_Metadata)
          end in
        if keep then Some job else None
      else None) (tx_Ascend d) in
    Ok jobs).

(** [(j Job) GetParent(store)], of [job.go] *)
Definition GetParent (j : Job) : M db Job :=
  if decide (j.(Job_Name) = j.(Job_ParentJob)) then errM ErrSameParent
  else if decide (j.(Job_ParentJob) = "") then errM ErrNoParent
  else
    r <- tryM (GetJob j.(Job_ParentJob)) ;;
    match r with
    | inl parentJob => retM parentJob
    | inr ErrNotFound => errM ErrParentJobNotFound
    | inr err => errM err
    end.

(** The [Next] that [SetJob] stores (lines 135-145). *)
Definition set_next_activation (now : time) (ej job : Job) : res Job :=
  if decide (job.(Job_Schedule) ≠ ej.(Job_Schedule)) then
    next <-? GetNext now job ;; Ok (set_Next next job)
  else if Before job.(Job_Next) ej.(Job_Next) then Ok (set_Next ej.(Job_Next) job)
  else Ok job.

(** The transaction of [SetJob]: the stored job it found (the zero job when
    there is none) and the job as it was written.  The error of
    [setJobTxFunc] is dropped. *)
Definition setJob_tx (now : time) (job : Job) (copyDependentJobs : bool) : M db (Job * Job) :=
  r <- tryM (getJobTx job.(Job_Name)) ;;
  pbej <- match r with
          | inl pbej => retM pbej
          | inr ErrNotFound => retM pbJob_zero
          | inr err => errM err
          end ;;
  let ej := NewJobFromProto pbej in
  let job := merge_stored copyDependentJobs ej job in
  job <- liftM (set_next_activation now ej job) ;;
  tryM (setJobTxFunc (Job_ToProto job)) ;;;
  retM (ej, job).

(** [removeFromParent] and [addToParent], given the [SetJob] they call. *)
Definition removeFromParent (setJob : Job → bool → M db unit) (child : Job) : M db unit :=
  if decide (child.(Job_ParentJob) = "") then retM tt
  else
    parent <- GetParent child ;;
    let djs := filter (λ djn, djn ≠ child.(Job_Name)) parent.(Job_DependentJobs) in
    setJob (set_DependentJobs djs parent) false.

Definition addToParent (setJob : Job → bool → M db unit) (child : Job) : M db unit :=
  if decide (child.(Job_ParentJob) = "") then retM tt
  else
    parent <- GetParent child ;;
    setJob (set_DependentJobs (parent.(Job_DependentJobs) ++ [child.(Job_Name)]) parent) false.

(** [SetJob(job, copyDependentJobs)]; [Crash "out of fuel"] when the recursion
    through the parents is deeper than [fuel]. *)
Fixpoint SetJob_fuel (fuel : nat) (now : time) (job : Job) (copyDependentJobs : bool) :
    M db unit :=
  match fuel with
  | O => crashM "out of fuel"
  | S fuel' =>
      match Validate job with
      | Some err => errM err
      | None =>
          (if decide (job.(Job_ParentJob) = "") then retM tt
           else
             r <- tryM (GetJob job.(Job_ParentJob)) ;;
             match r with
             | inl _ => retM tt
             | inr _ => errM ErrParentJobNotFound
             end) ;;;
          p <- db_Update (setJob_tx now job copyDependentJobs) ;;
          let '(ej, job) := (p : Job * Job) in
          if decide (job.(Job_ParentJob) = ej.(Job_ParentJob)) then retM tt
          else
            removeFromParent (SetJob_fuel fuel' now) ej ;;;
            addToParent (SetJob_fuel fuel' now) job
      end
  end.

Definition SetJob (now : time) (job : Job) (copyDependentJobs : bool) : M db unit :=
  SetJob_fuel 2 now job copyDependentJobs.

(** [deleteExecutionsTxFunc(jobName)]: the keys are collected, then deleted. *)
Definition deleteExecutionsTxFunc (jobName : string) : M db unit := λ d,
  let prefix := executionsPrefix +:+ ":" +:+ jobName in
  let delkeys := filter (λ k, HasPrefix k prefix = true) (tx_Ascend d).*1 in
  (Ok tt, foldl (λ d k, (tx_Delete k d).2) d delkeys).

Definition DeleteJob (now : time) (name : string) : M db Job :=
  job <- db_Update (
    pbj <- getJobTx name ;;
    if decide (pbj.(pbJob_DependentJobs) ≠ []) then errM ErrDependentJobs
    else
      let job := NewJobFromProto pbj in
      deleteExecutionsTxFunc name ;;;
      tx_Delete (jobKey name) ;;;
      retM job) ;;
  (if decide (job.(Job_ParentJob) = "") then retM tt
   else removeFromParent (SetJob now) job) ;;;
  retM job.

(** ** Executions *)

(** [listTxFunc(prefix, ...)]: the pairs under the prefix, and whether there
    was any key with it. *)
Definition listTxFunc (prefix : string) (d : db) : list (string * string) * bool :=
  let hits := filter (λ kv : string * string, HasPrefix kv.1 prefix = true) (tx_Ascend d) in
  (filter (λ kv : string * string, trimDirectoryKey kv.1 ≠ prefix) hits,
   negb (bool_decide (hits = []))).

Definition list_ (prefix : string) (checkRoot : bool) : M db (list (string * string)) :=
  r <- db_View (λ d, Ok (listTxFunc prefix d)) ;;
  let '(kvs, found) := (r : list (string * string) * bool) in
  if negb found && checkRoot then errM ErrNotFound else retM kvs.

Fixpoint unmarshalExecutions (items : list (string * string)) : res (list Execution) :=
  match items with
  | [] => Ok []
  | (_, value) :: items' =>
      match Unmarshal value with
      | (_, Some err) => Err err
      | (pbe, None) =>
          executions <-? unmarshalExecutions items' ;;
          Ok (NewExecutionFromProto pbe :: executions)
      end
  end.

Definition GetExecutions (jobName : string) : M db (list Execution) :=
  kvs <- list_ (executionsDir jobName) true ;;
  liftM (unmarshalExecutions kvs).

Definition GetExecutionGroup (execution : Execution) : M db (list Execution) :=
  res <- GetExecutions execution.(Ex_JobName) ;;
  retM (filter (λ ex, ex.(Ex_Group) = execution.(Ex_Group)) res).

Definition GetGroupedExecutions (jobName : string) :
    M db (gmap Z (list Execution) * list Z) :=
  execs <- GetExecutions jobName ;;
  let groups := foldl add_to_group ∅ execs in
  let byGroup := sort_Slice (λ x y, y <? x) (map_to_list groups).*1 in
  retM (groups, byGroup).

(** A nil slice is the empty list. *)
Definition GetLastExecutionGroup (jobName : string) : M db (list Execution) :=
  r <- GetGroupedExecutions jobName ;;
  let '(executions, byGroup) := (r : gmap Z (list Execution) * list Z) in
  match byGroup with
  | g :: _ =>
      if decide (0 < size executions)%nat then retM (default [] (executions !! g))
      else retM []
  | [] => retM []
  end.

Definition computeStatus (jobName : string) (exGroup : Z) (d : db) : res string :=
  let kvs := (listTxFunc (executionsDir jobName) d).1 in
  execs <-? unmarshalExecutions kvs ;;
  let executions := filter (λ ex, ex.(Ex_Group) = exGroup) execs in
  Ok (status_of executions).

(** [p.GetFinishedAt().Seconds]: a nil timestamp is dereferenced. *)
Definition finished_seconds (p : pbExecution) : res Z :=
  match p.(pbEx_FinishedAt) with
  | Some ts => Ok ts.(Seconds)
  | None => Crash "nil pointer dereference"
  end.

Definition setExecutionTxFunc (key : string) (pbe : pbExecution) : M db unit := λ d,
  let set : M db unit := eb <- liftM (Marshal pbe) ;; tx_Set key eb in
  match tx_Get key d with
  | Crash w => (Crash w, d)
  | Err ErrNotFound => set d
  | Err err => (Err err, d)
  | Ok i =>
      if decide (i = "") then set d
      else
        match Unmarshal i with
        | (_, Some err) => (Err err, d)
        | (p, None) =>
            (old <- liftM (finished_seconds p) ;;
             new <- liftM (finished_seconds pbe) ;;
             if new <? old then retM tt else set) d
        end
  end.

(** The keys of the executions over the limit, the oldest first. *)
Definition overflow_keys (execs : list Execution) : list string :=
  if MaxExecutions <? Z.of_nat (length execs) then
    let sorted := sort_Slice (λ x y, Before x.(Ex_StartedAt) y.(Ex_StartedAt)) execs in
    (λ e, executionKey e.(Ex_JobName) (Execution_Key e))
      <$> take (length execs - Z.to_nat MaxExecutions) sorted
  else [].

(** One transaction per key; an error is logged. *)
Fixpoint delete_keys (ks : list string) : M db unit :=
  match ks with
  | [] => retM tt
  | k :: ks' => tryM (db_Update (tx_Delete k)) ;;; delete_keys ks'
  end.

Definition SetExecution (execution : Execution) : M db string :=
  let pbe := Execution_ToProto execution in
  let key := executionKey execution.(Ex_JobName) (Execution_Key execution) in
  db_Update (setExecutionTxFunc key pbe) ;;;
  r <- tryM (GetExecutions execution.(Ex_JobName)) ;;
  let execs := match r with inl execs => execs | inr _ => [] end in
  delete_keys (overflow_keys execs) ;;;
  retM key.

(** [pbj.LastSuccess.HasValue = true; ...Time = t]: the pointer must not be nil. *)
Definition mark_time (m : option pbNullableTime) (t : option timestamp) :
    res (option pbNullableTime) :=
  match m with
  | Some _ => Ok (Some (mkpbNullableTime true t))
  | None => Crash "nil pointer dereference"
  end.

Definition setExecutionDone_tx (execution : Execution) : M db unit :=
  r <- tryM (getJobTx execution.(Ex_JobName)) ;;
  pbj <- match r with
         | inl pbj => retM pbj
         | inr ErrNotFound => errM ErrExecutionDoneForDeletedJob
         | inr err => crashM (Error err)       (* log.Fatal *)
         end ;;
  let key := executionKey execution.(Ex_JobName) (Execution_Key execution) in
  let pbe := Execution_ToProto execution in
  setExecutionTxFunc key pbe ;;;
  pbj' <- (if pbe.(pbEx_Success) then
             ls <- liftM (mark_time pbj.(pbJob_LastSuccess) pbe.(pbEx_FinishedAt)) ;;
             retM (pbJob_set_results ls pbj.(pbJob_LastError)
                     (intN 32 (pbj.(pbJob_SuccessCount) + 1)) pbj.(pbJob_ErrorCount)
                     pbj.(pbJob_Status) pbj)
           else
             le <- liftM (mark_time pbj.(pbJob_LastError) pbe.(pbEx_FinishedAt)) ;;
             retM (pbJob_set_results pbj.(pbJob_LastSuccess) le
                     pbj.(pbJob_SuccessCount) (intN 32 (pbj.(pbJob_ErrorCount) + 1))
                     pbj.(pbJob_Status) pbj)) ;;
  status <- (λ d, (computeStatus pbj.(pbJob_Name) pbe.(pbEx_Group) d, d)) ;;
  setJobTxFunc
    (pbJob_set_results pbj'.(pbJob_LastSuccess) pbj'.(pbJob_LastError)
       pbj'.(pbJob_SuccessCount) pbj'.(pbJob_ErrorCount) status pbj').

Definition SetExecutionDone (execution : Execution) : M db bool :=
  db_Update (setExecutionDone_tx execution) ;;;
  retM true.

(** [Snapshot] and [Restore]; buntdb's [Save] and [Load]. *)
Definition Store_Snapshot (d : db) : snapshot db := db_Save d.
Definition Store_Restore (s : snapshot db) : M db unit := db_Load s.
End Store.
