(* ===== verification/StoreSim.v ===== *)
(** * The store over any buntdb refines the store over a map

    For each method, the same program run on an arbitrary implementation of the
    database interface returns what it returns on the finite map of its
    contents, and leaves contents that are the map's.  The theorems about the
    store are proved over the map and carried to every implementation with
    [sim_run]. *)
From Stdlib Require Import ZArith Lia.
From stdpp Require Import base list gmap strings sorting.
From S2P Require Import Prelude GoStrings GoTime Pb NTime ExtCron Execution Job BuntDB.
From S2P Require Import Store.

Abbreviation kvmap := (gmap string string).

(** Run a simulated program: its result and its final contents. *)
Lemma sim_run `{BDB : !BuntDB db} {A} (m1 : M db A) (m2 : M kvmap A) (d : db) r m' :
  sim m1 m2 → m2 (contents d) = (r, m') → (m1 d).1 = r ∧ contents (m1 d).2 = m'.
Proof. intros Hs E. rewrite (Hs d) in E. by simplify_eq. Qed.

Ltac sim_step :=
  first
    [ progress (intros)
    | progress (cbn beta iota)
    | match goal with
      | |- sim (if decide ?P then _ else _) (if decide ?P then _ else _) =>
          destruct (decide P)
      | |- sim (if ?b then _ else _) (if ?b then _ else _) => destruct b
      | |- sim (match ?x with inl _ => _ | inr _ => _ end) _ => destruct x as [?|[]]
      | |- sim (let '(_, _) := ?x in _) _ => destruct x
      | |- sim (bindM _ _) (bindM _ _) => apply sim_bindM
      | |- sim (tryM _) (tryM _) => apply sim_tryM
      | |- sim (db_Update _) (db_Update _) => apply sim_Update
      | |- sim (db_View _) (db_View _) => apply sim_View
      end
    | solve [eauto with sim] ].
Ltac sim_auto := repeat sim_step.

Section StoreSim.
Context {db : Type} {BDB : BuntDB db} {PT : Ptypes} {PB : Proto} {CP : CronParser}
        {UC : Unicode} {TZ : Locations} {SO : Sorting}.

Lemma sim_setJobTxFunc pbj : sim (db:=db) (setJobTxFunc pbj) (setJobTxFunc pbj).
Proof. unfold setJobTxFunc. sim_auto. Qed.

Lemma simr_getJobTxFunc name : simr (db:=db) (getJobTxFunc name) (getJobTxFunc name).
Proof. intros d. unfold getJobTxFunc. by rewrite (simr_Get (jobKey name) d). Qed.

Lemma sim_getJobTx name : sim (db:=db) (getJobTx name) (getJobTx name).
Proof. unfold getJobTx. apply sim_read, simr_getJobTxFunc. Qed.
#[local] Hint Resolve sim_setJobTxFunc simr_getJobTxFunc sim_getJobTx : sim.

Lemma sim_GetJob name : sim (db:=db) (GetJob name) (GetJob name).
Proof. unfold GetJob. sim_auto. Qed.
#[local] Hint Resolve sim_GetJob : sim.

Lemma sim_GetJobs options : sim (db:=db) (GetJobs options) (GetJobs options).
Proof.
  unfold GetJobs. apply sim_View. intros d. by rewrite (simr_Ascend d).
Qed.

Lemma sim_GetParent j : sim (db:=db) (GetParent j) (GetParent j).
Proof. unfold GetParent. sim_auto. Qed.
#[local] Hint Resolve sim_GetParent : sim.

Lemma sim_setJob_tx now job b : sim (db:=db) (setJob_tx now job b) (setJob_tx now job b).
Proof. unfold setJob_tx. sim_auto. Qed.
#[local] Hint Resolve sim_setJob_tx : sim.

Lemma sim_removeFromParent (f1 : Job → bool → M db unit) f2 child :
  (∀ j b, sim (db:=db) (f1 j b) (f2 j b)) → sim (db:=db) (removeFromParent f1 child) (removeFromParent f2 child).
Proof. intros Hf. unfold removeFromParent. sim_auto. Qed.

Lemma sim_addToParent (f1 : Job → bool → M db unit) f2 child :
  (∀ j b, sim (db:=db) (f1 j b) (f2 j b)) → sim (db:=db) (addToParent f1 child) (addToParent f2 child).
Proof. intros Hf. unfold addToParent. sim_auto. Qed.
#[local] Hint Resolve sim_removeFromParent sim_addToParent : sim.

Lemma sim_SetJob_fuel fuel now job b : sim (db:=db) (SetJob_fuel fuel now job b) (SetJob_fuel fuel now job b).
Proof.
  revert job b. induction fuel as [|fuel IH]; intros job b; simpl; [apply sim_crashM|].
  destruct (Validate job); [apply sim_errM|]. sim_auto.
Qed.

Lemma sim_SetJob now job b : sim (db:=db) (SetJob now job b) (SetJob now job b).
Proof. apply sim_SetJob_fuel. Qed.
#[local] Hint Resolve sim_SetJob : sim.

Lemma contents_delete_all (ks : list string) (d : db) :
  contents (foldl (λ d k, (tx_Delete k d).2) d ks)
  = foldl (λ (m : kvmap) k, (tx_Delete k m).2) (contents d) ks.
Proof.
  revert d. induction ks as [|k ks IH]; intros d; [done|]. simpl.
  by rewrite IH, tx_Delete_contents.
Qed.

Lemma sim_deleteExecutionsTxFunc jobName :
  sim (db:=db) (deleteExecutionsTxFunc jobName) (deleteExecutionsTxFunc jobName).
Proof.
  intros d. unfold deleteExecutionsTxFunc. rewrite <- (simr_Ascend d). simpl snd.
  by rewrite contents_delete_all.
Qed.
#[local] Hint Resolve sim_deleteExecutionsTxFunc : sim.

Lemma sim_DeleteJob now name : sim (db:=db) (DeleteJob now name) (DeleteJob now name).
Proof. unfold DeleteJob. sim_auto. Qed.

Lemma simr_listTxFunc prefix : simr (db:=db) (listTxFunc prefix) (listTxFunc prefix).
Proof. intros d. unfold listTxFunc. by rewrite (simr_Ascend d). Qed.

Lemma sim_list_ prefix checkRoot : sim (db:=db) (list_ prefix checkRoot) (list_ prefix checkRoot).
Proof.
  unfold list_. sim_auto. intros d. by rewrite (simr_listTxFunc prefix d).
Qed.
#[local] Hint Resolve sim_list_ : sim.

Lemma sim_GetExecutions jobName : sim (db:=db) (GetExecutions jobName) (GetExecutions jobName).
Proof. unfold GetExecutions. sim_auto. Qed.
#[local] Hint Resolve sim_GetExecutions : sim.

Lemma sim_GetExecutionGroup ex : sim (db:=db) (GetExecutionGroup ex) (GetExecutionGroup ex).
Proof. unfold GetExecutionGroup. sim_auto. Qed.

Lemma sim_GetGroupedExecutions jobName :
  sim (db:=db) (GetGroupedExecutions jobName) (GetGroupedExecutions jobName).
Proof. unfold GetGroupedExecutions. sim_auto. Qed.
#[local] Hint Resolve sim_GetGroupedExecutions : sim.

Lemma sim_GetLastExecutionGroup jobName :
  sim (db:=db) (GetLastExecutionGroup jobName) (GetLastExecutionGroup jobName).
Proof.
  unfold GetLastExecutionGroup. apply sim_bindM; [apply sim_GetGroupedExecutions|].
  intros [ex by_]. destruct by_; sim_auto.
Qed.

Lemma simr_computeStatus jobName g : simr (db:=db) (computeStatus jobName g) (computeStatus jobName g).
Proof. intros d. unfold computeStatus. by rewrite (simr_listTxFunc _ d). Qed.

Lemma sim_setExecutionTxFunc key pbe :
  sim (db:=db) (setExecutionTxFunc key pbe) (setExecutionTxFunc key pbe).
Proof.
  intros d. unfold setExecutionTxFunc. rewrite (simr_Get key d).
  assert (sim (db:=db) (bindM (liftM (Marshal pbe)) (tx_Set key) : M db unit)
              (bindM (liftM (Marshal pbe)) (tx_Set key))) as Hset by sim_auto.
  destruct (tx_Get key d) as [i|[]|]; try done; try apply Hset.
  case_decide; [apply Hset|].
  destruct (Unmarshal i) as [p [e|]]; [done|].
  lazymatch goal with
  | |- ?f (contents d) = ((?g d).1, _) => enough (sim g f) as Hs by apply Hs
  end. sim_auto.
Qed.
#[local] Hint Resolve sim_setExecutionTxFunc simr_computeStatus : sim.

Lemma sim_delete_keys ks : sim (db:=db) (delete_keys ks) (delete_keys ks).
Proof. induction ks as [|k ks IH]; simpl; [apply sim_retM|]. sim_auto. Qed.
#[local] Hint Resolve sim_delete_keys : sim.

Lemma sim_SetExecution ex : sim (db:=db) (SetExecution ex) (SetExecution ex).
Proof. unfold SetExecution. sim_auto. Qed.

Lemma sim_setExecutionDone_tx ex : sim (db:=db) (setExecutionDone_tx ex) (setExecutionDone_tx ex).
Proof. unfold setExecutionDone_tx. sim_auto. Qed.
#[local] Hint Resolve sim_setExecutionDone_tx : sim.

Lemma sim_SetExecutionDone ex : sim (db:=db) (SetExecutionDone ex) (SetExecutionDone ex).
Proof. unfold SetExecutionDone. sim_auto. Qed.
End StoreSim.
