(* ===== verification/StoreSpec.v ===== *)
(** * What the store promises

    The abstract store: a map of jobs by name and a map of executions by key, and
    for each method of [Store] what it does to the two maps.  [StoreRefine] shows
    that the methods over a database implement these; the properties of the store
    are then read off the maps. *)
From Stdlib Require Import ZArith Lia Ascii.
From stdpp Require Import base list gmap strings sorting.
From S2P Require Import Prelude GoStrings GoTime Pb NTime ExtCron Execution Job BuntDB.
From S2P Require Import Store.

#[local] Open Scope Z_scope.

(** ** The abstract state *)
Record state := mkState { jobs : gmap string Job; execs : gmap string Execution }.

Definition with_job (n : string) (j : Job) (s : state) : state :=
  mkState (<[n := j]> s.(jobs)) s.(execs).
Definition with_execs (E : gmap string Execution) (s : state) : state :=
  mkState s.(jobs) E.

(** The keys of a map in order. *)
Definition sorted_keys {A} (m : gmap string A) : list string :=
  merge_sort String.le (map_to_list m).*1.

(** The executions under a directory of keys, in key order. *)
Definition listing (prefix : string) (E : gmap string Execution) : list Execution :=
  omap (E !!.) (filter (λ k, HasPrefix k prefix = true) (sorted_keys E)).

Section Spec.
Context {PT : Ptypes} {PB : Proto} {CP : CronParser} {UC : Unicode} {TZ : Locations}
        {SO : Sorting}.

(** What is read back after a job is written. *)
Definition norm (j : Job) : Job := NewJobFromProto (wire_Job (Job_ToProto j)).

(** The jobs that [Marshal] accepts: every string is valid UTF-8. *)
Definition storable (j : Job) : Prop :=
  Forall (λ s, valid_utf8 s = true) (job_strings (Job_ToProto j)).
#[export] Instance storable_dec j : Decision (storable j).
Proof. unfold storable. apply _. Defined.

Definition Job_zero : Job := NewJobFromProto pbJob_zero.

(** The parent a job names is not in the store. *)
Definition parent_missing (s : state) (j : Job) : bool :=
  bool_decide (j.(Job_ParentJob) ≠ "" ∧ s.(jobs) !! j.(Job_ParentJob) = None).

(** The dependent jobs of the stored job [p] are rewritten by [f]. *)
Definition spec_update_parent (f : list string → list string) (p : string) : M state unit :=
  λ s,
  if decide (p = "") then (Ok tt, s) else
  match s.(jobs) !! p with
  | None => (Err ErrParentJobNotFound, s)
  | Some pj =>
      if parent_missing s pj then (Err ErrParentJobNotFound, s)
      else (Ok tt, with_job p (set_DependentJobs (f pj.(Job_DependentJobs)) pj) s)
  end.

Definition drop_child (child : string) (djs : list string) : list string :=
  filter (λ djn, djn ≠ child) djs.
Definition add_child (child : string) (djs : list string) : list string := djs ++ [child].

(** The job that [SetJob] writes, given the one that was there. *)
Definition written (now : time) (copyDependentJobs : bool) (ej job : Job) : res Job :=
  set_next_activation now ej (merge_stored copyDependentJobs ej job).

Definition spec_SetJob (now : time) (job : Job) (copyDependentJobs : bool) : M state unit :=
  λ s,
  let n := job.(Job_Name) in
  match Validate job with
  | Some e => (Err e, s)
  | None =>
      if parent_missing s job then (Err ErrParentJobNotFound, s)
      else
        let ej := default Job_zero (s.(jobs) !! n) in
        match written now copyDependentJobs ej job with
        | Ok job' =>
            let s1 := if decide (storable job') then with_job n (norm job') s else s in
            if decide (job.(Job_ParentJob) = ej.(Job_ParentJob)) then (Ok tt, s1)
            else
              (spec_update_parent (drop_child n) ej.(Job_ParentJob) ;;;
               spec_update_parent (add_child n) job.(Job_ParentJob)) s1
        | Err e => (Err e, s)
        | Crash w => (Crash w, s)
        end
  end.

(** The jobs in the order of their names, all of them or those with the metadata. *)
Definition keep_job (options : option JobOptions) (j : Job) : bool :=
  match options with
  | None => true
  | Some o =>
      bool_decide (o.(Options_Metadata) = ∅) || jobHasMetadata j o.(Options_Metadata)
  end.

Definition spec_GetJobs (options : option JobOptions) (s : state) : list Job :=
  filter (λ j, keep_job options j = true) (omap (s.(jobs) !!.) (sorted_keys s.(jobs))).

(** The executions that deleting a job takes away. *)
Definition drop_execs (name : string) (E : gmap string Execution) : gmap string Execution :=
  filter (λ kv, HasPrefix kv.1 (executionsPrefix +:+ ":" +:+ name) = false) E.

(** A job that others depend on is not deleted. *)
Definition spec_delete (name : string) : M state Job := λ s,
  match s.(jobs) !! name with
  | None => (Err ErrNotFound, s)
  | Some j =>
      if decide (j.(Job_DependentJobs) ≠ []) then (Err ErrDependentJobs, s)
      else (Ok j, mkState (delete name s.(jobs)) (drop_execs name s.(execs)))
  end.

Definition spec_DeleteJob (name : string) : M state Job :=
  j <- spec_delete name ;;
  spec_update_parent (drop_child name) j.(Job_ParentJob) ;;;
  retM j.

Definition exec_key (e : Execution) : string :=
  executionKey e.(Ex_JobName) (Execution_Key e).

(** An execution replaces the one with its key unless it finished before it. *)
Definition put_exec (e : Execution) (E : gmap string Execution) : gmap string Execution :=
  match E !! exec_key e with
  | Some old =>
      if Unix e.(Ex_FinishedAt) <? Unix old.(Ex_FinishedAt) then E
      else <[exec_key e := e]> E
  | None => <[exec_key e := e]> E
  end.

Definition spec_GetExecutions (jobName : string) (s : state) : res (list Execution) :=
  match listing (executionsDir jobName) s.(execs) with
  | [] => Err ErrNotFound
  | l => Ok l
  end.

Definition spec_SetExecution (e : Execution) : M state string := λ s,
  let E := put_exec e s.(execs) in
  let old := overflow_keys (listing (executionsDir e.(Ex_JobName)) E) in
  (Ok (exec_key e), with_execs (foldl (λ E k, delete k E) E old) s).

(** The stored job after an execution of it is done. *)
Definition done_job (e : Execution) (status : string) (j : Job) : Job :=
  {| Job_Name := j.(Job_Name); Job_DisplayName := j.(Job_DisplayName);
     Job_Timezone := j.(Job_Timezone); Job_Schedule := j.(Job_Schedule);
     Job_Owner := j.(Job_Owner); Job_OwnerEmail := j.(Job_OwnerEmail);
     Job_SuccessCount :=
       if e.(Ex_Success) then intN 32 (j.(Job_SuccessCount) + 1) else j.(Job_SuccessCount);
     Job_ErrorCount :=
       if e.(Ex_Success) then j.(Job_ErrorCount) else intN 32 (j.(Job_ErrorCount) + 1);
     Job_LastSuccess :=
       if e.(Ex_Success) then mkNullableTime true e.(Ex_FinishedAt) else j.(Job_LastSuccess);
     Job_LastError :=
       if e.(Ex_Success) then j.(Job_LastError) else mkNullableTime true e.(Ex_FinishedAt);
     Job_Disabled := j.(Job_Disabled); Job_Tags := j.(Job_Tags);
     Job_Metadata := j.(Job_Metadata); Job_Retries := j.(Job_Retries);
     Job_DependentJobs := j.(Job_DependentJobs); Job_ParentJob := j.(Job_ParentJob);
     Job_Processors := j.(Job_Processors); Job_Concurrency := j.(Job_Concurrency);
     Job_Executor := j.(Job_Executor); Job_ExecutorConfig := j.(Job_ExecutorConfig);
     Job_Status := status; Job_Next := j.(Job_Next) |}.

Definition group_status (jobName : string) (g : Z) (E : gmap string Execution) : string :=
  status_of (filter (λ ex, ex.(Ex_Group) = g) (listing (executionsDir jobName) E)).

Definition spec_SetExecutionDone (e : Execution) : M state bool := λ s,
  let n := e.(Ex_JobName) in
  match s.(jobs) !! n with
  | None => (Err ErrExecutionDoneForDeletedJob, s)
  | Some j =>
      let E := put_exec e s.(execs) in
      (Ok true,
       mkState (<[n := done_job e (group_status n e.(Ex_Group) E) j]> s.(jobs)) E)
  end.

(** ** What a database must hold to stand for an abstract state *)

(** A stored job: it decodes to [j], whose name is the one of the key; it was
    validated, and it can be written again without loss. *)
Record job_rep (n v : string) (j : Job) : Prop := {
  jr_decode : ∃ pbj, Unmarshal v = (pbj, None) ∧ NewJobFromProto pbj = j
                     ∧ pbj.(pbJob_LastSuccess) ≠ None ∧ pbj.(pbJob_LastError) ≠ None;
  jr_name : j.(Job_Name) = n;
  jr_valid : Valid j;
  jr_wf : Job_wf j;
  jr_storable : storable j
}.

(** Executions that may be stored: representable, of a job with a proper name,
    with strings in UTF-8. *)
Record exec_ok (e : Execution) : Prop := {
  eo_wf : Execution_wf e;
  eo_colon : has_byte ":"%char e.(Ex_JobName) = false;
  eo_job_utf8 : valid_utf8 e.(Ex_JobName) = true;
  eo_node_utf8 : valid_utf8 e.(Ex_NodeName) = true
}.

Record exec_rep (k v : string) (e : Execution) : Prop := {
  er_decode : Unmarshal v = (Execution_ToProto e, None);
  er_key : k = exec_key e;
  er_ok : exec_ok e
}.

Definition executions_root : string := executionsPrefix +:+ ":".

Record Rep (m : gmap string string) (s : state) : Prop := {
  rep_jobs n : option_Forall2 (job_rep n) (m !! jobKey n) (s.(jobs) !! n);
  rep_execs k : HasPrefix k executions_root = true →
    option_Forall2 (exec_rep k) (m !! k) (s.(execs) !! k);
  rep_execs_dom k : is_Some (s.(execs) !! k) → HasPrefix k executions_root = true
}.

(** The concrete program [p] does to the database what [q] does to the maps. *)
Definition refines {A} (p : M (gmap string string) A) (q : M state A) : Prop :=
  ∀ m s, Rep m s → (p m).1 = (q s).1 ∧ Rep (p m).2 (q s).2.
End Spec.
