(* ===== verification/StoreRefine.v ===== *)
(** * The store implements its specification *)
From Stdlib Require Import ZArith Lia Ascii.
From stdpp Require Import base list gmap strings sorting.
From S2P Require Import Prelude GoStrings GoTime Pb NTime ExtCron Execution Job BuntDB.
From S2P Require Import Store StoreSim StoreSpec.

#[local] Open Scope Z_scope.

(** ** Keys *)

Lemma jobKey_inj n1 n2 : jobKey n1 = jobKey n2 → n1 = n2.
Proof. intros H. by injection H. Qed.

#[export] Instance jobKey_Inj : Inj (=) (=) jobKey.
Proof. intros n1 n2. apply jobKey_inj. Qed.

Lemma jobKey_not_execution n : HasPrefix (jobKey n) executions_root = false.
Proof. done. Qed.

Lemma executionKey_root n k : HasPrefix (executionKey n k) executions_root = true.
Proof. apply (HasPrefix_app executions_root). Qed.

Lemma jobKey_ne_executionKey n n' k : jobKey n ≠ executionKey n' k.
Proof. done. Qed.

(** ** What a write makes of a job *)

Section Norm.
Context {PT : Ptypes}.

Lemma NullableTime_FromProto_wf (m : option pbNullableTime) :
  (∀ t, m = Some t → valid_time (Timestamp t.(pbNT_Time))) →
  NullableTime_wf (NullableTime_FromProto m).
Proof.
  intros H. unfold NullableTime_FromProto. destruct m as [[[] t]|]; simpl; [|done..].
  by apply (H _ eq_refl).
Qed.

Lemma Timestamp_TimestampProto_valid t : valid_time (Timestamp (TimestampProto t)).
Proof.
  destruct (decide (valid_time t)) as [Hv|Hv]; [by rewrite Timestamp_id|].
  rewrite TimestampProto_invalid, Timestamp_nil by done.
  unfold valid_time, nanos_per_sec. lia.
Qed.

Lemma nt_roundtrip_wf t : NullableTime_wf (NullableTime_FromProto (Some (NullableTime_ToProto t))).
Proof.
  destruct t as [[] t]; [|done]. apply Timestamp_TimestampProto_valid.
Qed.

Lemma norm_wf j : Job_wf (norm j).
Proof.
  split; simpl; try apply intN_range; try apply nt_roundtrip_wf; try lia.
  - unfold in_uint, uintN. by apply Z.mod_pos_bound.
  - apply Timestamp_TimestampProto_valid.
  - intros k c. rewrite !lookup_fmap. intros E. simplify_option_eq.
    by destruct (wire_PluginConfig _) as [[]].
Qed.

Lemma norm_id j : Job_wf j → norm j = j.
Proof. apply Job_wire_roundtrip. Qed.

Lemma set_DependentJobs_wf djs j : Job_wf j → Job_wf (set_DependentJobs djs j).
Proof. intros []. by split. Qed.
End Norm.

Lemma set_DependentJobs_twice d1 d2 j :
  set_DependentJobs d1 (set_DependentJobs d2 j) = set_DependentJobs d1 j.
Proof. done. Qed.

(** ** Strings of a message *)

Section Strings.
Context {PT : Ptypes}.

Lemma config_strings_fmap (f : pbPluginConfig → pbPluginConfig) (m : gmap string pbPluginConfig) :
  (∀ c, config_strings (f c) = config_strings c) →
  (map_to_list (f <$> m)).*1 = (map_to_list m).*1 ∧
  config_strings <$> (map_to_list (f <$> m)).*2 = config_strings <$> (map_to_list m).*2.
Proof.
  intros Hf. rewrite map_to_list_fmap. rewrite <- !list_fmap_compose.
  split; apply list_fmap_ext; intros i [k c] _; simpl; auto.
Qed.

Lemma job_strings_back pbj : job_strings (Job_ToProto (NewJobFromProto pbj)) = job_strings pbj.
Proof.
  unfold job_strings. simpl. rewrite <- map_fmap_compose.
  edestruct (config_strings_fmap (mkpbPluginConfig ∘ PluginConfig_FromProto)) as [-> ->];
    [|done]. intros [[m|]]; [done|]. unfold config_strings, pairs_strings. simpl.
  by rewrite map_to_list_empty.
Qed.

Lemma job_strings_wire pbj : job_strings (wire_Job pbj) = job_strings pbj.
Proof.
  unfold job_strings. simpl.
  edestruct (config_strings_fmap wire_PluginConfig) as [-> ->]; [|done].
  intros [[m|]]; [|done]. unfold config_strings, pairs_strings, wire_PluginConfig. simpl.
  case_decide; subst; [|done]. by rewrite map_to_list_empty.
Qed.

Lemma storable_norm j : storable j → storable (norm j).
Proof. unfold storable, norm. by rewrite job_strings_back, job_strings_wire. Qed.

Lemma storable_set_DependentJobs djs j :
  storable j → Forall (λ s, valid_utf8 s = true) djs → storable (set_DependentJobs djs j).
Proof.
  unfold storable, job_strings. rewrite !Forall_app. simpl. tauto.
Qed.

Lemma storable_DependentJobs j :
  storable j → Forall (λ s, valid_utf8 s = true) j.(Job_DependentJobs).
Proof. unfold storable, job_strings. rewrite !Forall_app. simpl. tauto. Qed.
End Strings.

(** ** Jobs *)

Section Jobs.
Context {PT : Ptypes} {PB : Proto} {CP : CronParser} {UC : Unicode} {TZ : Locations}
        {SO : Sorting}.

(** Validity only looks at five fields. *)
Lemma Valid_ext j j' :
  j'.(Job_Name) = j.(Job_Name) → j'.(Job_ParentJob) = j.(Job_ParentJob) →
  j'.(Job_Schedule) = j.(Job_Schedule) → j'.(Job_Concurrency) = j.(Job_Concurrency) →
  j'.(Job_Timezone) = j.(Job_Timezone) → Valid j → Valid j'.
Proof. intros E1 E2 E3 E4 E5 []. split; rewrite ?E1, ?E2, ?E3, ?E4, ?E5; done. Qed.

Lemma Valid_norm j : Valid j → Valid (norm j).
Proof. by apply Valid_ext. Qed.
Lemma Valid_set_DependentJobs djs j : Valid j → Valid (set_DependentJobs djs j).
Proof. by apply Valid_ext. Qed.

Lemma merge_stored_same b ej job :
  let j := merge_stored b ej job in
  j.(Job_Name) = job.(Job_Name) ∧ j.(Job_ParentJob) = job.(Job_ParentJob) ∧
  j.(Job_Schedule) = job.(Job_Schedule) ∧ j.(Job_Concurrency) = job.(Job_Concurrency) ∧
  j.(Job_Timezone) = job.(Job_Timezone).
Proof. unfold merge_stored. by case_decide. Qed.

Lemma Valid_merge_stored b ej job : Valid job → Valid (merge_stored b ej job).
Proof. destruct (merge_stored_same b ej job) as (?&?&?&?&?). by apply Valid_ext. Qed.

(** [SetJob] on a valid job always has something to write, and what it writes
    has the name, the parent and the validity of the job it was given. *)
Lemma written_Valid now b ej job :
  Valid job → ∃ next,
    written now b ej job = Ok (set_Next next (merge_stored b ej job)) ∧
    (job.(Job_Schedule) = ej.(Job_Schedule) →
      next = Z.max job.(Job_Next) ej.(Job_Next)) ∧
    (job.(Job_Schedule) ≠ ej.(Job_Schedule) → GetNext now job = Ok next).
Proof.
  intros Hv. unfold written, set_next_activation.
  destruct (merge_stored_same b ej job) as (_&_&Es&_).
  assert (Job_Next (merge_stored b ej job) = Job_Next job) as En
    by (unfold merge_stored; by case_decide).
  assert (GetNext now (merge_stored b ej job) = GetNext now job) as Eg
    by (unfold GetNext; by rewrite Es).
  rewrite Es. case_decide as Hs.
  - destruct (GetNext_Valid now job Hv) as [t Ht]. rewrite Eg, Ht. simpl.
    exists t. naive_solver.
  - rewrite En. unfold Before. destruct (Z.ltb_spec (Job_Next job) (Job_Next ej)).
    + eexists. split_and!; [done|intros _; lia|done].
    + exists (Job_Next job). split_and!; [|intros _; lia|done]. rewrite <- En. by destruct (merge_stored _ _ _).
Qed.

Lemma Marshal_storable j : storable j → ∃ v, Marshal (Job_ToProto j) = Ok v.
Proof. intros H. by apply Marshal_encodable, encodable_pbJob. Qed.

Lemma Marshal_not_storable j : ¬ storable j → ∃ e, Marshal (Job_ToProto j) = Err e.
Proof.
  intros H. destruct (Marshal (Job_ToProto j)) as [v|e|w] eqn:E; [|by eexists|].
  - destruct H. apply encodable_pbJob, Marshal_encodable. by eexists.
  - by apply Marshal_no_crash in E.
Qed.

Lemma job_rep_written j v :
  Valid j → Marshal (Job_ToProto j) = Ok v → job_rep j.(Job_Name) v (norm j).
Proof.
  intros Hv E. split; [|done|by apply Valid_norm|apply norm_wf|].
  - exists (wire_Job (Job_ToProto j)). rewrite <- wire_pbJob. split; [by apply Unmarshal_Marshal|].
    rewrite wire_pbJob. done.
  - apply storable_norm. apply encodable_pbJob, Marshal_encodable. by eexists.
Qed.

Lemma Rep_set_job m s n v j :
  Rep m s → job_rep n v j → Rep (<[jobKey n := v]> m) (with_job n j s).
Proof.
  intros HR Hj. split; simpl.
  - intros n'. destruct (decide (n = n')) as [<-|Hn].
    + rewrite !lookup_insert_eq. by constructor.
    + rewrite !lookup_insert_ne by naive_solver. apply HR.
  - intros k Hk. rewrite lookup_insert_ne; [by apply HR|]. intros <-. done.
  - apply HR.
Qed.

Lemma getJob_None m s n :
  Rep m s → s.(jobs) !! n = None → getJobTxFunc (db:=kvmap) n m = Err ErrNotFound.
Proof.
  intros HR E. pose proof (rep_jobs _ _ HR n) as H. rewrite E in H.
  unfold getJobTxFunc. rewrite tx_Get_spec. simpl. by inversion H.
Qed.

Lemma getJob_Some m s n j :
  Rep m s → s.(jobs) !! n = Some j →
  ∃ pbj, getJobTxFunc (db:=kvmap) n m = Ok pbj ∧ NewJobFromProto pbj = j
         ∧ pbj.(pbJob_LastSuccess) ≠ None ∧ pbj.(pbJob_LastError) ≠ None.
Proof.
  intros HR E. pose proof (rep_jobs _ _ HR n) as H. rewrite E in H.
  inversion H as [v ? [(pbj & Hu & ?) ?] Ev|]; subst.
  exists pbj. split; [|done]. unfold getJobTxFunc. rewrite tx_Get_spec. simpl.
  rewrite <- Ev. simpl. by rewrite Hu.
Qed.

Lemma Rep_job m s n j : Rep m s → s.(jobs) !! n = Some j → ∃ v, job_rep n v j.
Proof.
  intros HR E. pose proof (rep_jobs _ _ HR n) as H. rewrite E in H. inversion H; eauto.
Qed.

Definition spec_GetJob (n : string) (s : state) : res Job :=
  match s.(jobs) !! n with Some j => Ok j | None => Err ErrNotFound end.

Lemma GetJob_run m s n : Rep m s → GetJob (db:=kvmap) n m = (spec_GetJob n s, m).
Proof.
  intros HR. unfold GetJob, bindM, spec_GetJob. rewrite db_View_spec.
  destruct (jobs s !! n) as [j|] eqn:E.
  - by destruct (getJob_Some _ _ _ _ HR E) as (pbj & -> & <- & _).
  - by rewrite (getJob_None _ _ _ HR E).
Qed.

Lemma GetParent_run m s j :
  Rep m s → j.(Job_ParentJob) ≠ j.(Job_Name) → j.(Job_ParentJob) ≠ "" →
  GetParent (db:=kvmap) j m =
    (match s.(jobs) !! j.(Job_ParentJob) with
     | Some pj => Ok pj | None => Err ErrParentJobNotFound end, m).
Proof.
  intros HR Hn He. unfold GetParent. rewrite !decide_False by congruence.
  unfold bindM, tryM. rewrite (GetJob_run _ _ _ HR). unfold spec_GetJob.
  by destruct (jobs s !! _).
Qed.

(** The check of the parent at the head of [SetJob]. *)
Lemma parent_check_run m s (job : Job) :
  Rep m s →
  (if decide (job.(Job_ParentJob) = "") then retM tt
   else r <- tryM (GetJob (db:=kvmap) job.(Job_ParentJob)) ;;
        match r with inl _ => retM tt | inr _ => errM ErrParentJobNotFound end) m
  = (if parent_missing s job then Err ErrParentJobNotFound else Ok tt, m).
Proof.
  intros HR. unfold parent_missing. case_decide as He.
  - rewrite bool_decide_false by tauto. done.
  - unfold bindM, tryM. rewrite (GetJob_run _ _ _ HR). unfold spec_GetJob.
    destruct (jobs s !! _) eqn:E.
    + rewrite bool_decide_false; [done|]. naive_solver.
    + by rewrite bool_decide_true.
Qed.

(** The transaction of [SetJob]. *)
Lemma setJob_tx_run m s now job b :
  Rep m s → Valid job →
  let ej := default Job_zero (s.(jobs) !! job.(Job_Name)) in
  ∃ job' m',
    written now b ej job = Ok job' ∧ job'.(Job_Name) = job.(Job_Name) ∧
    job'.(Job_ParentJob) = job.(Job_ParentJob) ∧
    db_Update (setJob_tx (db:=kvmap) now job b) m = (Ok (ej, job'), m') ∧
    Rep m' (if decide (storable job') then with_job job.(Job_Name) (norm job') s else s).
Proof.
  intros HR Hv ej.
  destruct (written_Valid now b ej job Hv) as (next & Hw & _).
  set (job' := set_Next next (merge_stored b ej job)) in *.
  destruct (merge_stored_same b ej job) as (En & Ep & _).
  assert (Valid job') as Hv'.
  { apply (Valid_ext (merge_stored b ej job)); [done..|]. by apply Valid_merge_stored. }
  assert (∃ m', setJob_tx (db:=kvmap) now job b m = (Ok (ej, job'), m') ∧
    Rep m' (if decide (storable job') then with_job job.(Job_Name) (norm job') s else s))
    as (m' & Hm & HR').
  { unfold setJob_tx, bindM at 1, tryM at 1, getJobTx.
    assert (∃ pbej, NewJobFromProto pbej = ej ∧
      (getJobTxFunc (db:=kvmap) (Job_Name job) m = Ok pbej ∨
       getJobTxFunc (db:=kvmap) (Job_Name job) m = Err ErrNotFound ∧ pbej = pbJob_zero))
      as (pbej & Hej & Hget).
    { subst ej. destruct (jobs s !! Job_Name job) as [j|] eqn:E.
      - destruct (getJob_Some _ _ _ _ HR E) as (pbj & ? & ? & _). eauto.
      - exists pbJob_zero. split; [done|]. right. split; [|done]. by eapply getJob_None. }
    assert (∃ m', (tryM (setJobTxFunc (db:=kvmap) (Job_ToProto job')) ;;; retM (ej, job')) m
                  = (Ok (ej, job'), m')
      ∧ Rep m' (if decide (storable job') then with_job job.(Job_Name) (norm job') s else s))
      as (m' & Hset & HR').
    { unfold bindM, tryM, setJobTxFunc, bindM, liftM, retM. case_decide as Hst.
      - destruct (Marshal_storable job' Hst) as [v Hmv]. rewrite Hmv. eexists. split; [done|].
        simpl. fold job'. rewrite En. apply Rep_set_job; [done|]. rewrite <- En.
        by apply (job_rep_written job').
      - destruct (Marshal_not_storable job' Hst) as [e ->]. by eexists. }
    exists m'. split; [|done]. rewrite <- Hset.
    unfold written in Hw. destruct Hget as [->|[-> ->]]; simpl; unfold bindM at 1; simpl;
      rewrite Hej; unfold bindM at 1, liftM; by rewrite Hw. }
  exists job', m'. split_and!; [done..|  |done]. simpl. unfold map_Update. by rewrite Hm.
Qed.

(** Writing a stored job back with other dependent jobs changes nothing else. *)
Lemma merge_stored_parent pj djs :
  merge_stored false pj (set_DependentJobs djs pj) = set_DependentJobs djs pj.
Proof.
  unfold merge_stored. destruct (decide (Job_Name pj = "")); [done|].
  rewrite (decide_False (P := _ ∧ false = true)) by naive_solver.
  unfold set_DependentJobs. simpl. f_equal; by case_match.
Qed.

Lemma written_parent now pj djs :
  written now false pj (set_DependentJobs djs pj) = Ok (set_DependentJobs djs pj).
Proof.
  unfold written, set_next_activation. rewrite merge_stored_parent. simpl.
  rewrite decide_False by naive_solver. unfold Before. by rewrite Z.ltb_irrefl.
Qed.

Lemma SetJob_fuel_invalid fuel now job b e (m : kvmap) :
  Validate job = Some e → SetJob_fuel (S fuel) now job b m = (Err e, m).
Proof. intros E. cbn [SetJob_fuel]. by rewrite E. Qed.

(** One level of the recursion of [SetJob], on a valid job. *)
Lemma SetJob_fuel_S fuel now job b m s :
  Rep m s → Valid job →
  let ej := default Job_zero (s.(jobs) !! job.(Job_Name)) in
  if parent_missing s job
  then SetJob_fuel (db:=kvmap) (S fuel) now job b m = (Err ErrParentJobNotFound, m)
  else ∃ job' m',
    written now b ej job = Ok job' ∧ job'.(Job_Name) = job.(Job_Name) ∧
    job'.(Job_ParentJob) = job.(Job_ParentJob) ∧
    Rep m' (if decide (storable job') then with_job job.(Job_Name) (norm job') s else s) ∧
    SetJob_fuel (db:=kvmap) (S fuel) now job b m =
      (if decide (job.(Job_ParentJob) = ej.(Job_ParentJob)) then retM tt
       else removeFromParent (SetJob_fuel fuel now) ej ;;;
            addToParent (SetJob_fuel fuel now) job') m'.
Proof.
  intros HR Hv ej. cbn [SetJob_fuel]. rewrite (proj2 (Validate_spec _) Hv).
  pose proof (parent_check_run m s job HR) as Hpc.
  destruct (parent_missing s job); [unfold bindM at 1; by rewrite Hpc|].
  destruct (setJob_tx_run m s now job b HR Hv) as (job' & m' & Hw & En & Ep & Htx & HR').
  exists job', m'. split_and!; [done..|]. unfold bindM at 1. rewrite Hpc.
  unfold bindM at 1. rewrite Htx. by rewrite Ep.
Qed.

Lemma update_parent_run fuel m s now p pj djs :
  Rep m s → s.(jobs) !! p = Some pj → Forall (λ x, valid_utf8 x = true) djs →
  ∃ m', SetJob_fuel (db:=kvmap) (S fuel) now (set_DependentJobs djs pj) false m
        = (if parent_missing s pj then Err ErrParentJobNotFound else Ok tt, m')
    ∧ Rep m' (if parent_missing s pj then s else with_job p (set_DependentJobs djs pj) s).
Proof.
  intros HR Hp Hdjs. destruct (Rep_job _ _ _ _ HR Hp) as [v [_ Hn Hv Hwf Hst]].
  assert (Valid (set_DependentJobs djs pj)) as Hv' by by apply Valid_set_DependentJobs.
  pose proof (SetJob_fuel_S fuel now _ false m s HR Hv') as H.
  change (parent_missing s (set_DependentJobs djs pj)) with (parent_missing s pj) in H.
  destruct (parent_missing s pj); [by eexists|].
  destruct H as (job' & m' & Hw & _ & _ & HR' & ->).
  simpl Job_Name in *. simpl Job_ParentJob in *. rewrite Hn, Hp in *. simpl default in *.
  rewrite written_parent in Hw. simplify_eq.
  rewrite decide_True in HR' by by apply storable_set_DependentJobs.
  rewrite norm_id in HR' by by apply set_DependentJobs_wf.
  exists m'. split; [|done]. rewrite decide_True; [done|]. simpl. by rewrite Hp.
Qed.

(** [removeFromParent] and [addToParent] over any fuel. *)
Lemma relink_run fuel now f (g : Job → Job) m s child (k : M kvmap unit) :
  (∀ pj, g pj = set_DependentJobs (f pj.(Job_DependentJobs)) pj) →
  (∀ l, Forall (λ x, valid_utf8 x = true) l → Forall (λ x, valid_utf8 x = true) (f l)) →
  Rep m s → (child.(Job_ParentJob) ≠ "" → child.(Job_ParentJob) ≠ child.(Job_Name)) →
  k = (if decide (child.(Job_ParentJob) = "") then retM tt
       else parent <- GetParent child ;; SetJob_fuel (db:=kvmap) (S fuel) now (g parent) false) →
  (k m).1 = (spec_update_parent f child.(Job_ParentJob) s).1 ∧
  Rep (k m).2 (spec_update_parent f child.(Job_ParentJob) s).2.
Proof.
  intros Hg Hf HR Hpn ->. unfold spec_update_parent. case_decide as He; [done|].
  unfold bindM. rewrite (GetParent_run _ _ _ HR) by auto.
  destruct (jobs s !! _) as [pj|] eqn:Hpj; [|done].
  rewrite Hg. destruct (Rep_job _ _ _ _ HR Hpj) as [v Hrep].
  destruct (update_parent_run fuel m s now _ pj (f (Job_DependentJobs pj)) HR Hpj)
    as (m' & -> & HR').
  { apply Hf, storable_DependentJobs, Hrep. }
  by destruct (parent_missing s pj).
Qed.

Lemma removeFromParent_run fuel now m s child :
  Rep m s → (child.(Job_ParentJob) ≠ "" → child.(Job_ParentJob) ≠ child.(Job_Name)) →
  let k := removeFromParent (db:=kvmap) (SetJob_fuel (S fuel) now) child in
  let q := spec_update_parent (drop_child child.(Job_Name)) child.(Job_ParentJob) in
  (k m).1 = (q s).1 ∧ Rep (k m).2 (q s).2.
Proof.
  intros HR Hp. cbv zeta. eapply (relink_run fuel now); [done| |done|done|].
  2: { with_strategy opaque [SetJob_fuel GetParent bindM] reflexivity. }
  intros l.
  rewrite !Forall_forall. intros Hl x [_ Hx]%list_elem_of_filter. auto.
Qed.

Lemma addToParent_run fuel now m s child :
  Rep m s → (child.(Job_ParentJob) ≠ "" → child.(Job_ParentJob) ≠ child.(Job_Name)) →
  valid_utf8 child.(Job_Name) = true →
  let k := addToParent (db:=kvmap) (SetJob_fuel (S fuel) now) child in
  let q := spec_update_parent (add_child child.(Job_Name)) child.(Job_ParentJob) in
  (k m).1 = (q s).1 ∧ Rep (k m).2 (q s).2.
Proof.
  intros HR Hp Hu. cbv zeta. eapply (relink_run fuel now); [done| |done|done|].
  2: { with_strategy opaque [SetJob_fuel GetParent bindM] reflexivity. }
  intros l Hl.
  apply Forall_app. by repeat constructor.
Qed.

Lemma refines_bind {A B} (p : M kvmap A) q (k : A → M kvmap B) h m s :
  (p m).1 = (q s).1 ∧ Rep (p m).2 (q s).2 →
  (∀ a m' s', q s = (Ok a, s') → Rep m' s' → (k a m').1 = (h a s').1 ∧ Rep (k a m').2 (h a s').2) →
  ((bindM p k) m).1 = ((bindM q h) s).1 ∧ Rep ((bindM p k) m).2 ((bindM q h) s).2.
Proof.
  unfold bindM. destruct (p m) as [r m'], (q s) as [r' s'] eqn:Eq. simpl.
  intros [-> HR] Hk. destruct r'; [|done..]. by apply Hk.
Qed.

(** The parent of a stored job, and of no job, is never the job itself. *)
Lemma stored_parent_ne m s n :
  Rep m s → let ej := default Job_zero (s.(jobs) !! n) in
  ej.(Job_ParentJob) ≠ "" → ej.(Job_Name) = n ∧ ej.(Job_ParentJob) ≠ ej.(Job_Name).
Proof.
  intros HR. destruct (jobs s !! n) as [j|] eqn:E; [|done]. simpl.
  destruct (Rep_job _ _ _ _ HR E) as [v [_ Hn Hv _ _]]. intros _. split; [done|]. apply Hv.
Qed.

(** [SetJob] implements its specification, whatever the fuel above one. *)
Lemma SetJob_fuel_refines fuel now job b :
  refines (SetJob_fuel (db:=kvmap) (S (S fuel)) now job b) (spec_SetJob now job b).
Proof.
  intros m s HR. unfold spec_SetJob. destruct (Validate job) eqn:Hval.
  { by rewrite (SetJob_fuel_invalid _ _ _ _ _ _ Hval). }
  apply Validate_spec in Hval as Hv.
  pose proof (SetJob_fuel_S (S fuel) now job b m s HR Hv) as H. cbv zeta in H.
  pose proof (stored_parent_ne m s (Job_Name job) HR) as Hej.
  set (ej := default Job_zero _) in *.
  destruct (parent_missing s job); [by rewrite H|].
  destruct H as (job' & m' & Hw & En & Ep & HR' & ->). rewrite Hw.
  set (s1 := if decide (storable job') then _ else s) in *. clearbody s1.
  destruct (decide (Job_ParentJob job = Job_ParentJob ej)); [done|].
  assert (∀ m2 s2, Rep m2 s2 →
    (addToParent (SetJob_fuel (S fuel) now) job' m2).1
      = (spec_update_parent (add_child (Job_Name job)) (Job_ParentJob job) s2).1 ∧
    Rep (addToParent (SetJob_fuel (S fuel) now) job' m2).2
      (spec_update_parent (add_child (Job_Name job)) (Job_ParentJob job) s2).2) as Hadd.
  { intros m2 s2 HR2. rewrite <- En, <- Ep. apply addToParent_run; [done|..].
    - rewrite Ep, En. intros _. apply Hv.
    - rewrite En. apply slug_utf8, Hv. }
  apply refines_bind; [|naive_solver].
  destruct (decide (Job_ParentJob ej = "")) as [Hz|Hz].
  - unfold removeFromParent, spec_update_parent. by rewrite !decide_True by done.
  - destruct (Hej Hz) as [Hn1 Hn2]. rewrite <- Hn1. by apply removeFromParent_run.
Qed.
End Jobs.

(** ** Deletion *)

Section Delete.
Context {PT : Ptypes} {PB : Proto} {CP : CronParser} {UC : Unicode} {TZ : Locations}
        {SO : Sorting}.

Lemma lookup_delete_all {A} (ks : list string) (m : gmap string A) k :
  foldl (λ m k, delete k m) m ks !! k = if decide (k ∈ ks) then None else m !! k.
Proof.
  revert m. induction ks as [|k' ks IH]; intros m; cbn [foldl].
  - by rewrite decide_False by apply not_elem_of_nil.
  - rewrite IH. destruct (decide (k = k')) as [<-|Hk].
    + rewrite lookup_delete_eq. rewrite (decide_True (P := k ∈ k :: ks)) by set_solver.
      by case_decide.
    + rewrite lookup_delete_ne by done. apply decide_ext. set_solver.
Qed.

Lemma elem_of_ascend_keys (m : kvmap) k : k ∈ (ascend_list m).*1 ↔ is_Some (m !! k).
Proof.
  rewrite list_elem_of_fmap. split.
  - intros ([k' v] & -> & H%ascend_list_elem). by eexists.
  - intros [v Hv]. exists (k, v). split; [done|]. by apply ascend_list_elem.
Qed.

(** The executions go, whatever has the prefix; everything else stays. *)
Lemma lookup_deleteExecutions name (m : kvmap) k :
  (deleteExecutionsTxFunc name m).2 !! k
  = if HasPrefix k (executionsPrefix +:+ ":" +:+ name) then None else m !! k.
Proof.
  unfold deleteExecutionsTxFunc. simpl snd.
  etransitivity; [apply (lookup_delete_all _ m k)|].
  destruct (HasPrefix k _) eqn:Hp.
  - destruct (m !! k) eqn:E; [|by case_decide]. rewrite decide_True; [done|].
    apply list_elem_of_filter. split; [done|]. apply elem_of_ascend_keys. by eexists.
  - rewrite decide_False; [done|]. intros [H _]%list_elem_of_filter. congruence.
Qed.

#[local] Arguments deleteExecutionsTxFunc : simpl never.

Lemma Rep_delete m s name :
  Rep m s →
  Rep (delete (jobKey name) (deleteExecutionsTxFunc (db:=kvmap) name m).2)
      (mkState (delete name s.(jobs)) (drop_execs name s.(execs))).
Proof.
  intros HR. split; cbn [jobs execs].
  - intros n. destruct (decide (name = n)) as [<-|Hn].
    + rewrite !lookup_delete_eq. constructor.
    + rewrite lookup_delete_ne, lookup_deleteExecutions by naive_solver.
      rewrite lookup_delete_ne by done. apply HR.
  - intros k Hk. rewrite lookup_delete_ne by (intros <-; done).
    rewrite lookup_deleteExecutions. unfold drop_execs. rewrite map_lookup_filter.
    pose proof (rep_execs _ _ HR k Hk) as H.
    destruct H as [v e He|]; simpl; [|case_match; constructor].
    destruct (HasPrefix k (executionsPrefix +:+ _)) eqn:Hp.
    + rewrite option_guard_False by (simpl; congruence). constructor.
    + rewrite option_guard_True by done. by constructor.
  - intros k [e (E & _)%map_lookup_filter_Some]. apply HR. by eexists.
Qed.

(** A transaction that fails leaves the database as it was. *)
Lemma refines_Update {A} (p : M kvmap A) (q : M state A) m s :
  (∃ r m', p m = (r, m') ∧
    match q s with
    | (Ok a, s') => r = Ok a ∧ Rep m' s'
    | (r', s') => r = r' ∧ s' = s
    end) →
  Rep m s →
  (db_Update p m).1 = (q s).1 ∧ Rep (db_Update p m).2 (q s).2.
Proof.
  simpl. unfold map_Update. intros (r & m' & -> & H) HR.
  destruct (q s) as [[a|e|w] s']; naive_solver.
Qed.

Lemma DeleteJob_refines now name :
  refines (DeleteJob (db:=kvmap) now name) (spec_DeleteJob name).
Proof.
  intros m s HR. apply refines_bind.
  - apply refines_Update; [|done]. unfold spec_delete.
    destruct (jobs s !! name) as [j|] eqn:E;
      unfold bindM at 1, getJobTx; [|rewrite (getJob_None _ _ _ HR E); by do 2 eexists].
    destruct (getJob_Some _ _ _ _ HR E) as (pbj & -> & Hj & _).
    change (pbJob_DependentJobs pbj) with (Job_DependentJobs (NewJobFromProto pbj)).
    rewrite Hj. destruct (decide (Job_DependentJobs j ≠ [])); [by do 2 eexists|].
    unfold bindM, deleteExecutionsTxFunc. pose proof (lookup_deleteExecutions name m (jobKey name)) as Hl. simpl in Hl |- *.
    pose proof (rep_jobs _ _ HR name) as H'. rewrite E in H'.
    unfold map_Get. rewrite Hl. inversion H'; subst. do 2 eexists. split; [done|].
    split; [done|]. by apply (Rep_delete m s name).
  - intros j m1 s1 Hdel HR1. apply refines_bind; [|done].
    unfold spec_delete in Hdel.
    destruct (jobs s !! name) as [j'|] eqn:E; [|done]. case_decide; [done|]. simplify_eq.
    destruct (Rep_job _ _ _ _ HR E) as [v [_ Hn Hv _ _]]. case_decide as Hp.
    + unfold spec_update_parent. by rewrite decide_True.
    + rewrite <- Hn. apply removeFromParent_run; [by rewrite Hn|]. intros _. apply Hv.
Qed.
End Delete.
