(* ===== verification/StoreExecs.v ===== *)
(** * The executions of the store implement their specification *)
From Stdlib Require Import ZArith Lia Ascii.
From stdpp Require Import base list gmap strings sorting pretty.
From S2P Require Import Prelude GoStrings GoTime Pb NTime ExtCron Execution Job BuntDB.
From S2P Require Import Store StoreSim StoreSpec StoreRefine.

#[local] Open Scope Z_scope.

(** ** Keys in order *)

Lemma sorted_keys_elem {A} (E : gmap string A) k : k ∈ sorted_keys E ↔ is_Some (E !! k).
Proof.
  unfold sorted_keys. rewrite merge_sort_Permutation, list_elem_of_fmap. split.
  - intros ([k' v] & -> & H%elem_of_map_to_list). by eexists.
  - intros [v Hv]. exists (k, v). by rewrite elem_of_map_to_list.
Qed.

Lemma sorted_keys_nodup {A} (E : gmap string A) : NoDup (sorted_keys E).
Proof. unfold sorted_keys. rewrite merge_sort_Permutation. apply NoDup_fst_map_to_list. Qed.

Lemma sorted_keys_sorted {A} (E : gmap string A) : StronglySorted String.le (sorted_keys E).
Proof. apply StronglySorted_merge_sort; apply _. Qed.

Lemma ascend_keys_sorted (m : kvmap) : StronglySorted String.le (ascend_list m).*1.
Proof.
  eapply (StronglySorted_fmap fst key_le); [done|]. apply StronglySorted_merge_sort; apply _.
Qed.

Lemma sorted_keys_unique (l1 l2 : list string) :
  StronglySorted String.le l1 → StronglySorted String.le l2 → NoDup l1 → NoDup l2 →
  (∀ k, k ∈ l1 ↔ k ∈ l2) → l1 = l2.
Proof.
  intros Hs1 Hs2 Hn1 Hn2 Hel. apply (Sorted_unique String.le).
  - by apply StronglySorted_Sorted.
  - by apply StronglySorted_Sorted.
  - by apply NoDup_Permutation.
Qed.

(** The keys that start with the directory of a job whose name has no colon are
    those of the executions of that job. *)
Lemma exec_key_dir e n :
  has_byte ":"%char e.(Ex_JobName) = false → has_byte ":"%char n = false →
  HasPrefix (exec_key e) (executionsDir n) = true ↔ e.(Ex_JobName) = n.
Proof.
  intros He Hn. rewrite HasPrefix_spec. unfold exec_key, executionKey, executionsDir. split.
  - intros [r Hr]. rewrite !app_assoc_s in Hr. unfold executionsPrefix in Hr.
    injection Hr as Hr. change (":" +:+ ?x) with (String ":" x) in Hr.
    by apply app_sep_inj in Hr as [? _].
  - intros <-. exists (Execution_Key e). by rewrite !app_assoc_s.
Qed.

Lemma pretty_Z_nonempty (z : Z) : pretty z ≠ "".
Proof.
  destruct (decide (0 ≤ z)).
  - rewrite pretty_Z_nonneg by done. apply pretty_N_nonempty.
  - by rewrite pretty_Z_neg by lia.
Qed.

Lemma exec_key_length e :
  (String.length (executionsDir e.(Ex_JobName)) + 2 ≤ String.length (exec_key e))%nat.
Proof.
  unfold exec_key, executionKey, executionsDir, Execution_Key. rewrite !app_length_s.
  pose proof (pretty_Z_nonempty (UnixNano (Ex_StartedAt e))) as H.
  destruct (pretty (UnixNano (Ex_StartedAt e))); [done|]. simpl. lia.
Qed.

Lemma substring_length n s : (n ≤ String.length s)%nat → String.length (take_bytes n s) = n.
Proof.
  unfold take_bytes. revert s. induction n as [|n IH]; intros [|c s] H; simpl in *; try done; [lia|].
  f_equal. apply IH. lia.
Qed.

(** The key of an execution is never mistaken for its directory. *)
Lemma exec_key_trim e : trimDirectoryKey (exec_key e) ≠ executionsDir e.(Ex_JobName).
Proof.
  intros H. pose proof (exec_key_length e) as Hl. rewrite <- H in Hl.
  unfold trimDirectoryKey in Hl. case_match; [|lia]. rewrite substring_length in Hl; lia.
Qed.

Lemma exec_key_inj_colon e1 e2 :
  has_byte ":"%char e1.(Ex_JobName) = false → has_byte ":"%char e2.(Ex_JobName) = false →
  exec_key e1 = exec_key e2 →
  e1.(Ex_JobName) = e2.(Ex_JobName) ∧ Execution_Key e1 = Execution_Key e2.
Proof.
  unfold exec_key, executionKey, executionsPrefix. intros H1 H2 E.
  injection E as E. by apply app_sep_inj in E.
Qed.

Lemma executionsDir_root n : ∃ r, executionsDir n = executions_root +:+ r.
Proof. exists (n +:+ ":"). done. Qed.

Lemma HasPrefix_trans k p r : HasPrefix k (p +:+ r) = true → HasPrefix k p = true.
Proof.
  rewrite !HasPrefix_spec. intros [x ->]. exists (r +:+ x). by rewrite app_assoc_s.
Qed.

Section Executions.
Context {PT : Ptypes} {PB : Proto} {CP : CronParser} {UC : Unicode} {TZ : Locations}
        {SO : Sorting}.

Lemma Rep_exec m s k e : Rep m s → s.(execs) !! k = Some e → ∃ v, m !! k = Some v ∧ exec_rep k v e.
Proof.
  intros HR E. assert (HasPrefix k executions_root = true) as Hk by (apply HR; by eexists).
  pose proof (rep_execs _ _ HR k Hk) as H. rewrite E in H. inversion H; eauto.
Qed.

(** The keys under a prefix of the executions, on both sides. *)
Lemma prefix_keys m s r :
  Rep m s → let p := executions_root +:+ r in
  filter (λ k, HasPrefix k p = true) (ascend_list m).*1
  = filter (λ k, HasPrefix k p = true) (sorted_keys s.(execs)).
Proof.
  intros HR p. apply sorted_keys_unique.
  - apply StronglySorted_filter, ascend_keys_sorted.
  - apply StronglySorted_filter, sorted_keys_sorted.
  - apply NoDup_filter, ascend_list_nodup.
  - apply NoDup_filter, sorted_keys_nodup.
  - intros k. rewrite !list_elem_of_filter, elem_of_ascend_keys, sorted_keys_elem.
    split; intros [Hk H]; (split; [done|]); pose proof (HasPrefix_trans _ _ _ Hk) as Hroot;
      destruct (rep_execs _ _ HR k Hroot); try done; by eexists.
Qed.

Lemma unmarshal_omap (E : gmap string Execution) kvs :
  (∀ kv, kv ∈ kvs → ∃ e, E !! kv.1 = Some e ∧ exec_rep kv.1 kv.2 e) →
  unmarshalExecutions kvs = Ok (omap (E !!.) kvs.*1) ∧ length (omap (E !!.) kvs.*1) = length kvs.
Proof.
  induction kvs as [|[k v] kvs IH]; intros H; [done|]. simpl.
  destruct (H (k, v)) as (e & He & [Hd _ [Hwf _]]); [set_solver|]. simpl in *.
  rewrite Hd, He. destruct IH as [-> IHl]; [set_solver|]. simpl.
  rewrite Execution_roundtrip by done. split; [done|]. by f_equal.
Qed.

Lemma listTxFunc_run m s n :
  Rep m s → has_byte ":"%char n = false →
  ∃ kvs, listTxFunc (db:=kvmap) (executionsDir n) m = (kvs, negb (bool_decide (kvs = []))) ∧
    unmarshalExecutions kvs = Ok (listing (executionsDir n) s.(execs)) ∧
    length kvs = length (listing (executionsDir n) s.(execs)).
Proof.
  intros HR Hn. unfold listTxFunc. simpl tx_Ascend.
  set (kvs := filter (λ kv : string * string, HasPrefix kv.1 _ = true) (ascend_list m)).
  assert (∀ kv, kv ∈ kvs →
    ∃ e, execs s !! kv.1 = Some e ∧ exec_rep kv.1 kv.2 e ∧ e.(Ex_JobName) = n) as Hkvs.
  { intros [k v] [Hk Hv]%list_elem_of_filter. simpl in *. rewrite ascend_list_elem in Hv.
    pose proof (rep_execs _ _ HR k (HasPrefix_trans k executions_root (n +:+ ":") Hk)) as H. rewrite Hv in H.
    inversion H as [? e He|]; subst. exists e. split_and!; [done..|].
    apply (exec_key_dir e n); [apply He|done|]. by rewrite <- (er_key _ _ _ He). }
  exists kvs. rewrite filter_all.
  - split; [done|]. destruct (unmarshal_omap (execs s) kvs) as [Hu Hl]; [naive_solver|].
    rewrite Hu. unfold listing. destruct (executionsDir_root n) as [r Hr].
    rewrite Hr, <- (prefix_keys m s r HR), <- Hr, <- filter_fst. done.
  - intros kv Hkv. destruct (Hkvs kv Hkv) as (e & _ & [_ -> _] & <-). apply exec_key_trim.
Qed.

(** [GetExecutions] returns the executions under the directory of the job. *)
Lemma GetExecutions_run m s n :
  Rep m s → has_byte ":"%char n = false →
  GetExecutions (db:=kvmap) n m = (spec_GetExecutions n s, m).
Proof.
  intros HR Hn. destruct (listTxFunc_run m s n HR Hn) as (kvs & Hl & Hu & Hlen).
  unfold GetExecutions, list_, bindM. rewrite db_View_spec, Hl. unfold spec_GetExecutions.
  destruct kvs as [|kv kvs], (listing _ _) as [|e es]; simpl in *; try done.
  unfold liftM. by rewrite Hu.
Qed.

Lemma computeStatus_run m s n g :
  Rep m s → has_byte ":"%char n = false →
  computeStatus (db:=kvmap) n g m = Ok (group_status n g s.(execs)).
Proof.
  intros HR Hn. destruct (listTxFunc_run m s n HR Hn) as (kvs & Hl & Hu & Hlen).
  unfold computeStatus. rewrite Hl. simpl. by rewrite Hu.
Qed.

(** ** Listing the jobs *)

Lemma job_keys m s :
  Rep m s →
  filter (λ k, HasPrefix k (jobsPrefix +:+ ":") = true) (ascend_list m).*1
  = jobKey <$> sorted_keys s.(jobs).
Proof.
  intros HR. apply sorted_keys_unique.
  - apply StronglySorted_filter, ascend_keys_sorted.
  - eapply StronglySorted_fmap; [|apply sorted_keys_sorted]. intros a b Hab. exact Hab.
  - apply NoDup_filter, ascend_list_nodup.
  - apply NoDup_fmap_2; [apply _|]. apply sorted_keys_nodup.
  - intros k. rewrite list_elem_of_filter, elem_of_ascend_keys, list_elem_of_fmap.
    split.
    + intros [[n ->]%HasPrefix_spec Hk]. exists n. split; [done|]. rewrite sorted_keys_elem.
      change ((jobsPrefix +:+ ":") +:+ n) with (jobKey n) in Hk.
      destruct (rep_jobs _ _ HR n); [by eexists|by destruct Hk].
    + intros (n & -> & Hn). rewrite sorted_keys_elem in Hn.
      split; [apply (HasPrefix_app (jobsPrefix +:+ ":") n)|].
      destruct (rep_jobs _ _ HR n); [by eexists|by destruct Hn].
Qed.

Lemma GetJobs_run m s options :
  Rep m s → GetJobs (db:=kvmap) options m = (Ok (spec_GetJobs options s), m).
Proof.
  intros HR. unfold GetJobs. rewrite db_View_spec. do 2 f_equal. simpl tx_Ascend.
  unfold spec_GetJobs. pose proof (job_keys m s HR) as Hkeys.
  pose proof (λ k v, proj1 (ascend_list_elem m k v)) as Hkv.
  revert Hkeys Hkv. generalize (sorted_keys (jobs s)) (ascend_list m). intros ns kvs.
  revert ns. induction kvs as [|[k v] kvs IH]; intros ns Hkeys Hkv.
  { by destruct ns. }
  rewrite fmap_cons, filter_cons in Hkeys. cbn [fst] in Hkeys. simpl.
  specialize (Hkv k v ltac:(set_solver)) as Hv.
  assert (∀ k v, (k, v) ∈ kvs → m !! k = Some v) as Hkv' by (intros; apply Hkv; set_solver).
  destruct (HasPrefix k _) eqn:Hk; simpl in Hkeys; [|by apply IH].
  destruct ns as [|n ns]; [done|]. injection Hkeys as -> Hkeys.
  pose proof (rep_jobs _ _ HR n) as Hn. rewrite Hv in Hn. simpl.
  destruct (jobs s !! n) as [j|]; [|by inversion Hn].
  assert (job_rep n v j) as [(pbj & Hu & Hj & _) _ _ _ _] by by inversion Hn.
  rewrite Hu. cbn [fst]. rewrite Hj, filter_cons.
  fold (keep_job options j). pose proof (IH ns Hkeys Hkv') as IH'.
  destruct (keep_job options j); [f_equal|]; exact IH'.
Qed.

(** ** Writing *)

Lemma finished_seconds_run e :
  Execution_wf e → finished_seconds (Execution_ToProto e) = Ok (Unix e.(Ex_FinishedAt)).
Proof.
  intros (_ & Hf & _). unfold finished_seconds. simpl.
  destruct (Timestamp_TimestampProto _ Hf) as (ts & -> & _ & Hs). by rewrite Hs.
Qed.

Lemma exec_rep_nonempty k v e : exec_rep k v e → v ≠ "".
Proof.
  intros [Hd _ [(_ & Hf & _) _]] ->. rewrite Unmarshal_empty in Hd.
  destruct (Timestamp_TimestampProto _ Hf) as (ts & Hts & _).
  unfold Execution_ToProto in Hd. rewrite Hts in Hd. done.
Qed.

Lemma Marshal_exec e :
  exec_ok e → ∃ v, Marshal (Execution_ToProto e) = Ok v ∧ exec_rep (exec_key e) v e.
Proof.
  intros He. destruct (proj1 (Marshal_encodable (Execution_ToProto e))) as [v Hv].
  { apply encodable_pbExecution. split; apply He. }
  exists v. split; [done|]. split; [|done..].
  rewrite <- (wire_pbExecution (Execution_ToProto e)). by apply Unmarshal_Marshal.
Qed.

Lemma Rep_set_exec m s v e :
  Rep m s → exec_rep (exec_key e) v e →
  Rep (<[exec_key e := v]> m) (with_execs (<[exec_key e := e]> s.(execs)) s).
Proof.
  intros HR He. split; simpl.
  - intros n. rewrite lookup_insert_ne by done. apply HR.
  - intros k Hk. destruct (decide (exec_key e = k)) as [<-|Hn].
    + rewrite !lookup_insert_eq. by constructor.
    + rewrite !lookup_insert_ne by done. by apply HR.
  - intros k. destruct (decide (exec_key e = k)) as [<-|Hn].
    + intros _. apply executionKey_root.
    + rewrite lookup_insert_ne by done. apply HR.
Qed.

Lemma setExecutionTxFunc_run m s e :
  Rep m s → exec_ok e →
  ∃ m', setExecutionTxFunc (db:=kvmap) (exec_key e) (Execution_ToProto e) m = (Ok tt, m') ∧
    Rep m' (with_execs (put_exec e s.(execs)) s).
Proof.
  intros HR He. destruct (Marshal_exec e He) as (v & Hv & Hrep).
  pose proof (Rep_set_exec m s v e HR Hrep) as HR'.
  unfold setExecutionTxFunc, put_exec, bindM, liftM. rewrite Hv, tx_Get_spec. simpl.
  destruct (rep_execs _ _ HR (exec_key e) (executionKey_root _ _)) as [i old Hold|];
    [|by eexists].
  rewrite decide_False by by eapply exec_rep_nonempty.
  destruct Hold as [Hd _ Hok]. rewrite Hd, !finished_seconds_run by apply He || apply Hok.
  destruct (_ <? _); [|by eexists]. eexists. split; [done|]. by destruct s.
Qed.

Lemma delete_keys_run ks (m : kvmap) : delete_keys ks m = (Ok tt, foldl (λ m k, delete k m) m ks).
Proof.
  revert m. induction ks as [|k ks IH]; intros m; [done|]. cbn [delete_keys foldl].
  unfold bindM at 1, tryM. simpl db_Update. unfold map_Update. simpl tx_Delete. unfold map_Get.
  destruct (m !! k) eqn:E; [apply IH|]. rewrite IH. by rewrite delete_id.
Qed.

Lemma Rep_delete_execs m s ks :
  Rep m s → Forall (λ k, HasPrefix k executions_root = true) ks →
  Rep (foldl (λ m k, delete k m) m ks)
      (with_execs (foldl (λ E k, delete k E) s.(execs) ks) s).
Proof.
  intros HR Hks. rewrite Forall_forall in Hks. split; cbn [jobs execs with_execs].
  - intros n. rewrite lookup_delete_all, decide_False; [apply HR|]. by intros ?%Hks.
  - intros k Hk. rewrite !lookup_delete_all. case_decide; [constructor|]. by apply HR.
  - intros k. rewrite lookup_delete_all. case_decide; [by intros []|]. apply HR.
Qed.

Lemma overflow_keys_root l : Forall (λ k, HasPrefix k executions_root = true) (overflow_keys l).
Proof.
  unfold overflow_keys. case_match; [|constructor]. apply Forall_fmap, Forall_true.
  intros e. apply executionKey_root.
Qed.

(** The fetch that [SetExecution] makes, its error taken for no execution. *)
Lemma SetExecution_refines e :
  exec_ok e → refines (SetExecution (db:=kvmap) e) (spec_SetExecution e).
Proof.
  intros He m s HR. destruct (setExecutionTxFunc_run m s e HR He) as (m' & Hset & HR').
  assert (SetExecution (db:=kvmap) e m =
    (Ok (exec_key e), foldl (λ m k, delete k m) m'
      (overflow_keys (listing (executionsDir e.(Ex_JobName)) (put_exec e s.(execs)))))) as ->.
  { unfold SetExecution, bindM. simpl db_Update. unfold map_Update.
    fold (exec_key e). rewrite Hset. unfold tryM.
    rewrite (GetExecutions_run _ _ _ HR' (eo_colon _ He)). unfold spec_GetExecutions.
    simpl execs. destruct (listing _ _); by rewrite delete_keys_run. }
  split; [done|]. apply (Rep_delete_execs m' _ _ HR'). apply overflow_keys_root.
Qed.

(** ** The end of an execution *)

Lemma job_strings_results ls le sc ec st pbj :
  Forall (λ s, valid_utf8 s = true) (job_strings pbj) → valid_utf8 st = true →
  Forall (λ s, valid_utf8 s = true) (job_strings (pbJob_set_results ls le sc ec st pbj)).
Proof.
  unfold job_strings. rewrite !Forall_app. simpl. rewrite !Forall_cons. tauto.
Qed.

Lemma status_of_utf8 l : valid_utf8 (status_of l) = true.
Proof. unfold status_of. by repeat case_match. Qed.

Lemma done_job_wf e st j : Execution_wf e → Job_wf j → Job_wf (done_job e st j).
Proof.
  intros (_ & Hf & _) []. destruct e as [? ? ? [] ? ? ? ?]; split; simpl; try done;
    by apply intN_range.
Qed.

Lemma PluginConfig_FromProto_wire (procs : gmap string pbPluginConfig) :
  PluginConfig_FromProto <$> (wire_PluginConfig <$> procs) = PluginConfig_FromProto <$> procs.
Proof.
  rewrite <- map_fmap_compose. apply map_fmap_ext. intros k [[m|]] _; [|done]. simpl.
  unfold wire_PluginConfig, PluginConfig_FromProto. simpl. by case_decide; subst.
Qed.

(** The message that [SetExecutionDone] writes for the job. *)
Definition done_message (e : Execution) (status : string) (pbj : pbJob) : pbJob :=
  let t := Some (mkpbNullableTime true (TimestampProto e.(Ex_FinishedAt))) in
  if e.(Ex_Success)
  then pbJob_set_results t pbj.(pbJob_LastError) (intN 32 (pbj.(pbJob_SuccessCount) + 1))
         pbj.(pbJob_ErrorCount) status pbj
  else pbJob_set_results pbj.(pbJob_LastSuccess) t pbj.(pbJob_SuccessCount)
         (intN 32 (pbj.(pbJob_ErrorCount) + 1)) status pbj.

Lemma done_message_job e st pbj :
  Execution_wf e →
  NewJobFromProto (wire_Job (done_message e st pbj)) = done_job e st (NewJobFromProto pbj).
Proof.
  intros (_ & Hf & _). unfold NewJobFromProto, done_job, done_message.
  destruct (Ex_Success e); simpl; rewrite PluginConfig_FromProto_wire;
    unfold NullableTime_FromProto at 1 2; simpl; by rewrite Timestamp_id.
Qed.

Lemma Valid_done_job e st j : Valid j → Valid (done_job e st j).
Proof. by apply Valid_ext. Qed.

Lemma done_message_rep e st pbj v0 :
  exec_ok e → valid_utf8 st = true →
  pbj.(pbJob_LastSuccess) ≠ None → pbj.(pbJob_LastError) ≠ None →
  job_rep e.(Ex_JobName) v0 (NewJobFromProto pbj) →
  ∃ v, Marshal (done_message e st pbj) = Ok v ∧
       job_rep e.(Ex_JobName) v (done_job e st (NewJobFromProto pbj)).
Proof.
  intros He Hst Hls Hle [_ Hn Hv Hwf Hs].
  assert (Forall (λ s, valid_utf8 s = true) (job_strings (done_message e st pbj))) as Hstr.
  { unfold storable in Hs. rewrite job_strings_back in Hs. unfold done_message.
    case_match; by apply job_strings_results. }
  destruct (proj1 (Marshal_encodable (done_message e st pbj))) as [v Hm].
  { by apply encodable_pbJob. }
  exists v. split; [done|]. split; [|done|by apply Valid_done_job|
    apply done_job_wf; [apply He|done]|].
  - exists (wire_Job (done_message e st pbj)). split_and!.
    + rewrite <- wire_pbJob. by apply Unmarshal_Marshal.
    + apply done_message_job, He.
    + unfold done_message. by case_match.
    + unfold done_message. by case_match.
  - unfold storable. rewrite <- done_message_job by apply He.
    by rewrite job_strings_back, job_strings_wire.
Qed.

Lemma SetExecutionDone_tx_run m s e j :
  Rep m s → exec_ok e → s.(jobs) !! e.(Ex_JobName) = Some j →
  let E := put_exec e s.(execs) in
  ∃ m', setExecutionDone_tx (db:=kvmap) e m = (Ok tt, m') ∧
    Rep m' (with_job e.(Ex_JobName)
      (done_job e (group_status e.(Ex_JobName) e.(Ex_Group) E) j) (with_execs E s)).
Proof.
  intros HR He Hj E.
  destruct (getJob_Some _ _ _ _ HR Hj) as (pbj & Hget & Hpbj & Hls & Hle).
  destruct (setExecutionTxFunc_run m s e HR He) as (m1 & Hset & HR1).
  pose proof (computeStatus_run m1 _ e.(Ex_JobName) e.(Ex_Group) HR1 (eo_colon _ He)) as Hst.
  set (st := group_status _ _ _) in Hst.
  destruct (Rep_job _ _ _ _ HR Hj) as [v0 Hrep0].
  assert (pbJob_Name pbj = Ex_JobName e) as Hname by (rewrite <- (jr_name _ _ _ Hrep0); by subst j).
  assert (∃ v, Marshal (done_message e st pbj) = Ok v ∧ job_rep e.(Ex_JobName) v (done_job e st j))
    as (v & Hm & Hrep).
  { subst j. eapply done_message_rep; eauto. apply status_of_utf8. }
  exists (<[jobKey e.(Ex_JobName) := v]> m1). split; [|by apply Rep_set_job].
  unfold setExecutionDone_tx. unfold bindM at 1, tryM, getJobTx. rewrite Hget.
  unfold bindM at 1, retM at 1. unfold bindM at 1. fold (exec_key e). rewrite Hset.
  destruct (pbJob_LastSuccess pbj) as [ls|] eqn:Els; [|done].
  destruct (pbJob_LastError pbj) as [le|] eqn:Ele; [|done].
  unfold done_message in Hm. unfold bindM, mark_time, liftM, retM. simpl.
  destruct (Ex_Success e); simpl; rewrite Hname, Hst; unfold setJobTxFunc, bindM, liftM;
    match goal with
    | |- context [Marshal ?x] =>
        replace (Marshal x) with (Ok v) by (rewrite <- Hm, ?Els, ?Ele; done)
    end; simpl; by rewrite Hname.
Qed.

Lemma SetExecutionDone_refines e :
  exec_ok e → refines (SetExecutionDone (db:=kvmap) e) (spec_SetExecutionDone e).
Proof.
  intros He m s HR. unfold SetExecutionDone, spec_SetExecutionDone, bindM.
  simpl db_Update. unfold map_Update. destruct (jobs s !! Ex_JobName e) as [j|] eqn:Hj.
  - by destruct (SetExecutionDone_tx_run m s e j HR He Hj) as (m' & -> & HR').
  - assert (setExecutionDone_tx (db:=kvmap) e m = (Err ErrExecutionDoneForDeletedJob, m)) as ->;
      [|done].
    unfold setExecutionDone_tx, bindM at 1, tryM, getJobTx.
    by rewrite (getJob_None _ _ _ HR Hj).
Qed.
End Executions.
