(* ===== verification/Instances.v ===== *)
(** * Concrete instances of the library interfaces

    One implementation of each interface the development is parametrised by, so
    that its theorems can be applied to concrete inputs: the laws of the classes
    hold together.  They stand for nothing in the repository. *)
From Stdlib Require Import ZArith Lia Ascii.
From stdpp Require Import base list gmap strings sorting countable.
From S2P Require Import Prelude GoStrings GoTime Pb NTime ExtCron Execution Job BuntDB Store.

#[local] Open Scope Z_scope.

Module Toy.

(** ** Timestamps: seconds and nanoseconds *)
Definition toy_Timestamp (ts : option timestamp) : time :=
  match ts with Some ts => ts.(Seconds) * nanos_per_sec + ts.(Nanos) | None => 0 end.
Definition toy_TimestampProto (t : time) : option timestamp :=
  if decide (valid_time t) then Some (mkTimestamp (Unix t) (t mod nanos_per_sec)) else None.

#[export] Instance ToyPtypes : Ptypes.
Proof.
  refine {| Timestamp := toy_Timestamp; TimestampProto := toy_TimestampProto |}.
  - done.
  - intros t Hv. unfold toy_TimestampProto. rewrite decide_True by done. eexists.
    split_and!; [done| |done]. simpl. unfold Unix.
    pose proof (Z.div_mod t nanos_per_sec). unfold nanos_per_sec in *. lia.
  - intros t Hv. unfold toy_TimestampProto. by rewrite decide_False.
Defined.

(** ** A wire format: the fields of a message, encoded one by one *)

Fixpoint bits (p : positive) : string :=
  match p with
  | xH => "1"
  | xO p => String "0" (bits p)
  | xI p => String "1" (bits p)
  end.
Fixpoint unbits (s : string) : option positive :=
  match s with
  | EmptyString => None
  | String c EmptyString => if bool_decide (c = "1"%char) then Some xH else None
  | String c s' =>
      p ← unbits s'; Some (if bool_decide (c = "1"%char) then xI p else xO p)
  end.

Lemma unbits_bits p : unbits (bits p) = Some p.
Proof.
  induction p as [p IH|p IH|]; [..|done]; simpl; destruct (bits p) eqn:E;
    (by destruct p) || by rewrite IH.
Qed.

Definition put (fields : list positive) : string := bits (encode fields).
Definition take_fields (s : string) : option (list positive) := unbits s ≫= decode.

Lemma take_put fields : take_fields (put fields) = Some fields.
Proof. unfold take_fields, put. rewrite unbits_bits. simpl. apply decode_encode. Qed.

#[export] Instance timestamp_eq_dec : EqDecision timestamp.
Proof. solve_decision. Defined.
#[export] Instance timestamp_countable : Countable timestamp.
Proof.
  apply (inj_countable' (λ t, (t.(Seconds), t.(Nanos))) (λ p, mkTimestamp p.1 p.2)).
  by intros [].
Defined.
#[export] Instance pbNullableTime_eq_dec : EqDecision pbNullableTime.
Proof. solve_decision. Defined.
#[export] Instance pbNullableTime_countable : Countable pbNullableTime.
Proof.
  apply (inj_countable' (λ t, (t.(pbNT_HasValue), t.(pbNT_Time)))
           (λ p, mkpbNullableTime p.1 p.2)). by intros [].
Defined.
#[export] Instance pbPluginConfig_eq_dec : EqDecision pbPluginConfig.
Proof. solve_decision. Defined.
#[export] Instance pbPluginConfig_countable : Countable pbPluginConfig.
Proof. apply (inj_countable' pbPC_Config mkpbPluginConfig). by intros []. Defined.

Definition put_Job (j : pbJob) : string :=
  put [encode j.(pbJob_Name); encode j.(pbJob_Timezone); encode j.(pbJob_Schedule);
       encode j.(pbJob_Owner); encode j.(pbJob_OwnerEmail); encode j.(pbJob_SuccessCount);
       encode j.(pbJob_ErrorCount); encode j.(pbJob_Disabled); encode j.(pbJob_Tags);
       encode j.(pbJob_Retries); encode j.(pbJob_DependentJobs); encode j.(pbJob_ParentJob);
       encode j.(pbJob_Concurrency); encode j.(pbJob_Executor); encode j.(pbJob_ExecutorConfig);
       encode j.(pbJob_Status); encode j.(pbJob_Metadata); encode j.(pbJob_LastSuccess);
       encode j.(pbJob_LastError); encode j.(pbJob_Next); encode j.(pbJob_Displayname);
       encode j.(pbJob_Processors)].

Definition take_Job (s : string) : option pbJob :=
  fs ← take_fields s;
  match fs with
  | [n; tz; sc; ow; oe; su; er; di; ta; re; de; pa; co; ex; ec; st; me; ls; le; ne; dn; pr] =>
      n ← decode n; tz ← decode tz; sc ← decode sc; ow ← decode ow; oe ← decode oe;
      su ← decode su; er ← decode er; di ← decode di; ta ← decode ta; re ← decode re;
      de ← decode de; pa ← decode pa; co ← decode co; ex ← decode ex; ec ← decode ec;
      st ← decode st; me ← decode me; ls ← decode ls; le ← decode le; ne ← decode ne;
      dn ← decode dn; pr ← decode pr;
      Some (mkpbJob n tz sc ow oe su er di ta re de pa co ex ec st me ls le ne dn pr)
  | _ => None
  end.

Lemma take_put_Job j : take_Job (put_Job j) = Some j.
Proof.
  unfold take_Job, put_Job. rewrite take_put. cbn [mbind option_bind].
  repeat (rewrite decode_encode; cbn [mbind option_bind]). by destruct j.
Qed.

Definition put_Execution (e : pbExecution) : string :=
  put [encode e.(pbEx_JobName); encode e.(pbEx_Success); encode e.(pbEx_Output);
       encode e.(pbEx_NodeName); encode e.(pbEx_Group); encode e.(pbEx_Attempt);
       encode e.(pbEx_StartedAt); encode e.(pbEx_FinishedAt)].

Definition take_Execution (s : string) : option pbExecution :=
  if decide (s = "") then Some pbExecution_zero else
  fs ← take_fields s;
  match fs with
  | [n; su; ou; no; gr; at_; st; fi] =>
      n ← decode n; su ← decode su; ou ← decode ou; no ← decode no; gr ← decode gr;
      at_ ← decode at_; st ← decode st; fi ← decode fi;
      Some (mkpbExecution n su ou no gr at_ st fi)
  | _ => None
  end.

Lemma take_put_Execution e : take_Execution (put_Execution e) = Some e.
Proof.
  unfold take_Execution. rewrite decide_False.
  - unfold put_Execution. rewrite take_put. cbn [mbind option_bind].
    repeat (rewrite decode_encode; cbn [mbind option_bind]). by destruct e.
  - unfold put_Execution, put. by destruct (encode _).
Qed.

(** A codec from a partial inverse, for the messages [ok] accepts. *)
Definition toy_codec {A} (ok : A → Prop) `{!∀ a, Decision (ok a)} (norm : A → A) (zero : A)
    (put : A → string) (take_ : string → option A)
    (Htp : ∀ a, take_ (put a) = Some a) : Codec A.
Proof.
  refine {|
    Marshal := λ a, if decide (ok a) then Ok (put (norm a)) else Err (ErrOther "invalid UTF-8");
    Unmarshal := λ s,
      match take_ s with
      | Some a => (a, None)
      | None => (zero, Some (ErrOther "unexpected EOF"))
      end;
    wire := norm;
    encodable := ok |}.
  - intros a w. by case_decide.
  - intros a. case_decide; naive_solver.
  - intros a s. case_decide; [|done]. intros [= <-]. by rewrite Htp.
Defined.

Definition put_pbDelete (r : pbDeleteJobRequest) : string := put [encode r.(pbDJR_JobName)].
Definition take_pbDelete (s : string) : option pbDeleteJobRequest :=
  fs ← take_fields s;
  match fs with [n] => n ← decode n; Some (mkpbDeleteJobRequest n) | _ => None end.
Definition put_pbDone (r : pbExecutionDoneRequest) : string :=
  match r.(pbEDR_Execution) with
  | None => "N"
  | Some e => "S" +:+ put_Execution e
  end.
Definition take_pbDone (s : string) : option pbExecutionDoneRequest :=
  match s with
  | String "N" _ => Some (mkpbExecutionDoneRequest None)
  | String _ s' => e ← take_Execution s'; Some (mkpbExecutionDoneRequest (Some e))
  | EmptyString => None
  end.

#[export] Instance ToyProto : Proto.
Proof.
  unshelve refine {|
    Job_codec := toy_codec (λ j, Forall (λ s, valid_utf8 s = true) (job_strings j)) wire_Job
                   pbJob_zero put_Job take_Job take_put_Job;
    Execution_codec := toy_codec
      (λ e, valid_utf8 e.(pbEx_JobName) = true ∧ valid_utf8 e.(pbEx_NodeName) = true)
      id pbExecution_zero put_Execution take_Execution take_put_Execution;
    DeleteJobRequest_codec := toy_codec (λ _, True) id (mkpbDeleteJobRequest "")
      put_pbDelete take_pbDelete _;
    ExecutionDoneRequest_codec := toy_codec (λ _, True) id (mkpbExecutionDoneRequest None)
      put_pbDone take_pbDone _
  |}; try done.
  - intros [n]. unfold take_pbDelete, put_pbDelete. rewrite take_put. cbn [mbind option_bind].
    by rewrite decode_encode.
  - intros [[e|]]; [|done]. unfold put_pbDone. cbn [pbEDR_Execution].
    pose proof (take_put_Execution e) as He. revert He. generalize (put_Execution e).
    intros x Hx. change (take_Execution x ≫= (λ e, Some (mkpbExecutionDoneRequest (Some e)))
      = Some (mkpbExecutionDoneRequest (Some e))). by rewrite Hx.
Defined.

(** ** Schedules, names, zones and sorting *)

(** [@every] some fixed number of seconds, and nothing else. *)
#[export] Instance ToyCron : CronParser.
Proof.
  refine {|
    CronSchedule := unit;
    cron_Parse := λ s, if decide (s = "@every 1m") then Ok tt else Err (ErrOther "expected 5 fields");
    cron_Next := λ _ t, t + 60 * nanos_per_sec |}.
  - intros s w. by case_decide.
  - by eexists.
  - intros _ t. unfold nanos_per_sec. lia.
Defined.

#[export] Instance ToyUnicode : Unicode.
Proof. by refine {| is_Ll := in_range 97 122 |}. Defined.

#[export] Instance ToyLocations : Locations.
Proof.
  by refine {| LoadLocation := λ s,
    if decide (s = "" ∨ s = "UTC") then None else Some (ErrOther ("unknown time zone " +:+ s)) |}.
Defined.

Definition toy_le {A} (less : A → A → bool) (x y : A) : Prop := less y x = false.
#[export] Instance toy_le_dec {A} (less : A → A → bool) x y : Decision (toy_le less x y).
Proof. unfold toy_le. apply _. Defined.
Definition toy_sort {A} (less : A → A → bool) (l : list A) : list A :=
  merge_sort (toy_le less) l.

#[export] Instance ToySorting : Sorting.
Proof.
  refine {| sort_Slice := @toy_sort |}.
  - intros A less l. apply merge_sort_Permutation.
  - intros A less l Has Htr. apply StronglySorted_merge_sort.
    + intros x y z Hxy Hyz. unfold toy_le in *. eauto.
    + intros x y. unfold toy_le. destruct (less y x) eqn:E; [right; auto|by left].
Defined.

(** The database of the examples is the finite map. *)
Abbreviation toydb := (gmap string string) (only parsing).

(** A job with a name, a schedule and a parent, everything else left out. *)
Definition toy_job (name schedule parent : string) : Job :=
  mkJob name "" "" schedule "" "" 0 0 NullableTime_zero NullableTime_zero false ∅ ∅ 0 [] parent
    ∅ "" "shell" {["command" := "date"]} "" 0.

(** An execution of [job] that ran on [node] from [start] to [finish], in seconds. *)
Definition toy_exec (job node : string) (start finish : Z) (success : bool) : Execution :=
  mkExecution job (start * nanos_per_sec) (finish * nanos_per_sec) success "" node 1 1.

End Toy.
