(* ===== verification/StoreProps.v ===== *)
(** * The store: what its methods guarantee, over any database

    The refinement of [StoreSim] (any database behaves like a map) and the one of
    [StoreRefine] and [StoreExecs] (the map stands for two maps of jobs and
    executions) composed, and the properties of the store that follow. *)
From Stdlib Require Import ZArith Lia Ascii.
From stdpp Require Import base list gmap strings sorting relations.
From S2P Require Import Prelude GoStrings GoTime Pb NTime ExtCron Execution Job BuntDB.
From S2P Require Import Store StoreSim StoreSpec StoreRefine StoreExecs Instances.

#[local] Open Scope Z_scope.

Section Props.
Context {db : Type} {BDB : BuntDB db} {PT : Ptypes} {PB : Proto} {CP : CronParser}
        {UC : Unicode} {TZ : Locations} {SO : Sorting}.

(** The database stands for the abstract state. *)
Definition Holds (d : db) (s : state) : Prop := Rep (contents d) s.

(** A program over the database does to the state what [q] does. *)
Definition implements {A} (p : M db A) (q : M state A) : Prop :=
  ∀ d s, Holds d s → (p d).1 = (q s).1 ∧ Holds (p d).2 (q s).2.

Lemma sim_implements {A} (p : M db A) p' q : sim p p' → refines p' q → implements p q.
Proof.
  intros Hs Hr d s HH. destruct (Hr _ _ HH) as [H1 H2]. rewrite (Hs d) in H1, H2. done.
Qed.

Lemma implements_run {A} (p : M db A) q d s r s' :
  implements p q → Holds d s → q s = (r, s') →
  ∃ d', p d = (r, d') ∧ Holds d' s'.
Proof.
  intros Hp HH E. destruct (Hp d s HH) as [H1 H2]. rewrite E in H1, H2. simpl in *.
  exists (p d).2. split; [|done]. by rewrite <- H1, <- surjective_pairing.
Qed.

Lemma SetJob_implements now job b : implements (SetJob (db:=db) now job b) (spec_SetJob now job b).
Proof. eapply sim_implements; [apply sim_SetJob|apply (SetJob_fuel_refines 0)]. Qed.

Lemma DeleteJob_implements now name :
  implements (DeleteJob (db:=db) now name) (spec_DeleteJob name).
Proof. eapply sim_implements; [apply sim_DeleteJob|apply DeleteJob_refines]. Qed.

Lemma SetExecution_implements e :
  exec_ok e → implements (SetExecution (db:=db) e) (spec_SetExecution e).
Proof. intros. eapply sim_implements; [apply sim_SetExecution|by apply SetExecution_refines]. Qed.

Lemma SetExecutionDone_implements e :
  exec_ok e → implements (SetExecutionDone (db:=db) e) (spec_SetExecutionDone e).
Proof.
  intros. eapply sim_implements; [apply sim_SetExecutionDone|by apply SetExecutionDone_refines].
Qed.

Lemma GetJob_implements n : implements (GetJob (db:=db) n) (λ s, (spec_GetJob n s, s)).
Proof.
  eapply sim_implements; [apply sim_GetJob|]. intros m s HR. by rewrite (GetJob_run m s n HR).
Qed.

Lemma GetJob_value n (d : db) s : Holds d s → (GetJob n d).1 = spec_GetJob n s.
Proof. intros HH. apply (GetJob_implements n d s HH). Qed.

Lemma GetExecutions_implements n :
  has_byte ":"%char n = false →
  implements (GetExecutions (db:=db) n) (λ s, (spec_GetExecutions n s, s)).
Proof.
  intros Hn. eapply sim_implements; [apply sim_GetExecutions|]. intros m s HR.
  by rewrite (GetExecutions_run m s n HR Hn).
Qed.

Lemma GetExecutions_value n (d : db) s l :
  Holds d s → has_byte ":"%char n = false → listing (executionsDir n) s.(execs) = l → l ≠ [] →
  (GetExecutions n d).1 = Ok l.
Proof.
  intros HH Hn Hl Hne. rewrite (proj1 (GetExecutions_implements n Hn d s HH)).
  simpl. unfold spec_GetExecutions. rewrite Hl. by destruct l.
Qed.

(** ** Jobs *)

(** C5: whatever the depth given to the recursion through the parents beyond
    two, [SetJob] over any database does what its specification says: it
    returns the specified value or error, and the database then stands for the
    specified state.  In particular it never runs out of fuel. *)
Theorem SetJob_refinement fuel now job b (d : db) s :
  Holds d s →
  (SetJob_fuel (2 + fuel) now job b d).1 = (spec_SetJob now job b s).1 ∧
  Holds (SetJob_fuel (2 + fuel) now job b d).2 (spec_SetJob now job b s).2.
Proof.
  intros HH. eapply (sim_implements _ _ _ (sim_SetJob_fuel _ _ _ _)); [|done].
  apply SetJob_fuel_refines.
Qed.

(** The same for [DeleteJob]. *)
Theorem DeleteJob_refinement now name (d : db) s :
  Holds d s →
  (DeleteJob now name d).1 = (spec_DeleteJob name s).1 ∧
  Holds (DeleteJob now name d).2 (spec_DeleteJob name s).2.
Proof. apply DeleteJob_implements. Qed.

Lemma spec_update_parent_other f p s r s' n :
  spec_update_parent f p s = (r, s') → n ≠ p → s'.(jobs) !! n = s.(jobs) !! n.
Proof.
  unfold spec_update_parent. intros E Hn. repeat case_match; simplify_eq; try done.
  simpl. by rewrite lookup_insert_ne.
Qed.

Lemma spec_update_parent_execs f p s : (spec_update_parent f p s).2.(execs) = s.(execs).
Proof. unfold spec_update_parent. by repeat case_match. Qed.

(** A successful [SetJob], step by step. *)
Lemma spec_SetJob_Ok now job b s s' :
  spec_SetJob now job b s = (Ok tt, s') →
  let n := job.(Job_Name) in
  let ej := default Job_zero (s.(jobs) !! n) in
  Valid job ∧ parent_missing s job = false ∧
  ∃ job', written now b ej job = Ok job' ∧
    let s1 := if decide (storable job') then with_job n (norm job') s else s in
    if decide (job.(Job_ParentJob) = ej.(Job_ParentJob)) then s' = s1
    else ∃ s2, spec_update_parent (drop_child n) ej.(Job_ParentJob) s1 = (Ok tt, s2) ∧
               spec_update_parent (add_child n) job.(Job_ParentJob) s2 = (Ok tt, s').
Proof.
  unfold spec_SetJob. destruct (Validate job) eqn:Hv; [done|]. apply Validate_spec in Hv.
  destruct (parent_missing s job); [done|]. set (ej := default _ _).
  destruct (written now b ej job) as [job'| |]; [|done..]. intros E.
  split_and!; [done..|]. exists job'. split; [done|].
  destruct (decide (Job_ParentJob job = Job_ParentJob ej)); [by simplify_eq|].
  unfold bindM in E. set (s1 := if decide (storable job') then _ else s) in *.
  destruct (spec_update_parent (drop_child _) _ s1) as [[[]| |] s2]; [|done..].
  by exists s2.
Qed.

Lemma stored_parent_ne_holds d s n :
  Holds d s → let ej := default Job_zero (s.(jobs) !! n) in
  ej.(Job_ParentJob) ≠ "" → ej.(Job_ParentJob) ≠ n.
Proof.
  intros HH ej Hp. destruct (stored_parent_ne _ _ n HH Hp) as [H1 H2].
  fold ej in H1, H2. congruence.
Qed.

Lemma spec_update_parent_empty f s : spec_update_parent f "" s = (Ok tt, s).
Proof. done. Qed.

(** Jobs that are neither the one written nor one of its parents do not change,
    and the one written is read back. *)
Lemma SetJob_lookup now job b d s s' :
  Holds d s → spec_SetJob now job b s = (Ok tt, s') →
  let n := job.(Job_Name) in
  let ej := default Job_zero (s.(jobs) !! n) in
  (∀ job', written now b ej job = Ok job' → storable job' → s'.(jobs) !! n = Some (norm job')) ∧
  (∀ n', n' ≠ n → n' ≠ job.(Job_ParentJob) → n' ≠ ej.(Job_ParentJob) →
    s'.(jobs) !! n' = s.(jobs) !! n') ∧
  s'.(execs) = s.(execs).
Proof.
  intros HH E n ej. apply spec_SetJob_Ok in E as (Hv & Hpm & job' & Hw & E).
  fold n ej in Hw, E. pose proof (stored_parent_ne_holds d s n HH) as Hne. fold ej in Hne.
  cbv zeta in E. set (s1 := if decide (storable job') then _ else s) in E.
  assert (jobs s' !! n = jobs s1 !! n ∧ execs s' = execs s1 ∧
    ∀ n', n' ≠ job.(Job_ParentJob) → n' ≠ ej.(Job_ParentJob) → jobs s' !! n' = jobs s1 !! n')
    as (Hn & He & Hother).
  { clearbody s1. destruct (decide (Job_ParentJob job = Job_ParentJob ej)); [by subst s'|].
    destruct E as (s2 & E1 & E2).
    pose proof (spec_update_parent_execs (drop_child n) (Job_ParentJob ej) s1) as X1.
    pose proof (spec_update_parent_execs (add_child n) (Job_ParentJob job) s2) as X2.
    rewrite E1 in X1. rewrite E2 in X2. simpl in X1, X2.
    split_and!; [|congruence|].
    - rewrite (spec_update_parent_other _ _ _ _ _ n E2) by (pose proof (valid_parent _ Hv); subst n; congruence).
      destruct (decide (Job_ParentJob ej = "")) as [Hz|Hz].
      + rewrite Hz, spec_update_parent_empty in E1. by simplify_eq.
      + apply (spec_update_parent_other _ _ _ _ _ n E1). intros Heq. by apply (Hne Hz).
    - intros n' H1 H2. rewrite (spec_update_parent_other _ _ _ _ _ n' E2) by done.
      by apply (spec_update_parent_other _ _ _ _ _ n' E1). }
  rewrite Hn, He. split_and!.
  - intros job'' Hw' Hst. rewrite Hw in Hw'. injection Hw' as <-. subst s1.
    rewrite decide_True by done. simpl. by rewrite lookup_insert_eq.
  - intros n' H1 H2 H3. rewrite Hother by done. subst s1. case_decide; [|done]. simpl.
    by rewrite lookup_insert_ne.
  - subst s1. by case_decide.
Qed.


(** [SetJob] refuses and changes nothing: an invalid job is refused with the
    error of [Validate], a job whose parent is not stored with
    [ErrParentJobNotFound]. *)
Theorem SetJob_errors now job b (d : db) s :
  Holds d s →
  (∀ e, Validate job = Some e →
    (SetJob now job b d).1 = Err e ∧ Holds (SetJob now job b d).2 s) ∧
  (Valid job → job.(Job_ParentJob) ≠ "" → (GetJob job.(Job_ParentJob) d).1 = Err ErrNotFound →
    (SetJob now job b d).1 = Err ErrParentJobNotFound ∧ Holds (SetJob now job b d).2 s).
Proof.
  intros HH. destruct (SetJob_implements now job b d s HH) as [H1 H2].
  revert H1 H2. unfold spec_SetJob. split.
  - intros e He. by rewrite He in H1, H2.
  - intros Hv Hp Hg. rewrite (proj2 (Validate_spec _) Hv) in H1, H2.
    destruct (GetJob_implements (Job_ParentJob job) d s HH) as [Hg' _]. rewrite Hg in Hg'.
    unfold spec_GetJob in Hg'. simpl in Hg'.
    assert (parent_missing s job = true) as Hpm.
    { apply bool_decide_eq_true. split; [done|]. revert Hg'. destruct (jobs s !! Job_ParentJob job); congruence. }
    by rewrite Hpm in H1, H2.
Qed.
End Props.

Lemma Rep_empty `{!Ptypes, !Proto, !CronParser, !Unicode, !Locations} : Rep ∅ (mkState ∅ ∅).
Proof. split; simpl; intros *; rewrite !lookup_empty; [constructor..|]. by intros []. Qed.

(** ** A small store, for the examples *)
Module Example.
Import Toy.

Definition jobA : Job := toy_job "a" "@every 1m" "".
Definition jobB : Job := toy_job "b" "" "a".
Definition d0 : toydb := ∅.
Definition s0 : state := mkState ∅ ∅.
(** a job, and then a child of it *)
Definition d1 : toydb := (SetJob 0 jobA false d0).2.
Definition s1 : state := (spec_SetJob 0 jobA false s0).2.
Definition d2 : toydb := (SetJob 0 jobB false d1).2.
Definition s2 : state := (spec_SetJob 0 jobB false s1).2.

Lemma holds0 : Holds d0 s0.
Proof. apply Rep_empty. Qed.
Lemma holds1 : Holds d1 s1.
Proof. apply SetJob_implements, holds0. Qed.
Lemma holds2 : Holds d2 s2.
Proof. apply SetJob_implements, holds1. Qed.

Lemma SetJob_refinement_witness :
  Holds d1 s1 ∧
  (SetJob_fuel 5 0 jobB false d1).1 = (spec_SetJob 0 jobB false s1).1 ∧
  Holds (SetJob_fuel 5 0 jobB false d1).2 (spec_SetJob 0 jobB false s1).2.
Proof. split; [exact holds1|]. apply (SetJob_refinement 3 0 jobB false d1 s1), holds1. Defined.

Lemma DeleteJob_refinement_witness :
  Holds d2 s2 ∧ (DeleteJob 0 "b" d2).1 = (spec_DeleteJob "b" s2).1.
Proof. split; [exact holds2|]. apply (DeleteJob_refinement 0 "b" d2 s2), holds2. Defined.


Lemma SetJob_errors_witness :
  (SetJob 0 jobB false d0).1 = Err ErrParentJobNotFound ∧
  (SetJob 0 (toy_job "A" "@every 1m" "") false d0).1
    = Err (ErrOther "name contains illegal character 'A'").
Proof.
  split.
  - apply (proj2 (SetJob_errors 0 jobB false d0 s0 holds0)).
    + apply Validate_spec. vm_compute. reflexivity.
    + vm_compute. discriminate.
    + vm_compute. reflexivity.
  - apply (proj1 (SetJob_errors 0 (toy_job "A" "@every 1m" "") false d0 s0 holds0)).
    vm_compute. reflexivity.
Defined.
End Example.
