(* ===== verification/StoreLinks.v ===== *)
(** * Parents and children: no job is orphaned

    A job with a parent is listed among the dependent jobs of that parent, and the
    parent is stored.  [SetJob] and [DeleteJob] keep it so, provided an update does
    not drop the children of the job it updates; the last theorem shows what
    happens when it does. *)
From Stdlib Require Import ZArith Lia Ascii.
From stdpp Require Import base list gmap strings sorting.
From S2P Require Import Prelude GoStrings GoTime Pb NTime ExtCron Execution Job BuntDB.
From S2P Require Import Store StoreSim StoreSpec StoreRefine StoreExecs Instances StoreProps.

#[local] Open Scope Z_scope.

(** The parent of [j] is stored and lists [n]. *)
Definition linked (J : gmap string Job) (n : string) (j : Job) : Prop :=
  j.(Job_ParentJob) = "" ∨
  ∃ pj, J !! j.(Job_ParentJob) = Some pj ∧ n ∈ pj.(Job_DependentJobs).

Definition Links (J : gmap string Job) : Prop := map_Forall (linked J) J.

#[export] Instance linked_dec J n j : Decision (linked J n j).
Proof.
  unfold linked. destruct (decide (j.(Job_ParentJob) = "")); [by left; left|].
  destruct (J !! j.(Job_ParentJob)) as [pj|] eqn:E; [|right; naive_solver].
  destruct (decide (n ∈ pj.(Job_DependentJobs))); [left; right; by exists pj|right; naive_solver].
Defined.
#[export] Instance Links_dec J : Decision (Links J).
Proof. unfold Links. apply _. Defined.

(** Links of all jobs but one, and no missing parent. *)
Definition Links_but (n : string) (J : gmap string Job) : Prop :=
  ∀ k j, J !! k = Some j → k ≠ n → linked J k j.
Definition Parents (J : gmap string Job) : Prop :=
  map_Forall (λ _ j, j.(Job_ParentJob) = "" ∨ is_Some (J !! j.(Job_ParentJob))) J.

Lemma Links_Parents J : Links J → Parents J.
Proof. intros H k j Hk. destruct (H k j Hk) as [|(pj & ? & _)]; [by left|right; by eexists]. Qed.

Lemma Parents_not_missing s n j :
  Parents s.(jobs) → s.(jobs) !! n = Some j → parent_missing s j = false.
Proof.
  intros HP Hn. apply bool_decide_eq_false. intros [H1 H2].
  destruct (HP n j Hn) as [|[pj Hpj]]; congruence.
Qed.

(** Rewriting the dependent jobs of a stored job succeeds. *)
Lemma update_parent_ok f p pj s :
  Parents s.(jobs) → s.(jobs) !! p = Some pj → p ≠ "" →
  spec_update_parent f p s = (Ok tt, with_job p (set_DependentJobs (f pj.(Job_DependentJobs)) pj) s).
Proof.
  intros HP Hp Hne. unfold spec_update_parent.
  by rewrite decide_False, Hp, (Parents_not_missing s p) by done.
Qed.

Lemma Parents_insert J n j :
  Parents J → (j.(Job_ParentJob) = "" ∨ is_Some (J !! j.(Job_ParentJob))) →
  Parents (<[n := j]> J).
Proof.
  assert (∀ p, is_Some (J !! p) → is_Some (<[n := j]> J !! p)) as Hmono.
  { intros p Hp. destruct (decide (n = p)) as [->|]; [rewrite lookup_insert_eq; by eexists|].
    by rewrite lookup_insert_ne. }
  intros HP Hj k j' Hk. destruct (decide (n = k)) as [<-|Hn].
  - rewrite lookup_insert_eq in Hk. simplify_eq. naive_solver.
  - rewrite lookup_insert_ne in Hk by done. destruct (HP k j' Hk); auto.
Qed.

Lemma Parents_relink J p pj djs :
  Parents J → J !! p = Some pj → Parents (<[p := set_DependentJobs djs pj]> J).
Proof. intros HP Hp. apply Parents_insert; [done|]. by apply (HP p pj). Qed.

(** A job whose dependent jobs are replaced by [djs], everything else of it that
    matters to the links kept. *)
Lemma linked_insert J p pj pj' k j :
  J !! p = Some pj → linked J k j →
  (k ∈ pj.(Job_DependentJobs) → j.(Job_ParentJob) = p → k ∈ pj'.(Job_DependentJobs)) →
  linked (<[p := pj']> J) k j.
Proof.
  intros Hp [|(q & Hq & Hk)] Hdj; [by left|]. right.
  destruct (decide (p = Job_ParentJob j)) as [->|Hne].
  - rewrite lookup_insert_eq. exists pj'. split; [done|]. apply Hdj; [|done]. naive_solver.
  - exists q. by rewrite lookup_insert_ne.
Qed.

(** Writing [j] under [n]: the others stay linked if [j] still lists its children. *)
Lemma Links_but_insert J n j :
  Links J →
  (∀ old c, J !! n = Some old → c ∈ old.(Job_DependentJobs) → c ∈ j.(Job_DependentJobs)) →
  Links_but n (<[n := j]> J).
Proof.
  intros HL Hkeep k jk Hk Hne. rewrite lookup_insert_ne in Hk by done.
  destruct (J !! n) as [old|] eqn:Hn.
  - eapply linked_insert; [done|by apply HL|]. eauto.
  - destruct (HL k jk Hk) as [|(q & Hq & Hin)]; [by left|]. right. exists q.
    rewrite lookup_insert_ne; [done|]. intros ->. congruence.
Qed.

(** Rewriting dependent jobs changes no parent. *)
Lemma linked_relink J p pj djs n k jk :
  Links_but n J → J !! p = Some pj → k ≠ n →
  <[p := set_DependentJobs djs pj]> J !! k = Some jk → linked J k jk.
Proof.
  intros HL Hp Hne Hk. destruct (decide (p = k)) as [->|].
  - rewrite lookup_insert_eq in Hk. simplify_eq. by apply (HL k pj).
  - rewrite lookup_insert_ne in Hk by done. by apply HL.
Qed.

Lemma Links_but_drop J n p pj :
  Links_but n J → J !! p = Some pj → p ≠ n →
  Links_but n (<[p := set_DependentJobs (drop_child n pj.(Job_DependentJobs)) pj]> J).
Proof.
  intros HL Hp Hpn k jk Hk Hne.
  assert (linked J k jk) as Hl by (eapply linked_relink; eauto).
  eapply linked_insert; [done..|]. intros Hin _. simpl. apply list_elem_of_filter. done.
Qed.

Lemma Links_add J n j p pj :
  Links_but n J → J !! n = Some j → j.(Job_ParentJob) = p → J !! p = Some pj → p ≠ n →
  Links (<[p := set_DependentJobs (add_child n pj.(Job_DependentJobs)) pj]> J).
Proof.
  intros HL Hn Ej Hp Hpn k jk Hk.
  destruct (decide (k = n)) as [->|Hkn].
  - rewrite lookup_insert_ne in Hk by done. simplify_eq. right.
    rewrite lookup_insert_eq. eexists. split; [done|]. simpl. apply elem_of_app. right. set_solver.
  - assert (linked J k jk) as Hl by (eapply linked_relink; eauto).
    eapply linked_insert; [done..|]. intros Hin _. simpl. apply elem_of_app. by left.
Qed.

(** With the links of all others in place, the move from the parent [p] to the
    parent [p'] of the job [n] puts its own in place. *)
Lemma relink_ok s n j p p' :
  Links_but n s.(jobs) → Parents s.(jobs) → s.(jobs) !! n = Some j → j.(Job_ParentJob) = p' →
  p' ≠ n → (p = "" ∨ p ≠ n ∧ is_Some (s.(jobs) !! p)) → p ≠ p' →
  ∃ s', (spec_update_parent (drop_child n) p ;;; spec_update_parent (add_child n) p') s
        = (Ok tt, s') ∧ Links s'.(jobs) ∧
        (p ≠ "" → ∃ pj, s'.(jobs) !! p = Some pj ∧ n ∉ pj.(Job_DependentJobs)).
Proof.
  intros HL HP Hn Ej Hp'n Hp Hpp.
  assert (∃ s2, spec_update_parent (drop_child n) p s = (Ok tt, s2) ∧
    Links_but n s2.(jobs) ∧ Parents s2.(jobs) ∧ s2.(jobs) !! n = Some j ∧
    (p ≠ "" → ∃ pj, s2.(jobs) !! p = Some pj ∧ n ∉ pj.(Job_DependentJobs)))
    as (s2 & E2 & HL2 & HP2 & Hn2 & Hold).
  { destruct Hp as [->|[Hpn [pj Hpj]]]; [by exists s|].
    destruct (decide (p = "")) as [->|Hne]; [by exists s|].
    rewrite (update_parent_ok _ p pj) by done. eexists. split; [done|]. simpl. split_and!.
    - by apply Links_but_drop.
    - by apply Parents_relink.
    - by rewrite lookup_insert_ne.
    - intros _. rewrite lookup_insert_eq. eexists. split; [done|]. simpl.
      unfold drop_child. rewrite list_elem_of_filter. tauto. }
  unfold bindM. rewrite E2. destruct (decide (p' = "")) as [Hz|Hne].
  - exists s2. subst p'. rewrite Hz. split_and!; [done| |done]. intros k jk Hk.
    destruct (decide (k = n)) as [->|]; [left; congruence|by apply HL2].
  - destruct (HP2 n j Hn2) as [|[pj Hpj]]; [congruence|]. rewrite Ej in Hpj.
    rewrite (update_parent_ok _ p' pj) by done. eexists. split; [done|]. simpl. split.
    + by eapply Links_add.
    + intros Hpne. rewrite lookup_insert_ne by done. by apply Hold.
Qed.

Section Links.
Context {db : Type} {BDB : BuntDB db} {PT : Ptypes} {PB : Proto} {CP : CronParser}
        {UC : Unicode} {TZ : Locations} {SO : Sorting}.

Lemma written_fields now b ej job job' :
  Valid job → written now b ej job = Ok job' →
  job'.(Job_ParentJob) = job.(Job_ParentJob) ∧
  (ej.(Job_Name) ≠ "" → b = true ∨ ej.(Job_DependentJobs) ⊆ job.(Job_DependentJobs) →
    ej.(Job_DependentJobs) ⊆ job'.(Job_DependentJobs)).
Proof.
  intros Hv Hw. destruct (written_Valid now b ej job Hv) as (next & Hw' & _).
  rewrite Hw in Hw'. injection Hw' as ->. split; [apply (merge_stored_same b ej job)|].
  intros Hn Hb. simpl. unfold merge_stored. rewrite decide_False by done. simpl.
  case_decide as Hd; [done|]. destruct Hb as [->|Hb]; [|done].
  destruct (decide (Job_DependentJobs ej = [])) as [->|]; [set_solver|tauto].
Qed.

(** The links after the job is written, before the parents are told. *)
Lemma spec_SetJob_links now job b (d : db) s job' :
  Holds d s → Links s.(jobs) → Valid job →
  let n := job.(Job_Name) in
  let ej := default Job_zero (s.(jobs) !! n) in
  written now b ej job = Ok job' →
  b = true ∨ ej.(Job_DependentJobs) ⊆ job.(Job_DependentJobs) →
  Links_but n (<[n := norm job']> s.(jobs)).
Proof.
  intros HH HL Hv n ej Hw Hb. apply Links_but_insert; [done|]. intros old c Hold Hc.
  assert (ej = old) as -> by (subst ej; by rewrite Hold).
  destruct (Rep_job _ _ _ _ HH Hold) as [v [_ Hn Hvo _ _]].
  apply (proj2 (written_fields _ _ _ _ _ Hv Hw)); [apply Hvo|done..].
Qed.

Lemma spec_SetJob_keeps now job b (d : db) s :
  Holds d s → Links s.(jobs) → Valid job → parent_missing s job = false →
  let ej := default Job_zero (s.(jobs) !! job.(Job_Name)) in
  (∀ job', written now b ej job = Ok job' → storable job') →
  b = true ∨ ej.(Job_DependentJobs) ⊆ job.(Job_DependentJobs) →
  ∃ s', spec_SetJob now job b s = (Ok tt, s') ∧ Links s'.(jobs) ∧
    (job.(Job_ParentJob) ≠ ej.(Job_ParentJob) → ej.(Job_ParentJob) ≠ "" →
      ∃ pj, s'.(jobs) !! ej.(Job_ParentJob) = Some pj ∧ job.(Job_Name) ∉ pj.(Job_DependentJobs)).
Proof.
  intros HH HL Hv Hpm ej Hst Hb. set (n := job.(Job_Name)) in *. set (p' := job.(Job_ParentJob)).
  destruct (written_Valid now b ej job Hv) as (next & Hw & _).
  set (job' := set_Next next _) in Hw. specialize (Hst _ Hw).
  pose proof (spec_SetJob_links now job b d s job' HH HL Hv Hw Hb) as HL1. fold n in HL1.
  assert (Job_ParentJob (norm job') = p') as Ep by apply (merge_stored_same b ej job).
  assert (p' = "" ∨ is_Some (s.(jobs) !! p')) as Hp'.
  { apply bool_decide_eq_false in Hpm. destruct (decide (p' = "")); [by left|right].
    destruct (jobs s !! p') eqn:E; [by eexists|]. naive_solver. }
  assert (p' ≠ n) as Hpn by apply (valid_parent _ Hv).
  set (J1 := <[n := norm job']> s.(jobs)) in *.
  assert (Parents J1) as HP1 by (apply Parents_insert; [by apply Links_Parents|by rewrite Ep]).
  assert (J1 !! n = Some (norm job')) as Hn1 by apply lookup_insert_eq.
  unfold spec_SetJob. rewrite (proj2 (Validate_spec _) Hv), Hpm. fold n ej. rewrite Hw.
  rewrite (decide_True _ _ Hst). fold p'.
  pose proof (stored_parent_ne_holds d s n HH) as Hne. fold ej in Hne.
  assert (∀ q, q ≠ n → J1 !! q = s.(jobs) !! q) as Ho1 by (intros; by apply lookup_insert_ne).
  assert (ej.(Job_ParentJob) = "" ∨ ∃ pj, s.(jobs) !! n = Some ej ∧
    s.(jobs) !! ej.(Job_ParentJob) = Some pj ∧ n ∈ pj.(Job_DependentJobs)) as Hej.
  { subst ej. destruct (jobs s !! n) as [j|] eqn:E; [|by left]. simpl.
    destruct (HL n j E) as [|(pj & ? & ?)]; [by left|]. right. by exists pj. }
  destruct (decide (p' = Job_ParentJob ej)) as [Heq|Hneq].
  - eexists. split; [done|]. split; [|done]. simpl. fold J1. intros k jk Hk.
    destruct (decide (k = n)) as [->|]; [|by apply HL1]. rewrite Hn1 in Hk. injection Hk as <-.
    unfold linked. rewrite Ep. destruct Hej as [Hz|(pj & _ & Hpj & Hin)]; [left; congruence|].
    right. exists pj. by rewrite Ho1, Heq.
  - destruct (relink_ok (with_job n (norm job') s) n (norm job') (Job_ParentJob ej) p')
      as (s' & -> & HL' & Hold); [done..| |congruence|].
    + destruct Hej as [|(pj & _ & Hpj & _)]; [by left|].
      destruct (decide (Job_ParentJob ej = "")); [by left|right].
      split; [by apply Hne|]. simpl. fold J1. rewrite Ho1 by by apply Hne. by eexists.
    + exists s'. naive_solver.
Qed.


(** Deleting a job without children leaves the others linked. *)
Lemma Links_delete J n j :
  Links J → J !! n = Some j → j.(Job_DependentJobs) = [] → Links (delete n J).
Proof.
  intros HL Hn Hd k jk [Hne Hk]%lookup_delete_Some.
  destruct (HL k jk Hk) as [|(pj & Hpj & Hin)]; [by left|]. right. exists pj.
  rewrite lookup_delete_ne; [done|]. intros ->. simplify_eq. rewrite Hd in Hin. set_solver.
Qed.

Lemma listing_drop_execs name E : listing (executionsDir name) (drop_execs name E) = [].
Proof.
  unfold listing. destruct (filter _ _) as [|k ks] eqn:Ef; [done|]. exfalso.
  assert (k ∈ k :: ks) as Hk by set_solver. rewrite <- Ef in Hk.
  apply list_elem_of_filter in Hk as [Hp [e He]%sorted_keys_elem].
  apply map_lookup_filter_Some in He as [_ He]. simpl in He.
  rewrite (HasPrefix_trans k (executionsPrefix +:+ ":" +:+ name) ":") in He; [done|].
  rewrite !app_assoc_s. exact Hp.
Qed.

Lemma spec_DeleteJob_keeps (d : db) s name j :
  Holds d s → Links s.(jobs) → s.(jobs) !! name = Some j → j.(Job_DependentJobs) = [] →
  ∃ s', spec_DeleteJob name s = (Ok j, s') ∧ Links s'.(jobs) ∧ s'.(jobs) !! name = None ∧
    s'.(execs) = drop_execs name s.(execs) ∧
    (∀ k, k ≠ name → k ≠ j.(Job_ParentJob) → s'.(jobs) !! k = s.(jobs) !! k) ∧
    (j.(Job_ParentJob) ≠ "" →
      ∃ pj, s'.(jobs) !! j.(Job_ParentJob) = Some pj ∧ name ∉ pj.(Job_DependentJobs)).
Proof.
  intros HH HL Hj Hd. destruct (Rep_job _ _ _ _ HH Hj) as [v [_ Hn Hv _ _]].
  unfold spec_DeleteJob, bindM at 1, spec_delete. rewrite Hj, decide_False by naive_solver.
  set (s1 := mkState _ _). assert (Links s1.(jobs)) as HL1 by by eapply Links_delete.
  assert (∀ k, k ≠ name → s1.(jobs) !! k = s.(jobs) !! k) as Ho
    by (intros; by apply lookup_delete_ne).
  destruct (HL name j Hj) as [Hz|(pj & Hpj & Hin)].
  { exists s1. unfold bindM. rewrite Hz, spec_update_parent_empty.
    split_and!; [done..|apply lookup_delete_eq|done| |done]. auto. }
  assert (Job_ParentJob j ≠ name) as Hpn by (rewrite <- Hn; apply Hv).
  destruct (decide (Job_ParentJob j = "")) as [Hz|Hne].
  { exists s1. unfold bindM. rewrite Hz, spec_update_parent_empty.
    split_and!; [done..|apply lookup_delete_eq|done| |done]. auto. }
  rewrite <- Ho in Hpj by done. unfold bindM.
  rewrite (update_parent_ok _ _ pj) by (done || by apply Links_Parents).
  eexists. split; [done|]. simpl jobs. simpl execs. split_and!.
  - intros k jk Hk. eapply Links_but_drop; [|done|done|done|].
    + intros k' j' Hk' _. by apply HL1.
    + intros ->. rewrite lookup_insert_ne in Hk by done. by rewrite lookup_delete_eq in Hk.
  - rewrite lookup_insert_ne by done. apply lookup_delete_eq.
  - done.
  - intros k H1 H2. rewrite lookup_insert_ne by done. auto.
  - intros _. rewrite lookup_insert_eq. eexists. split; [done|]. simpl.
    unfold drop_child. rewrite list_elem_of_filter. tauto.
Qed.

End Links.

(** ** Examples *)
Module LinksExample.
Import Toy Example.

Lemma links2 : Links s2.(jobs).
Proof. refine (bool_decide_unpack _ _). vm_compute. exact I. Qed.



(** An update that does not name the children of a job (the form of every
    update that goes through the log, which passes [copyDependentJobs] as false)
    drops them; the job can then be deleted, and its child is left with a parent
    that does not exist.  Any later update of the child is refused. *)
Theorem update_orphans :
  let d3 := (SetJob 0 jobA false d2).2 in
  let d4 := (DeleteJob 0 "a" d3).2 in
  (SetJob 0 jobA false d2).1 = Ok tt ∧
  (∃ j, (DeleteJob 0 "a" d3).1 = Ok j) ∧
  (∃ j, (GetJob "b" d4).1 = Ok j ∧ j.(Job_ParentJob) = "a") ∧
  (GetJob "a" d4).1 = Err ErrNotFound ∧
  (SetJob 0 jobB false d4).1 = Err ErrParentJobNotFound.
Proof.
  intros d3 d4. split_and!; [vm_compute; reflexivity|eexists; vm_compute; reflexivity| |
    vm_compute; reflexivity..].
  destruct ((GetJob "b" d4).1) eqn:E; vm_compute in E; [|discriminate..].
  injection E as <-. eexists. split; reflexivity.
Qed.

(** Deleting a job deletes the executions of every job whose name starts with
    its name, not only its own: the key prefix has no separator after the name. *)
Theorem delete_takes_other_executions :
  let e := toy_exec "job10" "node1" 10 20 true in
  let d := (SetExecution e
             (SetJob 0 (toy_job "job10" "@every 1m" "") false
               (SetJob 0 (toy_job "job1" "@every 1m" "") false d0).2).2).2 in
  (GetExecutions "job10" d).1 = Ok [e] ∧
  (DeleteJob 0 "job1" d).1 = (GetJob "job1" d).1 ∧
  (GetExecutions "job10" (DeleteJob 0 "job1" d).2).1 = Err ErrNotFound.
Proof. intros e d. split_and!; vm_compute; reflexivity. Qed.

(** A backup restored through [SetJob] duplicates children: when the parent is
    stored with its list of children and each child is then created, [addToParent]
    appends the child to a list that already has it. *)
Theorem restore_duplicates_children :
  let parent := set_DependentJobs ["b"] jobA in
  let d := (SetJob 0 jobB false (SetJob 0 parent false d0).2).2 in
  (match (GetJob "a" d).1 with Ok j => j.(Job_DependentJobs) | _ => [] end) = ["b"; "b"].
Proof. intros parent d. vm_compute. reflexivity. Qed.
End LinksExample.
