(* ===== verification/StoreHistory.v ===== *)
(** * The execution history: retention, results, groups, snapshots *)
From Stdlib Require Import ZArith Lia Ascii.
From stdpp Require Import base list gmap strings sorting relations.
From S2P Require Import Prelude GoStrings GoTime Pb NTime ExtCron Execution Job BuntDB.
From S2P Require Import Store StoreSim StoreSpec StoreRefine StoreExecs Instances StoreProps.

#[local] Open Scope Z_scope.

(** ** Lists *)

(** Taking away the first [k] of a list by their (distinct) keys leaves the rest. *)
Lemma filter_keys_drop {A} (f : A → string) (S L : list A) k :
  S ≡ₚ L → NoDup (f <$> S) →
  filter (λ x, f x ∉ f <$> take k S) L ≡ₚ drop k S.
Proof.
  intros HP Hn. rewrite <- HP. set (P := λ x, f x ∉ f <$> take k S).
  replace (filter P S) with (filter P (take k S ++ drop k S)) by by rewrite take_drop.
  rewrite filter_app. rewrite <- (take_drop k S), fmap_app, NoDup_app in Hn. destruct Hn as (_ & Hd & _).
  assert (filter P (take k S) = []) as ->.
  { apply filter_none. intros x Hx Hf. apply Hf, list_elem_of_fmap. eauto. }
  rewrite filter_all; [done|]. intros x Hx Hf. apply (Hd (f x)); [done|].
  apply list_elem_of_fmap. eauto.
Qed.

(** ** Listings *)

Definition keyed (E : gmap string Execution) : Prop := map_Forall (λ k e, k = exec_key e) E.

Lemma Rep_keyed `{!Ptypes, !Proto, !CronParser, !Unicode, !Locations} m s :
  Rep m s → keyed s.(execs).
Proof. intros HR k e He. by destruct (Rep_exec _ _ _ _ HR He) as (v & _ & [_ ? _]). Qed.

Lemma listing_keys E p :
  keyed E → exec_key <$> listing p E = filter (λ k, HasPrefix k p = true) (sorted_keys E).
Proof.
  intros HK. unfold listing.
  assert (∀ k, k ∈ filter (λ k, HasPrefix k p = true) (sorted_keys E) → is_Some (E !! k)) as Hks.
  { intros k [_ Hk]%list_elem_of_filter. by apply sorted_keys_elem. }
  induction (filter _ _) as [|k ks IH]; [done|]. simpl.
  destruct (Hks k) as [e He]; [set_solver|]. rewrite He. simpl.
  rewrite <- (HK _ _ He). f_equal. apply IH. set_solver.
Qed.

Lemma listing_elem E p e :
  keyed E → e ∈ listing p E ↔ E !! exec_key e = Some e ∧ HasPrefix (exec_key e) p = true.
Proof.
  intros HK. unfold listing. rewrite list_elem_of_omap. split.
  - intros (k & [Hp _]%list_elem_of_filter & He). by rewrite <- (HK _ _ He).
  - intros [He Hp]. exists (exec_key e). split; [|done]. apply list_elem_of_filter. split; [done|].
    apply sorted_keys_elem. by eexists.
Qed.

Lemma listing_nodup E p : keyed E → NoDup (exec_key <$> listing p E).
Proof. intros HK. rewrite listing_keys by done. apply NoDup_filter, sorted_keys_nodup. Qed.

Lemma keyed_delete_all ks E : keyed E → keyed (foldl (λ E k, delete k E) E ks).
Proof. intros HK k e. rewrite lookup_delete_all. case_decide; [done|]. apply HK. Qed.

Lemma listing_delete_all ks E p :
  keyed E →
  listing p (foldl (λ E k, delete k E) E ks) ≡ₚ filter (λ e, exec_key e ∉ ks) (listing p E).
Proof.
  intros HK. apply NoDup_Permutation.
  - apply (NoDup_fmap_1 exec_key), listing_nodup. by apply keyed_delete_all.
  - apply NoDup_filter, (NoDup_fmap_1 exec_key). by apply listing_nodup.
  - intros e. rewrite list_elem_of_filter, !listing_elem by (done || by apply keyed_delete_all).
    rewrite lookup_delete_all. case_decide; naive_solver.
Qed.

Lemma keyed_put e E : keyed E → keyed (put_exec e E).
Proof.
  intros HK. unfold put_exec. repeat case_match; try done; by apply map_Forall_insert_2.
Qed.

Section Retention.
Context {SO : Sorting}.

(** What the overflow of a listing is, and what is left. *)
Lemma overflow_spec L :
  let n := length L in
  NoDup (exec_key <$> L) →
  let L' := filter (λ e, exec_key e ∉ overflow_keys L) L in
  length L' = (n `min` 100)%nat ∧
  (∀ x y, x ∈ L → x ∉ L' → y ∈ L' → x.(Ex_StartedAt) ≤ y.(Ex_StartedAt)).
Proof.
  intros n Hn L'. unfold overflow_keys in L'. destruct (Z.ltb_spec MaxExecutions (Z.of_nat (length L)))
    as [Hlt|Hle]; unfold MaxExecutions in *.
  - set (S := sort_Slice _ L) in L'. set (k := (length L - Z.to_nat 100)%nat) in L'.
    assert (S ≡ₚ L) as HP by apply sort_Slice_perm.
    change (λ e, executionKey (Ex_JobName e) (Execution_Key e)) with exec_key in L'.
    assert (L' ≡ₚ drop k S) as HL'.
    { apply filter_keys_drop; [done|]. by rewrite HP. }
    split.
    + rewrite HL', length_drop, HP. subst k n. lia.
    + intros x y Hx Hnx Hy. rewrite HL' in Hy, Hnx. rewrite <- HP in Hx.
      rewrite <- (take_drop k S), elem_of_app in Hx. destruct Hx as [Hx|Hx]; [|done].
      assert (StronglySorted (λ x y, Before y.(Ex_StartedAt) x.(Ex_StartedAt) = false) S) as Hs.
      { apply sort_Slice_sorted; unfold Before; intros *; rewrite ?Z.ltb_lt, ?Z.ltb_ge; lia. }
      rewrite <- (take_drop k S) in Hs.
      pose proof (StronglySorted_app_1_elem_of _ _ _ x y Hs Hx Hy) as H.
      unfold Before in H. apply Z.ltb_ge in H. done.
  - subst L'. rewrite filter_all by (intros; apply not_elem_of_nil). split; [lia|]. done.
Qed.
End Retention.

(** ** Status and groups *)

Lemma length_success (l : list Execution) :
  (length (filter (λ e, e.(Ex_Success) = false) l)
   + length (filter (λ e, e.(Ex_Success) = true) l) = length l)%nat.
Proof.
  induction l as [|e l IH]; [done|]. rewrite !filter_cons.
  destruct (Ex_Success e); simpl; lia.
Qed.

(** The status of a group of executions is "success" when none failed, "failed"
    when there are some and all of them failed, "partially_failed" when some failed
    and some did not; it is always one of the three. *)
Theorem status_of_spec (l : list Execution) :
  (status_of l = StatusSuccess ↔ Forall (λ e, e.(Ex_Success) = true) l) ∧
  (status_of l = StatusFailed ↔ l ≠ [] ∧ Forall (λ e, e.(Ex_Success) = false) l) ∧
  (status_of l = StatusPartialyFailed ↔
    Exists (λ e, e.(Ex_Success) = false) l ∧ Exists (λ e, e.(Ex_Success) = true) l) ∧
  status_of l ∈ [StatusSuccess; StatusFailed; StatusPartialyFailed].
Proof.
  unfold status_of.
  pose proof (length_filter_zero (λ e, e.(Ex_Success) = false) l) as Hf0.
  pose proof (length_filter_zero (λ e, e.(Ex_Success) = true) l) as Hs0.
  pose proof (length_filter_pos (λ e, e.(Ex_Success) = false) l) as Hf1.
  pose proof (length_filter_pos (λ e, e.(Ex_Success) = true) l) as Hs1.
  set (f := length (filter (λ e, e.(Ex_Success) = false) l)) in *.
  set (k := length (filter (λ e, e.(Ex_Success) = true) l)) in *.
  assert (Forall (λ e, ¬ Ex_Success e = false) l ↔ Forall (λ e, Ex_Success e = true) l) as Ht
    by (apply Forall_iff; intros e; by destruct (Ex_Success e)).
  assert (Forall (λ e, ¬ Ex_Success e = true) l ↔ Forall (λ e, Ex_Success e = false) l) as Hfl
    by (apply Forall_iff; intros e; by destruct (Ex_Success e)).
  rewrite Ht in Hf0. rewrite Hfl in Hs0. rewrite <- Hf0, <- Hs0, <- Hf1, <- Hs1.
  assert (f + k = length l)%nat as Hlen by apply length_success.
  assert (l ≠ [] ↔ (0 < length l)%nat) as ->
    by (destruct l; simpl; (split; [lia || done|done || lia])).
  clear Hf0 Hs0 Hf1 Hs1 Ht Hfl. clearbody f k. rewrite !elem_of_cons.
  destruct (Nat.eqb_spec f 0).
  { split_and!; [split; intros; try discriminate; lia || done..|by left]. }
  destruct (Nat.ltb_spec 0 f); [|lia]. destruct (Nat.eqb_spec k 0).
  { split_and!; [split; intros; try discriminate; lia || done..|by right; left]. }
  destruct (Nat.ltb_spec 0 k); [|lia].
  split_and!; [split; intros; try discriminate; lia || done..|by right; right; left].
Qed.

(** The groups that the fold of [GetGroupedExecutions] builds. *)
Lemma add_to_group_fold l (G : gmap Z (list Execution)) g :
  foldl add_to_group G l !! g
  = match default [] (G !! g) ++ filter (λ e, e.(Ex_Group) = g) l with
    | [] => G !! g
    | l' => Some l'
    end.
Proof.
  revert G. induction l as [|e l IH]; intros G; simpl.
  { rewrite filter_nil, (right_id_L [] (++)). by destruct (G !! g) as [[]|]. }
  rewrite IH, filter_cons. unfold add_to_group.
  destruct (decide (Ex_Group e = g)) as [<-|Hne].
  - rewrite lookup_insert_eq. simpl. rewrite <- (assoc_L (++)). simpl.
    by destruct (default [] (G !! Ex_Group e)).
  - by rewrite lookup_insert_ne.
Qed.

Section History.
Context {db : Type} {BDB : BuntDB db} {PT : Ptypes} {PB : Proto} {CP : CronParser}
        {UC : Unicode} {TZ : Locations} {SO : Sorting}.

(** The groups of a listing and their numbers, as [GetGroupedExecutions] makes
    them. *)
Definition groups_of (execs : list Execution) : gmap Z (list Execution) :=
  foldl add_to_group ∅ execs.
Definition byGroup_of (execs : list Execution) : list Z :=
  sort_Slice (λ x y, y <? x) (map_to_list (groups_of execs)).*1.

Lemma groups_of_lookup execs g l :
  groups_of execs !! g = Some l ↔ l ≠ [] ∧ l = filter (λ e, e.(Ex_Group) = g) execs.
Proof.
  unfold groups_of. rewrite add_to_group_fold, lookup_empty. simpl.
  destruct (filter _ execs); naive_solver.
Qed.

Lemma byGroup_of_elem execs g :
  g ∈ byGroup_of execs ↔ ∃ e, e ∈ execs ∧ e.(Ex_Group) = g.
Proof.
  unfold byGroup_of. rewrite sort_Slice_perm, list_elem_of_fmap. split.
  - intros ([g' l] & -> & [Hl ->]%elem_of_map_to_list%groups_of_lookup). simpl.
    destruct (filter _ execs) as [|e l] eqn:Ef; [done|]. exists e.
    assert (e ∈ e :: l) as He by set_solver. rewrite <- Ef in He.
    apply list_elem_of_filter in He. naive_solver.
  - intros (e & He & <-).
    exists (e.(Ex_Group), filter (λ e', e'.(Ex_Group) = e.(Ex_Group)) execs).
    split; [done|]. apply elem_of_map_to_list, groups_of_lookup. split; [|done]. intros Hz.
    by apply (filter_nil_not_elem_of _ _ e Hz).
Qed.

Lemma byGroup_of_sorted execs : StronglySorted (λ x y, y < x) (byGroup_of execs).
Proof.
  eapply (StronglySorted_strict (λ x y, (x <? y) = false)).
  - intros x y. rewrite Z.ltb_ge. lia.
  - apply sort_Slice_sorted; intros *; rewrite ?Z.ltb_lt, ?Z.ltb_ge; lia.
  - unfold byGroup_of. rewrite sort_Slice_perm. apply NoDup_fst_map_to_list.
Qed.

(** [GetGroupedExecutions] partitions the executions of a job: each group
    number that occurs maps to its executions, in the order of the listing, and
    the numbers come in strictly descending order; [GetLastExecutionGroup] is the
    group with the largest number. *)
Theorem GetGroupedExecutions_spec n (d : db) execs :
  (GetExecutions n d).1 = Ok execs →
  ∃ groups byGroup,
    (GetGroupedExecutions n d).1 = Ok (groups, byGroup) ∧
    (∀ g l, groups !! g = Some l ↔ l ≠ [] ∧ l = filter (λ e, e.(Ex_Group) = g) execs) ∧
    StronglySorted (λ x y, y < x) byGroup ∧
    (∀ g, g ∈ byGroup ↔ ∃ e, e ∈ execs ∧ e.(Ex_Group) = g) ∧
    (∀ e, e ∈ execs → (∀ e', e' ∈ execs → e'.(Ex_Group) ≤ e.(Ex_Group)) →
      (GetLastExecutionGroup n d).1
        = Ok (filter (λ e', e'.(Ex_Group) = e.(Ex_Group)) execs)).
Proof.
  intros HE. exists (groups_of execs), (byGroup_of execs).
  assert (∃ d', GetGroupedExecutions n d = (Ok (groups_of execs, byGroup_of execs), d'))
    as [d' Hgr].
  { unfold GetGroupedExecutions, bindM. destruct (GetExecutions n d) as [r d'].
    simpl in HE. subst r. by eexists. }
  split_and!; [by rewrite Hgr|apply groups_of_lookup|apply byGroup_of_sorted|
    apply byGroup_of_elem|]. intros e He Hmax.
  unfold GetLastExecutionGroup, bindM. rewrite Hgr. cbv beta iota.
  assert (e.(Ex_Group) ∈ byGroup_of execs) as Hin by (apply byGroup_of_elem; eauto).
  pose proof (byGroup_of_sorted execs) as Hs.
  destruct (byGroup_of execs) as [|g gs] eqn:Eb; [set_solver|].
  assert (g = e.(Ex_Group)) as ->.
  { assert (g ∈ byGroup_of execs) as (e' & He' & <-)%byGroup_of_elem by (rewrite Eb; set_solver).
    specialize (Hmax e' He'). apply elem_of_cons in Hin as [?|Hin]; [done|].
    apply StronglySorted_inv in Hs as [_ Hs]. rewrite Forall_forall in Hs.
    specialize (Hs _ Hin). simpl in Hs. lia. }
  assert (groups_of execs !! e.(Ex_Group)
    = Some (filter (λ e', e'.(Ex_Group) = e.(Ex_Group)) execs)) as Hg.
  { apply groups_of_lookup. split; [|done]. intros Hz.
    by apply (filter_nil_not_elem_of _ _ e Hz). }
  rewrite decide_True; [by rewrite Hg|]. destruct (size (groups_of execs)) eqn:Ez; [|lia].
  apply map_size_empty_inv in Ez. by rewrite Ez in Hg.
Qed.

(** The listing of a job holds exactly its executions. *)
Lemma listing_job (d : db) s n e :
  Holds d s → has_byte ":"%char n = false →
  e ∈ listing (executionsDir n) s.(execs)
  ↔ s.(execs) !! exec_key e = Some e ∧ e.(Ex_JobName) = n.
Proof.
  intros HH Hn. rewrite listing_elem by by eapply Rep_keyed.
  split; intros [He Hp]; (split; [done|]);
    destruct (Rep_exec _ _ _ _ HH He) as (v & _ & [_ _ Hok]);
    by apply (exec_key_dir e n); [apply Hok|..].
Qed.

Lemma put_exec_lookup e E k :
  put_exec e E !! k =
    if decide (k = exec_key e) then
      Some (match E !! exec_key e with
            | Some old => if Unix e.(Ex_FinishedAt) <? Unix old.(Ex_FinishedAt) then old else e
            | None => e
            end)
    else E !! k.
Proof.
  unfold put_exec. case_decide as Hk; [subst k|].
  - destruct (E !! exec_key e) eqn:Ee; [case_match|]; rewrite ?lookup_insert_eq; done.
  - destruct (E !! exec_key e); [case_match|]; rewrite ?lookup_insert_ne; done.
Qed.

Lemma overflow_keys_job L k :
  k ∈ overflow_keys L → ∃ e, e ∈ L ∧ k = exec_key e.
Proof.
  unfold overflow_keys. case_match; [|set_solver].
  intros (e & -> & He)%list_elem_of_fmap. exists e. split; [|done].
  rewrite <- (sort_Slice_perm (λ x y, Before (Ex_StartedAt x) (Ex_StartedAt y)) L).
  rewrite <- (take_drop (length L - Z.to_nat MaxExecutions)). apply elem_of_app. by left.
Qed.

Lemma spec_SetExecution_other e s k :
  keyed s.(execs) → has_byte ":"%char e.(Ex_JobName) = false →
  HasPrefix k (executionsDir e.(Ex_JobName)) = false →
  (spec_SetExecution e s).2.(execs) !! k = s.(execs) !! k.
Proof.
  intros HK Hc Hk. simpl. rewrite lookup_delete_all, put_exec_lookup.
  rewrite decide_False, decide_False; [done|..].
  - intros ->. by rewrite (proj2 (exec_key_dir e _ Hc Hc)) in Hk.
  - intros (x & Hx & ->)%overflow_keys_job.
    apply listing_elem in Hx as [_ Hx]; [congruence|]. by apply keyed_put.
Qed.

(** C26: retention.  [SetExecution] stores the execution (an execution that is
    already stored under its key is only replaced by one that finished no
    earlier), and then keeps at most 100 executions of the job: those dropped
    started no later than any that is kept.  Executions of other jobs, and all
    jobs, are untouched. *)
Theorem SetExecution_retention e (d : db) s :
  Holds d s → exec_ok e →
  let n := e.(Ex_JobName) in
  let L := listing (executionsDir n) (put_exec e s.(execs)) in
  ∃ d' s', SetExecution e d = (Ok (exec_key e), d') ∧ Holds d' s' ∧
    let L' := listing (executionsDir n) s'.(execs) in
    (L' ≠ [] → (GetExecutions n d').1 = Ok L') ∧
    length L' = (length L `min` 100)%nat ∧
    (∀ x, x ∈ L' → x ∈ L) ∧
    (∀ x y, x ∈ L → x ∉ L' → y ∈ L' → x.(Ex_StartedAt) ≤ y.(Ex_StartedAt)) ∧
    (∀ k, HasPrefix k (executionsDir n) = false → s'.(execs) !! k = s.(execs) !! k) ∧
    s'.(jobs) = s.(jobs).
Proof.
  intros HH He n L.
  assert (keyed (put_exec e s.(execs))) as HK by (apply keyed_put; by eapply Rep_keyed).
  destruct (implements_run _ _ _ _ _ _ (SetExecution_implements e He) HH eq_refl)
    as (d' & Hrun & HH').
  exists d', (spec_SetExecution e s).2. split; [done|]. split; [done|]. intros L'.
  pose proof (listing_delete_all (overflow_keys L) _ (executionsDir n) HK) as HP.
  change (foldl _ _ _) with (spec_SetExecution e s).2.(execs) in HP. fold L L' in HP.
  destruct (overflow_spec L) as [Hlen Hold]; [by apply listing_nodup|].
  assert (∀ x, x ∈ L' ↔ x ∈ filter (λ e, exec_key e ∉ overflow_keys L) L) as Hin
    by (intros x; by rewrite HP).
  split_and!.
  - apply (GetExecutions_value n d' _ L' HH'); [apply He|done].
  - by rewrite <- Hlen, HP.
  - intros x Hx%Hin. by apply list_elem_of_filter in Hx as [_ ?].
  - intros x y Hx Hnx Hy%Hin. apply Hold; [done| |done]. by rewrite <- Hin.
  - intros k Hk. apply (spec_SetExecution_other e s k); [by eapply Rep_keyed|apply He|done].
  - done.
Qed.

(** C28: the end of an execution.  For a stored job, [SetExecutionDone] stores the
    result of the execution (never replacing a result that finished later), bumps
    the success or the error counter (a 32-bit counter that wraps), sets the last
    success or error to the end of the execution and the status to that of its
    group, and leaves every other field of the job and every other job alone. *)
Theorem SetExecutionDone_job e (d : db) s j :
  Holds d s → exec_ok e → (GetJob e.(Ex_JobName) d).1 = Ok j →
  let n := e.(Ex_JobName) in
  let E := put_exec e s.(execs) in
  let j' := done_job e (group_status n e.(Ex_Group) E) j in
  ∃ d', SetExecutionDone e d = (Ok true, d') ∧
    Holds d' (mkState (<[n := j']> s.(jobs)) E) ∧
    (GetJob n d').1 = Ok j' ∧
    (∀ n', n' ≠ n → (GetJob n' d').1 = (GetJob n' d).1).
Proof.
  intros HH He Hj n E j'.
  assert (s.(jobs) !! n = Some j) as Hn.
  { rewrite (GetJob_value _ _ _ HH) in Hj. unfold spec_GetJob in Hj. fold n in Hj.
    destruct (jobs s !! n); naive_solver. }
  destruct (implements_run (SetExecutionDone e) (spec_SetExecutionDone e) d s (Ok true)
    (mkState (<[n := j']> s.(jobs)) E)) as (d' & Hrun & HH').
  { by apply SetExecutionDone_implements. }
  { done. }
  { unfold spec_SetExecutionDone. fold n. by rewrite Hn. }
  exists d'. split_and!; [done..| |].
  - rewrite (GetJob_value _ _ _ HH'). unfold spec_GetJob. simpl. by rewrite lookup_insert_eq.
  - intros n' Hne. rewrite (GetJob_value _ _ _ HH'), (GetJob_value _ _ _ HH).
    unfold spec_GetJob. simpl. by rewrite lookup_insert_ne.
Qed.

(** An execution of a job that is not in the store (any more) is refused with
    [ErrExecutionDoneForDeletedJob], and nothing is written. *)
Theorem SetExecutionDone_deleted e (d : db) s :
  Holds d s → exec_ok e → (GetJob e.(Ex_JobName) d).1 = Err ErrNotFound →
  (SetExecutionDone e d).1 = Err ErrExecutionDoneForDeletedJob ∧
  Holds (SetExecutionDone e d).2 s.
Proof.
  intros HH He Hj. destruct (SetExecutionDone_implements e He d s HH) as [H1 H2].
  rewrite (GetJob_value _ _ _ HH) in Hj. unfold spec_GetJob in Hj.
  unfold spec_SetExecutionDone in H1, H2.
  destruct (jobs s !! Ex_JobName e); naive_solver.
Qed.

(** The results of two reports of the same execution do not depend on the
    order they arrive in, unless both finished in the same second: the later
    one is kept. *)
Theorem put_exec_comm e1 e2 (E : gmap string Execution) :
  exec_key e1 = exec_key e2 → Unix e1.(Ex_FinishedAt) ≠ Unix e2.(Ex_FinishedAt) →
  put_exec e1 (put_exec e2 E) = put_exec e2 (put_exec e1 E).
Proof.
  intros Hk Hne. apply map_eq. intros k. rewrite !put_exec_lookup, Hk.
  case_decide; [|done]. rewrite !decide_True by done.
  destruct (E !! exec_key e2) as [old|]; f_equal;
    repeat (case_match; rewrite ?Z.ltb_lt, ?Z.ltb_ge in * ); try done; lia.
Qed.

(** ** Snapshots *)

Lemma Rep_union m1 m2 s1 s2 :
  Rep m1 s1 → Rep m2 s2 →
  Rep (m1 ∪ m2) (mkState (s1.(jobs) ∪ s2.(jobs)) (s1.(execs) ∪ s2.(execs))).
Proof.
  assert (∀ A (R : string → A → Prop) (x1 x2 : option string) (y1 y2 : option A),
    option_Forall2 R x1 y1 → option_Forall2 R x2 y2 →
    option_Forall2 R (union_with (λ x _, Some x) x1 x2) (union_with (λ y _, Some y) y1 y2)) as Hu.
  { intros A R x1 x2 y1 y2 [] []; simpl; by constructor. }
  intros H1 H2. split; simpl.
  - intros n. rewrite !lookup_union. apply Hu; [apply H1|apply H2].
  - intros k Hk. rewrite !lookup_union. apply Hu; [by apply H1|by apply H2].
  - intros k [e He%lookup_union_Some_raw].
    destruct He as [He|[_ He]]; [apply (rep_execs_dom _ _ H1)|apply (rep_execs_dom _ _ H2)];
      by eexists.
Qed.


(** ** Every run of the store *)

(** The operations that change the store. *)
Inductive op :=
  | OpSetJob (now : time) (job : Job) (copyDependentJobs : bool)
  | OpDeleteJob (now : time) (name : string)
  | OpSetExecution (e : Execution)
  | OpSetExecutionDone (e : Execution).

Definition run_op (o : op) : M db unit :=
  match o with
  | OpSetJob now job b => SetJob now job b
  | OpDeleteJob now name => DeleteJob now name ;;; retM tt
  | OpSetExecution e => SetExecution e ;;; retM tt
  | OpSetExecutionDone e => SetExecutionDone e ;;; retM tt
  end.

(** The executions that are offered can be stored; jobs are not restricted. *)
Definition op_ok (o : op) : Prop :=
  match o with
  | OpSetExecution e | OpSetExecutionDone e => exec_ok e
  | _ => True
  end.

Inductive store_step : db → db → Prop :=
  | store_step_op o d : op_ok o → store_step d (run_op o d).2.

Definition spec_op (o : op) : M state unit :=
  match o with
  | OpSetJob now job b => spec_SetJob now job b
  | OpDeleteJob now name => spec_DeleteJob name ;;; retM tt
  | OpSetExecution e => spec_SetExecution e ;;; retM tt
  | OpSetExecutionDone e => spec_SetExecutionDone e ;;; retM tt
  end.

Lemma implements_bind_ret {A} (p : M db A) q :
  implements p q → implements (p ;;; retM tt) (q ;;; retM tt).
Proof.
  intros Hp d s HH. destruct (Hp d s HH) as [H1 H2]. unfold bindM.
  destruct (p d) as [[]], (q s) as [[]]; simpl in *; by simplify_eq.
Qed.

Lemma run_op_implements o : op_ok o → implements (run_op o) (spec_op o).
Proof.
  destruct o; simpl; intros Hok.
  - apply SetJob_implements.
  - apply implements_bind_ret, DeleteJob_implements.
  - by apply implements_bind_ret, SetExecution_implements.
  - by apply implements_bind_ret, SetExecutionDone_implements.
Qed.

Lemma spec_update_parent_no_crash f p s w : (spec_update_parent f p s).1 ≠ Crash w.
Proof. unfold spec_update_parent. by repeat case_match. Qed.

Lemma spec_op_no_crash o s w : (spec_op o s).1 ≠ Crash w.
Proof.
  destruct o as [now job b|now name|e|e]; simpl.
  - unfold spec_SetJob. destruct (Validate job) eqn:Hv; [done|].
    apply Validate_spec in Hv. destruct (parent_missing s job); [done|].
    destruct (written_Valid now b (default Job_zero (jobs s !! Job_Name job)) job Hv)
      as (next & -> & _).
    destruct (decide (Job_ParentJob job = _)); [done|]. set (s1 := if decide _ then _ else s).
    unfold bindM. destruct (spec_update_parent _ _ s1) as [[] s2] eqn:E; [|done|].
    + apply spec_update_parent_no_crash.
    + pose proof (spec_update_parent_no_crash _ _ _ why ltac:(by rewrite E)). done.
  - unfold spec_DeleteJob, bindM, spec_delete. destruct (jobs s !! name); [|done].
    case_decide; [done|]. destruct (spec_update_parent _ _ _) as [[] s2] eqn:E; [done..|].
    pose proof (spec_update_parent_no_crash _ _ _ why ltac:(by rewrite E)). done.
  - done.
  - unfold bindM, spec_SetExecutionDone. by destruct (jobs s !! _).
Qed.

(** What the store has been through since it was empty. *)
Definition reached (d : db) : Prop := ∃ d0 : db, contents d0 = ∅ ∧ rtc store_step d0 d.

Lemma reached_holds (d : db) : reached d → ∃ s, Holds d s.
Proof.
  intros (d0 & Hd0 & Hsteps).
  assert (∃ s, Holds d0 s) as HH0.
  { exists (mkState ∅ ∅). unfold Holds. rewrite Hd0. apply Rep_empty. }
  clear Hd0. induction Hsteps as [|d1 d2 d3 [o' d1' Hok'] _ IH]; [done|]. apply IH.
  destruct HH0 as [s0 HH0]. exists (spec_op o' s0).2. by apply run_op_implements.
Qed.


End History.

(** ** Examples *)
Module HistoryExample.
Import Toy Example.

Definition exA : Execution := toy_exec "a" "node1" 10 20 true.
Definition exB : Execution := toy_exec "a" "node2" 12 20 false.
Lemma exA_ok : exec_ok exA.
Proof.
  split; [|reflexivity..]. refine (bool_decide_unpack _ _). vm_compute. exact I.
Qed.
Lemma exB_ok : exec_ok exB.
Proof.
  split; [|reflexivity..]. refine (bool_decide_unpack _ _). vm_compute. exact I.
Qed.

Definition d3 : toydb := (SetExecution exA d2).2.
Definition s3 : state := (spec_SetExecution exA s2).2.
Lemma holds3 : Holds d3 s3.
Proof. apply (SetExecution_implements exA exA_ok), holds2. Qed.

Lemma GetGroupedExecutions_spec_witness :
  (GetExecutions "a" d3).1 = Ok [exA] ∧ (GetLastExecutionGroup "a" d3).1 = Ok [exA].
Proof.
  assert ((GetExecutions "a" d3).1 = Ok [exA]) as E by (vm_compute; reflexivity).
  split; [exact E|].
  destruct (GetGroupedExecutions_spec "a" d3 [exA] E) as (gs & by_ & _ & _ & _ & _ & H).
  rewrite (H exA).
  - vm_compute. reflexivity.
  - left.
  - intros e' He'. inversion He' as [|? ? ? Hn]; subst; [reflexivity|inversion Hn].
Defined.

Lemma SetExecution_retention_witness :
  ∃ d' s', SetExecution exB d3 = (Ok (exec_key exB), d') ∧ Holds d' s' ∧
    length (listing (executionsDir "a") s'.(execs)) = 2%nat.
Proof.
  destruct (SetExecution_retention exB d3 s3 holds3 exB_ok) as (d' & s' & H1 & H2 & _ & H3 & _).
  exists d', s'. split; [exact H1|]. split; [exact H2|]. etransitivity; [exact H3|].
  vm_compute. reflexivity.
Defined.

Lemma SetExecutionDone_job_witness :
  ∃ j d', (GetJob "a" d3).1 = Ok j ∧ SetExecutionDone exB d3 = (Ok true, d') ∧
    (GetJob "a" d').1 = Ok (done_job exB StatusPartialyFailed j).
Proof.
  destruct ((GetJob "a" d3).1) as [j| |] eqn:E; [|vm_compute in E; discriminate..].
  destruct (SetExecutionDone_job exB d3 s3 j holds3 exB_ok E) as (d' & H1 & _ & H2 & _).
  assert (group_status "a" exB.(Ex_Group) (put_exec exB s3.(execs)) = StatusPartialyFailed) as Hst
    by (vm_compute; reflexivity).
  exists j, d'. split; [reflexivity|]. split; [exact H1|]. rewrite <- Hst. exact H2.
Defined.

Lemma SetExecutionDone_deleted_witness :
  (SetExecutionDone exA d0).1 = Err ErrExecutionDoneForDeletedJob.
Proof. apply (SetExecutionDone_deleted exA d0 s0 holds0 exA_ok). vm_compute. reflexivity. Defined.

Lemma put_exec_comm_witness :
  put_exec exA (put_exec (toy_exec "a" "node1" 10 30 false) ∅)
  = put_exec (toy_exec "a" "node1" 10 30 false) (put_exec exA ∅).
Proof. apply put_exec_comm; vm_compute; [reflexivity|discriminate]. Defined.



End HistoryExample.
