(* ===== verification/Ends.v ===== *)
(** * The order in which executions end

    The nodes that ran a job report its executions in any order.  Here it is shown that the
    order does not matter for the stored executions, the counters and the status of the job,
    and that it matters for the instants of its last success and its last error. *)
From Stdlib Require Import ZArith Lia Ascii.
From stdpp Require Import base list gmap strings.
From S2P Require Import Prelude GoStrings GoTime Pb NTime ExtCron Execution Job BuntDB.
From S2P Require Import Store StoreSim StoreSpec StoreRefine StoreExecs Instances StoreProps StoreHistory.

#[local] Open Scope Z_scope.

(** A job without what the ends of its executions overwrite: the instants of the last
    success and the last error, and the status. *)
Definition settled (last_success last_error : NullableTime) (status : string) (j : Job) : Job :=
  {| Job_Name := j.(Job_Name); Job_DisplayName := j.(Job_DisplayName);
     Job_Timezone := j.(Job_Timezone); Job_Schedule := j.(Job_Schedule);
     Job_Owner := j.(Job_Owner); Job_OwnerEmail := j.(Job_OwnerEmail);
     Job_SuccessCount := j.(Job_SuccessCount); Job_ErrorCount := j.(Job_ErrorCount);
     Job_LastSuccess := last_success; Job_LastError := last_error;
     Job_Disabled := j.(Job_Disabled); Job_Tags := j.(Job_Tags);
     Job_Metadata := j.(Job_Metadata); Job_Retries := j.(Job_Retries);
     Job_DependentJobs := j.(Job_DependentJobs); Job_ParentJob := j.(Job_ParentJob);
     Job_Processors := j.(Job_Processors); Job_Concurrency := j.(Job_Concurrency);
     Job_Executor := j.(Job_Executor); Job_ExecutorConfig := j.(Job_ExecutorConfig);
     Job_Status := status; Job_Next := j.(Job_Next) |}.
Definition plain : Job → Job := settled NullableTime_zero NullableTime_zero "".

Lemma settled_plain ls le st j1 j2 : plain j1 = plain j2 → Ok (settled ls le st j1) = Ok (settled ls le st j2).
Proof. intros H. change (Ok (settled ls le st (plain j1)) = Ok (settled ls le st (plain j2))). by rewrite H. Qed.

(** What two reports of the same execution are told apart by. *)
Definition stamp (e : Execution) : string * Z := (exec_key e, Unix e.(Ex_FinishedAt)).

Lemma put_exec_swap e1 e2 E :
  stamp e1 ≠ stamp e2 → put_exec e1 (put_exec e2 E) = put_exec e2 (put_exec e1 E).
Proof.
  unfold stamp. intros Hne. destruct (decide (exec_key e1 = exec_key e2)) as [Hk|Hk].
  - apply put_exec_comm; [done|]. intros Hu. apply Hne. by rewrite Hk, Hu.
  - apply map_eq. intros k. rewrite !put_exec_lookup.
    repeat case_decide; congruence.
Qed.

Section Ends.
Context {PT : Ptypes} {PB : Proto} {CP : CronParser} {UC : Unicode} {TZ : Locations} {SO : Sorting}.

(** ** States that differ in what the ends overwrite *)

Definition similar (σ1 σ2 : state) : Prop :=
  σ1.(execs) = σ2.(execs) ∧ plain <$> σ1.(jobs) = plain <$> σ2.(jobs).
#[export] Instance similar_equiv : Equivalence similar.
Proof. split; [by intros ?|by intros ?? []|]. intros ??? [? ?] [? ?]. split; by etrans. Qed.

Definition ended (e : Execution) (σ : state) : state := (spec_SetExecutionDone e σ).2.
Definition spec_ends (es : list Execution) (σ : state) : state := foldl (λ σ e, ended e σ) σ es.

Lemma plain_done_job e st1 st2 j1 j2 : plain j1 = plain j2 → plain (done_job e st1 j1) = plain (done_job e st2 j2).
Proof. destruct j1, j2. unfold plain, settled, done_job. cbn. intros [= -> -> -> -> -> -> -> -> -> -> -> -> -> -> -> -> -> -> ->]. done. Qed.

#[export] Instance ended_proper e : Proper (similar ==> similar) (ended e).
Proof.
  intros σ1 σ2 [HE HJ]. unfold ended, spec_SetExecutionDone.
  pose proof (f_equal (.!! Ex_JobName e) HJ) as Hn. rewrite !lookup_fmap in Hn.
  destruct (σ1.(jobs) !! Ex_JobName e) as [j1|], (σ2.(jobs) !! Ex_JobName e) as [j2|]; try done.
  split; cbn; [by rewrite HE|]. rewrite !fmap_insert, HJ. f_equal. apply plain_done_job. exact (inj Some _ _ Hn).
Qed.

Lemma ended_swap x y σ : stamp x ≠ stamp y → similar (ended x (ended y σ)) (ended y (ended x σ)).
Proof.
  intros Hne. unfold ended, spec_SetExecutionDone.
  destruct (decide (Ex_JobName x = Ex_JobName y)) as [Hn|Hn].
  - rewrite Hn. destruct (σ.(jobs) !! Ex_JobName y) as [j|] eqn:Ej; cbn [snd jobs execs].
    + rewrite !lookup_insert_eq. split; cbn; [by apply put_exec_swap|].
      rewrite !fmap_insert, !insert_insert_eq. f_equal. unfold plain, settled, done_job. cbn.
      by destruct (Ex_Success x), (Ex_Success y).
    + by rewrite Ej.
  - destruct (σ.(jobs) !! Ex_JobName y) as [jy|] eqn:Ey, (σ.(jobs) !! Ex_JobName x) as [jx|] eqn:Ex;
      cbn [snd jobs execs]; rewrite ?lookup_insert_ne, ?Ex, ?Ey by done; cbn [snd]; try reflexivity.
    split; cbn; [by apply put_exec_swap|]. rewrite !fmap_insert, insert_insert_ne by done.
    f_equal.
Qed.

#[export] Instance spec_ends_proper es : Proper (similar ==> similar) (spec_ends es).
Proof. induction es as [|e es IH]; intros σ1 σ2 HS; [done|]. apply IH. by rewrite HS. Qed.

Lemma spec_ends_permutation es es' σ :
  es ≡ₚ es' → NoDup (stamp <$> es) → similar (spec_ends es σ) (spec_ends es' σ).
Proof.
  intros HP. revert σ. induction HP as [|x l l' _ IH|x y l|l1 l2 l3 HP1 IH1 _ IH2]; intros σ Hn.
  - done.
  - apply IH. by apply NoDup_cons in Hn as [_ ?].
  - simpl in Hn. apply NoDup_cons in Hn as [Hxy _]. simpl. apply spec_ends_proper, ended_swap.
    intros E. apply Hxy. rewrite E. by left.
  - etrans; [by apply IH1|]. apply IH2. by rewrite <- HP1.
Qed.

(** ** The status *)

(** After ends of one group, the status of the job is the one of the group that is stored. *)
Lemma spec_ends_status n g es σ j :
  Forall (λ e, e.(Ex_JobName) = n ∧ e.(Ex_Group) = g) es → es ≠ [] → σ.(jobs) !! n = Some j →
  let σ' := spec_ends es σ in
  ∃ j', σ'.(jobs) !! n = Some j' ∧ j'.(Job_Status) = group_status n g σ'.(execs).
Proof.
  intros HF Hne. destruct (exists_last Hne) as (es0 & e & ->). clear Hne.
  apply Forall_app in HF as [HF He]. apply Forall_singleton in He as [Hn Hg]. intros Hj.
  assert (is_Some ((spec_ends es0 σ).(jobs) !! n)) as [j0 Hj0].
  { clear Hn Hg e. revert σ j Hj. induction HF as [|e es [Hn Hg] _ IH]; intros σ j Hj; [by eexists|]. simpl.
    eapply IH. unfold ended, spec_SetExecutionDone. rewrite Hn, Hj. simpl. by rewrite lookup_insert_eq. }
  unfold spec_ends in *. rewrite foldl_app. cbn [foldl]. unfold ended at 1 3, spec_SetExecutionDone.
  rewrite Hn, Hj0. cbn [snd jobs execs]. rewrite lookup_insert_eq. eexists. split; [done|]. cbn. by rewrite Hg.
Qed.

(** Ends of other jobs leave a job alone. *)
Lemma spec_ends_other n es σ m :
  Forall (λ e, e.(Ex_JobName) = n) es → m ≠ n → (spec_ends es σ).(jobs) !! m = σ.(jobs) !! m.
Proof.
  intros HF Hm. revert σ. induction HF as [|e es Hn _ IH]; intros σ; [done|]. simpl. rewrite IH.
  unfold ended, spec_SetExecutionDone. rewrite Hn. destruct (σ.(jobs) !! n); [|done]. simpl.
  by rewrite lookup_insert_ne.
Qed.

Lemma spec_ends_missing n es σ :
  Forall (λ e, e.(Ex_JobName) = n) es → σ.(jobs) !! n = None → spec_ends es σ = σ.
Proof.
  intros HF. revert σ. induction HF as [|e es Hn _ IH]; intros σ Hm; [done|]. simpl.
  unfold ended, spec_SetExecutionDone. rewrite Hn, Hm. by apply IH.
Qed.

(** ** The store *)

Context {db : Type} {BDB : BuntDB db}.

(** The ends of executions, as the state machine applies them. *)
Definition run_ends (es : list Execution) (d : db) : db :=
  foldl (λ d e, (SetExecutionDone e d).2) d es.

Lemma run_ends_holds es d σ : Forall exec_ok es → Holds d σ → Holds (run_ends es d) (spec_ends es σ).
Proof.
  intros HF. revert d σ. induction HF as [|e es He _ IH]; intros d σ HH; [done|]. simpl. apply IH.
  by apply SetExecutionDone_implements.
Qed.

(** What is read of a job, without the instants of its last success and last error. *)
Definition seen (r : res Job) : res Job :=
  match r with Ok j => Ok (settled NullableTime_zero NullableTime_zero j.(Job_Status) j) | _ => r end.

(** C15: the order in which the executions of a group are reported does not matter: the
    executions that are stored, the counters and the status of the job, and every other job
    are the same; only the instants of the last success and the last error depend on it. *)
Theorem order_of_ends n g es es' (d : db) σ :
  Holds d σ → has_byte ":"%char n = false → Forall exec_ok es →
  Forall (λ e, e.(Ex_JobName) = n ∧ e.(Ex_Group) = g) es → NoDup (stamp <$> es) → es ≡ₚ es' →
  (GetExecutions n (run_ends es d)).1 = (GetExecutions n (run_ends es' d)).1 ∧
  ∀ m, seen (GetJob m (run_ends es d)).1 = seen (GetJob m (run_ends es' d)).1.
Proof.
  intros HH Hc Hok HF Hnd HP. assert (Forall exec_ok es') as Hok' by by rewrite <- HP.
  assert (Forall (λ e, e.(Ex_JobName) = n ∧ e.(Ex_Group) = g) es') as HF' by by rewrite <- HP.
  assert (Forall (λ e, e.(Ex_JobName) = n) es) as Hj by (eapply Forall_impl; [exact HF|by intros ? []]).
  assert (Forall (λ e, e.(Ex_JobName) = n) es') as Hj' by by rewrite <- HP.
  pose proof (run_ends_holds es d σ Hok HH) as H1. pose proof (run_ends_holds es' d σ Hok' HH) as H2.
  destruct (spec_ends_permutation es es' σ HP Hnd) as [HE HJ]. split.
  { rewrite (proj1 (GetExecutions_implements n Hc _ _ H1)), (proj1 (GetExecutions_implements n Hc _ _ H2)).
    simpl. unfold spec_GetExecutions. by rewrite HE. }
  intros m. rewrite (GetJob_value _ _ _ H1), (GetJob_value _ _ _ H2). unfold spec_GetJob.
  pose proof (f_equal (.!! m) HJ) as Hm. rewrite !lookup_fmap in Hm.
  destruct (decide (m = n)) as [->|Hne].
  - destruct (σ.(jobs) !! n) as [j|] eqn:Hjn.
    + destruct (decide (es = [])) as [->|Hes]; [by apply Permutation_nil_l in HP as <-|].
      assert (es' ≠ []) as Hes' by (intros ->; by apply Permutation_nil_r in HP).
      destruct (spec_ends_status n g es σ j HF Hes Hjn) as (j1 & E1 & S1).
      destruct (spec_ends_status n g es' σ j HF' Hes' Hjn) as (j2 & E2 & S2).
      rewrite E1, E2 in *. apply (inj Some) in Hm. cbn [seen]. rewrite S1, S2, HE. by apply settled_plain.
    + by rewrite !(spec_ends_missing n).
  - by rewrite !(spec_ends_other n).
Qed.
End Ends.

(** ** Examples *)
Module EndsExample.
Import Toy Example HistoryExample.

(** Three ends of the job [a]: the second node finishes first. *)
Definition early : Execution := toy_exec "a" "node1" 10 15 true.
Definition late : Execution := toy_exec "a" "node2" 10 20 true.
Definition bad : Execution := toy_exec "a" "node3" 10 18 false.

Ltac proper := split; [refine (bool_decide_unpack _ _); vm_compute; exact I|reflexivity..].

Lemma order_of_ends_witness :
  (GetExecutions "a" (run_ends [early; late; bad] d2)).1 = (GetExecutions "a" (run_ends [bad; early; late] d2)).1 ∧
  seen (GetJob "a" (run_ends [early; late; bad] d2)).1 = seen (GetJob "a" (run_ends [bad; early; late] d2)).1.
Proof.
  destruct (order_of_ends "a" 1 [early; late; bad] [bad; early; late] d2 s2) as [H1 H2].
  - exact holds2.
  - reflexivity.
  - apply Forall_cons_2; [proper|]. apply Forall_cons_2; [proper|]. apply Forall_cons_2; [proper|constructor].
  - repeat constructor.
  - refine (bool_decide_unpack _ _). vm_compute. exact I.
  - refine (Permutation_app_comm [early; late] [bad]).
  - split; [exact H1|exact (H2 "a")].
Defined.

(** An execution that finished earlier and is reported later takes the last success of the
    job back. *)
Theorem last_success_goes_back :
  (match (GetJob "a" (run_ends [early; late] d2)).1 with
   | Ok j => j.(Job_LastSuccess) = mkNullableTime true late.(Ex_FinishedAt) | _ => False end) ∧
  (match (GetJob "a" (run_ends [late; early] d2)).1 with
   | Ok j => j.(Job_LastSuccess) = mkNullableTime true early.(Ex_FinishedAt) | _ => False end) ∧
  early.(Ex_FinishedAt) < late.(Ex_FinishedAt).
Proof. split_and!; vm_compute; reflexivity. Qed.
End EndsExample.
