(* ===== verification/Scheduler.v ===== *)
(** * [dkron/scheduler.go]: the scheduler

    The scheduler keeps a cron engine and a map from job names to the engine's
    entry ids.  The engine is [robfig/cron/v3], an interface here: its entries are
    numbered, [AddJob] gives a number that no current entry has, [Remove] drops
    the entry with a number.  A scheduler whose engine is nil crashes when it is
    used. *)
From Stdlib Require Import ZArith Lia.
From stdpp Require Import base list gmap strings.
From S2P Require Import Prelude GoStrings GoTime Pb NTime ExtCron Execution Job Instances.

#[local] Open Scope Z_scope.

(** [cron.Entry], as far as the scheduler reads it. *)
Record Entry := mkEntry { Entry_ID : Z; Entry_Job : Job; Entry_Next : time }.

(** An entry by its id and job. *)
Definition id_job (e : Entry) : Z * Job := (e.(Entry_ID), e.(Entry_Job)).

Class CronEngine {CP : CronParser} := {
  cron : Type;
  cron_New : cron;
  cron_AddJob : string → Job → M cron Z;
  cron_Remove : Z → cron → cron;
  cron_Entries : cron → list Entry;
  cron_Start : cron → cron;
  cron_Stop : cron → cron;
  cron_Entries_New : cron_Entries cron_New = [];
  (** a spec that does not parse is refused *)
  cron_AddJob_Err spec j c e :
    ExtParser_Parse spec = Err e → cron_AddJob spec j c = (Err e, c);
  (** the new entry has an id of its own, the others stay *)
  cron_AddJob_Ok spec j c s :
    ExtParser_Parse spec = Ok s →
    ∃ id c', cron_AddJob spec j c = (Ok id, c') ∧
      (id ∉ Entry_ID <$> cron_Entries c) ∧
      (id_job <$> cron_Entries c') ≡ₚ ((id, j) :: (id_job <$> cron_Entries c));
  cron_Remove_entries id c :
    (id_job <$> cron_Entries (cron_Remove id c))
      ≡ₚ filter (λ x : Z * Job, x.1 ≠ id)
           (id_job <$> cron_Entries c);
  cron_Start_entries c :
    (id_job <$> cron_Entries (cron_Start c))
      ≡ₚ (id_job <$> cron_Entries c);
  cron_Stop_entries c :
    (id_job <$> cron_Entries (cron_Stop c))
      ≡ₚ (id_job <$> cron_Entries c)
}.

Section Scheduler.
Context {CP : CronParser} {CE : CronEngine}.

(** [type Scheduler struct]; [Cron] is a pointer. *)
Record Scheduler := mkScheduler {
  Cron : option cron;
  Started : bool;
  EntryJobMap : gmap string Z
}.

Definition NewScheduler : Scheduler := mkScheduler None false ∅.

(** A method call on a nil engine. *)
Definition nil_cron {A} : M Scheduler A := crashM "nil pointer dereference".

(** [RemoveJob(job)] *)
Definition RemoveJob (job : Job) : M Scheduler unit := λ s,
  match s.(EntryJobMap) !! job.(Job_Name) with
  | Some v =>
      match s.(Cron) with
      | Some c =>
          (Ok tt, mkScheduler (Some (cron_Remove v c)) s.(Started)
                    (delete job.(Job_Name) s.(EntryJobMap)))
      | None => nil_cron s
      end
  | None => (Ok tt, s)
  end.

(** The schedule handed to the engine: the time zone of the job goes in front,
    unless the schedule has one or is a descriptor. *)
Definition cron_spec (job : Job) : string :=
  if bool_decide (job.(Job_Timezone) ≠ "")
     && negb (HasPrefix job.(Job_Schedule) "@")
     && negb (HasPrefix job.(Job_Schedule) "TZ=")
     && negb (HasPrefix job.(Job_Schedule) "CRON_TZ=")
  then "CRON_TZ=" +:+ job.(Job_Timezone) +:+ " " +:+ job.(Job_Schedule)
  else job.(Job_Schedule).

(** [AddJob(job)] *)
Definition AddJob (job : Job) : M Scheduler unit :=
  s <- getM ;;
  (if decide (is_Some (s.(EntryJobMap) !! job.(Job_Name))) then RemoveJob job else retM tt) ;;;
  if job.(Job_Disabled) || bool_decide (job.(Job_ParentJob) ≠ "") then retM tt
  else λ s,
    match s.(Cron) with
    | None => nil_cron s
    | Some c =>
        match cron_AddJob (cron_spec job) job c with
        | (Ok id, c') =>
            (Ok tt, mkScheduler (Some c') s.(Started) (<[job.(Job_Name) := id]> s.(EntryJobMap)))
        | (Err e, c') => (Err e, mkScheduler (Some c') s.(Started) s.(EntryJobMap))
        | (Crash w, c') => (Crash w, s)
        end
    end.

(** [for _, job := range jobs { s.AddJob(job) }]: the errors are dropped. *)
Fixpoint AddJobs (jobs : list Job) : M Scheduler unit :=
  match jobs with
  | [] => retM tt
  | job :: jobs' => tryM (AddJob job) ;;; AddJobs jobs'
  end.

(** [Start(jobs, agent)]: a new engine, the jobs, and go. *)
Definition Start (jobs : list Job) : M Scheduler unit := λ s,
  (AddJobs jobs ;;;
   (λ s, match s.(Cron) with
         | Some c => (Ok tt, mkScheduler (Some (cron_Start c)) true s.(EntryJobMap))
         | None => nil_cron s
         end)) (mkScheduler (Some cron_New) s.(Started) s.(EntryJobMap)).

(** [Stop()] *)
Definition Stop : M Scheduler unit := λ s,
  if s.(Started) then
    match s.(Cron) with
    | Some c => (Ok tt, mkScheduler (Some (cron_Stop c)) false s.(EntryJobMap))
    | None => nil_cron s
    end
  else (Ok tt, s).

(** [ClearCron()] and [Restart(jobs, agent)] *)
Definition ClearCron : M Scheduler unit := λ s,
  (Ok tt, mkScheduler None s.(Started) s.(EntryJobMap)).

Definition Restart (jobs : list Job) : M Scheduler unit :=
  Stop ;;; ClearCron ;;; Start jobs.

(** [GetEntry(jobName)] *)
Definition GetEntry (jobName : string) (s : Scheduler) : res (option Entry) :=
  match s.(Cron) with
  | None => Crash "nil pointer dereference"
  | Some c => Ok (List.find (λ e, bool_decide (e.(Entry_Job).(Job_Name) = jobName)) (cron_Entries c))
  end.

(** ** What is scheduled *)

Definition ejobs (c : cron) : list (Z * Job) :=
  id_job <$> cron_Entries c.

(** The map and the engine agree: the map has exactly the entries of the engine,
    each under the name of its job, and no two entries share an id. *)
Record agrees (c : cron) (names : gmap string Z) : Prop := {
  ag_nodup : NoDup (ejobs c).*1;
  ag_map n id : names !! n = Some id ↔ ∃ j, (id, j) ∈ ejobs c ∧ j.(Job_Name) = n
}.

(** A job that the scheduler is to run by itself. *)
Definition schedulable (job : Job) : Prop :=
  job.(Job_Disabled) = false ∧ job.(Job_ParentJob) = "" ∧
  ∃ s, ExtParser_Parse (cron_spec job) = Ok s.

Lemma agrees_unique c names id1 id2 j1 j2 :
  agrees c names → (id1, j1) ∈ ejobs c → (id2, j2) ∈ ejobs c →
  j1.(Job_Name) = j2.(Job_Name) → id1 = id2 ∧ j1 = j2.
Proof.
  intros [Hn Hm] H1 H2 E.
  assert (names !! j1.(Job_Name) = Some id1) as E1 by (apply Hm; eauto).
  assert (names !! j1.(Job_Name) = Some id2) as E2 by (rewrite E; apply Hm; eauto).
  assert (id1 = id2) as -> by congruence. split; [done|]. by eapply nodup_fst_inj.
Qed.

Lemma agrees_new : agrees cron_New ∅.
Proof.
  split; unfold ejobs; rewrite cron_Entries_New; [constructor|].
  intros n id. rewrite lookup_empty. set_solver.
Qed.

Lemma agrees_perm c c' names : ejobs c' ≡ₚ ejobs c → agrees c names → agrees c' names.
Proof.
  intros HP [Hn Hm]. split; [by rewrite HP|]. intros n id. rewrite Hm. by setoid_rewrite HP.
Qed.

Lemma ejobs_remove id c x : x ∈ ejobs (cron_Remove id c) ↔ x.1 ≠ id ∧ x ∈ ejobs c.
Proof. unfold ejobs. by rewrite cron_Remove_entries, list_elem_of_filter. Qed.

Lemma agrees_remove c names n id :
  agrees c names → names !! n = Some id → agrees (cron_Remove id c) (delete n names).
Proof.
  intros Ha Hid. pose proof Ha as [Hn Hm]. split.
  - unfold ejobs. rewrite cron_Remove_entries. fold (ejobs c).
    revert Hn. generalize (ejobs c). intros l. induction l as [|x l IH]; [done|].
    rewrite fmap_cons, NoDup_cons, filter_cons. intros [Hx Hl]. case_decide; [|by apply IH].
    rewrite fmap_cons. constructor; [|by apply IH]. intros Hin. apply Hx.
    apply list_elem_of_fmap in Hin as (y & -> & [_ Hy]%list_elem_of_filter).
    apply list_elem_of_fmap. eauto.
  - intros n' id'. rewrite lookup_delete_Some, Hm. setoid_rewrite ejobs_remove. simpl.
    split.
    + intros (Hne & j & Hj & Hnj). exists j. split_and!; [|done..]. intros ->.
      apply Hm in Hid as (j' & Hj' & Hn').
      assert (j = j') as -> by by eapply nodup_fst_inj. congruence.
    + intros (j & (Hne & Hj) & Hnj). split; [|by exists j]. intros ->.
      apply Hm in Hid as (j' & Hj' & Hn').
      destruct (agrees_unique c names id' id j j' Ha Hj Hj') as [-> _]; congruence.
Qed.

Lemma agrees_add c c' names id job :
  agrees c names → names !! job.(Job_Name) = None → id ∉ (Entry_ID <$> cron_Entries c) →
  ejobs c' ≡ₚ (id, job) :: ejobs c → agrees c' (<[job.(Job_Name) := id]> names).
Proof.
  intros [Hn Hm] Hnone Hid HP. split.
  - rewrite HP, fmap_cons. constructor; [|done]. unfold ejobs.
    rewrite <- list_fmap_compose. exact Hid.
  - intros n id'. setoid_rewrite HP. setoid_rewrite elem_of_cons.
    destruct (decide (job.(Job_Name) = n)) as [<-|Hne].
    + rewrite lookup_insert_eq. split; [naive_solver|].
      intros (j & [?|Hj] & E); [naive_solver|].
      assert (names !! job.(Job_Name) = Some id') by (apply Hm; eauto). congruence.
    + rewrite lookup_insert_ne, Hm by done. naive_solver.
Qed.

(** Removing a job: its entry goes, if it has one. *)
Lemma RemoveJob_run job c s :
  s.(Cron) = Some c → agrees c s.(EntryJobMap) →
  ∃ c', RemoveJob job s
        = (Ok tt, mkScheduler (Some c') s.(Started) (delete job.(Job_Name) s.(EntryJobMap))) ∧
    agrees c' (delete job.(Job_Name) s.(EntryJobMap)) ∧
    (∀ id j, (id, j) ∈ ejobs c' ↔ (id, j) ∈ ejobs c ∧ j.(Job_Name) ≠ job.(Job_Name)).
Proof.
  intros Hc Ha. unfold RemoveJob. destruct (EntryJobMap s !! Job_Name job) as [v|] eqn:E.
  - rewrite Hc. eexists. split; [done|]. split; [by apply agrees_remove|].
    intros id j. rewrite ejobs_remove. simpl. pose proof (proj1 (ag_map _ _ Ha _ _) E) as (j' & Hj' & En).
    split.
    + intros [Hne Hj]. split; [done|]. intros En'.
      destruct (agrees_unique _ _ _ _ _ _ Ha Hj Hj') as [-> _]; congruence.
    + intros [Hj Hne]. split; [|done]. intros ->. apply Hne.
      assert (j = j') as -> by (eapply nodup_fst_inj; [apply Ha|done..]). done.
  - exists c. rewrite delete_id by done. split_and!; [by destruct s; simpl in *; subst|done|].
    intros id j. split; [|naive_solver]. intros Hj. split; [done|]. intros En.
    assert (EntryJobMap s !! Job_Name job = Some id) by (apply Ha; eauto). congruence.
Qed.

Lemma AddJob_run job c s :
  s.(Cron) = Some c → agrees c s.(EntryJobMap) →
  ∃ r c' names', AddJob job s = (r, mkScheduler (Some c') s.(Started) names') ∧
    agrees c' names' ∧
    (∀ id j, j.(Job_Name) ≠ job.(Job_Name) → (id, j) ∈ ejobs c' ↔ (id, j) ∈ ejobs c) ∧
    (schedulable job → r = Ok tt ∧ ∃ id, ∀ id' j,
      (id', j) ∈ ejobs c' ∧ j.(Job_Name) = job.(Job_Name) ↔ id' = id ∧ j = job) ∧
    (¬ schedulable job → ∀ id j, (id, j) ∈ ejobs c' → j.(Job_Name) ≠ job.(Job_Name)) ∧
    (r = Ok tt ∨ ∃ e, r = Err e ∧ job.(Job_Disabled) = false ∧ job.(Job_ParentJob) = "" ∧
       ExtParser_Parse (cron_spec job) = Err e).
Proof.
  intros Hc Ha. destruct (RemoveJob_run job c s Hc Ha) as (c1 & Hrm & Ha1 & Hj1).
  set (names1 := delete job.(Job_Name) s.(EntryJobMap)) in *.
  assert (names1 !! job.(Job_Name) = None) as Hnone by apply lookup_delete_eq.
  assert (∃ b, (if decide (is_Some (s.(EntryJobMap) !! job.(Job_Name))) then RemoveJob job else retM tt) s
               = (Ok tt, mkScheduler (Some b) s.(Started) names1) ∧ agrees b names1 ∧
               (∀ id j, (id, j) ∈ ejobs b ↔ (id, j) ∈ ejobs c ∧ j.(Job_Name) ≠ job.(Job_Name)))
    as (c2 & Hif & Ha2 & Hj2).
  { destruct (decide (is_Some _)) as [|Hn]; [by exists c1|]. unfold RemoveJob in Hrm.
    apply eq_None_not_Some in Hn. rewrite Hn in Hrm. exists c1. by rewrite <- Hrm. }
  unfold AddJob, bindM at 1, getM. unfold bindM. rewrite Hif. unfold schedulable.
  destruct (Job_Disabled job || bool_decide (Job_ParentJob job ≠ "")) eqn:Hskip.
  - do 3 eexists. split; [done|]. split_and!; [done|naive_solver| |naive_solver|by left].
    intros (Hd & Hp & _). rewrite Hd, bool_decide_false in Hskip by naive_solver. done.
  - apply orb_false_iff in Hskip as [Hd Hp%bool_decide_eq_false]. apply dec_stable in Hp.
    simpl. destruct (ExtParser_Parse (cron_spec job)) as [sp|e|w] eqn:Hparse;
      [| |by apply ExtParser_Parse_no_crash in Hparse].
    + destruct (cron_AddJob_Ok _ job c2 _ Hparse) as (id & c3 & -> & Hid & HP).
      fold (ejobs c3) (ejobs c2) in HP. do 3 eexists. split; [done|].
      split_and!; [by eapply agrees_add| | |naive_solver|by left].
      * intros id' j Hne. rewrite HP, elem_of_cons, Hj2. naive_solver.
      * intros _. split; [done|]. exists id. intros id' j. rewrite HP, elem_of_cons, Hj2.
        naive_solver.
    + rewrite (cron_AddJob_Err _ job c2 _ Hparse). do 3 eexists. split; [done|].
      split_and!; [done|naive_solver|naive_solver|naive_solver|right; eauto].
Qed.


#[export] Instance schedulable_dec job : Decision (schedulable job).
Proof.
  unfold schedulable. destruct (ExtParser_Parse (cron_spec job)) as [s| |] eqn:E.
  - destruct (decide (job.(Job_Disabled) = false ∧ job.(Job_ParentJob) = "")).
    + left. naive_solver.
    + right. naive_solver.
  - right. naive_solver.
  - right. naive_solver.
Defined.

(** A job has an entry. *)
Definition scheduled (c : cron) (j : Job) : Prop := ∃ id, (id, j) ∈ ejobs c.

Lemma AddJob_scheduled job c s :
  s.(Cron) = Some c → agrees c s.(EntryJobMap) →
  ∃ r c' names', AddJob job s = (r, mkScheduler (Some c') s.(Started) names') ∧
    (∀ w, r ≠ Crash w) ∧ agrees c' names' ∧
    (∀ j, scheduled c' j ↔
      (j = job ∧ schedulable job) ∨ (scheduled c j ∧ j.(Job_Name) ≠ job.(Job_Name))).
Proof.
  intros Hc Ha. destruct (AddJob_run job c s Hc Ha) as (r & c' & names' & Hrun & Ha' & Ho & Hs & Hns & Hr).
  exists r, c', names'. split_and!; [done|naive_solver|done|]. intros j. unfold scheduled.
  destruct (decide (j.(Job_Name) = job.(Job_Name))) as [En|En].
  - destruct (decide (schedulable job)) as [Hsch|Hsch].
    + destruct (Hs Hsch) as (_ & id & Hid). split.
      * intros [id' Hj]. left. split; [|done]. by apply (Hid id' j).
      * intros [[-> _]|[_ ?]]; [|done]. exists id. by apply Hid.
    + split; [|naive_solver]. intros [id Hj]. by destruct (Hns Hsch id j Hj).
  - setoid_rewrite Ho; [|done]. naive_solver.
Qed.

Lemma AddJobs_run jobs c s :
  s.(Cron) = Some c → agrees c s.(EntryJobMap) → NoDup (Job_Name <$> jobs) →
  ∃ c' names', AddJobs jobs s = (Ok tt, mkScheduler (Some c') s.(Started) names') ∧
    agrees c' names' ∧
    (∀ j, scheduled c' j ↔
      (j ∈ jobs ∧ schedulable j) ∨ (scheduled c j ∧ j.(Job_Name) ∉ (Job_Name <$> jobs))).
Proof.
  revert c s. induction jobs as [|job jobs IH]; intros c s Hc Ha Hn.
  { exists c, s.(EntryJobMap). split_and!; [by destruct s; simpl in *; subst|done|]. set_solver. }
  rewrite fmap_cons in Hn. apply NoDup_cons in Hn as [Hjob Hn].
  destruct (AddJob_scheduled job c s Hc Ha) as (r & c1 & names1 & Hrun & Hr & Ha1 & Hs1).
  destruct (IH c1 (mkScheduler (Some c1) s.(Started) names1) eq_refl Ha1 Hn)
    as (c2 & names2 & Hrun2 & Ha2 & Hs2).
  exists c2, names2. split_and!; [|done|].
  - cbn [AddJobs]. unfold bindM, tryM. rewrite Hrun. destruct r; [done..|by destruct (Hr why)].
  - intros j. rewrite Hs2, Hs1, fmap_cons, !elem_of_cons. split.
    + intros [?|[[[-> ?]|[? ?]] ?]]; [naive_solver..|]. naive_solver.
    + naive_solver.
Qed.

(** A scheduler that has no entry on record (as a new one) and is started with
    the stored jobs schedules exactly the enabled jobs without a parent whose
    schedule parses, each once, and records each of them. *)
Theorem Start_spec jobs s :
  s.(EntryJobMap) = ∅ → NoDup (Job_Name <$> jobs) →
  ∃ c names, Start jobs s = (Ok tt, mkScheduler (Some c) true names) ∧ agrees c names ∧
    ∀ j, scheduled c j ↔ j ∈ jobs ∧ schedulable j.
Proof.
  intros He Hn.
  destruct (AddJobs_run jobs cron_New (mkScheduler (Some cron_New) s.(Started) s.(EntryJobMap)))
    as (c & names & Hrun & Ha & Hs); [done|rewrite He; apply agrees_new|done|].
  exists (cron_Start c), names. unfold Start, bindM. rewrite Hrun. split; [done|].
  assert (ejobs (cron_Start c) ≡ₚ ejobs c) as HP by apply cron_Start_entries.
  split; [by eapply agrees_perm|]. intros j. unfold scheduled. setoid_rewrite HP.
  fold (scheduled c j). rewrite Hs. unfold scheduled, ejobs. rewrite cron_Entries_New. set_solver.
Qed.

(** After [RemoveJob] no entry of the job is left, every other entry is, and the
    map agrees with the engine. *)
Theorem RemoveJob_spec job c s :
  s.(Cron) = Some c → agrees c s.(EntryJobMap) →
  ∃ c' names', RemoveJob job s = (Ok tt, mkScheduler (Some c') s.(Started) names') ∧
    agrees c' names' ∧ names' !! job.(Job_Name) = None ∧
    (∀ j, scheduled c' j ↔ scheduled c j ∧ j.(Job_Name) ≠ job.(Job_Name)).
Proof.
  intros Hc Ha. destruct (RemoveJob_run job c s Hc Ha) as (c' & Hrun & Ha' & Hj).
  do 2 eexists. split; [done|]. split_and!; [done|apply lookup_delete_eq|].
  intros j. unfold scheduled. setoid_rewrite Hj. naive_solver.
Qed.
End Scheduler.

(** ** Examples: an engine that numbers its entries from one *)
Module SchedulerExample.
Import Toy.

Record toy_cron := mkToyCron { tc_next : Z; tc_entries : list Entry }.

(** Entries never have a number above the counter. *)
Definition toy_Entries (c : toy_cron) : list Entry :=
  filter (λ e, e.(Entry_ID) ≤ c.(tc_next)) c.(tc_entries).
Definition toy_AddJob (spec : string) (j : Job) : M toy_cron Z := λ c,
  match ExtParser_Parse spec with
  | Ok s => let id := c.(tc_next) + 1 in
            (Ok id, mkToyCron id (mkEntry id j (Schedule_Next s 0) :: toy_Entries c))
  | Err e => (Err e, c)
  | Crash w => (Crash w, c)
  end.
Definition toy_Remove (id : Z) (c : toy_cron) : toy_cron :=
  mkToyCron c.(tc_next) (filter (λ e, e.(Entry_ID) ≠ id) (toy_Entries c)).

#[export] Instance ToyEngine : CronEngine (CP:=ToyCron).
Proof.
  refine {|
    cron := toy_cron; cron_New := mkToyCron 0 []; cron_AddJob := toy_AddJob;
    cron_Remove := toy_Remove; cron_Entries := toy_Entries;
    cron_Start := id; cron_Stop := id |}; try done.
  - intros spec j c e E. unfold toy_AddJob. by rewrite E.
  - intros spec j c s E. unfold toy_AddJob. rewrite E. do 2 eexists. split; [done|]. split.
    + intros (e & Hid & [He _]%list_elem_of_filter)%list_elem_of_fmap. lia.
    + unfold toy_Entries at 1. cbn [tc_entries tc_next].
      rewrite filter_all; [done|]. intros e [->|[He _]%list_elem_of_filter]%elem_of_cons; simpl; lia.
  - intros id c. unfold toy_Entries at 1, toy_Remove. simpl. rewrite filter_all.
    + induction (toy_Entries c) as [|e l IH]; [done|]. rewrite fmap_cons, !filter_cons. simpl.
      case_decide; [|done]. rewrite fmap_cons. by apply Permutation_skip.
    + intros e [_ [He _]%list_elem_of_filter]%list_elem_of_filter. done.
Defined.

Definition jobA : Job := toy_job "a" "@every 1m" "".
Definition jobB : Job := toy_job "b" "@every 1m" "".
Definition sched0 : Scheduler := (Start [] NewScheduler).2.


Lemma Start_spec_witness :
  ∃ c names, Start [jobA; jobB] NewScheduler = (Ok tt, mkScheduler (Some c) true names) ∧
    scheduled c jobB.
Proof.
  destruct (Start_spec [jobA; jobB] NewScheduler) as (c & names & H1 & _ & H2).
  - reflexivity.
  - refine (bool_decide_unpack _ _). vm_compute. exact I.
  - exists c, names. split; [exact H1|]. apply H2. split; [right; left|].
    refine (bool_decide_unpack _ _). vm_compute. exact I.
Defined.

Lemma RemoveJob_spec_witness :
  ∃ c' names', RemoveJob jobA sched0 = (Ok tt, mkScheduler (Some c') true names') ∧
    names' !! "a" = None.
Proof.
  destruct (RemoveJob_spec jobA (cron_New (CronEngine:=ToyEngine)) sched0)
    as (c' & names' & H1 & _ & H2 & _).
  - reflexivity.
  - apply agrees_new.
  - exists c', names'. split; [exact H1|exact H2].
Defined.

(** A scheduler that is started again (as when a server loses and regains
    leadership) keeps the ids of its former engine in the map.  With an engine that
    numbers its entries from one, jobs created in another order than that of their
    names are then dropped: after [b] and [a] are added, a stop and a start with the
    stored jobs [a; b] removes the fresh entry of [a] when [b] is added; [a] is not
    scheduled any more, although it is enabled and valid and the map still lists
    it. *)
Theorem restart_drops_jobs :
  let s1 := (AddJob jobA (AddJob jobB sched0).2).2 in
  let s2 := (Start [jobA; jobB] (Stop s1).2).2 in
  schedulable jobA ∧ schedulable jobB ∧
  (match GetEntry "a" s1 with Ok (Some e) => e.(Entry_Job) = jobA | _ => False end) ∧
  (match GetEntry "b" s2 with Ok (Some e) => e.(Entry_Job) = jobB | _ => False end) ∧
  GetEntry "a" s2 = Ok None ∧ s2.(EntryJobMap) !! "a" = Some 1.
Proof.
  intros s1 s2. split; [refine (bool_decide_unpack _ _); vm_compute; exact I|].
  split; [refine (bool_decide_unpack _ _); vm_compute; exact I|].
  split_and!; vm_compute; reflexivity.
Qed.
End SchedulerExample.
