(* ===== verification/JobTree.v ===== *)
(** * The restore of a backup: [generateJobTree] and [recursiveSetJob]

    [generateJobTree] (job.go) turns the flat list of a backup into trees: the jobs
    with a parent are moved, one after the other, under their parent's
    [ChildJobs].  [recursiveSetJob] (agent.go) then creates the jobs of the trees,
    parents first.  The [ChildJobs] pointers are modelled as the trees they form:
    every job of the list is a pointer of its own, so a job sits in one place of the
    forest. *)
From Stdlib Require Import ZArith Lia.
From stdpp Require Import base list gmap strings.
From S2P Require Import Prelude GoStrings GoTime Pb NTime ExtCron Execution Job Instances.

#[local] Set Warnings "-register-all".

(** A job with its [ChildJobs]. *)
Inductive tree := Node (job : Job) (kids : list tree).

Definition root (t : tree) : Job := let 'Node j _ := t in j.
Definition ChildJobs (t : tree) : list tree := let 'Node _ ks := t in ks.

(** All the jobs of a forest, parents before children. *)
Fixpoint flatten (t : tree) : list Job :=
  let 'Node j ks := t in j :: concat (map flatten ks).
Definition jobs_of (ts : list tree) : list Job := concat (map flatten ts).

(** [findParentJobInChildJobs(jobs, job)]: the forest with [c] put under the first
    job, in depth-first order, that it names as its parent. *)
Fixpoint findParentJobInChildJobs (c : tree) (t : tree) : option tree :=
  let 'Node j ks := t in
  if bool_decide ((root c).(Job_ParentJob) = j.(Job_Name)) then Some (Node j (ks ++ [c]))
  else
    match (fix in_list (l : list tree) : option (list tree) :=
      match l with
      | [] => None
      | t' :: l' =>
          match findParentJobInChildJobs c t' with
          | Some t'' => Some (t'' :: l')
          | None => match in_list l' with Some l'' => Some (t' :: l'') | None => None end
          end
      end) ks with
    | Some ks' => Some (Node j ks')
    | None => None
    end.

Section JobTree.
Context {CP : CronParser} {UC : Unicode} {TZ : Locations}.

(** The loop of [findParentJobAndValidateJob] over the top-level jobs: those with
    the name of the child are passed over. *)
Fixpoint attach (c : tree) (ts : list tree) : option (list tree) :=
  match ts with
  | [] => None
  | t :: ts' =>
      if bool_decide ((root t).(Job_Name) = (root c).(Job_Name)) then cons t <$> attach c ts'
      else
        match findParentJobInChildJobs c t with
        | Some t' => Some (t' :: ts')
        | None => cons t <$> attach c ts'
        end
  end.

Definition findParentJobAndValidateJob (jobs : list tree) (index : nat) :
    res (list tree * bool) :=
  match jobs !! index with
  | None => Crash "index out of range"
  | Some childJob =>
      match Validate (root childJob) with
      | Some err => Err err
      | None =>
          if decide ((root childJob).(Job_ParentJob) = "") then Ok (jobs, true)
          else
            match attach childJob jobs with
            | Some jobs' => Ok (delete index jobs', false)
            | None => Err ErrNoParent
            end
      end
  end.

(** The loop of [generateJobTree]: [n] rounds, the next job at index [j]. *)
Fixpoint generate_loop (n : nat) (j : nat) (jobs : list tree) : res (list tree) :=
  match n with
  | O => Ok jobs
  | S n' =>
      r <-? findParentJobAndValidateJob jobs j ;;
      let '(rejobs, isTopParentNodeFlag) := (r : list tree * bool) in
      generate_loop n' (if isTopParentNodeFlag then S j else j) rejobs
  end.

Definition generateJobTree (jobs : list tree) : res (list tree) :=
  generate_loop (length jobs) 0 jobs.
End JobTree.

(** ** Trees *)

Section tree_ind.
Context (P : tree → Prop) (HN : ∀ j ks, Forall P ks → P (Node j ks)).
Fixpoint tree_ind' (t : tree) : P t :=
  match t with
  | Node j ks =>
      HN j ks ((fix go (l : list tree) : Forall P l :=
                  match l with
                  | [] => Forall_nil_2 P
                  | t' :: l' => Forall_cons_2 P t' l' (tree_ind' t') (go l')
                  end) ks)
  end.
End tree_ind.

(** Every child names its parent. *)
Inductive tree_ok : tree → Prop :=
  | tree_ok_node j ks :
      Forall (λ k, (root k).(Job_ParentJob) = j.(Job_Name) ∧ tree_ok k) ks → tree_ok (Node j ks).

Lemma jobs_of_cons t ts : jobs_of (t :: ts) = flatten t ++ jobs_of ts.
Proof. done. Qed.
Lemma jobs_of_app ts1 ts2 : jobs_of (ts1 ++ ts2) = jobs_of ts1 ++ jobs_of ts2.
Proof. unfold jobs_of. by rewrite map_app, concat_app. Qed.

Lemma flatten_node j ks : flatten (Node j ks) = j :: jobs_of ks.
Proof. done. Qed.

(** The inner loop, as a function of its own. *)
Fixpoint find_in_list (c : tree) (l : list tree) : option (list tree) :=
  match l with
  | [] => None
  | t :: l' =>
      match findParentJobInChildJobs c t with
      | Some t' => Some (t' :: l')
      | None => match find_in_list c l' with Some l'' => Some (t :: l'') | None => None end
      end
  end.

Lemma find_node c j ks :
  findParentJobInChildJobs c (Node j ks) =
    if bool_decide ((root c).(Job_ParentJob) = j.(Job_Name)) then Some (Node j (ks ++ [c]))
    else Node j <$> find_in_list c ks.
Proof.
  simpl. case_bool_decide; [done|].
  assert (∀ l, (fix in_list (l : list tree) : option (list tree) :=
      match l with
      | [] => None
      | t' :: l' =>
          match findParentJobInChildJobs c t' with
          | Some t'' => Some (t'' :: l')
          | None => match in_list l' with Some l'' => Some (t' :: l'') | None => None end
          end
      end) l = find_in_list c l) as ->.
  { induction l as [|t l IH]; [done|]. simpl. by rewrite IH. }
  by destruct (find_in_list c ks).
Qed.

Lemma find_root c t t' : findParentJobInChildJobs c t = Some t' → root t' = root t.
Proof.
  destruct t as [j ks]. rewrite find_node. case_bool_decide; [by intros [= <-]|].
  destruct (find_in_list c ks); [by intros [= <-]|done].
Qed.

(** Putting a tree under a parent keeps all jobs and the links. *)
Lemma find_spec c t t' :
  findParentJobInChildJobs c t = Some t' →
  flatten t' ≡ₚ flatten t ++ flatten c ∧ (tree_ok c → tree_ok t → tree_ok t').
Proof.
  revert t'. induction t as [j ks IH] using tree_ind'. intros t'. rewrite find_node.
  case_bool_decide as Hp.
  - intros [= <-]. split.
    + rewrite !flatten_node, jobs_of_app. unfold jobs_of at 2. simpl.
      by rewrite (right_id_L [] (++)).
    + intros Hc Ht. inversion Ht; subst. constructor. apply Forall_app. split; [done|].
      by repeat constructor.
  - destruct (find_in_list c ks) as [ks'|] eqn:Ef; [|done]. intros [= <-].
    assert (jobs_of ks' ≡ₚ jobs_of ks ++ flatten c ∧
      ∀ n, tree_ok c → Forall (λ k, (root k).(Job_ParentJob) = n ∧ tree_ok k) ks →
           Forall (λ k, (root k).(Job_ParentJob) = n ∧ tree_ok k) ks') as [Hj Hok].
    { clear Hp. revert ks' Ef. induction IH as [|k l Hk _ IHl]; intros ks' Ef; [done|].
      simpl in Ef. destruct (findParentJobInChildJobs c k) as [k'|] eqn:Ek.
      - injection Ef as <-. destruct (Hk _ eq_refl) as [HP Hok]. split.
        + rewrite !jobs_of_cons, HP. rewrite <- !(assoc_L (++)). f_equiv. apply Permutation_app_comm.
        + intros n Hc [[? ?] ?]%Forall_cons. apply Forall_cons.
          rewrite (find_root _ _ _ Ek). auto.
      - destruct (find_in_list c l) as [l'|]; [|done]. injection Ef as <-.
        destruct (IHl l' eq_refl) as [HP Hok]. split.
        + rewrite !jobs_of_cons, HP. by rewrite (assoc_L (++)).
        + intros n Hc [? ?]%Forall_cons. apply Forall_cons. auto. }
    split; [by rewrite !flatten_node, Hj|]. intros Hc Ht. inversion Ht; subst. constructor. auto.
Qed.

(** ** The loop *)

Section Sound.
Context {CP : CronParser} {UC : Unicode} {TZ : Locations}.

(** The links hold and every job but the root was validated. *)
Definition subtree_ok (t : tree) : Prop := tree_ok t ∧ Forall Valid (jobs_of (ChildJobs t)).

Lemma find_kids c t t' :
  findParentJobInChildJobs c t = Some t' →
  jobs_of (ChildJobs t') ≡ₚ jobs_of (ChildJobs t) ++ flatten c.
Proof.
  intros Hf. pose proof (find_root _ _ _ Hf) as Hr. destruct (find_spec _ _ _ Hf) as [HP _].
  destruct t as [j ks], t' as [j' ks']. simpl in Hr. subst j'. rewrite !flatten_node in HP.
  simpl in *. by apply (Permutation_cons_inv (a := j)).
Qed.

Lemma subtree_ok_find c t t' :
  findParentJobInChildJobs c t = Some t' → Valid (root c) → subtree_ok c → subtree_ok t →
  subtree_ok t'.
Proof.
  intros Hf Hv [Hc1 Hc2] [Ht1 Ht2]. split; [by eapply find_spec|].
  rewrite (find_kids _ _ _ Hf). apply Forall_app. split; [done|].
  destruct c. rewrite flatten_node. by constructor.
Qed.

Lemma attach_spec c ts ts' :
  attach c ts = Some ts' →
  jobs_of ts' ≡ₚ jobs_of ts ++ flatten c ∧
  root <$> ts' = root <$> ts ∧
  (Valid (root c) → subtree_ok c → Forall subtree_ok ts → Forall subtree_ok ts') ∧
  (∀ i t, ts !! i = Some t → (root t).(Job_Name) = (root c).(Job_Name) → ts' !! i = Some t).
Proof.
  revert ts'. induction ts as [|t ts IH]; intros ts' Ha; [done|]. simpl in Ha.
  assert (cons t <$> attach c ts = Some ts' →
    jobs_of ts' ≡ₚ jobs_of (t :: ts) ++ flatten c ∧ root <$> ts' = root <$> t :: ts ∧
    (Valid (root c) → subtree_ok c → Forall subtree_ok (t :: ts) → Forall subtree_ok ts') ∧
    (∀ i t0, (t :: ts) !! i = Some t0 → (root t0).(Job_Name) = (root c).(Job_Name) →
      ts' !! i = Some t0)) as Hskip.
  { destruct (attach c ts) as [ts1|]; [|done]. intros [= <-].
    destruct (IH ts1 eq_refl) as (H1 & H2 & H3 & H4). split_and!.
    - rewrite !jobs_of_cons, H1. by rewrite (assoc_L (++)).
    - by rewrite !fmap_cons, H2.
    - intros ? ? [? ?]%Forall_cons. apply Forall_cons. auto.
    - intros [|i] t0; [done|]. apply H4. }
  case_bool_decide as Hn; [by apply Hskip|].
  destruct (findParentJobInChildJobs c t) as [t'|] eqn:Ef; [|by apply Hskip].
  injection Ha as <-. split_and!.
  - rewrite !jobs_of_cons, (proj1 (find_spec _ _ _ Ef)), <- !(assoc_L (++)). f_equiv.
    apply Permutation_app_comm.
  - by rewrite !fmap_cons, (find_root _ _ _ Ef).
  - intros ? ? [? ?]%Forall_cons. apply Forall_cons. split; [|done]. by eapply subtree_ok_find.
  - intros [|i] t0; [|done]. intros [= ->]. done.
Qed.

(** One round: a root is left in place, any other job is moved; none is lost. *)
Lemma find_validate_spec ts i c :
  ts !! i = Some c → Forall subtree_ok ts →
  match findParentJobAndValidateJob ts i with
  | Ok (ts', true) => ts' = ts ∧ (root c).(Job_ParentJob) = "" ∧ Valid (root c)
  | Ok (ts', false) =>
      jobs_of ts' ≡ₚ jobs_of ts ∧ Forall subtree_ok ts' ∧ S (length ts') = length ts ∧
      take i (root <$> ts') = take i (root <$> ts)
  | Err e => Validate (root c) = Some e ∨
             (e = ErrNoParent ∧ (root c).(Job_ParentJob) ≠ "" ∧ attach c ts = None)
  | Crash _ => False
  end.
Proof.
  intros Hi Hok. unfold findParentJobAndValidateJob. rewrite Hi.
  destruct (Validate (root c)) as [e|] eqn:Hv; [by left|]. apply Validate_spec in Hv.
  case_decide; [done|]. destruct (attach c ts) as [ts1|] eqn:Ha; [|by right].
  destruct (attach_spec _ _ _ Ha) as (HP & Hr & Hsub & Hsame).
  pose proof (Hsame i c Hi eq_refl) as Hi1.
  assert (subtree_ok c) as Hc by (rewrite Forall_forall in Hok; by eapply Hok, list_elem_of_lookup_2).
  assert (length ts1 = length ts) as Hlen
    by (rewrite <- (length_fmap root ts1), Hr; by rewrite length_fmap).
  apply delete_Permutation in Hi1 as Hdel. split_and!.
  - assert (jobs_of ts1 ≡ₚ flatten c ++ jobs_of (delete i ts1)) as HP'.
    { rewrite <- jobs_of_cons. unfold jobs_of. by rewrite Hdel at 1. }
    rewrite HP' in HP. rewrite (Permutation_app_comm (flatten c)) in HP.
    by apply Permutation_app_inv_r in HP.
  - specialize (Hsub Hv Hc Hok). rewrite Hdel in Hsub. by apply Forall_cons in Hsub as [_ ?].
  - rewrite <- Hlen. by apply Permutation_length in Hdel.
  - rewrite <- Hr, <- !fmap_take. f_equal. apply list_eq. intros k.
    destruct (decide (k < i)).
    + rewrite !lookup_take_lt by done. by rewrite list_lookup_delete_lt.
    + by rewrite !lookup_take_ge by lia.
Qed.

Lemma generate_loop_spec n j ts :
  n + j = length ts → Forall subtree_ok ts →
  Forall (λ r, r.(Job_ParentJob) = "" ∧ Valid r) (take j (root <$> ts)) →
  match generate_loop n j ts with
  | Ok ts' => jobs_of ts' ≡ₚ jobs_of ts ∧ Forall subtree_ok ts' ∧
              Forall (λ r, r.(Job_ParentJob) = "" ∧ Valid r) (root <$> ts')
  | Err e => (∃ job, job ∈ jobs_of ts ∧ Validate job = Some e) ∨ e = ErrNoParent
  | Crash _ => False
  end.
Proof.
  revert j ts. induction n as [|n IH]; intros j ts Hn Hok Hroots; simpl.
  { split_and!; [done..|]. by rewrite take_ge in Hroots by (rewrite length_fmap; lia). }
  destruct (lookup_lt_is_Some_2 ts j ltac:(lia)) as [c Hc].
  pose proof (find_validate_spec ts j c Hc Hok) as Hf.
  destruct (findParentJobAndValidateJob ts j) as [[ts' []]|e|w]; simpl; [| | |done].
  - destruct Hf as (-> & Hp & Hv). apply IH; [lia|done|].
    rewrite (take_S_r _ _ (root c)) by by rewrite list_lookup_fmap, Hc.
    apply Forall_app. split; [done|]. by apply Forall_singleton.
  - destruct Hf as (HP & Hok' & Hlen & Htake).
    specialize (IH j ts' ltac:(lia) Hok' ltac:(by rewrite Htake)).
    destruct (generate_loop n j ts') as [ts2|e|w]; [by rewrite <- HP| |done].
    destruct IH as [(job & Hj & He)|]; [|by right]. left. exists job. by rewrite <- HP.
  - destruct Hf as [Hv|[-> _]]; [|by right]. left. exists (root c). split; [|done].
    unfold jobs_of. rewrite <- (take_drop_middle ts j c Hc), map_app, concat_app. simpl.
    apply elem_of_app. right. apply elem_of_app. left. destruct c. set_solver.
Qed.

Definition leaf (j : Job) : tree := Node j [].

Lemma jobs_of_leaves jobs : jobs_of (leaf <$> jobs) = jobs.
Proof. induction jobs as [|j jobs IH]; [done|]. rewrite fmap_cons, jobs_of_cons, IH. done. Qed.

Lemma leaves_ok jobs : Forall subtree_ok (leaf <$> jobs).
Proof. apply Forall_fmap, Forall_true. intros j. split; repeat constructor. Qed.

(** The result of [generateJobTree] on the flat list. *)
Lemma generateJobTree_result jobs :
  match generateJobTree (leaf <$> jobs) with
  | Ok ts => jobs_of ts ≡ₚ jobs ∧ Forall Valid jobs ∧
             Forall (λ t, (root t).(Job_ParentJob) = "" ∧ tree_ok t) ts
  | Err e => (∃ job, job ∈ jobs ∧ Validate job = Some e) ∨ e = ErrNoParent
  | Crash _ => False
  end.
Proof.
  unfold generateJobTree.
  pose proof (generate_loop_spec (length (leaf <$> jobs)) 0 (leaf <$> jobs)) as H.
  specialize (H ltac:(lia) (leaves_ok jobs) ltac:(constructor)).
  rewrite jobs_of_leaves in H. destruct (generate_loop _ _ _) as [ts|e|w]; [|done..].
  destruct H as (HP & Hok & Hr). split; [done|]. rewrite Forall_fmap in Hr. split.
  - rewrite <- HP. clear HP. induction ts as [|[j ks] ts IH]; [constructor|].
    apply Forall_cons in Hok as [[_ Hk] Hok], Hr as [[_ Hv] Hr].
    rewrite jobs_of_cons, flatten_node. apply Forall_app. split; [by constructor|]. by apply IH.
  - rewrite Forall_forall in Hok, Hr |- *. intros t Ht.
    destruct (Hok t Ht), (Hr t Ht). done.
Qed.

(** C24: the trees of a backup.  [generateJobTree] never goes out of range.  When it
    succeeds, the trees hold exactly the jobs of the backup, each once, all of them
    valid; the top-level jobs have no parent, and every other job sits right under
    the job it names as its parent.  When it fails, it is with the error of an
    invalid job or with [ErrNoParent]. *)
Theorem generateJobTree_sound jobs :
  match generateJobTree (leaf <$> jobs) with
  | Ok ts => jobs_of ts ≡ₚ jobs ∧ Forall Valid jobs ∧
             Forall (λ t, (root t).(Job_ParentJob) = "" ∧ tree_ok t) ts
  | Err e => (∃ job, job ∈ jobs ∧ Validate job = Some e) ∨ e = ErrNoParent
  | Crash _ => False
  end.
Proof. exact (generateJobTree_result jobs). Qed.

(** ** When it succeeds *)

Lemma elem_of_jobs_of j ts : j ∈ jobs_of ts ↔ ∃ t, t ∈ ts ∧ j ∈ flatten t.
Proof.
  induction ts as [|t ts IH]; [set_solver|]. rewrite jobs_of_cons, elem_of_app, IH. set_solver.
Qed.

Lemma root_elem t : root t ∈ flatten t.
Proof. destruct t. set_solver. Qed.

Lemma find_complete c t j :
  j ∈ flatten t → j.(Job_Name) = (root c).(Job_ParentJob) →
  is_Some (findParentJobInChildJobs c t).
Proof.
  induction t as [j0 ks IH] using tree_ind'. rewrite flatten_node, find_node.
  intros Hj Hn. case_bool_decide as Hp; [by eexists|].
  apply elem_of_cons in Hj as [->|Hj]; [congruence|].
  apply elem_of_jobs_of in Hj as (t & Ht & Hj).
  assert (is_Some (find_in_list c ks)) as [ks' ->]; [|by eexists].
  induction IH as [|k l Hk _ IHl]; [set_solver|]. simpl.
  destruct (findParentJobInChildJobs c k) eqn:Ek; [by eexists|].
  apply elem_of_cons in Ht as [->|Ht].
  - destruct (Hk Hj Hn) as [? ?]. congruence.
  - destruct (IHl Ht) as [l' ->]. by eexists.
Qed.

Lemma attach_complete c ts t j :
  t ∈ ts → (root t).(Job_Name) ≠ (root c).(Job_Name) →
  j ∈ flatten t → j.(Job_Name) = (root c).(Job_ParentJob) → is_Some (attach c ts).
Proof.
  intros Ht Hne Hj Hn. induction ts as [|t' ts IH]; [set_solver|]. simpl.
  apply elem_of_cons in Ht as [<-|Ht].
  - rewrite bool_decide_false by done. destruct (find_complete c t j Hj Hn) as [? ->]. by eexists.
  - destruct (IH Ht) as [ts' ->]. repeat case_match; by eexists.
Qed.

(** No job names an ancestor among its own descendants: a rank goes up with depth. *)
Lemma rank_flatten rank t :
  tree_ok t →
  (∀ j, j ∈ flatten t → j.(Job_Name) ≠ "" ∧
    (j.(Job_ParentJob) ≠ "" → rank j.(Job_ParentJob) < rank j.(Job_Name))) →
  ∀ j, j ∈ flatten t → rank (root t).(Job_Name) ≤ rank j.(Job_Name).
Proof.
  induction t as [j0 ks IH] using tree_ind'. intros Hok Hr j. rewrite flatten_node in *.
  inversion Hok as [? ? Hks]; subst. rewrite Forall_forall in IH, Hks.
  intros [->|(t & Ht & Hj)%elem_of_jobs_of]%elem_of_cons; [done|]. simpl.
  assert (∀ j, j ∈ flatten t → j ∈ j0 :: jobs_of ks) as Hsub.
  { intros j' Hj'. apply elem_of_cons. right. apply elem_of_jobs_of. eauto. }
  destruct (Hks t Ht) as [Hp Htok].
  specialize (IH t Ht Htok (λ j Hj, Hr j (Hsub j Hj)) j Hj).
  destruct (Hr (root t) (Hsub _ (root_elem t))) as [_ Hlt]. rewrite Hp in Hlt.
  destruct (Hr j0 ltac:(set_solver)) as [Hne _]. specialize (Hlt Hne). lia.
Qed.

(** Two trees of a forest without duplicate names have different roots. *)
Lemma same_tree ts i k t c :
  NoDup (Job_Name <$> jobs_of ts) → ts !! k = Some t → ts !! i = Some c →
  (root t).(Job_Name) = (root c).(Job_Name) → k = i.
Proof.
  revert i k. induction ts as [|t0 ts IH]; intros i k Hn Hk Hi E; [done|].
  rewrite jobs_of_cons, fmap_app, NoDup_app in Hn. destruct Hn as (_ & Hd & Hn).
  assert (∀ m t', ts !! m = Some t' → (root t').(Job_Name) ≠ (root t0).(Job_Name)) as Hne.
  { intros m t' Hm E'. apply (Hd (root t0).(Job_Name)).
    - apply list_elem_of_fmap. eauto using root_elem.
    - apply list_elem_of_fmap. exists (root t'). split; [done|]. apply elem_of_jobs_of.
      eauto using root_elem, list_elem_of_lookup_2. }
  destruct k as [|k], i as [|i]; simpl in *; simplify_eq; [done|..].
  - by destruct (Hne _ _ Hi).
  - by destruct (Hne _ _ Hk).
  - f_equal. by apply (IH i k).
Qed.

Section Complete.
Context (jobs : list Job) (rank : string → nat).
Context (Hvalid : Forall Valid jobs) (Hnames : NoDup (Job_Name <$> jobs)).
Context (Hparents : ∀ j, j ∈ jobs → j.(Job_ParentJob) ≠ "" →
  j.(Job_ParentJob) ∈ (Job_Name <$> jobs) ∧ rank j.(Job_ParentJob) < rank j.(Job_Name)).

Lemma attach_not_None ts i c :
  jobs_of ts ≡ₚ jobs → Forall subtree_ok ts → ts !! i = Some c →
  (root c).(Job_ParentJob) ≠ "" → attach c ts ≠ None.
Proof using All.
  intros HP Hok Hi Hp Ha.
  assert (root c ∈ jobs) as Hc.
  { rewrite <- HP. apply elem_of_jobs_of. exists c. split; [by eapply list_elem_of_lookup_2|].
    apply root_elem. }
  destruct (Hparents _ Hc Hp) as [Hin Hrank].
  apply list_elem_of_fmap in Hin as (pj & Hpn & Hpj). rewrite <- HP in Hpj.
  apply elem_of_jobs_of in Hpj as (t & Ht & Hpj).
  assert (is_Some (attach c ts)) as [? ?]; [|congruence].
  apply (attach_complete c ts t pj); [done| |done|done]. intros Hsame.
  assert (t = c) as ->.
  { apply list_elem_of_lookup in Ht as [k Hk].
    assert (k = i) as ->; [|congruence]. eapply (same_tree ts); eauto. by rewrite HP. }
  rewrite Forall_forall in Hok. pose proof (proj1 (Forall_forall _ _) Hvalid) as Hval.
  assert (subtree_ok c) as [Hcok _] by (eapply Hok, list_elem_of_lookup_2; eauto).
  pose proof (rank_flatten rank c Hcok) as Hr.
  assert (∀ j, j ∈ flatten c → j ∈ jobs) as Hsub.
  { intros j Hj. rewrite <- HP. apply elem_of_jobs_of. exists c. eauto using list_elem_of_lookup_2. }
  specialize (Hr (λ j Hj, conj (valid_name _ (Hval j (Hsub j Hj)))
    (λ Hne, proj2 (Hparents j (Hsub j Hj) Hne))) pj Hpj).
  rewrite <- Hpn in Hr. lia.
Qed.

Lemma generate_loop_complete n j ts :
  n + j = length ts → jobs_of ts ≡ₚ jobs → Forall subtree_ok ts →
  ∃ ts', generate_loop n j ts = Ok ts'.
Proof using All.
  revert j ts. induction n as [|n IH]; intros j ts Hn HP Hok; simpl; [by eexists|].
  destruct (lookup_lt_is_Some_2 ts j ltac:(lia)) as [c Hc].
  pose proof (find_validate_spec ts j c Hc Hok) as Hf.
  destruct (findParentJobAndValidateJob ts j) as [[ts' []]|e|w]; simpl; [| | |done].
  - destruct Hf as (-> & _). apply IH; [lia|done..].
  - destruct Hf as (HP' & Hok' & Hlen & _). apply IH; [lia|by rewrite HP'|done].
  - exfalso. destruct Hf as [Hv|(_ & Hp & Ha)]; [|by eapply attach_not_None].
    assert (root c ∈ jobs) as Hin.
    { rewrite <- HP. apply elem_of_jobs_of. exists c.
      eauto using root_elem, list_elem_of_lookup_2. }
    pose proof (proj1 (Forall_forall _ _) Hvalid _ Hin) as Hval.
    apply Validate_spec in Hval. congruence.
Qed.
End Complete.

(** A proper backup is accepted: when all jobs are valid, no two share a name,
    every parent that is named is in the backup and no job is its own ancestor (a
    rank exists that goes up from parent to child), [generateJobTree] succeeds. *)
Theorem generateJobTree_complete jobs (rank : string → nat) :
  Forall Valid jobs → NoDup (Job_Name <$> jobs) →
  (∀ j, j ∈ jobs → j.(Job_ParentJob) ≠ "" →
    j.(Job_ParentJob) ∈ (Job_Name <$> jobs) ∧ rank j.(Job_ParentJob) < rank j.(Job_Name)) →
  ∃ ts, generateJobTree (leaf <$> jobs) = Ok ts.
Proof.
  intros Hv Hn Hp. unfold generateJobTree.
  apply (generate_loop_complete jobs rank); [done..|lia|by rewrite jobs_of_leaves|].
  apply leaves_ok.
Qed.
End Sound.

(** ** [recursiveSetJob] *)

Section Restore.
Context {S : Type} (SetJob : Job → M S unit).

(** [(a *Agent) recursiveSetJob(jobs)], with [a.GRPCClient.SetJob] as a program over
    the state of the cluster; an error is reported and the children are skipped. *)
Fixpoint recursiveSetJob_one (t : tree) : M S (list string) :=
  let 'Node job kids := t in
  r <- tryM (SetJob job) ;;
  match r with
  | inr _ => retM ["fail create " +:+ job.(Job_Name)]
  | inl _ =>
      rs <- (fix all (l : list tree) : M S (list string) :=
               match l with
               | [] => retM []
               | k :: l' => r1 <- recursiveSetJob_one k ;; r2 <- all l' ;; retM (r1 ++ r2)
               end) kids ;;
      retM (("success create " +:+ job.(Job_Name)) :: rs)
  end.

Fixpoint recursiveSetJob (jobs : list tree) : M S (list string) :=
  match jobs with
  | [] => retM []
  | t :: jobs' =>
      r1 <- recursiveSetJob_one t ;; r2 <- recursiveSetJob jobs' ;; retM (r1 ++ r2)
  end.

Lemma recursiveSetJob_node job kids s :
  recursiveSetJob_one (Node job kids) s =
    (r <- tryM (SetJob job) ;;
     match r with
     | inr _ => retM ["fail create " +:+ job.(Job_Name)]
     | inl _ => rs <- recursiveSetJob kids ;; retM (("success create " +:+ job.(Job_Name)) :: rs)
     end) s.
Proof.
  simpl. apply bindM_ext; [done|]. intros [?|?] s'; [|done]. apply bindM_ext; [|done].
  revert s'. induction kids as [|k l IH]; intros s'; [done|]. cbn [recursiveSetJob].
  apply bindM_ext; [done|]. intros r1 s1. by apply bindM_ext.
Qed.
End Restore.

(** ** Parents are created first *)

Section Order.
Context {S : Type} (SetJob : Job → M S unit) (Hnc : ∀ j s w, (SetJob j s).1 ≠ Crash w).

(** [SetJob] with a record of its calls and whether each succeeded. *)
Definition logged (job : Job) : M (S * list (Job * bool)) unit := λ '(s, l),
  match SetJob job s with
  | (Ok _, s') => (Ok tt, (s', l ++ [(job, true)]))
  | (Err e, s') => (Err e, (s', l ++ [(job, false)]))
  | (Crash w, s') => (Crash w, (s', l))
  end.

(** The parent of a job was created before. *)
Definition parent_created (l : list (Job * bool)) (j : Job) : Prop :=
  j.(Job_ParentJob) = "" ∨ ∃ p, (p, true) ∈ l ∧ p.(Job_Name) = j.(Job_ParentJob).

(** A record in which no job is tried before its parent was created. *)
Inductive ordered : list (Job * bool) → Prop :=
  | ordered_nil : ordered []
  | ordered_snoc l j b : ordered l → parent_created l j → ordered (l ++ [(j, b)]).

Definition line (c : Job * bool) : string :=
  (if c.2 then "success create " else "fail create ") +:+ c.1.(Job_Name).

Definition runs (m : M (S * list (Job * bool)) (list string)) (l : list (Job * bool)) : Prop :=
  ∀ s, ∃ s' calls, m (s, l) = (Ok (line <$> calls), (s', l ++ calls)) ∧ ordered (l ++ calls).

Lemma parent_created_app l l' j : parent_created l j → parent_created (l ++ l') j.
Proof. intros [|(p & Hp & E)]; [by left|right]. exists p. split; [|done]. set_solver. Qed.

Lemma runs_list kids l :
  ordered l →
  Forall (λ k, ∀ l, ordered l → parent_created l (root k) → runs (recursiveSetJob_one logged k) l) kids →
  Forall (λ k, parent_created l (root k)) kids → runs (recursiveSetJob logged kids) l.
Proof.
  intros Hl Hk Hp. revert l Hl Hp. induction Hk as [|k kids Hk _ IH]; intros l Hl Hp s.
  { exists s, []. by rewrite (right_id_L [] (++)). }
  apply Forall_cons in Hp as [Hpk Hp]. destruct (Hk l Hl Hpk s) as (s1 & c1 & E1 & Ho1).
  destruct (IH (l ++ c1) Ho1) with (s := s1) as (s2 & c2 & E2 & Ho2).
  { eapply Forall_impl; [done|]. intros k' Hk'. by apply parent_created_app. }
  exists s2, (c1 ++ c2). cbn [recursiveSetJob]. unfold bindM. rewrite E1, E2.
  rewrite fmap_app, (assoc_L (++)). done.
Qed.

Lemma runs_tree t l :
  tree_ok t → ordered l → parent_created l (root t) → runs (recursiveSetJob_one logged t) l.
Proof using Hnc.
  revert l. induction t as [job kids IH] using tree_ind'. intros l Hok Hl Hp s.
  inversion Hok as [? ? Hks]; subst. rewrite recursiveSetJob_node.
  unfold bindM at 1, tryM, logged at 1. pose proof (Hnc job s) as Hc.
  destruct (SetJob job s) as [[[]|e|w] s1]; [| |by destruct (Hc w)].
  - destruct (runs_list kids (l ++ [(job, true)])) with (s := s1) as (s2 & calls & E & Ho).
    + by constructor.
    + rewrite Forall_forall in IH, Hks |- *. intros k Hk l' Hl' Hpk.
      by apply IH; [|apply Hks|..].
    + eapply Forall_impl; [exact Hks|]. intros k [Hk _]. right. exists job.
      split; [set_solver|done].
    + exists s2, ((job, true) :: calls). unfold bindM. rewrite E.
      rewrite <- (assoc_L (++)) in *. done.
  - exists s1, [(job, false)]. split; [done|]. by constructor.
Qed.

(** C25: the restore creates parents before children.  Run on the trees that
    [generateJobTree] made, with a [SetJob] that may fail but returns,
    [recursiveSetJob] returns one line per call in the order of the calls, and it
    never tries to create a job before the job it names as its parent was created
    successfully. *)
Theorem recursiveSetJob_order ts s :
  Forall (λ t, (root t).(Job_ParentJob) = "" ∧ tree_ok t) ts →
  ∃ s' calls, recursiveSetJob logged ts (s, []) = (Ok (line <$> calls), (s', calls)) ∧
    ordered calls.
Proof using Hnc.
  intros Hts. destruct (runs_list ts []) with (s := s) as (s' & calls & E & Ho).
  - constructor.
  - eapply Forall_impl; [exact Hts|]. intros t [_ Ht] l. by apply runs_tree.
  - eapply Forall_impl; [exact Hts|]. intros t [Ht _]. by left.
  - by exists s', calls.
Qed.
End Order.

(** ** Examples *)
Module JobTreeExample.
Import Toy.

Definition backup : list Job :=
  [toy_job "c" "" "b"; toy_job "b" "" "a"; toy_job "a" "@every 1m" ""].

Definition backup_rank (n : string) : nat :=
  if decide (n = "a") then 0 else if decide (n = "b") then 1 else 2.

Lemma backup_parents :
  Forall (λ j, j.(Job_ParentJob) = "" ∨ j.(Job_ParentJob) ∈ (Job_Name <$> backup) ∧
    backup_rank j.(Job_ParentJob) < backup_rank j.(Job_Name)) backup.
Proof. refine (bool_decide_unpack _ _). vm_compute. exact I. Qed.

Lemma generateJobTree_complete_witness :
  ∃ ts, generateJobTree (leaf <$> backup) = Ok ts.
Proof.
  apply (generateJobTree_complete backup backup_rank).
  - repeat constructor; apply Validate_spec; vm_compute; reflexivity.
  - refine (bool_decide_unpack _ _). vm_compute. exact I.
  - intros j Hj Hp. destruct (proj1 (Forall_forall _ _) backup_parents j Hj) as [H|H].
    + destruct (Hp H).
    + exact H.
Defined.

(** A cluster that refuses the job [b]: its child is not tried. *)
Definition refuse_b (j : Job) : M unit unit :=
  if decide (j.(Job_Name) = "b") then errM ErrNotLeader else retM tt.

Definition backup_trees : list tree :=
  [Node (toy_job "a" "@every 1m" "") [Node (toy_job "b" "" "a") [leaf (toy_job "c" "" "b")]]].

Example backup_report :
  generateJobTree (leaf <$> backup) = Ok backup_trees ∧
  (recursiveSetJob refuse_b backup_trees tt).1 = Ok ["success create a"; "fail create b"].
Proof. split; vm_compute; reflexivity. Qed.

Lemma recursiveSetJob_order_witness :
  ∃ s' calls, recursiveSetJob (logged refuse_b) backup_trees (tt, [])
              = (Ok (line <$> calls), (s', calls)) ∧ ordered calls.
Proof.
  apply (recursiveSetJob_order refuse_b).
  - intros j s w. unfold refuse_b. destruct (decide (Job_Name j = "b")); discriminate.
  - repeat constructor.
Defined.
End JobTreeExample.
