(* ===== verification/Fsm.v ===== *)
(** * [dkron/fsm.go]: the replicated state machine

    The raft log holds commands: a type byte followed by an encoded message.
    [Apply] decodes a command and calls the store; every server of the cluster
    applies the same commands in the same order.  The enterprise appliers are an
    argument. *)
From Stdlib Require Import ZArith Lia Ascii.
From stdpp Require Import base list gmap strings sorting relations.
From S2P Require Import Prelude GoStrings GoTime Pb NTime ExtCron Execution Job BuntDB Store.
From S2P Require Import StoreSim StoreSpec StoreRefine StoreExecs Instances StoreProps StoreHistory.

#[local] Open Scope Z_scope.

(** [type MessageType uint8] and its constants. *)
Definition SetJobType : Z := 0.
Definition DeleteJobType : Z := 1.
Definition SetExecutionType : Z := 2.
Definition DeleteExecutionsType : Z := 3.
Definition ExecutionDoneType : Z := 4.

(** What [Apply] returns, an [interface{}]: nil, an error, a job, a key, or whatever
    an enterprise applier returned. *)
Inductive response :=
  | RespNil
  | RespErr (e : error)
  | RespJob (j : Job)
  | RespKey (key : string)
  | RespPro (tag : string).

(** [MessageType(buf[0])] *)
Definition type_byte (t : Z) : ascii := ascii_of_N (Z.to_N t).

(** [Encode(t, msg)], of [grpc.go] *)
Definition Encode {A} `{!Codec A} (t : Z) (msg : A) : res string :=
  m <-? Marshal msg ;; Ok (String (type_byte t) m).

Section Fsm.
Context {db : Type} {BDB : BuntDB db} {PT : Ptypes} {PB : Proto} {CP : CronParser}
        {UC : Unicode} {TZ : Locations} {SO : Sorting}.

(** [type LogAppliers map[MessageType]LogApplier] *)
Definition LogAppliers : Type := Z → option (string → Z → M db response).
Definition no_appliers : LogAppliers := λ _, None.

Definition applySetJob (now : time) (buf : string) : M db response :=
  match Unmarshal buf with
  | (_, Some err) => retM (RespErr err)
  | (pj, None) =>
      r <- tryM (SetJob now (NewJobFromProto pj) false) ;;
      match r with inr err => retM (RespErr err) | inl _ => retM RespNil end
  end.

Definition applyDeleteJob (now : time) (buf : string) : M db response :=
  match Unmarshal buf with
  | (_, Some err) => retM (RespErr err)
  | (djr, None) =>
      r <- tryM (DeleteJob now djr.(pbDJR_JobName)) ;;
      match r with inr err => retM (RespErr err) | inl job => retM (RespJob job) end
  end.

(** A nil [Execution] in the request is dereferenced. *)
Definition applyExecutionDone (buf : string) : M db response :=
  match Unmarshal buf with
  | (_, Some err) => retM (RespErr err)
  | (execDoneReq, None) =>
      match execDoneReq.(pbEDR_Execution) with
      | None => crashM "nil pointer dereference"
      | Some pbe =>
          r <- tryM (SetExecutionDone (NewExecutionFromProto pbe)) ;;
          match r with inr err => retM (RespErr err) | inl _ => retM RespNil end
      end
  end.

Definition applySetExecution (buf : string) : M db response :=
  match Unmarshal buf with
  | (_, Some err) => retM (RespErr err)
  | (pbex, None) =>
      r <- tryM (SetExecution (NewExecutionFromProto pbex)) ;;
      match r with inr err => retM (RespErr err) | inl key => retM (RespKey key) end
  end.

(** [(d *dkronFSM) Apply(l)], for the log entry [(Index, Data)], at the instant
    [now] of the server that applies it. *)
Definition Apply (proAppliers : LogAppliers) (now : time) (index : Z) (data : string) :
    M db response :=
  match data with
  | EmptyString => crashM "index out of range"
  | String b buf =>
      let msgType := byte_val b in
      if msgType =? SetJobType then applySetJob now buf
      else if msgType =? DeleteJobType then applyDeleteJob now buf
      else if msgType =? ExecutionDoneType then applyExecutionDone buf
      else if msgType =? SetExecutionType then applySetExecution buf
      else
        match proAppliers msgType with
        | Some applier => applier buf index
        | None => retM RespNil
        end
  end.

(** The entries of a log, applied in order, each at the time the server's clock shows. *)
Fixpoint apply_log (proAppliers : LogAppliers) (index : Z) (entries : list (time * string)) :
    M db (list response) :=
  match entries with
  | [] => retM []
  | (now, data) :: entries' =>
      r <- Apply proAppliers now index data ;;
      rs <- apply_log proAppliers (index + 1) entries' ;;
      retM (r :: rs)
  end.

(** [Snapshot], [Persist] and [Restore]: the store's own. *)
Definition fsm_Snapshot (d : db) : snapshot db := Store_Snapshot d.
Definition fsm_Restore (r : snapshot db) : M db unit := Store_Restore r.

(** ** Commands *)

(** The commands the servers put in the log. *)
Inductive command :=
  | CmdSetJob (pj : pbJob)
  | CmdDeleteJob (name : string)
  | CmdSetExecution (pbe : pbExecution)
  | CmdExecutionDone (pbe : pbExecution).

Definition encode_command (c : command) : res string :=
  match c with
  | CmdSetJob pj => Encode SetJobType pj
  | CmdDeleteJob name => Encode DeleteJobType (mkpbDeleteJobRequest name)
  | CmdSetExecution pbe => Encode SetExecutionType pbe
  | CmdExecutionDone pbe => Encode ExecutionDoneType (mkpbExecutionDoneRequest (Some pbe))
  end.

(** What a command means for the store. *)
Definition run_command (now : time) (c : command) : M db response :=
  match c with
  | CmdSetJob pj =>
      r <- tryM (SetJob now (NewJobFromProto (wire_Job pj)) false) ;;
      match r with inr err => retM (RespErr err) | inl _ => retM RespNil end
  | CmdDeleteJob name =>
      r <- tryM (DeleteJob now name) ;;
      match r with inr err => retM (RespErr err) | inl job => retM (RespJob job) end
  | CmdSetExecution pbe =>
      r <- tryM (SetExecution (NewExecutionFromProto pbe)) ;;
      match r with inr err => retM (RespErr err) | inl key => retM (RespKey key) end
  | CmdExecutionDone pbe =>
      r <- tryM (SetExecutionDone (NewExecutionFromProto pbe)) ;;
      match r with inr err => retM (RespErr err) | inl _ => retM RespNil end
  end.

Lemma Encode_Ok {A} `{!Codec A} t (msg : A) data :
  Encode t msg = Ok data → ∃ m, data = String (type_byte t) m ∧ Unmarshal m = (wire msg, None).
Proof.
  unfold Encode. destruct (Marshal msg) as [m| |] eqn:E; [|done..]. intros [= <-].
  exists m. split; [done|]. by apply Unmarshal_Marshal.
Qed.

Lemma Apply_command pro now index c data (d : db) :
  encode_command c = Ok data → Apply pro now index data d = run_command now c d.
Proof.
  destruct c as [pj|name|pbe|pbe]; simpl; intros (m & -> & Hu)%Encode_Ok; unfold Apply.
  - change (byte_val (type_byte SetJobType)) with SetJobType. simpl.
    unfold applySetJob. by rewrite Hu, wire_pbJob.
  - change (byte_val (type_byte DeleteJobType)) with DeleteJobType. simpl.
    unfold applyDeleteJob. by rewrite Hu, wire_pbDeleteJobRequest.
  - change (byte_val (type_byte SetExecutionType)) with SetExecutionType. simpl.
    unfold applySetExecution. by rewrite Hu, wire_pbExecution.
  - change (byte_val (type_byte ExecutionDoneType)) with ExecutionDoneType. simpl.
    unfold applyExecutionDone. by rewrite Hu, wire_pbExecutionDoneRequest.
Qed.

(** What is encoded is what is applied: a command that a server encodes and puts
    in the log makes [Apply] call the store operation of that command, with the
    arguments of the command, on every server. *)
Theorem Apply_Encode pro now index c data (d : db) :
  encode_command c = Ok data → Apply pro now index data d = run_command now c d.
Proof. apply Apply_command. Qed.
End Fsm.

(** ** Replicas

    [SetJob] computes the next activation of a job from the clock of the server that
    applies the command.  The states of two servers are compared up to that field. *)

Definition erase (s : state) : state := mkState (set_Next 0 <$> s.(jobs)) s.(execs).
Definition same_but_next (s1 s2 : state) : Prop := erase s1 = erase s2.

#[export] Instance same_but_next_equiv : Equivalence same_but_next.
Proof. unfold same_but_next. split; [by intros ?|by intros ??|by intros ???->]. Qed.

Definition erase_response (r : response) : response :=
  match r with RespJob j => RespJob (set_Next 0 j) | _ => r end.
Definition erase_res {A} (f : A → A) (r : res A) : res A :=
  match r with Ok a => Ok (f a) | _ => r end.

Lemma same_lookup s1 s2 n :
  same_but_next s1 s2 → set_Next 0 <$> s1.(jobs) !! n = set_Next 0 <$> s2.(jobs) !! n.
Proof. intros [= E _]. by rewrite <- !lookup_fmap, E. Qed.

Lemma same_lookup_None s1 s2 n :
  same_but_next s1 s2 → s1.(jobs) !! n = None ↔ s2.(jobs) !! n = None.
Proof.
  intros E. pose proof (same_lookup s1 s2 n E) as H.
  destruct (jobs s1 !! n), (jobs s2 !! n); naive_solver.
Qed.

Lemma same_with_job s1 s2 n j1 j2 :
  same_but_next s1 s2 → set_Next 0 j1 = set_Next 0 j2 →
  same_but_next (with_job n j1 s1) (with_job n j2 s2).
Proof.
  intros [= E1 E2] Ej. unfold same_but_next, erase, with_job. simpl.
  by rewrite !fmap_insert, E1, E2, Ej.
Qed.

Section Replicas.
Context {PT : Ptypes} {PB : Proto} {CP : CronParser} {UC : Unicode} {TZ : Locations}
        {SO : Sorting}.

Lemma same_parent_missing s1 s2 j : same_but_next s1 s2 → parent_missing s1 j = parent_missing s2 j.
Proof.
  intros E. unfold parent_missing. apply bool_decide_ext.
  by rewrite (same_lookup_None s1 s2 _ E).
Qed.

Lemma same_update_parent f p s1 s2 :
  same_but_next s1 s2 →
  (spec_update_parent f p s1).1 = (spec_update_parent f p s2).1 ∧
  same_but_next (spec_update_parent f p s1).2 (spec_update_parent f p s2).2.
Proof.
  intros E. unfold spec_update_parent. case_decide; [done|].
  pose proof (same_lookup s1 s2 p E) as Hp.
  destruct (jobs s1 !! p) as [j1|], (jobs s2 !! p) as [j2|]; try done.
  apply (inj Some) in Hp as Hj.
  assert (∀ A (g : Job → A), (∀ j, g (set_Next 0 j) = g j) → g j1 = g j2) as Hg
    by (intros A g Hg; by rewrite <- (Hg j1), Hj).
  assert (parent_missing s2 j2 = parent_missing s1 j1) as ->.
  { rewrite (same_parent_missing s1 s2 j1 E). symmetry. by apply Hg. }
  destruct (parent_missing s1 j1); [done|]. split; [done|]. simpl. apply same_with_job; [done|].
  by apply (Hg _ (λ j, set_Next 0 (set_DependentJobs (f j.(Job_DependentJobs)) j))).
Qed.

(** What [SetJob] writes depends on the clock in its [Next] only. *)
Lemma written_clock now1 now2 b ej1 ej2 job :
  Valid job → set_Next 0 ej1 = set_Next 0 ej2 →
  ∃ t1 t2 j, written now1 b ej1 job = Ok (set_Next t1 j) ∧ written now2 b ej2 job = Ok (set_Next t2 j).
Proof.
  intros Hv E. destruct (written_Valid now1 b ej1 job Hv) as (t1 & -> & _).
  destruct (written_Valid now2 b ej2 job Hv) as (t2 & -> & _).
  exists t1, t2, (merge_stored b ej1 job). split; [done|].
  change (merge_stored b ej1 job) with (merge_stored b (set_Next 0 ej1) job). by rewrite E.
Qed.

Lemma same_SetJob now1 now2 job b s1 s2 :
  same_but_next s1 s2 →
  (spec_SetJob now1 job b s1).1 = (spec_SetJob now2 job b s2).1 ∧
  same_but_next (spec_SetJob now1 job b s1).2 (spec_SetJob now2 job b s2).2.
Proof.
  intros E. unfold spec_SetJob. destruct (Validate job) eqn:Hv; [done|].
  apply Validate_spec in Hv. rewrite (same_parent_missing s1 s2 job E).
  destruct (parent_missing s2 job); [done|].
  set (ej1 := default Job_zero (jobs s1 !! _)). set (ej2 := default Job_zero (jobs s2 !! _)).
  assert (set_Next 0 ej1 = set_Next 0 ej2) as Hej.
  { pose proof (same_lookup s1 s2 (Job_Name job) E) as H. subst ej1 ej2.
    destruct (jobs s1 !! Job_Name job), (jobs s2 !! Job_Name job); try done.
    by apply (inj Some) in H. }
  destruct (written_clock now1 now2 b ej1 ej2 job Hv Hej) as (t1 & t2 & j & -> & ->).
  assert (Job_ParentJob ej1 = Job_ParentJob ej2) as Hp.
  { change (Job_ParentJob ej1) with (Job_ParentJob (set_Next 0 ej1)). by rewrite Hej. }
  set (s1' := if decide (storable (set_Next t1 j)) then _ else s1).
  set (s2' := if decide (storable (set_Next t2 j)) then _ else s2).
  assert (same_but_next s1' s2') as E'.
  { subst s1' s2'. destruct (decide (storable (set_Next t1 j))) as [Hs|Hs],
      (decide (storable (set_Next t2 j))) as [Hs'|Hs']; [|by destruct Hs'|by destruct Hs|done].
    by apply same_with_job. }
  rewrite Hp. clearbody s1' s2'.
  destruct (decide (Job_ParentJob job = Job_ParentJob ej2)); [done|]. unfold bindM.
  pose proof (same_update_parent (drop_child (Job_Name job)) (Job_ParentJob ej2) _ _ E') as [H1 H2].
  destruct (spec_update_parent _ _ s1') as [r1 s3], (spec_update_parent _ _ s2') as [r2 s4].
  simpl in H1, H2. subst r2. destruct r1; [|done..]. by apply same_update_parent.
Qed.

Lemma same_DeleteJob name s1 s2 :
  same_but_next s1 s2 →
  erase_res (set_Next 0) (spec_DeleteJob name s1).1 = erase_res (set_Next 0) (spec_DeleteJob name s2).1 ∧
  same_but_next (spec_DeleteJob name s1).2 (spec_DeleteJob name s2).2.
Proof.
  intros E. pose proof (same_lookup s1 s2 name E) as Hn.
  unfold spec_DeleteJob, bindM, spec_delete.
  destruct (jobs s1 !! name) as [j1|], (jobs s2 !! name) as [j2|]; try done.
  apply (inj Some) in Hn as Hj.
  assert (Job_DependentJobs j1 = Job_DependentJobs j2) as Hd.
  { change (Job_DependentJobs j1) with (Job_DependentJobs (set_Next 0 j1)). by rewrite Hj. }
  assert (Job_ParentJob j1 = Job_ParentJob j2) as Hp.
  { change (Job_ParentJob j1) with (Job_ParentJob (set_Next 0 j1)). by rewrite Hj. }
  rewrite Hd. destruct (decide (Job_DependentJobs j2 ≠ [])); [done|]. rewrite Hp.
  set (s1' := mkState _ (drop_execs name (execs s1))).
  set (s2' := mkState _ (drop_execs name (execs s2))).
  assert (same_but_next s1' s2') as E'.
  { injection E as E1 E2. unfold same_but_next, erase, s1', s2'. simpl.
    by rewrite !fmap_delete, E1, E2. }
  pose proof (same_update_parent (drop_child name) (Job_ParentJob j2) _ _ E') as [H1 H2].
  destruct (spec_update_parent _ _ s1') as [r1 s3], (spec_update_parent _ _ s2') as [r2 s4].
  simpl in H1, H2. subst r2. destruct r1; simpl; [|done..]. by rewrite Hj.
Qed.

Lemma same_SetExecution e s1 s2 :
  same_but_next s1 s2 →
  (spec_SetExecution e s1).1 = (spec_SetExecution e s2).1 ∧
  same_but_next (spec_SetExecution e s1).2 (spec_SetExecution e s2).2.
Proof.
  intros [= E1 E2]. unfold spec_SetExecution, same_but_next, erase. simpl. by rewrite E1, E2.
Qed.

Lemma same_SetExecutionDone e s1 s2 :
  same_but_next s1 s2 →
  (spec_SetExecutionDone e s1).1 = (spec_SetExecutionDone e s2).1 ∧
  same_but_next (spec_SetExecutionDone e s1).2 (spec_SetExecutionDone e s2).2.
Proof.
  intros E. pose proof (same_lookup s1 s2 (Ex_JobName e) E) as Hn. unfold spec_SetExecutionDone.
  destruct (jobs s1 !! _) as [j1|], (jobs s2 !! _) as [j2|]; try done.
  apply (inj Some) in Hn as Hj. injection E as E1 E2. split; [done|].
  assert (∀ st, set_Next 0 (done_job e st j1) = set_Next 0 (done_job e st j2)) as Hd.
  { intros st. change (done_job e st (set_Next 0 j1) = done_job e st (set_Next 0 j2)).
    by rewrite Hj. }
  unfold same_but_next, erase. cbn [jobs execs snd]. by rewrite !fmap_insert, E1, E2, Hd.
Qed.
End Replicas.

(** A command whose payload the store can take: the executions it carries are
    representable and of a job with a proper name; jobs are not restricted. *)
Definition command_ok `{!Ptypes} (c : command) : Prop :=
  match c with
  | CmdSetExecution pbe | CmdExecutionDone pbe => exec_ok (NewExecutionFromProto pbe)
  | _ => True
  end.

Section Cluster.
Context {db1 db2 : Type} {BDB1 : BuntDB db1} {BDB2 : BuntDB db2}.
Context {PT : Ptypes} {PB : Proto} {CP : CronParser} {UC : Unicode} {TZ : Locations}
        {SO : Sorting}.

(** What a command does to the abstract state. *)
Definition spec_command (now : time) (c : command) : M state response :=
  match c with
  | CmdSetJob pj =>
      r <- tryM (spec_SetJob now (NewJobFromProto (wire_Job pj)) false) ;;
      match r with inr err => retM (RespErr err) | inl _ => retM RespNil end
  | CmdDeleteJob name =>
      r <- tryM (spec_DeleteJob name) ;;
      match r with inr err => retM (RespErr err) | inl job => retM (RespJob job) end
  | CmdSetExecution pbe =>
      r <- tryM (spec_SetExecution (NewExecutionFromProto pbe)) ;;
      match r with inr err => retM (RespErr err) | inl key => retM (RespKey key) end
  | CmdExecutionDone pbe =>
      r <- tryM (spec_SetExecutionDone (NewExecutionFromProto pbe)) ;;
      match r with inr err => retM (RespErr err) | inl _ => retM RespNil end
  end.

Lemma implements_try {db} `{!BuntDB db} {A B} (p : M db A) q (f : A + error → B) :
  implements p q →
  implements (r <- tryM p ;; retM (f r)) (r <- tryM q ;; retM (f r)).
Proof.
  intros Hp d s HH. destruct (Hp d s HH) as [H1 H2]. unfold bindM, tryM.
  destruct (p d) as [[] d'], (q s) as [[] s']; simpl in *; by simplify_eq.
Qed.

Lemma spec_command_erase now1 now2 c s1 s2 :
  same_but_next s1 s2 →
  erase_res erase_response (spec_command now1 c s1).1 = erase_res erase_response (spec_command now2 c s2).1 ∧
  same_but_next (spec_command now1 c s1).2 (spec_command now2 c s2).2.
Proof.
  intros E. destruct c as [pj|name|pbe|pbe]; simpl; unfold bindM, tryM.
  - destruct (same_SetJob now1 now2 (NewJobFromProto (wire_Job pj)) false s1 s2 E) as [H1 H2].
    destruct (spec_SetJob now1 _ _ s1) as [[] ?], (spec_SetJob now2 _ _ s2) as [[] ?];
      simpl in *; by simplify_eq.
  - destruct (same_DeleteJob name s1 s2 E) as [H1 H2].
    destruct (spec_DeleteJob name s1) as [[j1| |] ?], (spec_DeleteJob name s2) as [[j2| |] ?];
      simpl in *; try (by simplify_eq).
    apply (f_equal (λ r, match r with Ok a => a | _ => set_Next 0 j1 end)) in H1. by rewrite H1.
  - destruct (same_SetExecution (NewExecutionFromProto pbe) s1 s2 E) as [_ H2]. done.
  - destruct (same_SetExecutionDone (NewExecutionFromProto pbe) s1 s2 E) as [H1 H2].
    destruct (spec_SetExecutionDone _ s1) as [[] ?], (spec_SetExecutionDone _ s2) as [[] ?];
      simpl in *; by simplify_eq.
Qed.

Lemma run_command_implements {db} `{!BuntDB db} now c :
  command_ok c → implements (run_command (db:=db) now c) (spec_command now c).
Proof.
  assert (∀ A (p : M db A) q (k : A + error → response), implements p q →
    implements (r <- tryM p ;; retM (k r)) (r <- tryM q ;; retM (k r))) as Htry
    by (intros; by apply implements_try).
  assert (∀ A (p : M db A) q (kd : A + error → M db response) ks (k : A + error → response),
    implements p q → (∀ r d, kd r d = (Ok (k r), d)) → (∀ r s, ks r s = (Ok (k r), s)) →
    implements (bindM (tryM p) kd) (bindM (tryM q) ks)) as H.
  { intros A p q kd ks k Hp Hd Hs d s HH. destruct (Htry A p q k Hp d s HH) as [H1 H2].
    unfold bindM in *. destruct (tryM p d) as [[] d'], (tryM q s) as [[] s'];
      rewrite ?Hd, ?Hs; done. }
  destruct c as [pj|name|pbe|pbe]; simpl; intros Hok.
  - apply (H _ _ _ _ _ (λ r, match r with inr e => RespErr e | inl _ => RespNil end));
      [apply SetJob_implements|by intros [] ?|by intros [] ?].
  - apply (H _ _ _ _ _ (λ r, match r with inr e => RespErr e | inl j => RespJob j end));
      [apply DeleteJob_implements|by intros [] ?|by intros [] ?].
  - apply (H _ _ _ _ _ (λ r, match r with inr e => RespErr e | inl k => RespKey k end));
      [by apply SetExecution_implements|by intros [] ?|by intros [] ?].
  - apply (H _ _ _ _ _ (λ r, match r with inr e => RespErr e | inl _ => RespNil end));
      [by apply SetExecutionDone_implements|by intros [] ?|by intros [] ?].
Qed.

(** A command always has a response; errors are responses. *)
Lemma spec_command_Ok now c s : ∃ r, (spec_command now c s).1 = Ok r.
Proof.
  destruct c as [pj|name|pbe|pbe]; cbn [spec_command]; unfold bindM, tryM.
  - pose proof (spec_op_no_crash (OpSetJob now (NewJobFromProto (wire_Job pj)) false) s) as H.
    cbn [spec_op] in H. destruct (spec_SetJob _ _ _ s) as [[] ?]; [by eexists..|].
    by destruct (H why).
  - pose proof (spec_op_no_crash (OpDeleteJob now name) s) as H. cbn [spec_op] in H.
    unfold bindM in H. destruct (spec_DeleteJob name s) as [[] ?]; [by eexists..|].
    by destruct (H why).
  - by eexists.
  - unfold spec_SetExecutionDone. destruct (jobs s !! _); by eexists.
Qed.

(** Two servers, with whatever databases and clocks, whose stores stand for the same
    state up to the next activations, that apply the same command: they give the same
    response and stand again for the same state. *)
Lemma replicas_step pro1 pro2 now1 now2 index c data (d1 : db1) (d2 : db2) s1 s2 :
  encode_command c = Ok data → command_ok c →
  Holds d1 s1 → Holds d2 s2 → same_but_next s1 s2 →
  let a1 := Apply pro1 now1 index data d1 in
  let a2 := Apply pro2 now2 index data d2 in
  let s1' := (spec_command now1 c s1).2 in
  let s2' := (spec_command now2 c s2).2 in
  (∃ r1 r2, a1.1 = Ok r1 ∧ a2.1 = Ok r2 ∧ erase_response r1 = erase_response r2) ∧
  Holds a1.2 s1' ∧ Holds a2.2 s2' ∧ same_but_next s1' s2'.
Proof.
  intros He Hok H1 H2 E. cbv zeta.
  rewrite (Apply_command pro1 now1 index c data d1 He), (Apply_command pro2 now2 index c data d2 He).
  destruct (run_command_implements now1 c Hok d1 s1 H1) as [R1 HH1].
  destruct (run_command_implements now2 c Hok d2 s2 H2) as [R2 HH2].
  destruct (spec_command_erase now1 now2 c s1 s2 E) as [Er Es].
  destruct (spec_command_Ok now1 c s1) as [r1 E1], (spec_command_Ok now2 c s2) as [r2 E2].
  split; [|done].
  exists r1, r2. rewrite R1, R2, E1, E2. split_and!; [done..|]. rewrite E1, E2 in Er.
  simpl in Er. congruence.
Qed.

(** The state that a log of commands leads to, by the specification of the store. *)
Fixpoint spec_log (cs : list (time * command)) (s : state) : state :=
  match cs with
  | [] => s
  | (now, c) :: cs' => spec_log cs' (spec_command now c s).2
  end.

End Cluster.

(** ** Examples *)
Module FsmExample.
Import Toy Example HistoryExample.

Definition cmdA : command := CmdSetJob (Job_ToProto jobA).

Lemma Apply_Encode_witness :
  ∃ data, encode_command cmdA = Ok data ∧
    (Apply (db:=toydb) no_appliers 0 1 data d0).1 = Ok RespNil.
Proof.
  destruct (encode_command cmdA) as [data| |] eqn:E; [|vm_compute in E; discriminate..].
  exists data. split; [reflexivity|]. rewrite (Apply_Encode no_appliers 0 1 cmdA data d0 E).
  vm_compute. reflexivity.
Defined.


(** The next activation a server reads for a job. *)
Definition next_of (name : string) (d : toydb) : Z :=
  match (GetJob name d).1 with Ok j => j.(Job_Next) | _ => -1 end.

(** The next activation is not replicated: two servers that apply the same
    command to the same state at different instants give the same response and store
    jobs whose next activations differ by the difference of the instants. *)
Theorem replicas_diverge_in_next :
  ∃ data, encode_command cmdA = Ok data ∧
    let a1 := Apply (db:=toydb) no_appliers 0 1 data d0 in
    let a2 := Apply (db:=toydb) no_appliers nanos_per_sec 1 data d0 in
    a1.1 = a2.1 ∧ a1.2 ≠ a2.2 ∧ next_of "a" a1.2 = 60 * nanos_per_sec ∧
    next_of "a" a2.2 = 61 * nanos_per_sec.
Proof.
  destruct (encode_command cmdA) as [data| |] eqn:E; [|vm_compute in E; discriminate..].
  exists data. split; [reflexivity|]. cbv zeta.
  rewrite !(Apply_command no_appliers _ 1 cmdA data d0 E). clear E data.
  assert (next_of "a" (run_command 0 cmdA d0).2 = 60 * nanos_per_sec) as H1
    by (vm_compute; reflexivity).
  assert (next_of "a" (run_command nanos_per_sec cmdA d0).2 = 61 * nanos_per_sec) as H2
    by (vm_compute; reflexivity).
  split; [vm_compute; reflexivity|]. split; [|split; [exact H1|exact H2]].
  intros Heq. apply (f_equal (next_of "a")) in Heq. rewrite H1, H2 in Heq. discriminate Heq.
Qed.
End FsmExample.
