(* ===== verification/Cluster.v ===== *)
(** * [dkron/utils.go], [dkron/serf.go] and the membership part of [dkron/agent.go]

    Servers gossip with serf: every member carries tags, and [isServer] reads a
    dkron server off them.  The agent keeps the servers it knows by region
    ([peers]) and those of its own region by raft address ([localPeers]), follows
    serf's events, and bootstraps raft once the expected number of servers is
    there.  Serf's member list is a field of the agent; raft is an interface with
    the documented effect of its membership operations. *)
From Stdlib Require Import ZArith Lia.
From stdpp Require Import base list gmap strings pretty.
From S2P Require Import Prelude GoStrings GoNet GoTime Config.

#[local] Open Scope Z_scope.

(** ** serf *)

(** [serf.MemberStatus], and [StatusReap] of [serf.go]. *)
Inductive MemberStatus :=
  StatusNone | StatusAlive | StatusLeaving | StatusLeft | StatusFailed | StatusReap.

#[export] Instance MemberStatus_eq_dec : EqDecision MemberStatus.
Proof. solve_decision. Defined.

(** [serf.Member], as far as dkron reads it. *)
Record Member := mkMember {
  Member_Name : string;
  Member_Addr : IP;
  Member_Tags : gmap string string;
  Member_Status : MemberStatus
}.

Definition set_Status (st : MemberStatus) (m : Member) : Member :=
  mkMember m.(Member_Name) m.(Member_Addr) m.(Member_Tags) st.

(** [m.Tags[key]]: the empty string when the tag is missing. *)
Definition tag (m : Member) (key : string) : string := default "" (m.(Member_Tags) !! key).

Inductive EventType :=
  | EventMemberJoin | EventMemberLeave | EventMemberFailed | EventMemberUpdate
  | EventMemberReap | EventUser | EventQuery.

Record MemberEvent := mkMemberEvent { Event_Type : EventType; Event_Members : list Member }.

(** ** [utils.go] *)

(** [hashicorp/go-version]: the parsed version is only stored. *)
Class Versions := {
  version : Type;
  NewVersion : string → res version;
  Version_zero : version
}.

Section Cluster.
Context {VS : Versions}.

(** [type ServerParts struct] ([RaftVersion] is never set). *)
Record ServerParts := mkServerParts {
  SP_Name : string;
  SP_ID : string;
  SP_Region : string;
  SP_Datacenter : string;
  SP_Port : Z;
  SP_Bootstrap : bool;
  SP_Expect : Z;
  SP_BuildVersion : version;
  SP_Addr : TCPAddr;
  SP_RPCAddr : TCPAddr;
  SP_Status : MemberStatus
}.

(** [strconv.Atoi] with the error as the only other outcome. *)
Definition atoi (s : string) : option Z :=
  match Atoi s with
  | (z, None) => Some z
  | _ => None
  end.

(** [isServer(m)]: [None] for [(false, nil)]. *)
Definition isServer (m : Member) : option ServerParts :=
  if bool_decide (tag m "role" ≠ "dkron") then None
  else if bool_decide (tag m "server" ≠ "true") then None
  else
    expect ← (match m.(Member_Tags) !! "expect" with
              | Some expectStr => atoi expectStr
              | None => Some 0
              end);
    let bootstrap :=
      bool_decide (is_Some (m.(Member_Tags) !! "bootstrap")) || (expect =? 1) in
    let rpcIP :=
      match ParseIP (tag m "rpc_addr") with
      | [] => m.(Member_Addr)
      | ip => ip
      end in
    port ← atoi (tag m "port");
    let buildVersion :=
      match NewVersion (tag m "version") with
      | Ok v => v
      | _ => Version_zero
      end in
    Some (mkServerParts m.(Member_Name) m.(Member_Name) (tag m "region") (tag m "dc") port
            bootstrap expect buildVersion (mkTCPAddr m.(Member_Addr) port)
            (mkTCPAddr rpcIP port) m.(Member_Status)).

(** ** raft *)

Inductive ServerSuffrage := Voter | Nonvoter | Staging.

(** [raft.Server] *)
Record RaftServer := mkRaftServer {
  RS_ID : string;
  RS_Address : string;
  RS_Suffrage : ServerSuffrage
}.

#[export] Instance ServerSuffrage_eq_dec : EqDecision ServerSuffrage.
Proof. solve_decision. Defined.
#[export] Instance RaftServer_eq_dec : EqDecision RaftServer.
Proof. solve_decision. Defined.

(** The configuration after [AddVoter(id, addr)]: the server gets the address, or is
    appended when it is new. *)
Fixpoint set_voter (id addr : string) (l : list RaftServer) : list RaftServer :=
  match l with
  | [] => [mkRaftServer id addr Voter]
  | s :: l' =>
      if bool_decide (s.(RS_ID) = id) then mkRaftServer id addr Voter :: l'
      else s :: set_voter id addr l'
  end.

(** [hashicorp/raft]: a node, its latest configuration, and the operations the agent
    calls.  A configuration has no two servers with one id or one address; an
    operation on it that fails may have been carried out or not. *)
Class Raft (R : Type) := {
  raft_wf : R → Prop;
  raft_IsLeader : R → bool;
  raft_Leader : R → string;
  raft_LastIndex : R → res Z;
  raft_servers : R → list RaftServer;
  raft_GetConfiguration : R → res (list RaftServer);
  raft_BootstrapCluster : list RaftServer → M R unit;
  raft_AddVoter : string → string → M R unit;
  raft_RemoveServer : string → M R unit;
  raft_Barrier : M R unit;
  GetConfiguration_Ok r l : raft_GetConfiguration r = Ok l → l = raft_servers r;
  raft_ids r : raft_wf r → NoDup (RS_ID <$> raft_servers r);
  raft_addresses r : raft_wf r → NoDup (RS_Address <$> raft_servers r);
  AddVoter_wf id addr r : raft_wf r → raft_wf (raft_AddVoter id addr r).2;
  RemoveServer_wf id r : raft_wf r → raft_wf (raft_RemoveServer id r).2;
  AddVoter_Ok id addr r r' :
    raft_AddVoter id addr r = (Ok tt, r') → raft_servers r' = set_voter id addr (raft_servers r);
  RemoveServer_Ok id r r' :
    raft_RemoveServer id r = (Ok tt, r') →
    raft_servers r' = filter (λ s, s.(RS_ID) ≠ id) (raft_servers r)
}.

(** ** The agent *)

(** A Go channel with a buffer. *)
Record Chan (A : Type) := mkChan { chan_buf : list A; chan_cap : nat }.
Arguments mkChan {A}.
Arguments chan_buf {A}.
Arguments chan_cap {A}.

(** [select { case ch <- x: default: }]: a nil channel ([None]) and a full one take
    the default. *)
Definition try_send {A} (x : A) (ch : option (Chan A)) : option (Chan A) :=
  match ch with
  | None => None
  | Some c =>
      if bool_decide (length c.(chan_buf) < c.(chan_cap))%nat
      then Some (mkChan (c.(chan_buf) ++ [x]) c.(chan_cap))
      else Some c
  end.

Context {R : Type} `{!Raft R}.

(** [type Agent struct], the fields that clustering uses. *)
Record Agent := mkAgent {
  a_config : Config;
  a_serf : list Member;
  a_peers : gmap string (list ServerParts);
  a_localPeers : gmap string ServerParts;
  a_reconcileCh : option (Chan Member);
  a_raft : R
}.

(** [NewAgent(config)] and the peer lists of [setupSerf]: the reconcile channel is
    not made. *)
Definition NewAgent (config : Config) (members : list Member) (r : R) : Agent :=
  mkAgent config members ∅ ∅ None r.

Definition set_peers (p : gmap string (list ServerParts)) (l : gmap string ServerParts) (a : Agent) :
    Agent := mkAgent a.(a_config) a.(a_serf) p l a.(a_reconcileCh) a.(a_raft).
Definition set_reconcileCh (ch : option (Chan Member)) (a : Agent) : Agent :=
  mkAgent a.(a_config) a.(a_serf) a.(a_peers) a.(a_localPeers) ch a.(a_raft).
Definition set_raft (r : R) (a : Agent) : Agent :=
  mkAgent a.(a_config) a.(a_serf) a.(a_peers) a.(a_localPeers) a.(a_reconcileCh) r.
Definition set_expect (n : Z) (a : Agent) : Agent :=
  mkAgent (set_BootstrapExpect n a.(a_config)) a.(a_serf) a.(a_peers) a.(a_localPeers)
    a.(a_reconcileCh) a.(a_raft).

(** A call on the raft node. *)
Definition on_raft {A} (m : M R A) : M Agent A := λ a,
  let '(r, raft') := m a.(a_raft) in (r, set_raft raft' a).

(** [IsLeader()] *)
Definition IsLeader (a : Agent) : bool := raft_IsLeader a.(a_raft).

(** ** [serf.go] *)

(** The loop over the servers of a region: the entry with the name is replaced;
    [None] when there is none. *)
Fixpoint replace_peer (parts : ServerParts) (existing : list ServerParts) :
    option (list ServerParts) :=
  match existing with
  | [] => None
  | e :: existing' =>
      if bool_decide (e.(SP_Name) = parts.(SP_Name)) then Some (parts :: existing')
      else cons e <$> replace_peer parts existing'
  end.

(** What [nodeJoin] does to the peers for one server. *)
Definition add_peer (parts : ServerParts) (a : Agent) : Agent :=
  let existing := default [] (a.(a_peers) !! parts.(SP_Region)) in
  let peers' :=
    match replace_peer parts existing with
    | Some l => <[parts.(SP_Region) := l]> a.(a_peers)
    | None => <[parts.(SP_Region) := existing ++ [parts]]> a.(a_peers)
    end in
  let local' :=
    if bool_decide (parts.(SP_Region) = a.(a_config).(Region))
    then <[TCPAddr_String parts.(SP_Addr) := parts]> a.(a_localPeers)
    else a.(a_localPeers) in
  set_peers peers' local' a.

(** The scan of [maybeBootstrap] over the members: the servers of the region, or
    nothing when one of them disagrees. *)
Fixpoint scan_servers (c : Config) (members : list Member) : option (list ServerParts) :=
  match members with
  | [] => Some []
  | m :: members' =>
      match isServer m with
      | None => scan_servers c members'
      | Some p =>
          if bool_decide (p.(SP_Region) ≠ c.(Region)) then scan_servers c members'
          else if negb (p.(SP_Expect) =? 0) && negb (p.(SP_Expect) =? c.(BootstrapExpect))
          then None
          else if p.(SP_Bootstrap) then None
          else cons p <$> scan_servers c members'
      end
  end.

(** The raft server of a dkron server. *)
Definition raft_peer (p : ServerParts) : RaftServer :=
  mkRaftServer p.(SP_ID) (TCPAddr_String p.(SP_Addr)) Voter.

(** [maybeBootstrap()] *)
Definition maybeBootstrap : M Agent unit := λ a,
  match raft_LastIndex a.(a_raft) with
  | Crash w => (Crash w, a)
  | Err _ => (Ok tt, a)
  | Ok index =>
      if negb (index =? 0) then (Ok tt, set_expect 0 a)
      else match scan_servers a.(a_config) a.(a_serf) with
      | None => (Ok tt, a)
      | Some servers =>
          if Z.of_nat (length servers) <? a.(a_config).(BootstrapExpect) then (Ok tt, a)
          else (tryM (on_raft (raft_BootstrapCluster (raft_peer <$> servers))) ;;;
                (λ a, (Ok tt, set_expect 0 a))) a
      end
  end.

(** [nodeJoin(me)] *)
Fixpoint nodeJoin (members : list Member) : M Agent unit :=
  match members with
  | [] => retM tt
  | m :: members' =>
      match isServer m with
      | None => nodeJoin members'
      | Some parts =>
          (λ a, (Ok tt, add_peer parts a)) ;;;
          a <- getM ;;
          (if negb (a.(a_config).(BootstrapExpect) =? 0) then maybeBootstrap else retM tt) ;;;
          nodeJoin members'
      end
  end.

(** The loop of [nodeFailed]: the last server takes the place of the one with the
    name, and the list is cut. *)
Fixpoint find_name (name : string) (l : list ServerParts) : option nat :=
  match l with
  | [] => None
  | e :: l' => if bool_decide (e.(SP_Name) = name) then Some O else S <$> find_name name l'
  end.

Definition remove_peer (name : string) (existing : list ServerParts) : list ServerParts :=
  match find_name name existing, last existing with
  | Some i, Some z => take (length existing - 1) (<[i := z]> existing)
  | _, _ => existing
  end.

(** What [nodeFailed] does for one server. *)
Definition drop_peer (parts : ServerParts) (a : Agent) : Agent :=
  let existing := remove_peer parts.(SP_Name) (default [] (a.(a_peers) !! parts.(SP_Region))) in
  let peers' :=
    match existing with
    | [] => delete parts.(SP_Region) a.(a_peers)
    | _ => <[parts.(SP_Region) := existing]> a.(a_peers)
    end in
  let local' :=
    if bool_decide (parts.(SP_Region) = a.(a_config).(Region))
    then delete (TCPAddr_String parts.(SP_Addr)) a.(a_localPeers)
    else a.(a_localPeers) in
  set_peers peers' local' a.

(** [nodeFailed(me)] *)
Fixpoint nodeFailed (members : list Member) (a : Agent) : Agent :=
  match members with
  | [] => a
  | m :: members' =>
      match isServer m with
      | None => nodeFailed members' a
      | Some parts => nodeFailed members' (drop_peer parts a)
      end
  end.

(** [localMemberEvent(me)] *)
Definition queue_member (isReap : bool) (ch : option (Chan Member)) (m : Member) :
    option (Chan Member) := try_send (if isReap then set_Status StatusReap m else m) ch.

Definition localMemberEvent (me : MemberEvent) (a : Agent) : Agent :=
  if negb a.(a_config).(Server) || negb (IsLeader a) then a
  else
    let isReap := match me.(Event_Type) with EventMemberReap => true | _ => false end in
    set_reconcileCh (foldl (queue_member isReap) a.(a_reconcileCh) me.(Event_Members)) a.

(** One round of [eventLoop()]: the handling of an event. *)
Definition handle_event (me : MemberEvent) : M Agent unit :=
  match me.(Event_Type) with
  | EventMemberJoin =>
      nodeJoin me.(Event_Members) ;;; (λ a, (Ok tt, localMemberEvent me a))
  | EventMemberLeave | EventMemberFailed =>
      λ a, (Ok tt, localMemberEvent me (nodeFailed me.(Event_Members) a))
  | EventMemberReap => λ a, (Ok tt, localMemberEvent me a)
  | EventMemberUpdate | EventUser | EventQuery => retM tt
  end.

(** ** Servers ([agent.go]) *)

(** [leaderMember()] *)
Definition leaderMember (a : Agent) : res Member :=
  match List.find (λ m, bool_decide (tag m "rpc_addr" = raft_Leader a.(a_raft))) a.(a_serf) with
  | Some m => Ok m
  | None => Err ErrLeaderNotFound
  end.

(** [Servers()] and [LocalServers()] *)
Definition alive_server (m : Member) : option ServerParts :=
  match isServer m with
  | Some parts => if bool_decide (m.(Member_Status) = StatusAlive) then Some parts else None
  | None => None
  end.

Definition Servers (a : Agent) : list ServerParts := omap alive_server a.(a_serf).

Definition LocalServers (a : Agent) : list ServerParts :=
  omap (λ m, parts ← alive_server m;
             if bool_decide (a.(a_config).(Region) = parts.(SP_Region)) then Some parts else None)
    a.(a_serf).

(** [checkAndSelectServer()], with the outcome of dialling each server. *)
Definition checkAndSelectServer (dial : string → bool) (a : Agent) : res string :=
  match List.find dial ((λ p, TCPAddr_String p.(SP_RPCAddr)) <$> LocalServers a) with
  | Some peer => Ok peer
  | None => Err ErrNoSuitableServer
  end.

(** The tags of [setupSerf()]: those of the configuration and the ones that describe
    the node. *)
Definition serf_tags (Version : string) (c : Config) : gmap string string :=
  let tags := <["version" := Version]> (<["region" := c.(Region)]>
    (<["dc" := c.(Datacenter)]> (<["role" := "dkron"]> c.(Tags)))) in
  let tags := if c.(Server) then <["server" := FormatBool c.(Server)]> tags else tags in
  let tags := if c.(Bootstrap) then <["bootstrap" := "1"]> tags else tags in
  if negb (c.(BootstrapExpect) =? 0) then <["expect" := pretty c.(BootstrapExpect)]> tags
  else tags.

(** [advertiseRPCAddr()] of a node with its serf address, and the tags that [Start]
    sets. *)
Definition advertiseRPCAddr (bindIP : IP) (c : Config) : string :=
  JoinHostPort (IP_String bindIP) (pretty c.(AdvertiseRPCPort)).

Definition start_tags (bindIP : IP) (c : Config) (tags : gmap string string) :
    gmap string string :=
  <["port" := pretty c.(AdvertiseRPCPort)]> (<["rpc_addr" := advertiseRPCAddr bindIP c]> tags).

End Cluster.
Arguments Agent {VS} R.
Arguments mkChan {A}.
Arguments chan_buf {A}.
Arguments chan_cap {A}.
