(* ===== verification/ClusterProps.v ===== *)
(** * Membership: what the operations of [Cluster] achieve *)
From Stdlib Require Import ZArith Lia.
From stdpp Require Import base list gmap strings pretty.
From S2P Require Import Prelude GoStrings GoNet GoTime Config Cluster.

#[local] Open Scope Z_scope.

Section ClusterProps.
Context {VS : Versions} {R : Type} {RF : Raft R}.

(** ** Tags *)

Lemma atoi_pretty (z : Z) : in_int 64 z → atoi (pretty z) = Some z.
Proof. intros Hz. unfold atoi. by rewrite Atoi_pretty. Qed.

(** The name of a server is its raft id, and its address is the member's with the
    announced port. *)
Lemma isServer_fields m p :
  isServer m = Some p →
  p.(SP_ID) = m.(Member_Name) ∧ p.(SP_Name) = m.(Member_Name) ∧
  p.(SP_Addr) = mkTCPAddr m.(Member_Addr) p.(SP_Port).
Proof.
  unfold isServer. destruct (bool_decide _); [done|]. destruct (bool_decide _); [done|].
  intros (e & _ & H)%bind_Some. apply bind_Some in H as (port & _ & H). by simplify_eq.
Qed.

(** The member that a node with a configuration shows to the others. *)
Definition node_member (Version : string) (c : Config) (ip : IP) (st : MemberStatus) : Member :=
  mkMember c.(NodeName) ip (start_tags ip c (serf_tags Version c)) st.

(** A tag of the node: the value is found through the insertions, whatever the
    settings of the configuration are. *)
Ltac node_tag :=
  intros; unfold node_member, start_tags, serf_tags; cbn [Member_Tags negb];
  repeat match goal with |- context [if ?b then _ else _] => destruct b end;
  by simplify_map_eq.

Section Tags.
Variables (Version : string) (c : Config) (ip : IP) (st : MemberStatus).
Abbreviation tags := ((node_member Version c ip st).(Member_Tags)).

Lemma tag_fixed :
  tags !! "role" = Some "dkron" ∧ tags !! "dc" = Some c.(Datacenter) ∧
  tags !! "region" = Some c.(Region) ∧ tags !! "version" = Some Version ∧
  tags !! "port" = Some (pretty c.(AdvertiseRPCPort)) ∧
  tags !! "rpc_addr" = Some (advertiseRPCAddr ip c).
Proof. split_and!; node_tag. Qed.

Lemma tag_server :
  tags !! "server" = if c.(Server) then Some "true" else c.(Tags) !! "server".
Proof. destruct (Server c) eqn:E; unfold node_member, start_tags, serf_tags; rewrite E; node_tag. Qed.

Lemma tag_bootstrap :
  tags !! "bootstrap" = if c.(Bootstrap) then Some "1" else c.(Tags) !! "bootstrap".
Proof.
  destruct (Bootstrap c) eqn:E; unfold node_member, start_tags, serf_tags; rewrite E; node_tag.
Qed.

Lemma tag_expect :
  tags !! "expect" = if c.(BootstrapExpect) =? 0 then c.(Tags) !! "expect"
                     else Some (pretty c.(BootstrapExpect)).
Proof.
  destruct (BootstrapExpect c =? 0) eqn:E; unfold node_member, start_tags, serf_tags;
    rewrite E; node_tag.
Qed.
End Tags.

(** What a server announces is what the others read.  The tags that [setupSerf]
    and [Start] give a server make [isServer] see its name, region, data centre, RPC
    port and bootstrap settings, with the advertised RPC address as its address; a
    node that is not a server is not one for the others. *)
Theorem isServer_roundtrip Version c ip st :
  length ip = 4%nat ∨ length ip = 16%nat →
  in_int 64 c.(AdvertiseRPCPort) → in_int 64 c.(BootstrapExpect) →
  c.(Tags) !! "server" = None → c.(Tags) !! "bootstrap" = None → c.(Tags) !! "expect" = None →
  isServer (node_member Version c ip st) =
    (if c.(Server) then
       Some (mkServerParts c.(NodeName) c.(NodeName) c.(Region) c.(Datacenter)
         c.(AdvertiseRPCPort) (c.(Bootstrap) || (c.(BootstrapExpect) =? 1)) c.(BootstrapExpect)
         (match NewVersion Version with Ok v => v | _ => Version_zero end)
         (mkTCPAddr ip c.(AdvertiseRPCPort)) (mkTCPAddr ip c.(AdvertiseRPCPort)) st)
     else None) ∧
  TCPAddr_String (mkTCPAddr ip c.(AdvertiseRPCPort)) = tag (node_member Version c ip st) "rpc_addr".
Proof.
  intros Hip Hport Hexp Hs Hb He.
  destruct (tag_fixed Version c ip st) as (Trole & Tdc & Treg & Tver & Tport & Trpc).
  pose proof (tag_server Version c ip st) as Tserver.
  pose proof (tag_bootstrap Version c ip st) as Tboot.
  pose proof (tag_expect Version c ip st) as Texp.
  rewrite Hs in Tserver. rewrite Hb in Tboot. rewrite He in Texp. split.
  - unfold isServer, tag. rewrite Trole, Tdc, Treg, Tver, Tport, Trpc. cbn [from_option id].
    rewrite bool_decide_eq_false_2 by naive_solver. rewrite Tserver. destruct (Server c).
    2: { rewrite bool_decide_eq_true_2; [done|naive_solver]. }
    rewrite bool_decide_eq_false_2 by naive_solver. rewrite Texp, Tboot.
    unfold advertiseRPCAddr. rewrite ParseIP_JoinHostPort by done.
    rewrite (atoi_pretty (AdvertiseRPCPort c)) by done.
    destruct (Z.eqb_spec (BootstrapExpect c) 0) as [E0|E0].
    + rewrite E0. simpl. by destruct (Bootstrap c).
    + rewrite atoi_pretty by done. simpl. by destruct (Bootstrap c).
  - unfold tag. rewrite Trpc. unfold TCPAddr_String, advertiseRPCAddr. simpl.
    destruct ip; [simpl in Hip; lia|done].
Qed.

(** ** Known servers

    The abstract view: the servers by region and name. *)
Abbreviation view := (gmap (string * string) ServerParts).

Definition view_key (p : ServerParts) : string * string := (p.(SP_Region), p.(SP_Name)).

Definition spec_join (V : view) (m : Member) : view :=
  match isServer m with Some p => <[view_key p := p]> V | None => V end.
Definition spec_fail (V : view) (m : Member) : view :=
  match isServer m with Some p => delete (view_key p) V | None => V end.

Definition spec_event (me : MemberEvent) (V : view) : view :=
  match me.(Event_Type) with
  | EventMemberJoin => foldl spec_join V me.(Event_Members)
  | EventMemberLeave | EventMemberFailed => foldl spec_fail V me.(Event_Members)
  | _ => V
  end.

Definition region_peers (P : gmap string (list ServerParts)) (r : string) : list ServerParts :=
  default [] (P !! r).

(** The peers of the agent stand for a view: no region is empty, and the servers of a
    region are those of the view, each once. *)
Record peers_rep (P : gmap string (list ServerParts)) (V : view) : Prop := {
  pr_nonempty r : P !! r ≠ Some [];
  pr_nodup r : NoDup (SP_Name <$> region_peers P r);
  pr_view r p : p ∈ region_peers P r ↔ p.(SP_Region) = r ∧ V !! view_key p = Some p;
  pr_key k p : V !! k = Some p → k = view_key p
}.

Lemma replace_peer_Some parts l l' :
  replace_peer parts l = Some l' →
  NoDup (SP_Name <$> l) →
  SP_Name <$> l' = SP_Name <$> l ∧
  ∀ p, p ∈ l' ↔ p = parts ∨ (p ∈ l ∧ p.(SP_Name) ≠ parts.(SP_Name)).
Proof.
  revert l'. induction l as [|e l IH]; intros l'; [done|]. cbn [replace_peer].
  rewrite fmap_cons, NoDup_cons. case_bool_decide as He.
  - intros [= <-] [Hn Hnd]. rewrite fmap_cons. split; [congruence|]. intros p.
    rewrite !elem_of_cons. assert (p ∈ l → p.(SP_Name) ≠ parts.(SP_Name)) as Hne.
    { intros Hp Heq. apply Hn. rewrite He, <- Heq. by apply list_elem_of_fmap_2. }
    split; [naive_solver|]. intros [?|[[->|?] ?]]; naive_solver.
  - intros (l2 & Hl2 & ->)%fmap_Some [Hn Hnd]. destruct (IH l2) as [E HIH]; [done..|].
    rewrite !fmap_cons, E. split; [done|]. intros p. rewrite !elem_of_cons, HIH. naive_solver.
Qed.

Lemma replace_peer_None parts l :
  replace_peer parts l = None → parts.(SP_Name) ∉ SP_Name <$> l.
Proof.
  induction l as [|e l IH]; cbn [replace_peer]; [set_solver|]. case_bool_decide as He; [done|].
  intros Hn%fmap_None. rewrite fmap_cons, elem_of_cons. intros [?|?]; [congruence|]. by apply IH.
Qed.

(** The list of a region after a server joined. *)
Lemma joined_list parts l :
  NoDup (SP_Name <$> l) →
  let l' := default (l ++ [parts]) (replace_peer parts l) in
  NoDup (SP_Name <$> l') ∧ l' ≠ [] ∧
  ∀ p, p ∈ l' ↔ p = parts ∨ (p ∈ l ∧ p.(SP_Name) ≠ parts.(SP_Name)).
Proof.
  intros Hnd. destruct (replace_peer parts l) as [l'|] eqn:E; simpl.
  - destruct (replace_peer_Some _ _ _ E Hnd) as [En Hp]. rewrite En. split_and!; [done| |done].
    intros ->. assert (parts ∈ @nil ServerParts) as H by (apply Hp; by left). set_solver.
  - apply replace_peer_None in E. split_and!.
    + rewrite fmap_app. apply NoDup_app. split_and!; [done| |apply NoDup_singleton].
      intros x Hx ->%list_elem_of_singleton. done.
    + by destruct l.
    + intros p. rewrite elem_of_app, list_elem_of_singleton. split; [|tauto].
      intros [Hp| ->]; [|by left]. right. split; [done|]. intros Heq. apply E.
      rewrite <- Heq. by apply list_elem_of_fmap_2.
Qed.

Lemma find_name_spec name l :
  match find_name name l with
  | Some i => ∃ p, l !! i = Some p ∧ p.(SP_Name) = name
  | None => name ∉ SP_Name <$> l
  end.
Proof.
  induction l as [|e l IH]; cbn [find_name]; [set_solver|]. case_bool_decide as He; [by exists e|].
  destruct (find_name name l); [done|]. cbn. intros [?|?]%elem_of_cons; congruence.
Qed.

(** The list of a region after a server failed: the same servers but that one. *)
Lemma remove_peer_perm name l :
  NoDup (SP_Name <$> l) →
  remove_peer name l ≡ₚ filter (λ p, p.(SP_Name) ≠ name) l.
Proof.
  intros Hnd. unfold remove_peer. pose proof (find_name_spec name l) as Hf.
  destruct (find_name name l) as [i|].
  2: { rewrite filter_all; [done|]. intros p Hp Heq. apply Hf. rewrite <- Heq.
       by apply list_elem_of_fmap_2. }
  destruct Hf as (p & Hi & Hp). destruct (last l) as [z|] eqn:Hl.
  2: { apply last_None in Hl. by subst. }
  apply last_Some in Hl as [l0 ->]. rewrite fmap_app, NoDup_app in Hnd.
  destruct Hnd as (Hnd0 & Hz & _). rewrite length_app. simpl.
  replace (length l0 + 1 - 1)%nat with (length l0) by lia. rewrite filter_app.
  destruct (decide (i < length l0)%nat) as [Hlt|Hge].
  - rewrite insert_app_l by done. rewrite take_app_length' by (by rewrite length_insert).
    rewrite lookup_app_l in Hi by done.
    assert (z.(SP_Name) ≠ name) as Hzn.
    { intros Heq. apply (Hz name); [|simpl; rewrite Heq; set_solver].
      rewrite <- Hp. apply list_elem_of_fmap_2. by eapply list_elem_of_lookup_2. }
    rewrite (filter_cons_True _ z []) by done. change (filter _ []) with (@nil ServerParts).
    rewrite insert_take_drop by done. apply (take_drop_middle l0 i p) in Hi as Hm.
    rewrite <- Hm in Hnd0. rewrite <- Hm at 3. rewrite fmap_app, fmap_cons, NoDup_app in Hnd0.
    destruct Hnd0 as (_ & H1 & H2). apply NoDup_cons in H2 as [H2 _].
    rewrite filter_app, (filter_cons_False _ p) by naive_solver.
    rewrite !filter_all.
    + rewrite <- app_assoc. apply Permutation_app_head. by rewrite Permutation_cons_append.
    + intros q Hq Heq. apply H2. rewrite Hp, <- Heq. by apply list_elem_of_fmap_2.
    + intros q Hq Heq. apply (H1 name); [rewrite <- Heq; by apply list_elem_of_fmap_2|].
      rewrite Hp. set_solver.
  - assert (i = length l0) as ->.
    { apply lookup_lt_Some in Hi. rewrite length_app in Hi. simpl in Hi. lia. }
    rewrite lookup_app_r, Nat.sub_diag in Hi by lia. simplify_eq/=.
    replace (length l0) with (length l0 + 0)%nat at 2 by lia.
    rewrite insert_app_r. rewrite take_app_length.
    rewrite filter_cons_False by naive_solver. rewrite filter_nil, (right_id_L [] (++)).
    rewrite filter_all; [done|].
    intros q Hq Heq. apply (Hz (SP_Name q)); [by apply list_elem_of_fmap_2|rewrite Heq; set_solver].
Qed.

Lemma region_peers_insert P r l r' :
  region_peers (<[r := l]> P) r' = if decide (r = r') then l else region_peers P r'.
Proof. unfold region_peers. case_decide; by simplify_map_eq. Qed.

Lemma region_peers_delete P r r' :
  region_peers (delete r P) r' = if decide (r = r') then [] else region_peers P r'.
Proof. unfold region_peers. case_decide; by simplify_map_eq. Qed.

Lemma view_key_ne p q r :
  p.(SP_Region) = r → q.(SP_Region) = r → p.(SP_Name) ≠ q.(SP_Name) → view_key q ≠ view_key p.
Proof. unfold view_key. intros ? ? ? [=]. congruence. Qed.

Lemma add_peer_rep parts (a : Agent R) V :
  peers_rep a.(a_peers) V → peers_rep (add_peer parts a).(a_peers) (<[view_key parts := parts]> V).
Proof.
  intros [H1 H2 H3 H4]. set (r := SP_Region parts).
  assert ((add_peer parts a).(a_peers) = <[r := default (region_peers (a_peers a) r ++ [parts])
    (replace_peer parts (region_peers (a_peers a) r))]> (a_peers a)) as ->.
  { unfold add_peer, region_peers. fold r. by destruct (replace_peer _ _). }
  destruct (joined_list parts _ (H2 r)) as (J1 & J2 & J3). split.
  - intros r'. destruct (decide (r = r')) as [<-|]; simplify_map_eq; [|done].
    intros [= E]. by rewrite E in J2.
  - intros r'. rewrite region_peers_insert. case_decide; [done|apply H2].
  - intros r' p. rewrite region_peers_insert. case_decide as Hr.
    + subst r'. rewrite J3, H3. split.
      * intros [->|[[Hp HV] Hne]]; [split; [done|apply lookup_insert_eq]|]. split; [done|].
        rewrite lookup_insert_ne; [done|]. by apply (view_key_ne _ _ r).
      * intros [Hp HV]. destruct (decide (p.(SP_Name) = parts.(SP_Name))) as [E|E].
        -- left. assert (view_key p = view_key parts) as Ek
             by (unfold view_key; rewrite Hp, E; done).
           rewrite Ek, lookup_insert_eq in HV. congruence.
        -- right. rewrite lookup_insert_ne in HV by (by apply (view_key_ne _ _ r)). done.
    + rewrite H3. assert (p.(SP_Region) = r' → view_key parts ≠ view_key p) as Hne
        by (intros Hp [= E _]; subst r; congruence).
      split; intros [Hp HV]; (split; [done|]).
      * by rewrite lookup_insert_ne by auto.
      * by rewrite lookup_insert_ne in HV by auto.
  - intros k p. destruct (decide (k = view_key parts)) as [->|].
    + rewrite lookup_insert_eq. congruence.
    + rewrite lookup_insert_ne by done. apply H4.
Qed.

Lemma drop_peer_rep parts (a : Agent R) V :
  peers_rep a.(a_peers) V → peers_rep (drop_peer parts a).(a_peers) (delete (view_key parts) V).
Proof.
  intros [H1 H2 H3 H4]. set (r := SP_Region parts).
  set (l := remove_peer (SP_Name parts) (region_peers (a_peers a) r)).
  assert (∀ r', region_peers (drop_peer parts a).(a_peers) r' =
            if decide (r = r') then l else region_peers (a_peers a) r') as Hreg.
  { intros r'. change (drop_peer parts a).(a_peers) with
      (match l with [] => delete r (a_peers a) | _ => <[r := l]> (a_peers a) end).
    destruct l; [apply region_peers_delete|apply region_peers_insert]. }
  pose proof (remove_peer_perm (SP_Name parts) _ (H2 r)) as HP. fold l in HP. split.
  - intros r'. change (drop_peer parts a).(a_peers) with
      (match l with [] => delete r (a_peers a) | _ => <[r := l]> (a_peers a) end).
    destruct l; destruct (decide (r = r')) as [<-|]; simplify_map_eq; done.
  - intros r'. rewrite Hreg. case_decide; [|apply H2]. rewrite HP.
    eapply sublist_NoDup; [apply (H2 r)|]. apply fmap_sublist, sublist_filter.
  - intros r' p. rewrite Hreg. case_decide as Hr.
    + subst r'. rewrite HP, list_elem_of_filter, H3. split.
      * intros (Hne & Hp & HV). split; [done|]. rewrite lookup_delete_ne; [done|].
        by apply (view_key_ne _ _ r).
      * intros [Hp [Hne HV]%lookup_delete_Some]. split_and!; [|done..]. intros E. apply Hne.
        unfold view_key. by rewrite Hp, E.
    + rewrite H3. split; intros [Hp HV]; (split; [done|]).
      * rewrite lookup_delete_ne; [done|]. intros [= E _]. subst r. congruence.
      * by apply lookup_delete_Some in HV as [_ HV].
  - intros k p [_ Hk]%lookup_delete_Some. by apply H4.
Qed.

(** ** Events *)

Lemma set_expect_peers n (a : Agent R) : a_peers (set_expect n a) = a_peers a.
Proof. done. Qed.

Lemma maybeBootstrap_peers (a : Agent R) : a_peers (maybeBootstrap a).2 = a_peers a.
Proof.
  unfold maybeBootstrap, tryM, on_raft, bindM. repeat case_match; simplify_eq/=; done.
Qed.

Lemma nodeJoin_rep ms (a a' : Agent R) V :
  peers_rep a.(a_peers) V → nodeJoin ms a = (Ok tt, a') →
  peers_rep a'.(a_peers) (foldl spec_join V ms).
Proof.
  revert a V. induction ms as [|m ms IH]; intros a V HV; simpl.
  { by intros [= <-]. }
  unfold spec_join at 2. destruct (isServer m) as [p|]; [|by apply IH].
  unfold bindM, getM. apply (add_peer_rep p) in HV.
  destruct (negb _).
  - pose proof (maybeBootstrap_peers (add_peer p a)) as E.
    destruct (maybeBootstrap (add_peer p a)) as [[[]| |] a2]; [|done..].
    apply IH. simpl in E. by rewrite E.
  - by apply IH.
Qed.

Lemma nodeFailed_rep ms (a : Agent R) V :
  peers_rep a.(a_peers) V → peers_rep (nodeFailed ms a).(a_peers) (foldl spec_fail V ms).
Proof.
  revert a V. induction ms as [|m ms IH]; intros a V HV; simpl; [done|].
  unfold spec_fail at 2. destruct (isServer m) as [p|]; [|by apply IH].
  by apply IH, drop_peer_rep.
Qed.

Lemma localMemberEvent_peers me (a : Agent R) : a_peers (localMemberEvent me a) = a_peers a.
Proof. unfold localMemberEvent. by case_match. Qed.

(** C31: the servers that an agent knows.  Whatever event serf delivers, the peers
    keep standing for the map of servers by region and name in which the servers of
    a join event are entered, each with its latest tags, and those of a leave or
    failure event are removed; a region without servers disappears. *)
Theorem handle_event_peers me (a a' : Agent R) V :
  peers_rep a.(a_peers) V → handle_event me a = (Ok tt, a') →
  peers_rep a'.(a_peers) (spec_event me V).
Proof.
  intros HV. unfold handle_event, spec_event, bindM. destruct (Event_Type me).
  - destruct (nodeJoin (Event_Members me) a) as [[[]| |] a2] eqn:E; [|done..].
    intros [= <-]. rewrite localMemberEvent_peers. by eapply nodeJoin_rep.
  - intros [= <-]. rewrite localMemberEvent_peers. by apply nodeFailed_rep.
  - intros [= <-]. rewrite localMemberEvent_peers. by apply nodeFailed_rep.
  - by intros [= <-].
  - intros [= <-]. by rewrite localMemberEvent_peers.
  - by intros [= <-].
  - by intros [= <-].
Qed.

(** ** Bootstrap *)

(** The server a member is in the agent's region. *)
Definition regional (c : Config) (m : Member) : option ServerParts :=
  p ← isServer m; if bool_decide (p.(SP_Region) = c.(Region)) then Some p else None.

Definition bootstrap_agrees (c : Config) (p : ServerParts) : Prop :=
  (p.(SP_Expect) = 0 ∨ p.(SP_Expect) = c.(BootstrapExpect)) ∧ p.(SP_Bootstrap) = false.

Lemma scan_servers_spec c ms l :
  scan_servers c ms = Some l ↔
  l = omap (regional c) ms ∧ Forall (bootstrap_agrees c) (omap (regional c) ms).
Proof.
  revert l. induction ms as [|m ms IH]; intros l; cbn [scan_servers omap list_omap].
  { split; [intros [= <-]; by split|by intros [-> _]]. }
  assert (regional c m = p ← isServer m; if bool_decide (p.(SP_Region) = c.(Region)) then Some p
    else None) as -> by done. destruct (isServer m) as [p|]; simpl; [|apply IH].
  destruct (decide (SP_Region p = Region c)) as [Hr|Hr].
  2: { rewrite bool_decide_eq_true_2, bool_decide_eq_false_2 by done. apply IH. }
  rewrite bool_decide_eq_false_2, bool_decide_eq_true_2 by naive_solver. rewrite Forall_cons.
  destruct (negb (SP_Expect p =? 0) && negb (SP_Expect p =? BootstrapExpect c)) eqn:He.
  { split; [done|]. intros (_ & [[H|H] _] & _); rewrite H, Z.eqb_refl in He; simpl in He;
      [done|by rewrite andb_false_r in He]. }
  destruct (SP_Bootstrap p) eqn:Hb; [split; [done|]; by intros (_ & [_ H] & _); congruence|].
  rewrite fmap_Some. setoid_rewrite IH. split.
  - intros (x & [-> HF] & ->). split_and!; [done| |done]. split; [|done].
    apply andb_false_iff in He as [He|He]; apply negb_false_iff, Z.eqb_eq in He; auto.
  - intros (-> & _ & HF). eauto.
Qed.

(** The conditions of a live bootstrap: nothing in the log, every server of the region
    agrees on the expected number, none is in bootstrap mode, and there are enough. *)
Definition can_bootstrap (a : Agent R) : Prop :=
  let servers := omap (regional a.(a_config)) a.(a_serf) in
  raft_LastIndex a.(a_raft) = Ok 0 ∧ Forall (bootstrap_agrees a.(a_config)) servers ∧
  a.(a_config).(BootstrapExpect) ≤ Z.of_nat (length servers).

(** C32: the cluster is bootstrapped exactly when it can be, with one voter for every
    server of the region, under the name and the address of the server; in all other
    cases raft is left alone. *)
Theorem maybeBootstrap_spec (a : Agent R) :
  (can_bootstrap a →
    a_raft (maybeBootstrap a).2 =
      (raft_BootstrapCluster
        ((λ p, mkRaftServer p.(SP_Name) (TCPAddr_String p.(SP_Addr)) Voter) <$>
           omap (regional a.(a_config)) a.(a_serf)) a.(a_raft)).2) ∧
  (¬ can_bootstrap a → a_raft (maybeBootstrap a).2 = a_raft a).
Proof.
  assert (raft_peer <$> omap (regional (a_config a)) (a_serf a) =
    (λ p, mkRaftServer p.(SP_Name) (TCPAddr_String p.(SP_Addr)) Voter) <$>
           omap (regional a.(a_config)) a.(a_serf)) as Hpeer.
  { apply list_fmap_ext. intros i p Hp. apply list_elem_of_lookup_2 in Hp.
    apply list_elem_of_omap in Hp as (m & _ & Hm). unfold regional in Hm.
    apply bind_Some in Hm as (q & Hq & Hm). case_bool_decide; [|done]. simplify_eq.
    unfold raft_peer. destruct (isServer_fields _ _ Hq) as (E1 & E2 & _). congruence. }
  split.
  - intros (Hi & HF & Hn). unfold maybeBootstrap. rewrite Hi. simpl (negb _).
    rewrite (proj2 (scan_servers_spec _ _ _) (conj eq_refl HF)).
    destruct (Z.ltb_spec (Z.of_nat (length (omap (regional (a_config a)) (a_serf a))))
      (BootstrapExpect (a_config a))); [lia|]. cbn match. rewrite <- Hpeer.
    unfold bindM, tryM, on_raft. by destruct (raft_BootstrapCluster _ _) as [[] ?].
  - intros Hc. unfold maybeBootstrap. destruct (raft_LastIndex (a_raft a)) as [i|e|w] eqn:Hi;
      [|done..].
    destruct (Z.eqb_spec i 0) as [->|]; [|done]. cbn [negb].
    destruct (scan_servers _ _) as [l|] eqn:Hl; [|done].
    apply scan_servers_spec in Hl as [-> HF]. case_match eqn:Hlt; [done|]. destruct Hc.
    unfold can_bootstrap. split_and!; [done..|]. apply Z.ltb_ge in Hlt. done.
Qed.

(** ** Reconcile events *)

(** Serf's list of members changes between the events. *)
Definition set_serf (ms : list Member) (a : Agent R) : Agent R :=
  mkAgent a.(a_config) ms a.(a_peers) a.(a_localPeers) a.(a_reconcileCh) a.(a_raft).

Fixpoint run_events (es : list (list Member * MemberEvent)) : M (Agent R) unit :=
  match es with
  | [] => retM tt
  | (ms, me) :: es' => λ a, (handle_event me ;;; run_events es') (set_serf ms a)
  end.

Lemma maybeBootstrap_reconcileCh (a : Agent R) :
  a_reconcileCh (maybeBootstrap a).2 = a_reconcileCh a.
Proof.
  unfold maybeBootstrap, tryM, on_raft, bindM. repeat case_match; simplify_eq/=; done.
Qed.

Lemma nodeJoin_reconcileCh ms (a : Agent R) : a_reconcileCh (nodeJoin ms a).2 = a_reconcileCh a.
Proof.
  revert a. induction ms as [|m ms IH]; intros a; simpl; [done|].
  destruct (isServer m) as [p|]; [|apply IH]. unfold bindM, getM. destruct (negb _).
  - pose proof (maybeBootstrap_reconcileCh (add_peer p a)) as E.
    destruct (maybeBootstrap (add_peer p a)) as [[[]| |] a2]; simpl in E; [|done..].
    etrans; [apply IH|exact E].
  - etrans; [apply IH|done].
Qed.

Lemma nodeFailed_reconcileCh ms (a : Agent R) :
  a_reconcileCh (nodeFailed ms a) = a_reconcileCh a.
Proof.
  revert a. induction ms as [|m ms IH]; intros a; simpl; [done|].
  destruct (isServer m); [|done]. by rewrite IH.
Qed.

Lemma localMemberEvent_nil me (a : Agent R) :
  a_reconcileCh a = None → a_reconcileCh (localMemberEvent me a) = None.
Proof.
  intros Ha. unfold localMemberEvent. case_match; [done|]. cbn [set_reconcileCh a_reconcileCh].
  rewrite Ha. by induction (Event_Members me).
Qed.

Lemma handle_event_nil me (a : Agent R) :
  a_reconcileCh a = None → a_reconcileCh (handle_event me a).2 = None.
Proof.
  intros Ha. unfold handle_event, bindM. destruct (Event_Type me); try done.
  - pose proof (nodeJoin_reconcileCh (Event_Members me) a) as E.
    destruct (nodeJoin (Event_Members me) a) as [[[]| |] a2]; simpl in *; [|congruence..].
    apply localMemberEvent_nil. congruence.
  - apply localMemberEvent_nil. by rewrite nodeFailed_reconcileCh.
  - apply localMemberEvent_nil. by rewrite nodeFailed_reconcileCh.
  - by apply localMemberEvent_nil.
Qed.

(** The reconcile channel is never made, so that no membership event ever reaches
    the leader loop through it: after any sequence of events the channel of an agent
    made by [NewAgent] is still nil. *)
Theorem events_never_queued c ms r es :
  a_reconcileCh (run_events es (NewAgent c ms r)).2 = None.
Proof.
  assert (∀ a : Agent R, a_reconcileCh a = None → a_reconcileCh (run_events es a).2 = None) as H.
  { induction es as [|[ms' me] es IH]; intros a Ha; [done|]. simpl. unfold bindM.
    pose proof (handle_event_nil me (set_serf ms' a) Ha) as E.
    destruct (handle_event me (set_serf ms' a)) as [[]  a']; simpl in E; [by apply IH|done..]. }
  by apply H.
Qed.

(** ** Finding servers *)

(** [leaderMember] finds the leader: when the leader's raft address is the one a
    member of serf's list announces, the member returned announces it, and no member
    before it in the list does; otherwise the leader is reported missing. *)
Theorem leaderMember_spec (a : Agent R) :
  match leaderMember a with
  | Ok m => ∃ i, a.(a_serf) !! i = Some m ∧ tag m "rpc_addr" = raft_Leader a.(a_raft) ∧
      ∀ j m', (j < i)%nat → a.(a_serf) !! j = Some m' → tag m' "rpc_addr" ≠ raft_Leader a.(a_raft)
  | Err e => e = ErrLeaderNotFound ∧
      ∀ m, m ∈ a.(a_serf) → tag m "rpc_addr" ≠ raft_Leader a.(a_raft)
  | Crash _ => False
  end.
Proof.
  unfold leaderMember. induction (a_serf a) as [|m ms IH]; simpl; [set_solver|].
  case_bool_decide as Hm.
  { exists O. split_and!; [done..|]. intros; lia. }
  destruct (List.find _ ms) as [m'|].
  - destruct IH as (i & Hi & Ht & Hj). exists (S i). split_and!; [done..|].
    intros [|j] m'' Hlt Hm''; simpl in *; [congruence|]. eapply Hj; [|done]. lia.
  - destruct IH as [_ IH]. split; [done|]. set_solver.
Qed.

Lemma LocalServers_spec (a : Agent R) p :
  p ∈ LocalServers a ↔
  ∃ m, m ∈ a.(a_serf) ∧ isServer m = Some p ∧ m.(Member_Status) = StatusAlive ∧
       p.(SP_Region) = a.(a_config).(Region).
Proof.
  unfold LocalServers, alive_server. rewrite list_elem_of_omap. split.
  - intros (m & Hm & Hp). exists m. destruct (isServer m) as [q|]; [|done].
    case_bool_decide; [|done]. simpl in Hp. case_bool_decide; [|done]. naive_solver.
  - intros (m & Hm & Hs & Ha & Hr). exists m. split; [done|]. rewrite Hs, Ha. simpl.
    by rewrite bool_decide_eq_true_2.
Qed.

(** [checkAndSelectServer] returns the RPC address of a living server of the
    region that answers, and fails only when none of them does. *)
Theorem checkAndSelectServer_spec dial (a : Agent R) :
  let answers p := dial (TCPAddr_String p.(SP_RPCAddr)) = true in
  match checkAndSelectServer dial a with
  | Ok peer => dial peer = true ∧ ∃ m p, m ∈ a.(a_serf) ∧ isServer m = Some p ∧
      m.(Member_Status) = StatusAlive ∧ p.(SP_Region) = a.(a_config).(Region) ∧
      peer = TCPAddr_String p.(SP_RPCAddr)
  | Err e => e = ErrNoSuitableServer ∧
      ∀ m p, m ∈ a.(a_serf) → isServer m = Some p → m.(Member_Status) = StatusAlive →
        p.(SP_Region) = a.(a_config).(Region) → ¬ answers p
  | Crash _ => False
  end.
Proof.
  unfold checkAndSelectServer. destruct (List.find _ _) as [peer|] eqn:E.
  - apply List.find_some in E as [Hin Hd]. split; [done|].
    apply list_elem_of_In, list_elem_of_fmap in Hin as (p & -> & Hp).
    apply LocalServers_spec in Hp as (m & ? & ? & ? & ?). eauto 10.
  - split; [done|]. intros m p Hm Hs Ha Hr Hd.
    assert (TCPAddr_String (SP_RPCAddr p) ∈
      ((λ p, TCPAddr_String p.(SP_RPCAddr)) <$> LocalServers a)) as Hin.
    { apply list_elem_of_fmap. exists p. split; [done|]. apply LocalServers_spec. eauto. }
    apply list_elem_of_In, (List.find_none _ _ E) in Hin. congruence.
Qed.
End ClusterProps.
