(* ===== verification/Leader.v ===== *)
(** * [dkron/leader.go]: the leader's duties

    The leader keeps raft's configuration in step with serf's members
    ([reconcile]) and runs the scheduler for as long as it leads
    ([monitorLeadership], [leaderLoop]).  The two loops are a state machine here:
    the state says whether the leader loop runs, whether it has established
    leadership and whether it listens to the reconcile channel; the events are the
    values of the leadership channel, the reconcile timer and the members queued.
    The agent's [shutdownCh] is never made, so that its cases never fire. *)
From Stdlib Require Import ZArith Lia.
From stdpp Require Import base list gmap strings pretty.
From S2P Require Import Prelude GoStrings GoNet GoTime Pb NTime ExtCron Execution Job BuntDB Store.
From S2P Require Import Scheduler Config Cluster ClusterProps.

#[local] Open Scope Z_scope.

Section Reconcile.
Context {VS : Versions} {R : Type} {RF : Raft R}.

(** [%q] of a plain string. *)
Definition quoted (s : string) : string := dquote +:+ s +:+ dquote.

(** The loop of [addRaftPeer] over the servers of the configuration: those with the
    id or the address of the new one are removed first; [true] when the server is
    there already. *)
Fixpoint remove_duplicates (id addr : string) (servers : list RaftServer) : M R bool :=
  match servers with
  | [] => retM false
  | s :: servers' =>
      let same_addr := bool_decide (s.(RS_Address) = addr) in
      let same_id := bool_decide (s.(RS_ID) = id) in
      if same_addr || same_id then
        if same_addr && same_id then retM true
        else
          r <- tryM (raft_RemoveServer s.(RS_ID)) ;;
          match r with
          | inl _ => remove_duplicates id addr servers'
          | inr e =>
              errM (ErrOther (if same_addr
                then "error removing server with duplicate address " +:+ quoted s.(RS_Address)
                       +:+ ": " +:+ Error e
                else "error removing server with duplicate ID " +:+ quoted s.(RS_ID)
                       +:+ ": " +:+ Error e))
          end
      else remove_duplicates id addr servers'
  end.

(** Another server of the cluster is in bootstrap mode. *)
Definition other_bootstrap (m : Member) (members : list Member) : bool :=
  existsb (λ member,
    match isServer member with
    | Some p => bool_decide (member.(Member_Name) ≠ m.(Member_Name)) && p.(SP_Bootstrap)
    | None => false
    end) members.

(** The raft address of a member. *)
Definition peer_address (m : Member) (parts : ServerParts) : string :=
  TCPAddr_String (mkTCPAddr m.(Member_Addr) parts.(SP_Port)).

(** [addRaftPeer(m, parts)] *)
Definition addRaftPeer (m : Member) (parts : ServerParts) : M (Agent R) unit :=
  a <- getM ;;
  if parts.(SP_Bootstrap) && other_bootstrap m a.(a_serf) then retM tt
  else
    let addr := peer_address m parts in
    servers <- liftM (raft_GetConfiguration a.(a_raft)) ;;
    if bool_decide (m.(Member_Name) = a.(a_config).(NodeName))
       && bool_decide (length servers < 3)%nat then retM tt
    else
      found <- on_raft (remove_duplicates parts.(SP_ID) addr servers) ;;
      if found : bool then retM tt else on_raft (raft_AddVoter parts.(SP_ID) addr).

(** [removeRaftPeer(m, parts)] *)
Definition removeRaftPeer (m : Member) (parts : ServerParts) : M (Agent R) unit :=
  a <- getM ;;
  servers <- liftM (raft_GetConfiguration a.(a_raft)) ;;
  if existsb (λ s, bool_decide (s.(RS_ID) = parts.(SP_ID))) servers
  then on_raft (raft_RemoveServer parts.(SP_ID))
  else retM tt.

(** [reconcileMember(member)] *)
Definition reconcileMember (member : Member) : M (Agent R) unit :=
  a <- getM ;;
  match isServer member with
  | None => retM tt
  | Some parts =>
      if bool_decide (parts.(SP_Region) ≠ a.(a_config).(Region)) then retM tt
      else match member.(Member_Status) with
           | StatusAlive => addRaftPeer member parts
           | StatusLeft => removeRaftPeer member parts
           | _ => retM tt
           end
  end.

(** [reconcile()] *)
Fixpoint reconcile_members (members : list Member) : M (Agent R) unit :=
  match members with
  | [] => retM tt
  | m :: members' => reconcileMember m ;;; reconcile_members members'
  end.

Definition reconcile : M (Agent R) unit :=
  a <- getM ;; reconcile_members a.(a_serf).
End Reconcile.

(** ** The loops *)
Section Loops.
Context {VS : Versions} {R : Type} {RF : Raft R}.
Context {PT : Ptypes} {PR : Proto} {CP : CronParser} {CE : CronEngine}.
Context {db : Type} `{!BuntDB db}.

(** A server: its agent, its scheduler and its store. *)
Record Node := mkNode { n_agent : Agent R; n_sched : Scheduler; n_db : db }.

Definition on_agent {A} (m : M (Agent R) A) : M Node A := λ n,
  let '(r, a) := m n.(n_agent) in (r, mkNode a n.(n_sched) n.(n_db)).
Definition on_sched {A} (m : M Scheduler A) : M Node A := λ n,
  let '(r, s) := m n.(n_sched) in (r, mkNode n.(n_agent) s n.(n_db)).
Definition on_db {A} (m : M db A) : M Node A := λ n,
  let '(r, d) := m n.(n_db) in (r, mkNode n.(n_agent) n.(n_sched) d).

(** [establishLeadership(stopCh)]: the process ends when the jobs cannot be read. *)
Definition establishLeadership : M Node unit :=
  jobs <- tryM (on_db (GetJobs None)) ;;
  match jobs with
  | inl jobs => on_sched (Start jobs)
  | inr e => crashM (Error e)
  end.

(** [revokeLeadership()] *)
Definition revokeLeadership : M Node unit := on_sched Stop.

(** A running leader loop that waits: whether it established leadership, and whether
    it listens to the reconcile channel. *)
Record loop := mkLoop { established : bool; listening : bool }.

(** From [RECONCILE] to [WAIT]. *)
Definition reconcile_pass (est : bool) : M Node loop :=
  b <- tryM (on_agent (on_raft raft_Barrier)) ;;
  match b with
  | inr _ => retM (mkLoop est false)
  | inl _ =>
      e <- (if est then retM true
            else
              r <- tryM establishLeadership ;;
              match r with
              | inl _ => retM true
              | inr _ => tryM revokeLeadership ;;; retM false
              end) ;;
      if e : bool then
        r <- tryM (on_agent reconcile) ;;
        match r with
        | inl _ => retM (mkLoop true true)
        | inr _ => retM (mkLoop true false)
        end
      else retM (mkLoop false false)
  end.

(** The state of [monitorLeadership]: [None] when [weAreLeaderCh] is nil. *)
Record monitor := mkMonitor { m_loop : option loop; m_node : Node }.

Definition run_loop (m : M Node loop) : M monitor unit := λ s,
  match m s.(m_node) with
  | (Ok l, n) => (Ok tt, mkMonitor (Some l) n)
  | (Err e, n) => (Err e, mkMonitor s.(m_loop) n)
  | (Crash w, n) => (Crash w, mkMonitor s.(m_loop) n)
  end.

Inductive leader_event := LeaderCh (isLeader : bool) | Interval | Reconcile.

(** The reaction to an event.  Losing leadership closes the stop channel and waits
    for the loop, whose deferred call revokes what was established. *)
Definition on_event (e : leader_event) : M monitor unit := λ s,
  match e, s.(m_loop) with
  | LeaderCh true, Some _ => (Ok tt, s)
  | LeaderCh true, None => run_loop (reconcile_pass false) s
  | LeaderCh false, None => (Ok tt, s)
  | LeaderCh false, Some l =>
      if l.(established) then
        match revokeLeadership s.(m_node) with
        | (Crash w, n) => (Crash w, mkMonitor s.(m_loop) n)
        | (_, n) => (Ok tt, mkMonitor None n)
        end
      else (Ok tt, mkMonitor None s.(m_node))
  | Interval, Some l => run_loop (reconcile_pass l.(established)) s
  | Interval, None => (Ok tt, s)
  | Reconcile, Some l =>
      match l.(listening), s.(m_node).(n_agent).(a_reconcileCh) with
      | true, Some (mkChan (m :: buf) cap) =>
          let a := set_reconcileCh (Some (mkChan buf cap)) s.(m_node).(n_agent) in
          match on_agent (reconcileMember m) (mkNode a s.(m_node).(n_sched) s.(m_node).(n_db)) with
          | (Crash w, n) => (Crash w, mkMonitor (Some l) n)
          | (_, n) => (Ok tt, mkMonitor (Some l) n)
          end
      | _, _ => (Ok tt, s)
      end
  | Reconcile, None => (Ok tt, s)
  end.

(** ** Reachable states

    Between the events the rest of the server acts: serf, raft and the store change,
    and the gRPC handlers add and remove single jobs of the scheduler. *)
Inductive sched_edit : Scheduler → Scheduler → Prop :=
  | edit_add j s s' r : AddJob j s = (r, s') → sched_edit s s'
  | edit_remove j s s' r : RemoveJob j s = (r, s') → sched_edit s s'.

Inductive step : monitor → monitor → Prop :=
  | step_event e s s' : on_event e s = (Ok tt, s') → step s s'
  | step_env s a' d' :
      step s (mkMonitor s.(m_loop) (mkNode a' s.(m_node).(n_sched) d'))
  | step_edit s sched' :
      sched_edit s.(m_node).(n_sched) sched' →
      step s (mkMonitor s.(m_loop) (mkNode s.(m_node).(n_agent) sched' s.(m_node).(n_db))).

(** A server that starts: no loop, a new scheduler. *)
Definition initial (a : Agent R) (d : db) : monitor :=
  mkMonitor None (mkNode a NewScheduler d).

Definition is_established (s : monitor) : bool :=
  match s.(m_loop) with Some l => l.(established) | None => false end.

(** The scheduler runs exactly while it should, and has an engine then. *)
Definition runs_iff (b : bool) (s : Scheduler) : Prop :=
  s.(Started) = b ∧ (b = true → s.(Cron) ≠ None).

Definition sched_inv (s : monitor) : Prop := runs_iff (is_established s) s.(m_node).(n_sched).

(** Editing single jobs leaves the scheduler running or not, as it was. *)
Definition keeps (s s' : Scheduler) : Prop :=
  s'.(Started) = s.(Started) ∧ (s.(Cron) ≠ None → s'.(Cron) ≠ None).

Lemma keeps_trans s1 s2 s3 : keeps s1 s2 → keeps s2 s3 → keeps s1 s3.
Proof. unfold keeps. intros [? ?] [? ?]. split; [congruence|auto]. Qed.

Lemma keeps_runs b s s' : keeps s s' → runs_iff b s → runs_iff b s'.
Proof. unfold keeps, runs_iff. intros [? ?] [? ?]. split; [congruence|auto]. Qed.

Lemma RemoveJob_keeps j s : keeps s (RemoveJob j s).2.
Proof. unfold RemoveJob, nil_cron, crashM. repeat case_match; by split. Qed.

Lemma AddJob_keeps j s : keeps s (AddJob j s).2.
Proof.
  unfold AddJob, getM. unfold bindM at 1. simpl. unfold bindM at 1.
  assert (keeps s ((if decide (is_Some (EntryJobMap s !! Job_Name j)) then RemoveJob j
    else retM tt) s).2) as H1 by (case_decide; [apply RemoveJob_keeps|by split]).
  revert H1. generalize ((if decide (is_Some (EntryJobMap s !! Job_Name j)) then RemoveJob j
    else retM tt) s). intros [[] s1] H1; simpl in H1; [|done..].
  case_match; [done|]. eapply keeps_trans; [exact H1|]. unfold nil_cron, crashM.
  repeat case_match; by split.
Qed.

Lemma AddJobs_keeps js s : keeps s (AddJobs js s).2.
Proof.
  revert s. induction js as [|j js IH]; intros s; simpl; [by split|].
  pose proof (AddJob_keeps j s) as Hk. unfold bindM, tryM.
  destruct (AddJob j s) as [[] s1]; simpl in *; [..|done];
    (eapply keeps_trans; [exact Hk|apply IH]).
Qed.

Lemma Start_runs js s s' : Start js s = (Ok tt, s') → runs_iff true s'.
Proof.
  unfold Start, bindM, nil_cron, crashM. repeat case_match; intros [= <-]; by split.
Qed.

Lemma Start_no_Err js s e s' : Start js s ≠ (Err e, s').
Proof.
  unfold Start. unfold bindM at 1.
  assert (∀ s0 e' s1, AddJobs js s0 ≠ (Err e', s1)) as HA.
  { induction js as [|j js IH]; intros s0 e' s1; simpl; [done|]. unfold bindM, tryM.
    destruct (AddJob j s0) as [[] s2]; [apply IH|apply IH|done]. }
  destruct (AddJobs js _) as [[] s1] eqn:E; [|by destruct (HA _ _ _ E)|done].
  unfold nil_cron, crashM. by case_match.
Qed.

Lemma Stop_runs b s :
  runs_iff b s → ∃ s', Stop s = (Ok tt, s') ∧ runs_iff false s'.
Proof.
  intros [H1 H2]. unfold Stop. destruct (Started s) eqn:Es.
  - destruct (Cron s); [by eexists|]. subst b. by destruct (H2 eq_refl).
  - by eexists.
Qed.

(** ** The phases of the loop *)

Lemma establish_runs n :
  match establishLeadership n with
  | (Ok _, n') => runs_iff true n'.(n_sched)
  | (Err _, _) => False
  | (Crash _, _) => True
  end.
Proof.
  unfold establishLeadership. unfold bindM at 1. unfold tryM, on_db.
  destruct (GetJobs None (n_db n)) as [[js|e|w] d]; simpl; [|done..]. unfold on_sched. simpl.
  destruct (Start js (n_sched n)) as [[[]|e|w] s'] eqn:E; simpl; [by eapply Start_runs| |done].
  by destruct (Start_no_Err js (n_sched n) e s').
Qed.

Lemma on_agent_sched {A} (m : M (Agent R) A) n : (on_agent m n).2.(n_sched) = n.(n_sched).
Proof. unfold on_agent. by destruct (m (n_agent n)). Qed.

Lemma reconcile_pass_runs est n l n' :
  runs_iff est n.(n_sched) → reconcile_pass est n = (Ok l, n') →
  runs_iff l.(established) n'.(n_sched).
Proof.
  intros Hn. unfold reconcile_pass. unfold bindM at 1. unfold tryM at 1.
  pose proof (on_agent_sched (on_raft raft_Barrier) n) as E.
  destruct (on_agent (on_raft raft_Barrier) n) as [[|e|w] n1]; simpl in E; [| |done].
  2: { intros [= <- <-]. simpl. by rewrite E. }
  rewrite <- E in Hn. clear E n. unfold bindM at 1. destruct est.
  - unfold retM at 1. unfold bindM, tryM.
    pose proof (on_agent_sched reconcile n1) as E.
    destruct (on_agent reconcile n1) as [[|e|w] n2]; simpl in E; [..|done];
      intros [= <- <-]; simpl; by rewrite E.
  - unfold bindM at 1. unfold tryM at 1. pose proof (establish_runs n1) as He.
    destruct (establishLeadership n1) as [[|e|w] n2]; [|done..].
    unfold retM at 1. unfold bindM, tryM.
    pose proof (on_agent_sched reconcile n2) as E.
    destruct (on_agent reconcile n2) as [[|e|w] n3]; simpl in E; [..|done];
      intros [= <- <-]; simpl; by rewrite E.
Qed.

Lemma on_event_inv e s s' : sched_inv s → on_event e s = (Ok tt, s') → sched_inv s'.
Proof.
  unfold sched_inv. intros Hs. unfold on_event, run_loop, is_established in *.
  destruct e as [[]| |], (m_loop s) as [l|] eqn:El; try (intros [= <-]; by rewrite El).
  - destruct (reconcile_pass false (m_node s)) as [[l| |] n] eqn:E; [|done..].
    intros [= <-]. by eapply reconcile_pass_runs.
  - destruct (established l).
    + unfold revokeLeadership, on_sched. destruct (Stop_runs true _ Hs) as (s1 & -> & H1).
      by intros [= <-].
    + by intros [= <-].
  - destruct (reconcile_pass (established l) (m_node s)) as [[l'| |] n] eqn:E; [|done..].
    intros [= <-]. by eapply reconcile_pass_runs.
  - destruct (listening l); [|intros [= <-]; by rewrite El].
    destruct (a_reconcileCh (n_agent (m_node s))) as [[[|m buf] cap]|];
      [intros [= <-]; by rewrite El| |intros [= <-]; by rewrite El].
    match goal with |- context [on_agent ?m ?n] =>
      pose proof (on_agent_sched m n) as E; destruct (on_agent m n) as [[] n'] end;
      simpl in E; intros [= <-]; simpl; by rewrite E.
Qed.

End Loops.
