(* ===== verification/LeaderReconcile.v ===== *)
(** * What the leader's reconciliation achieves *)
From Stdlib Require Import ZArith Lia.
From stdpp Require Import base list gmap strings pretty.
From S2P Require Import Prelude GoStrings GoNet GoTime Pb NTime ExtCron Execution Job BuntDB Store.
From S2P Require Import Instances Scheduler Config Cluster ClusterProps Leader.

#[local] Open Scope Z_scope.

Section ReconcileProps.
Context {VS : Versions} {R : Type} {RF : Raft R}.

(** A server of the configuration that stands in the way of a new one. *)
Definition clashes (id addr : string) (s : RaftServer) : Prop :=
  s.(RS_Address) = addr ∨ s.(RS_ID) = id.

#[local] Instance clashes_dec id addr s : Decision (clashes id addr s).
Proof. unfold clashes. apply _. Defined.

Lemma nodup_id (l : list RaftServer) s1 s2 :
  NoDup (RS_ID <$> l) → s1 ∈ l → s2 ∈ l → s1.(RS_ID) = s2.(RS_ID) → s1 = s2.
Proof.
  intros Hn H1 H2 E. apply list_elem_of_lookup in H1 as [i Hi], H2 as [j Hj].
  assert (i = j) as ->; [|congruence]. eapply NoDup_lookup; [exact Hn|..];
    rewrite list_lookup_fmap; [by rewrite Hi|]. rewrite Hj. simpl. by rewrite E.
Qed.

Lemma nodup_address (l : list RaftServer) s1 s2 :
  NoDup (RS_Address <$> l) → s1 ∈ l → s2 ∈ l → s1.(RS_Address) = s2.(RS_Address) → s1 = s2.
Proof.
  intros Hn H1 H2 E. apply list_elem_of_lookup in H1 as [i Hi], H2 as [j Hj].
  assert (i = j) as ->; [|congruence]. eapply NoDup_lookup; [exact Hn|..];
    rewrite list_lookup_fmap; [by rewrite Hi|]. rewrite Hj. simpl. by rewrite E.
Qed.

(** A server that is there already is left alone. *)
Lemma remove_duplicates_found id addr l r s :
  NoDup (RS_ID <$> l) → NoDup (RS_Address <$> l) → s ∈ l →
  s.(RS_ID) = id → s.(RS_Address) = addr → remove_duplicates id addr l r = (Ok true, r).
Proof.
  intros Hi Ha Hs Eid Eaddr. induction l as [|x l IH]; [set_solver|]. cbn [remove_duplicates].
  destruct (decide (x = s)) as [->|Hne].
  { by rewrite !bool_decide_eq_true_2. }
  assert (x.(RS_Address) ≠ addr ∧ x.(RS_ID) ≠ id) as [H1 H2].
  { split; intros E; apply Hne; [eapply nodup_address|eapply nodup_id]; try done;
      [set_solver|congruence|set_solver|congruence]. }
  rewrite !bool_decide_eq_false_2 by done. simpl.
  rewrite fmap_cons, NoDup_cons in Hi, Ha. apply IH; [naive_solver..|set_solver].
Qed.

(** Otherwise the servers that clash are gone. *)
Lemma remove_duplicates_clear id addr l r r' b :
  raft_wf r → (∀ s, s ∈ l → ¬ (s.(RS_ID) = id ∧ s.(RS_Address) = addr)) →
  remove_duplicates id addr l r = (Ok b, r') →
  b = false ∧ raft_wf r' ∧
  raft_servers r' =
    filter (λ s, s.(RS_ID) ∉ RS_ID <$> filter (clashes id addr) l) (raft_servers r).
Proof.
  revert r. induction l as [|x l IH]; intros r Hwf Hno; cbn [remove_duplicates].
  { intros [= <- <-]. split_and!; [done..|]. symmetry. apply filter_all. set_solver. }
  destruct (decide (clashes id addr x)) as [Hc|Hc].
  - assert (bool_decide (RS_Address x = addr) || bool_decide (RS_ID x = id) = true) as ->.
    { apply orb_true_iff. rewrite !bool_decide_eq_true. exact Hc. }
    assert (bool_decide (RS_Address x = addr) && bool_decide (RS_ID x = id) = false) as ->.
    { apply not_true_iff_false. rewrite andb_true_iff, !bool_decide_eq_true. intros [? ?].
      apply (Hno x); [set_solver|done]. }
    unfold bindM at 1. unfold tryM. pose proof (RemoveServer_wf (RS_ID x) r Hwf) as Hwf1.
    destruct (raft_RemoveServer (RS_ID x) r) as [[[]|e|w] r1] eqn:E; simpl in Hwf1; [|done..].
    apply RemoveServer_Ok in E. intros H. apply IH in H as (-> & Hwf' & Hf);
      [|done|set_solver]. split_and!; [done..|]. rewrite Hf, E, list_filter_filter.
    rewrite (filter_cons_True _ x) by done. apply list_filter_iff. intros s.
    rewrite fmap_cons, not_elem_of_cons. tauto.
  - assert (bool_decide (RS_Address x = addr) || bool_decide (RS_ID x = id) = false) as ->.
    { apply not_true_iff_false. rewrite orb_true_iff, !bool_decide_eq_true. exact Hc. }
    rewrite (filter_cons_False _ x) by done. intros H. eapply IH; [done|set_solver|done].
Qed.

Lemma filter_clashes id addr l :
  NoDup (RS_ID <$> l) →
  filter (λ s, s.(RS_ID) ∉ RS_ID <$> filter (clashes id addr) l) l =
  filter (λ s, ¬ clashes id addr s) l.
Proof.
  intros Hn. assert (∀ s, s ∈ l →
    (s.(RS_ID) ∉ RS_ID <$> filter (clashes id addr) l ↔ ¬ clashes id addr s)) as Hiff.
  { intros s Hs. split.
    - intros H Hc. apply H, list_elem_of_fmap_2, list_elem_of_filter. done.
    - intros Hc (s' & E & [Hc' Hs']%list_elem_of_filter)%list_elem_of_fmap. apply Hc.
      by rewrite (nodup_id l s s' Hn Hs Hs' E). }
  clear Hn. revert Hiff. generalize (RS_ID <$> filter (clashes id addr) l). intros ids.
  induction l as [|x l IH]; intros Hiff; [done|].
  rewrite !filter_cons. destruct (Hiff x) as [H1 H2]; [set_solver|].
  rewrite (IH (λ s Hs, Hiff s (list_elem_of_further _ _ _ Hs))).
  repeat case_decide; try done; tauto.
Qed.

Lemma set_voter_new id addr l :
  (∀ s, s ∈ l → s.(RS_ID) ≠ id) → set_voter id addr l = l ++ [mkRaftServer id addr Voter].
Proof.
  induction l as [|s l IH]; intros H; [done|]. simpl.
  rewrite bool_decide_eq_false_2 by (apply H; set_solver). f_equal. apply IH. set_solver.
Qed.

(** The server [m] is in the configuration of [a']; the servers that do not clash with
    it are those of [a]. *)
Definition placed (id addr : string) (a a' : Agent R) : Prop :=
  (∃ s, s ∈ raft_servers a'.(a_raft) ∧ s.(RS_ID) = id ∧ s.(RS_Address) = addr) ∧
  ∀ s, ¬ clashes id addr s → (s ∈ raft_servers a'.(a_raft) ↔ s ∈ raft_servers a.(a_raft)).

(** Why [addRaftPeer] may do nothing: two servers in bootstrap mode, or the leader
    itself in a small cluster. *)
Definition add_skipped (m : Member) (parts : ServerParts) (a : Agent R) : Prop :=
  (parts.(SP_Bootstrap) = true ∧ other_bootstrap m a.(a_serf) = true) ∨
  (m.(Member_Name) = a.(a_config).(NodeName) ∧ (length (raft_servers a.(a_raft)) < 3)%nat).

Definition same_agent (a a' : Agent R) : Prop :=
  a'.(a_config) = a.(a_config) ∧ a'.(a_serf) = a.(a_serf).

Lemma addRaftPeer_run m parts (a a' : Agent R) :
  raft_wf a.(a_raft) → addRaftPeer m parts a = (Ok tt, a') →
  raft_wf a'.(a_raft) ∧ same_agent a a' ∧
  (add_skipped m parts a ∧ a' = a ∨ placed parts.(SP_ID) (peer_address m parts) a a').
Proof.
  intros Hwf. unfold addRaftPeer, getM. unfold bindM at 1.
  destruct (SP_Bootstrap parts && other_bootstrap m (a_serf a)) eqn:Hb.
  { intros [= <-]. apply andb_true_iff in Hb. split_and!; [done..|]. left. split; [by left|done]. }
  unfold liftM. unfold bindM at 1.
  destruct (raft_GetConfiguration (a_raft a)) as [l| |] eqn:Hl; [|done..].
  apply GetConfiguration_Ok in Hl as ->.
  destruct (bool_decide _ && bool_decide _) eqn:Hself.
  { intros [= <-]. apply andb_true_iff in Hself. rewrite !bool_decide_eq_true in Hself.
    split_and!; [done..|]. left. split; [by right|done]. }
  set (id := SP_ID parts). set (addr := peer_address m parts). unfold bindM, on_raft.
  pose proof (raft_ids _ Hwf) as Hids. pose proof (raft_addresses _ Hwf) as Haddrs.
  destruct (decide (Exists (λ s, RS_ID s = id ∧ RS_Address s = addr) (raft_servers (a_raft a))))
    as [Hex|Hex].
  - apply Exists_exists in Hex as (s & Hs & E1 & E2).
    rewrite (remove_duplicates_found _ _ _ _ s) by done. intros [= <-].
    split_and!; [done..|]. right. split; [by exists s|done].
  - rewrite Exists_exists in Hex.
    destruct (remove_duplicates id addr (raft_servers (a_raft a)) (a_raft a))
      as [[b|e|w] r1] eqn:E1; [|done..].
    apply remove_duplicates_clear in E1 as (-> & Hwf1 & Hs1); [|done|naive_solver].
    rewrite filter_clashes in Hs1 by done. simpl.
    pose proof (AddVoter_wf id addr r1 Hwf1) as Hwf2.
    destruct (raft_AddVoter id addr r1) as [[[]|e|w] r2] eqn:E2; [|done..]. intros [= <-].
    apply AddVoter_Ok in E2. rewrite Hs1, set_voter_new in E2.
    2: { intros s [Hc _]%list_elem_of_filter E. apply Hc. by right. }
    split_and!; [done..|]. right. unfold placed. simpl. rewrite E2. split.
    + eexists. split; [apply elem_of_app; right; by apply list_elem_of_singleton|done].
    + intros s Hc. rewrite elem_of_app, list_elem_of_filter, list_elem_of_singleton.
      split; [|tauto]. intros [?|E]; [tauto|]. subst s. exfalso. apply Hc. by left.
Qed.

Lemma removeRaftPeer_run m parts (a a' : Agent R) :
  raft_wf a.(a_raft) → removeRaftPeer m parts a = (Ok tt, a') →
  raft_wf a'.(a_raft) ∧ same_agent a a' ∧
  raft_servers a'.(a_raft) = filter (λ s, s.(RS_ID) ≠ parts.(SP_ID)) (raft_servers a.(a_raft)).
Proof.
  intros Hwf. unfold removeRaftPeer, getM, liftM. unfold bindM at 1. unfold bindM at 1.
  destruct (raft_GetConfiguration (a_raft a)) as [l| |] eqn:Hl; [|done..].
  apply GetConfiguration_Ok in Hl as ->. destruct (existsb _ _) eqn:Hex.
  - unfold on_raft. pose proof (RemoveServer_wf (SP_ID parts) _ Hwf) as Hwf1.
    destruct (raft_RemoveServer (SP_ID parts) (a_raft a)) as [[[]|e|w] r1] eqn:E; [|done..].
    intros [= <-]. split_and!; [done..|]. by apply RemoveServer_Ok in E.
  - intros [= <-]. split_and!; [done..|]. symmetry. apply filter_all. intros s Hs E.
    apply not_true_iff_false in Hex. apply Hex, existsb_exists. exists s.
    split; [by apply list_elem_of_In|]. by apply bool_decide_eq_true.
Qed.

(** What the configuration is to say about a member. *)
Definition settled (m : Member) (parts : ServerParts) (a : Agent R) : Prop :=
  (m.(Member_Status) = StatusAlive → m.(Member_Name) ≠ a.(a_config).(NodeName) →
   ∃ s, s ∈ raft_servers a.(a_raft) ∧ s.(RS_ID) = m.(Member_Name) ∧
        s.(RS_Address) = peer_address m parts) ∧
  (m.(Member_Status) = StatusLeft → ∀ s, s ∈ raft_servers a.(a_raft) → s.(RS_ID) ≠ m.(Member_Name)).

Definition no_bootstrap_clash (a : Agent R) : Prop :=
  ∀ m parts, isServer m = Some parts → parts.(SP_Bootstrap) = true →
    m ∈ a.(a_serf) → other_bootstrap m a.(a_serf) = false.

Lemma reconcileMember_settles m parts (a a' : Agent R) :
  raft_wf a.(a_raft) → no_bootstrap_clash a → m ∈ a.(a_serf) →
  isServer m = Some parts → parts.(SP_Region) = a.(a_config).(Region) →
  reconcileMember m a = (Ok tt, a') → settled m parts a'.
Proof.
  intros Hwf Hnb Hm Hs Hr. unfold reconcileMember, getM. unfold bindM at 1. rewrite Hs.
  rewrite bool_decide_eq_false_2 by naive_solver.
  destruct (isServer_fields _ _ Hs) as (Eid & _ & _).
  unfold settled. destruct (Member_Status m) eqn:Est; try (by intros [= <-]).
  - intros H. destruct (addRaftPeer_run _ _ _ _ Hwf H) as (_ & [Ec _] & Hp). split; [|done].
    intros _ Hne. destruct Hp as [[[[Hb Ho]|[Hn _]] ->]|[(s & ? & ? & ?) _]].
    + rewrite (Hnb m parts) in Ho by done. done.
    + done.
    + exists s. split_and!; [done|congruence|done].
  - intros H. destruct (removeRaftPeer_run _ _ _ _ Hwf H) as (_ & _ & E). split; [done|].
    intros _ s. rewrite E, list_elem_of_filter. rewrite Eid. naive_solver.
Qed.

(** The members clash when they have one name, or are both alive at one address. *)
Definition apart (m m' : Member) : Prop :=
  m.(Member_Name) ≠ m'.(Member_Name) ∧
  ∀ p p', isServer m = Some p → isServer m' = Some p' →
    m.(Member_Status) = StatusAlive → m'.(Member_Status) = StatusAlive →
    peer_address m p ≠ peer_address m' p'.

Lemma reconcileMember_keeps m parts m' (a a' : Agent R) :
  raft_wf a.(a_raft) → isServer m = Some parts → apart m m' → settled m parts a →
  reconcileMember m' a = (Ok tt, a') →
  raft_wf a'.(a_raft) ∧ same_agent a a' ∧ settled m parts a'.
Proof.
  intros Hwf Hs [Hname Haddr] Hset. unfold reconcileMember, getM. unfold bindM at 1.
  destruct (isServer m') as [p'|] eqn:Hs'; [|by intros [= <-]].
  case_bool_decide; [by intros [= <-]|].
  destruct (isServer_fields _ _ Hs') as (Eid & _ & _).
  destruct (Member_Status m') eqn:Est; try (by intros [= <-]).
  - intros H'. destruct (addRaftPeer_run _ _ _ _ Hwf H') as (? & [Ec Ese] & Hp).
    split_and!; [done|done|]. destruct Hp as [[_ ->]|[(s' & Hs1 & Hs2 & Hs3) Hrest]]; [done|].
    destruct Hset as [Hal Hle]. split.
    + intros Ha Hn. rewrite Ec in Hn. destruct (Hal Ha Hn) as (s & Hin & E1 & E2).
      exists s. split_and!; [|done..]. apply Hrest; [|done]. intros [E|E].
      * apply (Haddr parts p'); [done..|congruence].
      * congruence.
    + intros Hl s Hin E. destruct (decide (clashes (SP_ID p') (peer_address m' p') s)) as [Hc|Hc].
      * destruct Hc as [Hc|Hc]; [|congruence].
        assert (s = s') as ->; [|congruence].
        eapply nodup_address; [by apply raft_addresses|done..|congruence].
      * by apply (Hle Hl s); [apply Hrest|].
  - intros H'. destruct (removeRaftPeer_run _ _ _ _ Hwf H') as (? & [Ec Ese] & E).
    split_and!; [done|done|]. destruct Hset as [Hal Hle]. split.
    + intros Ha Hn. rewrite Ec in Hn. destruct (Hal Ha Hn) as (s & Hin & E1 & E2).
      exists s. split_and!; [|done..]. rewrite E. apply list_elem_of_filter.
      split; [congruence|done].
    + intros Hl s. rewrite E, list_elem_of_filter. intros [_ Hin]. by apply Hle.
Qed.

Lemma reconcileMember_wf m (a a' : Agent R) :
  raft_wf a.(a_raft) → reconcileMember m a = (Ok tt, a') →
  raft_wf a'.(a_raft) ∧ same_agent a a'.
Proof.
  intros Hwf. unfold reconcileMember, getM. unfold bindM at 1.
  destruct (isServer m) as [p|]; [|by intros [= <-]].
  case_bool_decide; [by intros [= <-]|].
  destruct (Member_Status m); try (by intros [= <-]); intros H'.
  - by destruct (addRaftPeer_run _ _ _ _ Hwf H') as (? & ? & _).
  - by destruct (removeRaftPeer_run _ _ _ _ Hwf H') as (? & ? & _).
Qed.

Lemma reconcile_members_keeps m parts ms (a a' : Agent R) :
  raft_wf a.(a_raft) → isServer m = Some parts → (∀ m', m' ∈ ms → apart m m') →
  settled m parts a → reconcile_members ms a = (Ok tt, a') → settled m parts a'.
Proof.
  intros Hwf Hs. revert a Hwf. induction ms as [|m' ms IH]; intros a Hwf Hap Hset; simpl.
  { by intros [= <-]. }
  unfold bindM. destruct (reconcileMember m' a) as [[[]| |] a1] eqn:E; [|done..].
  destruct (reconcileMember_keeps m parts m' a a1) as (Hwf1 & _ & Hset1);
    [done|done|apply Hap; set_solver|done|done|].
  apply IH; [done| |done]. set_solver.
Qed.

Lemma reconcile_members_settle ms m parts (a a' : Agent R) :
  raft_wf a.(a_raft) → no_bootstrap_clash a → ms ⊆ a.(a_serf) → NoDup ms →
  (∀ m1 m2, m1 ∈ ms → m2 ∈ ms → m1 ≠ m2 → apart m1 m2) →
  m ∈ ms → isServer m = Some parts → parts.(SP_Region) = a.(a_config).(Region) →
  reconcile_members ms a = (Ok tt, a') → settled m parts a'.
Proof.
  revert a. induction ms as [|m' ms IH]; intros a Hwf Hnb Hsub Hnd Hap Hm Hs Hr; [set_solver|].
  apply NoDup_cons in Hnd as [Hn Hnd]. simpl. unfold bindM.
  destruct (reconcileMember m' a) as [[[]| |] a1] eqn:E; [|done..].
  destruct (reconcileMember_wf _ _ _ Hwf E) as [Hwf1 [Ec Ese]].
  apply elem_of_cons in Hm as [->|Hm].
  - intros Hrun. eapply reconcile_members_keeps; [exact Hwf1|done| | |exact Hrun].
    + intros m2 Hm2. apply Hap; [set_solver..|]. by intros ->.
    + by apply (reconcileMember_settles m' parts a a1); [..|set_solver| | |].
  - apply IH; try done.
    + intros x p. rewrite Ese. apply Hnb.
    + rewrite Ese. set_solver.
    + intros m1 m2 H1 H2. apply Hap; set_solver.
    + congruence.
Qed.


(** A new server takes its place in raft's configuration.  When [addRaftPeer]
    succeeds, either it had a reason to do nothing (another server is in bootstrap
    mode, or it is the leader itself in a cluster of less than three) or the
    configuration has the server, by name and address, and otherwise exactly the
    servers it had that share neither. *)
Theorem addRaftPeer_spec m parts (a a' : Agent R) :
  raft_wf a.(a_raft) → isServer m = Some parts → addRaftPeer m parts a = (Ok tt, a') →
  add_skipped m parts a ∧ a' = a ∨
  placed m.(Member_Name) (TCPAddr_String parts.(SP_Addr)) a a'.
Proof.
  intros Hwf Hs H. destruct (isServer_fields _ _ Hs) as (Eid & _ & Ea). rewrite Ea, <- Eid.
  by apply (addRaftPeer_run m parts a a' Hwf H).
Qed.

(** A member that serf has reaped is not removed from raft: the status that
    [localMemberEvent] gives it is one that [reconcileMember] does nothing for. *)
Theorem reaped_member_stays m (a : Agent R) :
  reconcileMember (set_Status StatusReap m) a = (Ok tt, a).
Proof.
  unfold reconcileMember, getM. unfold bindM at 1.
  destruct (isServer _); [|done]. by case_bool_decide.
Qed.
End ReconcileProps.

(** ** Examples *)
Module ClusterExample.

(** A raft node that carries out every operation, refusing configurations with two
    servers of one id or address. *)
Record toyraft := mkToyraft
  { t_servers : list RaftServer; t_leader : string; t_index : Z; t_leads : bool }.

Definition distinct (l : list RaftServer) : Prop :=
  NoDup (RS_ID <$> l) ∧ NoDup (RS_Address <$> l).
#[local] Instance distinct_dec l : Decision (distinct l).
Proof. unfold distinct. apply _. Defined.

Definition t_change (l : list RaftServer) : M toyraft unit := λ r,
  if decide (distinct l) then (Ok tt, mkToyraft l r.(t_leader) r.(t_index) r.(t_leads))
  else (Err (ErrOther "found duplicate server"), r).

#[export, refine] Instance ToyRaft : Raft toyraft := {|
  raft_wf r := distinct r.(t_servers);
  raft_IsLeader r := r.(t_leads);
  raft_Leader r := r.(t_leader);
  raft_LastIndex r := Ok r.(t_index);
  raft_servers r := r.(t_servers);
  raft_GetConfiguration r := Ok r.(t_servers);
  raft_BootstrapCluster l := t_change l;
  raft_AddVoter id addr := λ r, t_change (set_voter id addr r.(t_servers)) r;
  raft_RemoveServer id := λ r, t_change (filter (λ s, s.(RS_ID) ≠ id) r.(t_servers)) r;
  raft_Barrier := retM tt
|}.
Proof.
  - by intros r l [= <-].
  - by intros r [].
  - by intros r [].
  - intros id addr r Hr. unfold t_change. by case_decide.
  - intros id r Hr. unfold t_change. by case_decide.
  - intros id addr r r'. unfold t_change. by case_decide; intros [= <-].
  - intros id r r'. unfold t_change. by case_decide; intros [= <-].
Defined.

#[export] Instance ToyVersions : Versions :=
  {| version := string; NewVersion s := Ok s; Version_zero := "" |}.

(** Two servers, the second at address 10.0.0.2. *)
Definition toy_config (name : string) : Config :=
  match DefaultConfig (Ok name) with
  | Ok c => mkConfig name c.(BindAddr) c.(HTTPAddr) c.(Profile) "" ∅ true "" [] [] 0 0 6868 6868
      "info" "dc1" "global" false 2 "" false 0 1 "" 0 "" "" "" "" "" "" "" [] "" [] "" "24h" false
  | _ => mkConfig "" "" "" "" "" ∅ true "" [] [] 0 0 0 0 "" "" "" false 0 "" false 0 1
      "" 0 "" "" "" "" "" "" "" [] "" [] "" "" false
  end.

Definition node1 : Member :=
  node_member "3.0" (toy_config "node1") [10; 0; 0; 1] StatusAlive.
Definition node2 : Member :=
  node_member "3.0" (toy_config "node2") [10; 0; 0; 2] StatusAlive.
Definition node3 : Member :=
  node_member "3.0" (toy_config "node3") [10; 0; 0; 3] StatusLeft.

Definition parts_of (m : Member) : ServerParts :=
  default (mkServerParts "" "" "" "" 0 false 0 "" (mkTCPAddr [] 0) (mkTCPAddr [] 0) StatusNone)
    (isServer m).

(** The leader [node1] knows [node2] at an old address and [node3], which has left. *)
Definition raft0 : toyraft :=
  mkToyraft [mkRaftServer "node1" "10.0.0.1:6868" Voter; mkRaftServer "node2" "10.0.0.9:6868" Voter;
             mkRaftServer "node3" "10.0.0.3:6868" Voter] "10.0.0.1:6868" 7 true.
Definition agent0 : Agent toyraft :=
  NewAgent (toy_config "node1") [node1; node2; node3] raft0.

Example isServer_node2 : isServer node2 = Some (parts_of node2).
Proof. vm_compute. reflexivity. Qed.

Example leader_found : leaderMember agent0 = Ok node1.
Proof. vm_compute. reflexivity. Qed.

Lemma isServer_roundtrip_witness :
  isServer node1 = Some (mkServerParts "node1" "node1" "global" "dc1" 6868 false 2 "3.0"
    (mkTCPAddr [10; 0; 0; 1] 6868) (mkTCPAddr [10; 0; 0; 1] 6868) StatusAlive).
Proof.
  refine (proj1 (isServer_roundtrip "3.0" (toy_config "node1") [10; 0; 0; 1] StatusAlive
    (or_introl eq_refl) _ _ eq_refl eq_refl eq_refl));
    refine (bool_decide_unpack _ _); vm_compute; exact I.
Defined.

Lemma empty_rep : peers_rep ∅ ∅.
Proof.
  split; [done|constructor| |done]. intros r p. split; [|by intros [_ ?]].
  unfold region_peers. rewrite lookup_empty. set_solver.
Qed.

Definition join_event : MemberEvent := mkMemberEvent EventMemberJoin [node1; node2].

Lemma handle_event_peers_witness :
  ∃ a', handle_event join_event agent0 = (Ok tt, a') ∧
    peers_rep a'.(a_peers) (spec_event join_event ∅).
Proof.
  destruct (handle_event join_event agent0) as [r a'] eqn:E.
  assert (r = Ok tt) as Hr by (change r with (r, a').1; rewrite <- E; vm_compute; reflexivity).
  subst r. exists a'. split; [reflexivity|].
  exact (handle_event_peers join_event agent0 a' ∅ empty_rep E).
Defined.

Lemma wf0 : raft_wf agent0.(a_raft).
Proof. refine (bool_decide_unpack _ _). vm_compute. exact I. Qed.

Lemma addRaftPeer_spec_witness :
  ∃ a', addRaftPeer node2 (parts_of node2) agent0 = (Ok tt, a') ∧
    placed "node2" "10.0.0.2:6868" agent0 a'.
Proof.
  destruct (addRaftPeer node2 (parts_of node2) agent0) as [r a'] eqn:E.
  assert (r = Ok tt) as Hr by (change r with (r, a').1; rewrite <- E; vm_compute; reflexivity).
  subst r. exists a'. split; [reflexivity|].
  destruct (addRaftPeer_spec node2 (parts_of node2) agent0 a' wf0 isServer_node2 E)
    as [[Hskip _]|H]; [|exact H].
  exfalso. destruct Hskip as [[H _]|[H _]]; vm_compute in H; discriminate H.
Defined.

Lemma apart0 m1 m2 :
  m1 ∈ [node1; node2; node3] → m2 ∈ [node1; node2; node3] → m1 ≠ m2 → apart m1 m2.
Proof.
  intros H1 H2 Hne.
  assert (∀ n1 n2, (n1 = node1 ∨ n1 = node2 ∨ n1 = node3) → (n2 = node1 ∨ n2 = node2 ∨ n2 = node3) →
    n1 = n2 ∨ apart n1 n2) as H.
  { intros n1 n2 [->|[->| ->]] [->|[->| ->]]; try (by left); right;
      (split; [vm_compute; discriminate|]); intros p p' Hp Hp' Ha Ha';
      try (vm_compute in Ha; discriminate Ha); try (vm_compute in Ha'; discriminate Ha');
      vm_compute in Hp, Hp'; injection Hp as <-; injection Hp' as <-; vm_compute; discriminate. }
  destruct (H m1 m2); [set_solver|set_solver|done|done].
Qed.


(** The old address of [node2] is gone and [node3] too. *)
Example reconciled :
  t_servers (a_raft (reconcile agent0).2) =
    [mkRaftServer "node1" "10.0.0.1:6868" Voter; mkRaftServer "node2" "10.0.0.2:6868" Voter].
Proof. vm_compute. reflexivity. Qed.
End ClusterExample.

Module LeaderExample.
Import Toy SchedulerExample ClusterExample.

Definition server0 : monitor (db:=toydb) := initial agent0 ∅.
Definition server1 : monitor (db:=toydb) := (on_event (LeaderCh true) server0).2.

End LeaderExample.
