(* ===== verification/Targets.v ===== *)
(** * [processFilteredNodes] of [dkron/agent.go]: the nodes a job runs on

    A job names the tags its nodes must have, each as [value] or [value:count].  The
    candidates of every tag are collected, cut down at random to the count, and the
    candidates of all tags are intersected; the region of the agent is always one of
    the tags.  The order of Go's map iteration and the random shuffles are arguments,
    as is [go-intersect]. *)
From Stdlib Require Import ZArith Lia Ascii.
From stdpp Require Import base list gmap strings pretty.
From S2P Require Import Prelude GoStrings GoNet GoTime Pb NTime ExtCron Execution Job.
From S2P Require Import Config Cluster ClusterProps.

#[local] Open Scope Z_scope.

(** [intersect.Simple(a, b)] of [juliangruber/go-intersect]. *)
Class Intersect := {
  Simple : list string → list string → list string;
  Simple_spec a b x : x ∈ Simple a b ↔ x ∈ a ∧ x ∈ b
}.

Section Targets.
Context {IS : Intersect}.

(** What Go leaves open: the order in which a map is ranged over, and what
    [rand.Shuffle] does to the candidates of a tag. *)
Record Choices := mkChoices {
  ch_order : gmap string string → list (string * string);
  ch_shuffle : string → list string → list string
}.

Definition choices_ok (ch : Choices) : Prop :=
  (∀ m, ch.(ch_order) m ≡ₚ map_to_list m) ∧ (∀ k l, ch.(ch_shuffle) k l ≡ₚ l).

(** [tc := strings.Split(jtv, ":")]: the value, and the count when there are exactly
    two parts. *)
Definition tag_value (jtv : string) : string := default "" (head (Split ":" jtv)).
Definition tag_count (jtv : string) : option string :=
  match Split ":" jtv with
  | [_; count] => Some count
  | _ => None
  end.

(** The members that are alive and have the tag. *)
Definition has_tag (k v : string) (m : Member) : Prop :=
  m.(Member_Status) = StatusAlive ∧ m.(Member_Tags) !! k = Some v.
#[local] Instance has_tag_dec k v m : Decision (has_tag k v m).
Proof. unfold has_tag. apply _. Defined.

Definition tagged (k v : string) (members : list Member) : list string :=
  Member_Name <$> filter (has_tag k v) members.

(** One round of the loop over the tags. *)
Definition candidates (ch : Choices) (members : list Member) (jtk jtv : string) :
    res (list string) :=
  let cans := tagged jtk (tag_value jtv) members in
  match tag_count jtv with
  | None => Ok cans
  | Some c =>
      match Atoi c with
      | (count, None) => Ok (take (Z.to_nat count) (ch.(ch_shuffle) jtk cans))
      | (_, Some err) => Err err
      end
  end.

Fixpoint all_candidates (ch : Choices) (members : list Member) (tags : list (string * string)) :
    res (list (list string)) :=
  match tags with
  | [] => Ok []
  | (k, v) :: tags' =>
      cans <-? candidates ch members k v ;;
      rest <-? all_candidates ch members tags' ;;
      Ok (cans :: rest)
  end.

(** The address that a node is called at. *)
Definition node_addr (m : Member) : string :=
  match m.(Member_Tags) !! "rpc_addr" with
  | Some addr => addr
  | None => IP_String m.(Member_Addr)
  end.

Definition add_nodes (members : list Member) (nodes : gmap string string) (n : string) :
    gmap string string :=
  foldl (λ nodes m, if bool_decide (n = m.(Member_Name)) then <[n := node_addr m]> nodes
                    else nodes) nodes members.

(** The tags of the job and the region. *)
Definition target_tags (job : Job) (c : Config) : gmap string string :=
  <["region" := c.(Region)]> job.(Job_Tags).

(** [processFilteredNodes(job)]: the nodes with their addresses and the tags without
    counts. *)
Definition processFilteredNodes (ch : Choices) (job : Job) (c : Config) (members : list Member) :
    res (gmap string string * gmap string string) :=
  let tags := target_tags job c in
  candidates <-? all_candidates ch members (ch.(ch_order) tags) ;;
  match candidates with
  | [] => Crash "index out of range"
  | r :: rest =>
      Ok (foldl (add_nodes members) ∅ (foldl Simple r rest), tag_value <$> tags)
  end.

(** ** Which nodes *)

(** The member has all the tags. *)
Definition matches (tags : gmap string string) (m : Member) : Prop :=
  m.(Member_Status) = StatusAlive ∧
  ∀ k v, tags !! k = Some v → m.(Member_Tags) !! k = Some (tag_value v).

Lemma tagged_elem k v members n :
  n ∈ tagged k v members ↔ ∃ m, m ∈ members ∧ m.(Member_Name) = n ∧ has_tag k v m.
Proof.
  unfold tagged. rewrite list_elem_of_fmap. setoid_rewrite list_elem_of_filter. naive_solver.
Qed.

Lemma candidates_sub ch members k v l :
  choices_ok ch → candidates ch members k v = Ok l →
  ∀ n, n ∈ l → n ∈ tagged k (tag_value v) members.
Proof.
  intros [_ Hs]. unfold candidates. destruct (tag_count v) as [c|]; [|by intros [= <-]].
  destruct (Atoi c) as [count [err|]]; [done|]. intros [= <-] n Hn.
  rewrite <- (Hs k). by apply (subseteq_take (Z.to_nat count)).
Qed.

Lemma candidates_all ch members k v l :
  tag_count v = None → candidates ch members k v = Ok l → l = tagged k (tag_value v) members.
Proof. unfold candidates. intros ->. by intros [= <-]. Qed.

Lemma all_candidates_spec ch members tags ls :
  all_candidates ch members tags = Ok ls →
  Forall2 (λ kv l, candidates ch members kv.1 kv.2 = Ok l) tags ls.
Proof.
  revert ls. induction tags as [|[k v] tags IH]; intros ls; simpl; [intros [= <-]; constructor|].
  destruct (candidates ch members k v) as [l| |] eqn:E; [|done..]. simpl.
  destruct (all_candidates ch members tags) as [ls'| |]; [|done..]. intros [= <-].
  constructor; [done|auto].
Qed.

Lemma Simple_fold r rest x : x ∈ foldl Simple r rest ↔ ∀ l, l ∈ r :: rest → x ∈ l.
Proof.
  revert r. induction rest as [|l rest IH]; intros r; simpl.
  - setoid_rewrite list_elem_of_singleton. naive_solver.
  - rewrite IH. split.
    + intros H. destruct (proj1 (Simple_spec r l x) (H _ (list_elem_of_here _ _))).
      intros l' [->|[->|Hl]%elem_of_cons]%elem_of_cons; [done..|]. apply H. by right.
    + intros H l' [->|Hl]%elem_of_cons; [|by apply H; right; right].
      apply Simple_spec. split; apply H; set_solver.
Qed.

(** What the intersection holds: the names that every tag has as a candidate. *)
Lemma intersection_spec ch members tags r rest x :
  all_candidates ch members tags = Ok (r :: rest) →
  (x ∈ foldl Simple r rest ↔
   ∀ k v l, (k, v) ∈ tags → candidates ch members k v = Ok l → x ∈ l).
Proof.
  intros H%all_candidates_spec. rewrite Simple_fold. split.
  - intros Hx k v l Hkv Hl. apply list_elem_of_lookup in Hkv as [i Hi].
    destruct (Forall2_lookup_l _ _ _ _ _ H Hi) as (l' & Hi' & Hl'). simpl in Hl'.
    assert (l = l') as -> by congruence. apply Hx. by eapply list_elem_of_lookup_2.
  - intros Hx l [i Hi]%list_elem_of_lookup.
    destruct (Forall2_lookup_r _ _ _ _ _ H Hi) as ([k v] & Hi' & Hl').
    eapply Hx; [|exact Hl']. by eapply list_elem_of_lookup_2.
Qed.

Lemma add_nodes_none members nodes n :
  (∀ m, m ∈ members → m.(Member_Name) ≠ n) → add_nodes members nodes n = nodes.
Proof.
  unfold add_nodes. revert nodes. induction members as [|m ms IH]; intros nodes H; [done|]. simpl.
  rewrite bool_decide_eq_false_2 by (intros ->; apply (H m); [set_solver|done]).
  apply IH. set_solver.
Qed.

Lemma add_nodes_some members nodes m :
  NoDup (Member_Name <$> members) → m ∈ members →
  add_nodes members nodes m.(Member_Name) = <[m.(Member_Name) := node_addr m]> nodes.
Proof.
  intros Hnd (l1 & l2 & ->)%list_elem_of_split. rewrite fmap_app, fmap_cons, NoDup_app in Hnd.
  destruct Hnd as (_ & H1 & [H2 _]%NoDup_cons). unfold add_nodes. rewrite foldl_app. simpl.
  rewrite bool_decide_eq_true_2 by done. fold (add_nodes l1 nodes (Member_Name m)).
  rewrite add_nodes_none.
  - apply add_nodes_none. intros m' Hm' E. apply H2. rewrite <- E. by apply list_elem_of_fmap_2.
  - intros m' Hm' E. apply (H1 (Member_Name m)); [|left]. rewrite <- E. by apply list_elem_of_fmap_2.
Qed.

Lemma member_unique members m1 m2 :
  NoDup (Member_Name <$> members) → m1 ∈ members → m2 ∈ members →
  m1.(Member_Name) = m2.(Member_Name) → m1 = m2.
Proof.
  intros Hnd H1 H2 E. apply list_elem_of_lookup in H1 as [i Hi], H2 as [j Hj].
  assert (i = j) as ->; [|congruence]. eapply NoDup_lookup; [exact Hnd|..];
    rewrite list_lookup_fmap; [by rewrite Hi|]. rewrite Hj. simpl. by rewrite E.
Qed.

Lemma nodes_spec members r n a :
  NoDup (Member_Name <$> members) →
  foldl (add_nodes members) ∅ r !! n = Some a ↔
  n ∈ r ∧ ∃ m, m ∈ members ∧ m.(Member_Name) = n ∧ a = node_addr m.
Proof.
  intros Hnd. assert (∀ nodes, foldl (add_nodes members) nodes r !! n = Some a ↔
    (n ∈ r ∧ ∃ m, m ∈ members ∧ m.(Member_Name) = n ∧ a = node_addr m) ∨
    (nodes !! n = Some a ∧ ¬ (n ∈ r ∧ ∃ m, m ∈ members ∧ m.(Member_Name) = n))) as H.
  2: { rewrite H, lookup_empty. naive_solver. }
  pose proof (λ m1 m2, member_unique members m1 m2 Hnd) as Huniq.
  induction r as [|x r IH]; intros nodes; simpl; [set_solver|]. rewrite IH.
  destruct (decide (Exists (λ m, m.(Member_Name) = x) members)) as [Hex|Hex].
  - apply Exists_exists in Hex as (m & Hm & <-). rewrite add_nodes_some by done.
    destruct (decide (n = m.(Member_Name))) as [->|Hne].
    + rewrite lookup_insert_eq. rewrite elem_of_cons. split.
      * intros [[? ?]|[[= <-] _]]; left; (split; [by auto|by eauto]).
      * intros [[_ (m' & Hm' & E & ->)]|[_ Hn]].
        -- assert (m' = m) as -> by by apply Huniq.
           destruct (decide (m.(Member_Name) ∈ r)); [left; eauto|]. right. split; [done|].
           by intros [? _].
        -- exfalso. apply Hn. split; [by left|eauto].
    + rewrite lookup_insert_ne by done. rewrite elem_of_cons. naive_solver.
  - rewrite Exists_exists in Hex. rewrite add_nodes_none by naive_solver.
    rewrite elem_of_cons. naive_solver.
Qed.

Lemma processFilteredNodes_Ok ch job c members nodes tags' :
  choices_ok ch → processFilteredNodes ch job c members = Ok (nodes, tags') →
  ∃ r rest, all_candidates ch members (ch.(ch_order) (target_tags job c)) = Ok (r :: rest) ∧
    nodes = foldl (add_nodes members) ∅ (foldl Simple r rest).
Proof.
  intros _. unfold processFilteredNodes.
  destruct (all_candidates _ _ _) as [[|r rest]| |] eqn:E; [done| |done..].
  simpl. intros [= <- <-]. eauto.
Qed.

Lemma order_elem ch tags k v : choices_ok ch → (k, v) ∈ ch.(ch_order) tags ↔ tags !! k = Some v.
Proof. intros [Ho _]. by rewrite Ho, elem_of_map_to_list. Qed.

(** A candidate for every tag is the name of a member with all tags. *)
Lemma candidate_matches ch members tags k0 v0 n :
  choices_ok ch → NoDup (Member_Name <$> members) → tags !! k0 = Some v0 →
  (∀ k v, tags !! k = Some v → n ∈ tagged k (tag_value v) members) ↔
  (∃ m, m ∈ members ∧ m.(Member_Name) = n ∧ matches tags m).
Proof.
  intros Hch Hnd H0. split.
  - intros H. destruct (proj1 (tagged_elem _ _ _ _) (H _ _ H0)) as (m & Hm & Hn & Ha & _).
    exists m. split_and!; [done..|]. split; [done|]. intros k v Hk.
    destruct (proj1 (tagged_elem _ _ _ _) (H _ _ Hk)) as (m' & Hm' & Hn' & _ & Ht).
    assert (m = m') as ->; [|done]. eapply member_unique; [done..|congruence].
  - intros (m & Hm & Hn & Ha & Ht) k v Hk. apply tagged_elem. exists m.
    split_and!; [done..|]. split; auto.
Qed.


Lemma size_names (nodes : gmap string string) (l : list string) :
  (∀ n a, nodes !! n = Some a → n ∈ l) → (size nodes ≤ length l)%nat.
Proof.
  intros H. rewrite <- length_map_to_list, <- (length_fmap fst).
  apply submseteq_length, NoDup_submseteq; [apply NoDup_fst_map_to_list|].
  intros n ([n' a] & -> & Hin)%list_elem_of_fmap. apply elem_of_map_to_list in Hin. by eapply H.
Qed.

Lemma all_candidates_bad ch members tags :
  match all_candidates ch members tags with
  | Ok ls => length ls = length tags
  | Err e => ∃ k v, (k, v) ∈ tags ∧ candidates ch members k v = Err e
  | Crash _ => False
  end.
Proof.
  induction tags as [|[k v] tags IH]; simpl; [done|].
  destruct (candidates ch members k v) as [l|e|w] eqn:E; simpl.
  - destruct (all_candidates ch members tags) as [ls|e|w]; simpl; [by rewrite IH| |done].
    destruct IH as (k' & v' & ? & ?). exists k', v'. split; [by right|done].
  - exists k, v. split; [by left|done].
  - unfold candidates in E. repeat case_match; done.
Qed.

Lemma all_candidates_Err ch job c members e :
  processFilteredNodes ch job c members = Err e →
  ∃ k v, (k, v) ∈ ch.(ch_order) (target_tags job c) ∧ candidates ch members k v = Err e.
Proof.
  unfold processFilteredNodes. pose proof (all_candidates_bad ch members
    (ch.(ch_order) (target_tags job c))) as H.
  destruct (all_candidates _ _ _) as [[|]| |]; simpl; [done|done|by intros [= <-]|done].
Qed.

Lemma processFilteredNodes_no_crash ch job c members w :
  choices_ok ch → processFilteredNodes ch job c members ≠ Crash w.
Proof.
  intros Hch. unfold processFilteredNodes. pose proof (all_candidates_bad ch members
    (ch.(ch_order) (target_tags job c))) as H.
  destruct (all_candidates _ _ _) as [[|]| |]; simpl; [|done..].
  assert (("region", Region c) ∈ ch.(ch_order) (target_tags job c)) as Hin.
  { apply order_elem; [done|]. unfold target_tags. by rewrite lookup_insert_eq. }
  simpl in H. destruct (ch_order ch (target_tags job c)); [set_solver|done].
Qed.

(** Counts are upper bounds.  A tag [value:count] lets a job run on at most
    [count] nodes, none when the count is negative; a count that is not a number is an
    error, whatever the other tags are. *)
Theorem processFilteredNodes_count ch job c members k v count :
  choices_ok ch → NoDup (Member_Name <$> members) →
  target_tags job c !! k = Some v → tag_count v = Some count →
  match processFilteredNodes ch job c members with
  | Ok (nodes, _) => (Atoi count).2 = None ∧
      Z.of_nat (size nodes) ≤ Z.max 0 (Atoi count).1
  | Err e => ∃ k' v' count', target_tags job c !! k' = Some v' ∧ tag_count v' = Some count' ∧
      (Atoi count').2 = Some e
  | Crash _ => False
  end.
Proof.
  intros Hch Hnd Hk Hv. destruct (processFilteredNodes ch job c members) as [[nodes t]|e|w] eqn:E.
  - destruct (processFilteredNodes_Ok _ _ _ _ _ _ Hch E) as (r & rest & Hc & ->).
    pose proof (all_candidates_spec _ _ _ _ Hc) as HF.
    apply (order_elem ch) in Hk as Hin; [|done]. apply list_elem_of_lookup in Hin as [i Hi].
    destruct (Forall2_lookup_l _ _ _ _ _ HF Hi) as (l & _ & Hl). simpl in Hl.
    assert ((Atoi count).2 = None ∧ Z.of_nat (length l) ≤ Z.max 0 (Atoi count).1) as [Ha Hlen].
    { unfold candidates in Hl. rewrite Hv in Hl. destruct (Atoi count) as [n [err|]]; [done|].
      injection Hl as <-. split; [done|]. rewrite length_take. simpl. lia. }
    split; [done|]. etrans; [|exact Hlen]. apply Nat2Z.inj_le, size_names.
    intros n a. rewrite nodes_spec by done. intros [Hn _].
    rewrite (intersection_spec _ _ _ _ _ _ Hc) in Hn. eapply (Hn k v); [|exact Hl].
    by apply order_elem.
  - apply all_candidates_Err in E as (k' & v' & Hin & Hc). apply order_elem in Hin; [|done].
    exists k', v'. unfold candidates in Hc. destruct (tag_count v') as [c'|]; [|done].
    exists c'. split_and!; [done..|]. by destruct (Atoi c') as [? [?|]]; [injection Hc as ->|].
  - by apply processFilteredNodes_no_crash in E.
Qed.
End Targets.

(** ** Examples *)
Module TargetsExample.

#[export, refine] Instance ToyIntersect : Intersect := {| Simple a b := filter (λ x, x ∈ b) a |}.
Proof. intros a b x. rewrite list_elem_of_filter. tauto. Defined.

(** Ranging in the order of the map, and a shuffle that changes nothing. *)
Definition toy_choices : Choices := mkChoices map_to_list (λ _ l, l).
Lemma toy_choices_ok : choices_ok toy_choices.
Proof. by split. Qed.

(** Two web nodes, one in each region. *)
Definition web (name region : string) (ip : IP) : Member :=
  mkMember name ip (<["role" := "web"]> (<["region" := region]> ∅)) StatusAlive.
Definition web_eu : Member := web "n1" "eu" [10; 0; 0; 1].
Definition web_global : Member := web "n2" "global" [10; 0; 0; 2].

Definition tagged_job (v : string) : Job :=
  mkJob "job" "" "" "" "" "" 0 0 NullableTime_zero NullableTime_zero false
    {["role" := v]} ∅ 0 [] "" ∅ "allow" "shell" ∅ "" 0.

Definition global_config : Config :=
  mkConfig "leader" "" "" "" "" ∅ true "" [] [] 0 0 0 0 "" "" "global" false 0 "" false 0 1
    "" 0 "" "" "" "" "" "" "" [] "" [] "" "" false.

Definition two_nodes : list Member := [web_eu; web_global].

Lemma two_names : NoDup (Member_Name <$> two_nodes).
Proof. refine (bool_decide_unpack _ _). vm_compute. exact I. Qed.

Lemma matches_global : matches (target_tags (tagged_job "web") global_config) web_global.
Proof.
  split; [reflexivity|]. apply map_Forall_to_list. unfold map_to_list.
  refine (bool_decide_unpack _ _). vm_compute. exact I.
Qed.


Lemma processFilteredNodes_count_witness :
  match processFilteredNodes toy_choices (tagged_job "web:1") global_config two_nodes with
  | Ok (nodes, _) => Z.of_nat (size nodes) ≤ 1
  | _ => False
  end.
Proof.
  pose proof (processFilteredNodes_count toy_choices (tagged_job "web:1") global_config two_nodes
    "role" "web:1" "1" toy_choices_ok two_names eq_refl eq_refl) as H.
  destruct (processFilteredNodes toy_choices (tagged_job "web:1") global_config two_nodes)
    as [[nodes tags']| |] eqn:E; [|vm_compute in E; discriminate E..].
  exact (proj2 H).
Defined.

(** A count is spent on nodes that the other tags exclude.  With one web node in
    the region of the agent and one in another region, a job for one web node runs
    nowhere when the shuffle puts the other region's node first, although a node with
    all its tags is alive. *)
Theorem count_starves :
  choices_ok toy_choices ∧
  (∃ m, m ∈ two_nodes ∧ matches (target_tags (tagged_job "web:1") global_config) m) ∧
  ∃ tags', processFilteredNodes toy_choices (tagged_job "web:1") global_config two_nodes
    = Ok (∅, tags').
Proof.
  split; [exact toy_choices_ok|]. split.
  - exists web_global. split; [right; left|]. split; [reflexivity|].
    apply map_Forall_to_list. unfold map_to_list. refine (bool_decide_unpack _ _). vm_compute. exact I.
  - eexists. vm_compute. reflexivity.
Qed.
End TargetsExample.
