(* ===== verification/Notifier.v ===== *)
(** * [dkron/notifier.go]: notifications

    When an execution is over a report goes to the owner of the job by mail or to a
    webhook.  The message is computed here; its delivery (SMTP or HTTP) and the
    rendering of the configured template ([text/template]) are parameters, as is the
    text of an instant. *)
From Stdlib Require Import ZArith Lia Ascii.
From stdpp Require Import base list gmap strings pretty.
From S2P Require Import Prelude GoStrings GoNet GoTime Pb NTime ExtCron Execution Job Config.

#[local] Open Scope Z_scope.

(** ** [strings.TrimSpace] *)

(** [unicode.IsSpace(r)] *)
Definition IsSpace (r : Z) : bool :=
  in_range 9 13 r || (r =? 32) || (r =? 133) || (r =? 160) || (r =? 5760)
  || in_range 8192 8202 r || (r =? 8232) || (r =? 8233) || (r =? 8239) || (r =? 8287)
  || (r =? 12288).

(** The runes of a string, each with its bytes; the length of the string is enough
    fuel. *)
Fixpoint runes (fuel : nat) (s : string) : list (Z * string) :=
  match fuel, s with
  | S fuel', String _ _ =>
      let '(r, w) := decode_rune s in
      (r, take_bytes w s) :: runes fuel' (String.substring w (String.length s - w) s)
  | _, _ => []
  end.

Fixpoint trim_left (l : list (Z * string)) : list (Z * string) :=
  match l with
  | x :: l' => if IsSpace x.1 then trim_left l' else l
  | [] => []
  end.

Definition TrimSpace (s : string) : string :=
  Join (reverse (trim_left (reverse (trim_left (runes (String.length s) s))))).*2 "".

Example trim : TrimSpace "  a b	 " = "a b" ∧ TrimSpace "   " = "".
Proof. split; vm_compute; reflexivity. Qed.

(** ** Messages *)

(** [email.Email] with the server it is sent through; the credentials when a user name
    and a password are configured. *)
Record email := mkEmail {
  Email_To : list string;
  Email_From : string;
  Email_Subject : string;
  Email_Text : string;
  Email_Server : string;
  Email_Auth : option (string * string * string)
}.

(** The request to the webhook, with the headers in the order they are set. *)
Record webhook := mkWebhook {
  Webhook_URL : string;
  Webhook_Body : string;
  Webhook_Headers : list (string * string)
}.

Inductive message := Mail (e : email) | Hook (w : webhook).

(** The data of a template. *)
Record report_data := mkReportData {
  RD_Report : string;
  RD_JobName : string;
  RD_ReportingNode : string;
  RD_StartTime : time;
  RD_FinishedAt : time;
  RD_Success : string;
  RD_NodeName : string;
  RD_Output : string
}.

(** [time.Time.String()], [text/template], and what becomes of a message.  A template
    that does not parse is [None]. *)
Class Delivery := {
  Time_String : time → string;
  template_Render : string → option (report_data → res string);
  NewRequest_error : string → option error;
  deliver : message → res unit
}.

Section Notifier.
Context {DL : Delivery}.

(** [type Notifier struct] *)
Record Notifier := mkNotifier {
  N_Config : Config;
  N_Execution : Execution;
  N_ExecutionGroup : list Execution;
  N_Job : Job
}.

(** [Notification(config, execution, exGroup, job)] *)
Definition Notification (config : Config) (execution : Execution) (exGroup : list Execution)
    (job : Job) : Notifier := mkNotifier config execution exGroup job.

Definition tab : string := String (ascii_of_nat 9) "".
Definition newline : string := String (ascii_of_nat 10) "".

(** The lines of [report()] for the executions of the group. *)
Definition report_line (ex : Execution) : string :=
  tab +:+ "[Node]: " +:+ ex.(Ex_NodeName) +:+ " [Start]: " +:+ Time_String ex.(Ex_StartedAt)
    +:+ " [End]: " +:+ Time_String ex.(Ex_FinishedAt) +:+ " [Success]: "
    +:+ FormatBool ex.(Ex_Success) +:+ newline.

Definition report (n : Notifier) : string :=
  let ex := n.(N_Execution) in
  let exgStr := foldl (λ s e, s +:+ report_line e) "" n.(N_ExecutionGroup) in
  "Executed: " +:+ ex.(Ex_JobName) +:+ newline
    +:+ "Reporting node: " +:+ n.(N_Config).(NodeName) +:+ newline
    +:+ "Start time: " +:+ Time_String ex.(Ex_StartedAt) +:+ newline
    +:+ "End time: " +:+ Time_String ex.(Ex_FinishedAt) +:+ newline
    +:+ "Success: " +:+ FormatBool ex.(Ex_Success) +:+ newline
    +:+ "Node: " +:+ ex.(Ex_NodeName) +:+ newline
    +:+ "Output: " +:+ ex.(Ex_Output) +:+ newline
    +:+ "Execution group: " +:+ pretty ex.(Ex_Group) +:+ newline +:+ exgStr.

(** [buildTemplate(templ)]: [template.Must] panics on a template that does not parse. *)
Definition buildTemplate (n : Notifier) (templ : string) : res string :=
  match template_Render templ with
  | None => Crash "template: report"
  | Some render =>
      let ex := n.(N_Execution) in
      match render (mkReportData (report n) ex.(Ex_JobName) n.(N_Config).(NodeName)
                      ex.(Ex_StartedAt) ex.(Ex_FinishedAt) (FormatBool ex.(Ex_Success))
                      ex.(Ex_NodeName) ex.(Ex_Output)) with
      | Ok out => Ok out
      | Err e => Ok ("Failed to execute template:" +:+ Error e)
      | Crash w => Crash w
      end
  end.

(** [statusString(execution)] *)
Definition statusString (ex : Execution) : string :=
  if ex.(Ex_Success) then "Success" else "Failed".

(** [auth()] *)
Definition auth (n : Notifier) : option (string * string * string) :=
  let c := n.(N_Config) in
  if bool_decide (c.(MailUsername) ≠ "") && bool_decide (c.(MailPassword) ≠ "")
  then Some (c.(MailUsername), c.(MailPassword), c.(MailHost)) else None.

(** The messages handed to the network so far. *)
Definition outbox : Type := list message.

Definition send_message (m : message) : M outbox unit := λ sent, (deliver m, sent ++ [m]).

(** [sendExecutionEmail()] *)
Definition sendExecutionEmail (n : Notifier) : M outbox unit :=
  let c := n.(N_Config) in
  data <- liftM (if bool_decide (c.(MailPayload) ≠ "") then buildTemplate n c.(MailPayload)
                 else Ok n.(N_Execution).(Ex_Output)) ;;
  let e := mkEmail [n.(N_Job).(Job_OwnerEmail)] c.(MailFrom)
    (c.(MailSubjectPrefix) +:+ statusString n.(N_Execution) +:+ " "
       +:+ n.(N_Execution).(Ex_JobName) +:+ " execution report")
    data (c.(MailHost) +:+ ":" +:+ pretty c.(MailPort)) (auth n) in
  r <- tryM (send_message (Mail e)) ;;
  match r with
  | inl _ => retM tt
  | inr err => errM (ErrOther ("notifier: Error sending email " +:+ Error err))
  end.

(** The loop over [WebhookHeaders]: [kv[1]] is out of range when there is no colon. *)
Fixpoint webhook_headers (hs : list string) : res (list (string * string)) :=
  match hs with
  | [] => Ok []
  | h :: hs' =>
      if bool_decide (h ≠ "") then
        match Split ":" h with
        | k :: v :: _ => rest <-? webhook_headers hs' ;; Ok ((k, TrimSpace v) :: rest)
        | _ => Crash "index out of range [1] with length 1"
        end
      else webhook_headers hs'
  end.

(** [callExecutionWebhook()] *)
Definition callExecutionWebhook (n : Notifier) : M outbox unit :=
  let c := n.(N_Config) in
  out <- liftM (buildTemplate n c.(WebhookPayload)) ;;
  match NewRequest_error c.(WebhookURL) with
  | Some err => errM err
  | None =>
      headers <- liftM (webhook_headers c.(WebhookHeaders)) ;;
      r <- tryM (send_message (Hook (mkWebhook c.(WebhookURL) out headers))) ;;
      match r with
      | inl _ => retM tt
      | inr err => errM (ErrOther ("notifier: Error posting notification: " +:+ Error err))
      end
  end.

(** [Send()] *)
Definition Send (n : Notifier) : M outbox unit :=
  let c := n.(N_Config) in
  if bool_decide (c.(MailHost) ≠ "") && negb (c.(MailPort) =? 0)
     && bool_decide (n.(N_Job).(Job_OwnerEmail) ≠ "")
  then sendExecutionEmail n
  else if bool_decide (c.(WebhookURL) ≠ "") && bool_decide (c.(WebhookPayload) ≠ "")
  then callExecutionWebhook n
  else retM tt.

(** ** What is sent *)

Definition mail_configured (n : Notifier) : Prop :=
  n.(N_Config).(MailHost) ≠ "" ∧ n.(N_Config).(MailPort) ≠ 0 ∧ n.(N_Job).(Job_OwnerEmail) ≠ "".
Definition hook_configured (n : Notifier) : Prop :=
  n.(N_Config).(WebhookURL) ≠ "" ∧ n.(N_Config).(WebhookPayload) ≠ "".

(** Who is notified.  A notification that ends without error has sent at most one
    message: a mail to the owner of the job when a mail server is configured and the
    owner has an address, otherwise the configured webhook, otherwise nothing. *)
Theorem Send_spec n sent sent' :
  Send n sent = (Ok tt, sent') →
  (mail_configured n → ∃ e, sent' = sent ++ [Mail e] ∧ e.(Email_To) = [n.(N_Job).(Job_OwnerEmail)]
     ∧ deliver (Mail e) = Ok tt) ∧
  (¬ mail_configured n → hook_configured n → ∃ w, sent' = sent ++ [Hook w] ∧
     w.(Webhook_URL) = n.(N_Config).(WebhookURL) ∧ deliver (Hook w) = Ok tt) ∧
  (¬ mail_configured n → ¬ hook_configured n → sent' = sent).
Proof.
  unfold Send, mail_configured, hook_configured.
  destruct (bool_decide _ && negb _ && bool_decide _) eqn:Em.
  - rewrite !andb_true_iff, !bool_decide_eq_true, negb_true_iff, Z.eqb_neq in Em.
    intros H. split_and!; [|tauto..]. intros _. revert H. unfold sendExecutionEmail, liftM, bindM.
    destruct (if bool_decide _ then _ else _) as [data| |]; [|done..].
    unfold tryM, send_message. destruct (deliver _) as [[]| |] eqn:Ed; [|done..].
    intros [= <-]. by eexists.
  - apply not_true_iff_false in Em.
    rewrite !andb_true_iff, !bool_decide_eq_true, negb_true_iff, Z.eqb_neq in Em.
    destruct (bool_decide _ && bool_decide _) eqn:Ew.
    + rewrite andb_true_iff, !bool_decide_eq_true in Ew. intros H. split_and!; [tauto| |tauto].
      intros _ _. revert H. unfold callExecutionWebhook, liftM, bindM.
      destruct (buildTemplate _ _) as [out| |]; [|done..].
      destruct (NewRequest_error _); [done|]. destruct (webhook_headers _) as [hs| |]; [|done..].
      unfold tryM, send_message. destruct (deliver _) as [[]| |] eqn:Ed; [|done..].
      intros [= <-]. by eexists.
    + apply not_true_iff_false in Ew. rewrite andb_true_iff, !bool_decide_eq_true in Ew.
      intros [= <-]. tauto.
Qed.

(** A configured header without a colon brings the server down when the webhook is
    called, and the value of a header with several colons is cut at the second. *)
Theorem webhook_header_colon k v rest h hs :
  has_byte ":" k = false → has_byte ":" v = false → has_byte ":" h = false → h ≠ "" →
  webhook_headers [k +:+ ":" +:+ v +:+ ":" +:+ rest] = Ok [(k, TrimSpace v)] ∧
  webhook_headers (h :: hs) = Crash "index out of range [1] with length 1".
Proof.
  intros Hk Hv Hh Hne. assert (∀ x y, has_byte ":" x = false → Split ":" (x +:+ ":" +:+ y) =
    x :: Split ":" y) as HS.
  { intros x y. induction x as [|a x IH]; [done|]. rewrite app_cons.
    cbn [has_byte Split]. intros [Ha Hx]%orb_false_iff. apply bool_decide_eq_false in Ha.
    rewrite decide_False by done. by rewrite (IH Hx). }
  split.
  - cbn [webhook_headers]. rewrite bool_decide_eq_true_2 by (by destruct k).
    rewrite HS, HS by done. done.
  - cbn [webhook_headers]. rewrite bool_decide_eq_true_2 by done. by rewrite Split_no_byte.
Qed.
End Notifier.

(** ** Examples *)
Module NotifierExample.

#[export] Instance ToyDelivery : Delivery := {|
  Time_String t := pretty t;
  template_Render s := Some (λ d, Ok (s +:+ d.(RD_JobName)));
  NewRequest_error s := None;
  deliver m := Ok tt
|}.

Definition hook_config (headers : list string) : Config :=
  mkConfig "leader" "" "" "" "" ∅ true "" [] [] 0 0 0 0 "" "" "global" false 0 "" false 0 1
    "" 0 "" "" "" "" "" "http://hook" "done: " headers "" [] "" "" false.

Definition report_job : Job :=
  mkJob "job" "" "" "" "" "me@example.com" 0 0 NullableTime_zero NullableTime_zero false
    ∅ ∅ 0 [] "" ∅ "allow" "shell" ∅ "" 0.

Definition hook_notifier : Notifier :=
  Notification (hook_config ["X-Token: abc"]) (mkExecution "job" 0 1 true "out" "n1" 5 1) []
    report_job.

Lemma Send_spec_witness :
  Send hook_notifier [] = (Ok tt, [Hook (mkWebhook "http://hook" "done: job" [("X-Token", "abc")])]) ∧
  ∃ w, [Hook (mkWebhook "http://hook" "done: job" [("X-Token", "abc")])] = [] ++ [Hook w] ∧
    w.(Webhook_URL) = "http://hook" ∧ deliver (Hook w) = Ok tt.
Proof.
  assert (Send hook_notifier [] =
    (Ok tt, [Hook (mkWebhook "http://hook" "done: job" [("X-Token", "abc")])])) as E
    by (vm_compute; reflexivity).
  split; [exact E|].
  apply (proj1 (proj2 (Send_spec hook_notifier [] _ E))).
  - intros [H _]. apply H. vm_compute. reflexivity.
  - split; vm_compute; discriminate.
Defined.

Lemma webhook_header_colon_witness :
  webhook_headers ["X-URL: http://a"] = Ok [("X-URL", "http")] ∧
  webhook_headers ["X-Token"] = Crash "index out of range [1] with length 1".
Proof.
  apply (webhook_header_colon "X-URL" " http" "//a" "X-Token" []);
    vm_compute; [reflexivity|reflexivity|reflexivity|discriminate].
Defined.
End NotifierExample.
