(* ===== verification/Server.v ===== *)
(** * [dkron/grpc.go], [dkron/run.go] and the rest of [dkron/agent.go]: a server

    The handlers of a server's gRPC interface, over its agent, scheduler and store:
    setting and deleting jobs through the raft log, running a job on its target
    nodes, and what happens when an execution is done (processors, the log, retries,
    the notification, the dependent jobs).  Calls to other nodes are recorded in the
    state; their outcomes, the plugins and the clock are parameters.  A handler runs
    at one instant [now]. *)
From Stdlib Require Import ZArith Lia.
From stdpp Require Import base list gmap strings pretty.
From S2P Require Import Prelude GoStrings GoNet GoTime Pb NTime ExtCron Execution Job BuntDB Store.
From S2P Require Import Instances Scheduler Fsm Config Cluster ClusterProps Leader Targets Notifier.

#[local] Open Scope Z_scope.

(** The calls to other nodes. *)
Inductive call :=
  | CallAgentRun (addr : string) (job : pbJob) (ex : pbExecution)
  | CallExecutionDone (addr : string) (ex : Execution).

(** What the other nodes, the plugins and raft answer: the outcome of a call, the
    executions that a server runs, the processor plugins that are loaded, and the
    error, if any, of appending to the log. *)
Class World (R : Type) := {
  call_outcome : call → res unit;
  remote_active : string → res (list pbExecution);
  ProcessorPlugins : string → option (pbExecution → gmap string string → pbExecution);
  raft_Apply_error : R → option error;
  GlobalLock : bool
}.

Section Server.
Context {VS : Versions} {R : Type} {RF : Raft R} {WD : World R} {IS : Intersect} {DL : Delivery}.
Context {db : Type} {BDB : BuntDB db} {PT : Ptypes} {PB : Proto} {CP : CronParser}
        {CE : CronEngine} {UC : Unicode} {TZ : Locations} {SO : Sorting}.

(** A server: node, running executions, messages sent and calls made. *)
Record Srv := mkSrv {
  s_node : Node (R:=R) (db:=db);
  s_active : gmap string pbExecution;
  s_outbox : outbox;
  s_calls : list call
}.

Definition on_node {A} (m : M Node A) : M Srv A := λ s,
  let '(r, n) := m s.(s_node) in (r, mkSrv n s.(s_active) s.(s_outbox) s.(s_calls)).
Definition on_outbox {A} (m : M outbox A) : M Srv A := λ s,
  let '(r, o) := m s.(s_outbox) in (r, mkSrv s.(s_node) s.(s_active) o s.(s_calls)).
Definition make_call (c : call) : M Srv unit := λ s,
  (call_outcome c, mkSrv s.(s_node) s.(s_active) s.(s_outbox) (s.(s_calls) ++ [c])).

Definition s_agent (s : Srv) : Agent R := s.(s_node).(n_agent).
Definition s_config (s : Srv) : Config := (s_agent s).(a_config).

(** [raft.Apply(cmd, raftTimeout)] on the leader: an error, or the response of the
    state machine. *)
Definition raft_Apply (now : time) (cmd : string) : M Srv response := λ s,
  match raft_Apply_error (s_agent s).(a_raft) with
  | Some e => (Err e, s)
  | None => on_node (on_db (Apply no_appliers now 0 cmd)) s
  end.

(** [fmt.Errorf("...: %w", err)] *)
Definition wrapM {A} (prefix : string) (m : M Srv A) : M Srv A := λ s,
  match m s with
  | (Err e, s') => (Err (ErrOther (prefix +:+ ": " +:+ Error e)), s')
  | r => r
  end.

(** [applySetJob(job)] of the agent: of the errors of the store only these two are
    reported, both as a missing parent. *)
Definition agent_applySetJob (now : time) (job : pbJob) : M Srv unit :=
  cmd <- liftM (Encode SetJobType job) ;;
  res <- raft_Apply now cmd ;;
  match res with
  | RespErr ErrParentJobNotFound => errM ErrParentJobNotFound
  | RespErr ErrSameParent => errM ErrParentJobNotFound
  | _ => retM tt
  end.

(** ** [run.go] *)

(** The address of the node of a retry: the loop over the members. *)
Fixpoint retry_addr (ex : Execution) (addr : string) (members : list Member) : res string :=
  match members with
  | [] => Ok addr
  | m :: members' =>
      if bool_decide (ex.(Ex_NodeName) = m.(Member_Name)) then
        if bool_decide (m.(Member_Status) = StatusAlive)
        then retry_addr ex (tag m "rpc_addr") members'
        else Err (ErrOther ("retry node is gone: " +:+ ex.(Ex_NodeName) +:+ " for job "
                              +:+ ex.(Ex_JobName)))
      else retry_addr ex addr members'
  end.

(** The nodes to call, by name. *)
Definition target_nodes (ch : Choices) (job : Job) (ex : Execution) (a : Agent R) :
    res (gmap string string) :=
  if ex.(Ex_Attempt) <=? 1 then
    match processFilteredNodes ch job a.(a_config) a.(a_serf) with
    | Ok (filterMap, _) => Ok filterMap
    | Err e => Err (ErrOther ("run error processing filtered nodes: " +:+ Error e))
    | Crash w => Crash w
    end
  else
    addr <-? retry_addr ex "" a.(a_serf) ;;
    Ok {[ex.(Ex_NodeName) := addr]}.

(** The goroutines of [Run], one after the other; their errors are only logged. *)
Fixpoint call_nodes (job : pbJob) (ex : pbExecution) (addrs : list string) : M Srv unit :=
  match addrs with
  | [] => retM tt
  | addr :: addrs' => tryM (make_call (CallAgentRun addr job ex)) ;;; call_nodes job ex addrs'
  end.

(** [Run(jobName, ex)] *)
Definition Run (now : time) (ch : Choices) (jobName : string) (ex : Execution) : M Srv Job :=
  job <- wrapM ("agent: Run error retrieving job: " +:+ jobName +:+ " from store")
          (on_node (on_db (GetJob jobName))) ;;
  job <- (if bool_decide (job.(Job_ParentJob) = "") then
            s <- getM ;;
            e <- liftM (GetEntry jobName s.(s_node).(n_sched)) ;;
            match e with
            | Some e =>
                let job := set_Next e.(Entry_Next) job in
                wrapM ("agent: Run error storing job " +:+ jobName +:+ " before running")
                  (agent_applySetJob now (Job_ToProto job)) ;;;
                retM job
            | None => errM (ErrOther ("agent: Run error retrieving job: " +:+ jobName
                                        +:+ " from scheduler"))
            end
          else retM job) ;;
  s <- getM ;;
  filterMap <- liftM (target_nodes ch job ex (s_agent s)) ;;
  if bool_decide (filterMap = ∅)
  then errM (ErrOther ("no target nodes found to run job " +:+ ex.(Ex_JobName)))
  else
    call_nodes (Job_ToProto job) (Execution_ToProto ex) (map_to_list filterMap).*2 ;;;
    retM job.

(** [GetActiveExecutions()] of the agent: all servers of the region are asked. *)
Fixpoint collect_active (addrs : list string) : res (list pbExecution) :=
  match addrs with
  | [] => Ok []
  | addr :: addrs' =>
      exs <-? remote_active addr ;;
      rest <-? collect_active addrs' ;;
      Ok (exs ++ rest)
  end.

Definition GetActiveExecutions (a : Agent R) : res (list pbExecution) :=
  collect_active ((λ p, TCPAddr_String p.(SP_RPCAddr)) <$> LocalServers a).

(** [(j *Job) Run()]: an error of the run is only logged. *)
Definition Job_Run (now : time) (ch : Choices) (j : Job) : M Srv unit := λ s,
  if isRunnable GlobalLock (GetActiveExecutions (s_agent s)) j then
    (tryM (Run now ch j.(Job_Name) (NewExecution now j.(Job_Name))) ;;; retM tt) s
  else (Ok tt, s).

(** ** [grpc.go] *)

(** [SetJob(ctx, setJobReq)] *)
Definition grpc_SetJob (now : time) (pj : pbJob) : M Srv unit :=
  agent_applySetJob now pj ;;;
  on_node (on_sched (AddJob (NewJobFromProto pj))).

(** [%v] of a response that is not a job. *)
Definition response_text (r : response) : string :=
  match r with
  | RespErr e => Error e
  | RespKey k => k
  | RespPro t => t
  | _ => "<nil>"
  end.

(** [DeleteJob(ctx, delJobReq)] *)
Definition grpc_DeleteJob (now : time) (jobName : string) : M Srv pbJob :=
  cmd <- liftM (Encode DeleteJobType (mkpbDeleteJobRequest jobName)) ;;
  res <- raft_Apply now cmd ;;
  match res with
  | RespJob job =>
      let jpb := Job_ToProto job in
      on_node (on_sched (RemoveJob job)) ;;; retM jpb
  | _ => errM (ErrOther ("grpc: Error wrong response from apply in DeleteJob: "
                           +:+ response_text res))
  end.

(** [GetJob(ctx, getJobReq)]: only these fields are copied. *)
Definition grpc_GetJob (jobName : string) : M Srv pbJob :=
  j <- on_node (on_db (GetJob jobName)) ;;
  retM (mkpbJob j.(Job_Name) "" "" "" "" 0 0 false ∅ 0 [] "" "" j.(Job_Executor)
          j.(Job_ExecutorConfig) "" ∅ None None None "" ∅).

(** The loop over the processors of the job.  Assigning to a nil configuration
    panics. *)
Fixpoint run_processors (node : string) (procs : list (string * option (gmap string string)))
    (pbex : pbExecution) : res pbExecution :=
  match procs with
  | [] => Ok pbex
  | (k, v) :: procs' =>
      match ProcessorPlugins k with
      | Some process =>
          match v with
          | None => Crash "assignment to entry in nil map"
          | Some config =>
              run_processors node procs' (process pbex (<["reporting_node" := node]> config))
          end
      | None => run_processors node procs' pbex
      end
  end.

(** [execution.Attempt++; execution.Output = ""] *)
Definition next_attempt (e : Execution) : Execution :=
  mkExecution e.(Ex_JobName) e.(Ex_StartedAt) e.(Ex_FinishedAt) e.(Ex_Success) ""
    e.(Ex_NodeName) e.(Ex_Group) (e.(Ex_Attempt) + 1).

(** The loop over the dependent jobs: [dj] is dereferenced before the error is looked
    at. *)
Fixpoint run_dependents (now : time) (ch : Choices) (djs : list string) : M Srv unit :=
  match djs with
  | [] => retM tt
  | djn :: djs' =>
      dj <- tryM (on_node (on_db (GetJob djn))) ;;
      match dj with
      | inr _ => crashM "nil pointer dereference"
      | inl dj => Job_Run now ch dj ;;; run_dependents now ch djs'
      end
  end.

(** [ExecutionDone(ctx, execDoneReq)]: the payload of the response. *)
Definition grpc_ExecutionDone (now : time) (ch : Choices) (pbex : pbExecution) : M Srv string :=
  s <- getM ;;
  if negb (IsLeader (s_agent s)) then
    tryM (make_call (CallExecutionDone (raft_Leader (s_agent s).(a_raft))
                       (NewExecutionFromProto pbex))) ;;;
    errM ErrNotLeader
  else
    job <- on_node (on_db (GetJob pbex.(pbEx_JobName))) ;;
    pbex <- liftM (run_processors (s_config s).(NodeName) (map_to_list job.(Job_Processors)) pbex) ;;
    cmd <- liftM (Encode ExecutionDoneType (mkpbExecutionDoneRequest (Some pbex))) ;;
    raft_Apply now cmd ;;;
    fresh <- tryM (on_node (on_db (GetJob job.(Job_Name)))) ;;
    match fresh with
    | inr _ => crashM "nil pointer dereference"
    | inl job =>
        let execution := NewExecutionFromProto pbex in
        if negb execution.(Ex_Success) && (execution.(Ex_Attempt) <? job.(Job_Retries) + 1) then
          Run now ch job.(Job_Name) (next_attempt execution) ;;; retM "retry"
        else
          exg <- on_node (on_db (GetExecutionGroup execution)) ;;
          on_outbox (Send (Notification (s_config s) execution exg job)) ;;;
          (if bool_decide (job.(Job_DependentJobs) ≠ [])
              && bool_decide (job.(Job_Status) = StatusSuccess)
           then run_dependents now ch job.(Job_DependentJobs) else retM tt) ;;;
          retM "saved"
    end.

(** [RunJob(ctx, req)] *)
Definition grpc_RunJob (now : time) (ch : Choices) (jobName : string) : M Srv pbJob :=
  job <- Run now ch jobName (NewExecution now jobName) ;;
  retM (Job_ToProto job).

(** [RaftGetConfiguration(ctx, in)]: an entry for every server of the configuration. *)
Record RaftEntry := mkRaftEntry {
  RE_Id : string;
  RE_Node : string;
  RE_Address : string;
  RE_Leader : bool;
  RE_Voter : bool;
  RE_RaftProtocol : string
}.

Definition server_map (members : list Member) : gmap string Member :=
  foldl (λ acc m,
    match isServer m with
    | Some parts => <[TCPAddr_String (mkTCPAddr m.(Member_Addr) parts.(SP_Port)) := m]> acc
    | None => acc
    end) ∅ members.

Definition raft_entry (members : gmap string Member) (leader : string) (s : RaftServer) :
    RaftEntry :=
  let '(node, vsn) :=
    match members !! s.(RS_Address) with
    | Some m => (m.(Member_Name), default "unknown" (m.(Member_Tags) !! "raft_vsn"))
    | None => ("(unknown)", "unknown")
    end in
  mkRaftEntry s.(RS_ID) node s.(RS_Address) (bool_decide (s.(RS_Address) = leader))
    (bool_decide (s.(RS_Suffrage) = Voter)) vsn.

Definition RaftGetConfiguration (a : Agent R) : res (list RaftEntry) :=
  servers <-? raft_GetConfiguration a.(a_raft) ;;
  Ok (raft_entry (server_map a.(a_serf)) (raft_Leader a.(a_raft)) <$> servers).

(** [RaftRemovePeerByID(ctx, in)] *)
Definition RaftRemovePeerByID (id : string) : M (Agent R) unit :=
  a <- getM ;;
  servers <- liftM (raft_GetConfiguration a.(a_raft)) ;;
  if existsb (λ s, bool_decide (s.(RS_ID) = id)) servers
  then on_raft (raft_RemoveServer id)
  else errM (ErrOther ("id " +:+ quoted id +:+ " was not found in the Raft configuration")).

(** [GetActiveExecutions(ctx, in)] of the server *)
Definition grpc_GetActiveExecutions (s : Srv) : list pbExecution := (map_to_list s.(s_active)).*2.

(** [SetExecution(ctx, execution)]: the process ends when the log fails. *)
Definition grpc_SetExecution (now : time) (pbex : pbExecution) : M Srv unit :=
  r <- tryM (cmd <- liftM (Encode SetExecutionType pbex) ;; raft_Apply now cmd) ;;
  match r with
  | inl _ => retM tt
  | inr e => crashM (Error e)
  end.
End Server.
