(* ===== verification/ServerProps.v ===== *)
(** * What the handlers of a server do *)
From Stdlib Require Import ZArith Lia.
From stdpp Require Import base list gmap strings pretty relations.
From S2P Require Import Prelude GoStrings GoNet GoTime Pb NTime ExtCron Execution Job BuntDB Store.
From S2P Require Import StoreSpec StoreRefine Instances StoreProps Scheduler Fsm Config Cluster ClusterProps.
From S2P Require Import Leader LeaderReconcile Targets Notifier Server.

#[local] Open Scope Z_scope.

Section ServerProps.
Context {VS : Versions} {R : Type} {RF : Raft R} {WD : World R} {IS : Intersect} {DL : Delivery}.
Context {db : Type} {BDB : BuntDB db} {PT : Ptypes} {PB : Proto} {CP : CronParser}
        {CE : CronEngine} {UC : Unicode} {TZ : Locations} {SO : Sorting}.
Abbreviation Server := (Srv (R:=R) (db:=db)).
Implicit Types s : Server.

Definition s_db s : db := s.(s_node).(n_db).

(** Everything but the database is as it was. *)
Definition same_but_db s s' : Prop :=
  s_agent s' = s_agent s ∧ s'.(s_node).(n_sched) = s.(s_node).(n_sched) ∧
  s'.(s_active) = s.(s_active) ∧ s'.(s_outbox) = s.(s_outbox) ∧ s'.(s_calls) = s.(s_calls).

Lemma same_but_db_refl s : same_but_db s s.
Proof. by repeat split. Qed.

Lemma same_but_db_trans s1 s2 s3 : same_but_db s1 s2 → same_but_db s2 s3 → same_but_db s1 s3.
Proof. unfold same_but_db. intros (?&?&?&?&?) (?&?&?&?&?). split_and!; congruence. Qed.

(** ** The store and the log *)

Lemma on_node_on_db {A} (m : M db A) s :
  on_node (on_db m) s =
    ((m (s_db s)).1, mkSrv (mkNode (s_agent s) s.(s_node).(n_sched) (m (s_db s)).2)
                       s.(s_active) s.(s_outbox) s.(s_calls)).
Proof. unfold on_node, on_db, s_db, s_agent. by destruct (m _). Qed.

Lemma GetJob_same name (d : db) : (GetJob name d).2 = d.
Proof.
  unfold GetJob, bindM. rewrite db_View_spec. by destruct (getJobTxFunc name d).
Qed.

Lemma srv_eta s : mkSrv (mkNode (s_agent s) s.(s_node).(n_sched) (s_db s))
  s.(s_active) s.(s_outbox) s.(s_calls) = s.
Proof. by destruct s as [[]]. Qed.

(** Reading a job changes nothing. *)
Lemma read_job name s : on_node (on_db (GetJob name)) s = ((GetJob name (s_db s)).1, s).
Proof. by rewrite on_node_on_db, GetJob_same, srv_eta. Qed.

Lemma raft_Apply_same now cmd s : same_but_db s (raft_Apply now cmd s).2.
Proof.
  unfold raft_Apply. destruct (raft_Apply_error _); [apply same_but_db_refl|].
  rewrite on_node_on_db. by repeat split.
Qed.

(** An appended command is run on the store. *)
Lemma raft_Apply_command now c cmd s :
  encode_command c = Ok cmd → raft_Apply_error (s_agent s).(a_raft) = None →
  (raft_Apply now cmd s).1 = (run_command now c (s_db s)).1 ∧
  s_db (raft_Apply now cmd s).2 = (run_command now c (s_db s)).2.
Proof.
  intros He Hr. unfold raft_Apply. rewrite Hr, on_node_on_db.
  by rewrite (Apply_command no_appliers now 0 c cmd (s_db s) He).
Qed.

Lemma agent_applySetJob_same now pj s : same_but_db s (agent_applySetJob now pj s).2.
Proof.
  unfold agent_applySetJob, liftM. unfold bindM at 1.
  destruct (Encode SetJobType pj) as [cmd| |]; [|apply same_but_db_refl..].
  pose proof (raft_Apply_same now cmd s) as H. unfold bindM.
  destruct (raft_Apply now cmd s) as [[r| |] s1]; simpl in *; [|done..].
  by destruct r as [|[]| | |].
Qed.

(** ** Running a job *)

Definition run_call (job : Job) (ex : Execution) (addr : string) : call :=
  CallAgentRun addr (Job_ToProto job) (Execution_ToProto ex).

Definition with_calls s (l : list call) : Server :=
  mkSrv s.(s_node) s.(s_active) s.(s_outbox) (s.(s_calls) ++ l).

Lemma call_nodes_run pj pe addrs s s' :
  call_nodes pj pe addrs s = (Ok tt, s') →
  s' = with_calls s ((λ a, CallAgentRun a pj pe) <$> addrs).
Proof.
  revert s. induction addrs as [|a addrs IH]; intros s; cbn [call_nodes].
  { intros [= <-]. unfold with_calls. rewrite fmap_nil, (right_id_L [] (++)). by destruct s. }
  intros (x & s1 & H1 & H2)%bindM_Ok. apply tryM_Ok in H1.
  assert (s1 = with_calls s [CallAgentRun a pj pe]) as ->.
  { unfold make_call in H1. destruct H1 as [(y & _ & H)|(e & _ & H)]; by injection H as _ <-. }
  rewrite (IH _ H2). unfold with_calls. simpl. f_equal.
  by rewrite <- (assoc_L (++)).
Qed.

(** The job as it is run: with the time the scheduler will run it next, unless it is a
    child job. *)
Definition run_job (name : string) (j job : Job) s : Prop :=
  if bool_decide (j.(Job_ParentJob) = "")
  then ∃ e, GetEntry name s.(s_node).(n_sched) = Ok (Some e) ∧ job = set_Next e.(Entry_Next) j
  else job = j.

Lemma Run_inv now ch name ex s job s' :
  Run now ch name ex s = (Ok job, s') →
  ∃ j nodes s1, (GetJob name (s_db s)).1 = Ok j ∧ run_job name j job s ∧ same_but_db s s1 ∧
    target_nodes ch job ex (s_agent s) = Ok nodes ∧ nodes ≠ ∅ ∧
    s' = with_calls s1 (run_call job ex <$> (map_to_list nodes).*2).
Proof.
  intros (j & s0 & H0 & H)%bindM_Ok. unfold wrapM in H0. rewrite read_job in H0.
  destruct ((GetJob name (s_db s)).1) as [j'| |] eqn:Ej; [|done..]. injection H0 as -> <-.
  apply bindM_Ok in H as (job' & s1 & H1 & H).
  assert (run_job name j job' s ∧ same_but_db s s1) as [Hjob Hs1].
  { unfold run_job. destruct (bool_decide (Job_ParentJob j = "")).
    - apply bindM_Ok in H1 as (s2 & s3 & [= <- <-] & H1).
      apply bindM_Ok in H1 as (e & s4 & [= He <-] & H1).
      destruct e as [e|]; [|done]. apply bindM_Ok in H1 as (u & s5 & H1 & [= <- <-]).
      split; [by eexists|]. unfold wrapM in H1.
      pose proof (agent_applySetJob_same now (Job_ToProto (set_Next (Entry_Next e) j)) s) as Hs.
      destruct (agent_applySetJob _ _ s) as [[]]; [|done..]. injection H1 as _ <-. done.
    - injection H1 as <- <-. split; [done|apply same_but_db_refl]. }
  apply bindM_Ok in H as (s2 & s3 & [= <- <-] & H).
  apply bindM_Ok in H as (nodes & s4 & [= Hn <-] & H).
  destruct Hs1 as [Ea Hs1]. rewrite Ea in Hn.
  case_bool_decide as Hne; [done|].
  apply bindM_Ok in H as (u & s5 & H & [= <- <-]). destruct u.
  apply call_nodes_run in H as ->.
  exists j, nodes, s1. by split_and!.
Qed.

(** C11: running a job.  A run that succeeds has called, once each, exactly the nodes
    that the job targets (for a retry the node of the execution), with the stored job
    and the given execution; the scheduler, the agent and the messages sent are as
    before. *)
Theorem Run_spec now ch name ex s job s' :
  Run now ch name ex s = (Ok job, s') →
  ∃ j nodes, (GetJob name (s_db s)).1 = Ok j ∧ run_job name j job s ∧
    target_nodes ch job ex (s_agent s) = Ok nodes ∧ nodes ≠ ∅ ∧
    s'.(s_calls) = s.(s_calls) ++ (run_call job ex <$> (map_to_list nodes).*2) ∧
    s_agent s' = s_agent s ∧ s'.(s_node).(n_sched) = s.(s_node).(n_sched) ∧
    s'.(s_outbox) = s.(s_outbox).
Proof.
  intros (j & nodes & s1 & Hj & Hjob & (E1 & E2 & E3 & E4 & E5) & Hn & Hne & ->)%Run_inv.
  exists j, nodes. rewrite <- E1, <- E2, <- E4, <- E5. rewrite E1. by split_and!.
Qed.

(** ** The end of an execution *)

(** A request on the leader goes through the processors and the log; the job is read
    again, and the execution is retried or its outcome is final. *)
Definition done_rest (now : time) (ch : Choices) (c : Config) (pbex : pbExecution) (job : Job) :
    M Server string :=
  let execution := NewExecutionFromProto pbex in
  if negb execution.(Ex_Success) && (execution.(Ex_Attempt) <? job.(Job_Retries) + 1) then
    Run now ch job.(Job_Name) (next_attempt execution) ;;; retM "retry"
  else
    exg <- on_node (on_db (GetExecutionGroup execution)) ;;
    on_outbox (Send (Notification c execution exg job)) ;;;
    (if bool_decide (job.(Job_DependentJobs) ≠ []) && bool_decide (job.(Job_Status) = StatusSuccess)
     then run_dependents now ch job.(Job_DependentJobs) else retM tt) ;;;
    retM "saved".

Lemma ExecutionDone_inv now ch pbex s payload s' :
  IsLeader (s_agent s) = true → grpc_ExecutionDone now ch pbex s = (Ok payload, s') →
  ∃ j0 pbex' cmd resp s1 job,
    (GetJob pbex.(pbEx_JobName) (s_db s)).1 = Ok j0 ∧
    run_processors (s_config s).(NodeName) (map_to_list j0.(Job_Processors)) pbex = Ok pbex' ∧
    encode_command (CmdExecutionDone pbex') = Ok cmd ∧ raft_Apply now cmd s = (Ok resp, s1) ∧
    (GetJob j0.(Job_Name) (s_db s1)).1 = Ok job ∧
    done_rest now ch (s_config s) pbex' job s1 = (Ok payload, s').
Proof.
  intros Hl (s0 & s00 & [= <- <-] & H)%bindM_Ok. rewrite Hl in H. cbn [negb] in H.
  apply bindM_Ok in H as (j0 & s2 & H0 & H). rewrite read_job in H0. injection H0 as Ej <-.
  apply bindM_Ok in H as (pbex' & s3 & [= Hp <-] & H).
  apply bindM_Ok in H as (cmd & s4 & [= Hc <-] & H).
  apply bindM_Ok in H as (resp & s1 & Hr & H).
  apply bindM_Ok in H as (fresh & s6 & Hf & H). apply tryM_Ok in Hf. rewrite read_job in Hf.
  destruct Hf as [(job & -> & [= Hf <-])|(e & -> & _)]; [|done].
  exists j0, pbex', cmd, resp, s1, job. by split_and!.
Qed.

Lemma raft_Apply_no_error now cmd s resp s1 :
  raft_Apply now cmd s = (Ok resp, s1) → raft_Apply_error (s_agent s).(a_raft) = None.
Proof. unfold raft_Apply. by destruct (raft_Apply_error _). Qed.


(** A server that is not the leader forwards the end of an execution to the leader
    and tells the caller so; it changes nothing itself. *)
Theorem ExecutionDone_forwarded now ch pbex s :
  IsLeader (s_agent s) = false →
  (∀ c w, call_outcome c ≠ Crash w) →
  grpc_ExecutionDone now ch pbex s =
    (Err ErrNotLeader, with_calls s [CallExecutionDone (raft_Leader (s_agent s).(a_raft))
                                       (NewExecutionFromProto pbex)]).
Proof.
  intros Hl Hc. unfold grpc_ExecutionDone. unfold bindM at 1, getM. rewrite Hl. cbn [negb].
  unfold bindM, tryM, make_call. destruct (call_outcome _) as [u|e|w] eqn:E; [done..|].
  by destruct (Hc _ _ E).
Qed.

(** ** Dependent jobs *)

(** The store stands for some state. *)
Definition sound s : Prop := ∃ σ, Holds (s_db s) σ.

(** A step that makes only calls in [Q] and leaves a sound store. *)
Definition grows (Q : call → Prop) s s' : Prop :=
  (∃ l, s'.(s_calls) = s.(s_calls) ++ l ∧ Forall Q l) ∧ (sound s → sound s').

Lemma grows_refl Q s : grows Q s s.
Proof. split; [|done]. exists []. by rewrite (right_id_L [] (++)). Qed.

Lemma grows_trans Q s1 s2 s3 : grows Q s1 s2 → grows Q s2 s3 → grows Q s1 s3.
Proof.
  intros [(l1 & E1 & F1) H1] [(l2 & E2 & F2) H2]. split; [|auto]. exists (l1 ++ l2).
  rewrite E2, E1, (assoc_L (++)). split; [done|]. by apply Forall_app.
Qed.

Lemma grows_bind {A B} Q (m : M Server A) (k : A → M Server B) s :
  grows Q s (m s).2 → (∀ a s1, m s = (Ok a, s1) → grows Q s1 (k a s1).2) →
  grows Q s (bindM m k s).2.
Proof.
  intros Hm Hk. unfold bindM. destruct (m s) as [[a| |] s1] eqn:E; simpl in Hm; [|done..].
  eapply grows_trans; [exact Hm|]. by apply Hk.
Qed.

Lemma applySetJob_grows Q now pj s : grows Q s (agent_applySetJob now pj s).2.
Proof.
  split.
  - exists []. pose proof (agent_applySetJob_same now pj s) as (_&_&_&_&->).
    by rewrite (right_id_L [] (++)).
  - intros [σ Hσ]. unfold agent_applySetJob, liftM. unfold bindM at 1.
    destruct (Encode SetJobType pj) as [cmd| |] eqn:E; [|by exists σ..].
    destruct (raft_Apply_error (a_raft (s_agent s))) as [e|] eqn:Er.
    { unfold bindM, raft_Apply. rewrite Er. by exists σ. }
    destruct (raft_Apply_command now (CmdSetJob pj) cmd s E Er) as [_ Ed].
    destruct (run_command_implements now (CmdSetJob pj) I (s_db s) σ Hσ) as [_ Hd].
    rewrite <- Ed in Hd. exists (spec_command now (CmdSetJob pj) σ).2. revert Hd.
    generalize (spec_command now (CmdSetJob pj) σ).2. intros σ' Hd. unfold bindM.
    destruct (raft_Apply now cmd s) as [[r| |] s1]; cbn [snd] in *; [|exact Hd..].
    destruct r as [|[]| | |]; exact Hd.
Qed.

Lemma wrapM_state {A} p (m : M Server A) s : (wrapM p m s).2 = (m s).2.
Proof. unfold wrapM. by destruct (m s) as [[] ?]. Qed.

Lemma call_nodes_grows Q pj pe addrs s :
  (∀ a, Q (CallAgentRun a pj pe)) → grows Q s (call_nodes pj pe addrs s).2.
Proof.
  intros HQ. revert s. induction addrs as [|a addrs IH]; intros s; cbn [call_nodes].
  { apply grows_refl. }
  apply grows_bind; [|intros ? ? _; apply IH].
  assert ((tryM (make_call (CallAgentRun a pj pe)) s).2 = with_calls s [CallAgentRun a pj pe]) as ->
    by (unfold tryM, make_call; by destruct (call_outcome _)).
  split; [|done]. eexists. split; [done|]. by apply Forall_singleton.
Qed.

Lemma Run_grows now ch name ex s :
  grows (λ c, ∃ a pj, c = CallAgentRun a pj (Execution_ToProto ex)) s (Run now ch name ex s).2.
Proof.
  unfold Run. apply grows_bind.
  { rewrite wrapM_state, read_job. apply grows_refl. }
  intros j s0 _. apply grows_bind.
  { destruct (bool_decide _); [|apply grows_refl].
    apply grows_bind; [apply grows_refl|]. intros s1 s2 _.
    apply grows_bind; [apply grows_refl|]. intros [e|] s3 _; [|apply grows_refl].
    apply grows_bind; [rewrite wrapM_state; apply applySetJob_grows|].
    intros; apply grows_refl. }
  intros job s1 _. apply grows_bind; [apply grows_refl|]. intros s2 s3 _.
  apply grows_bind; [apply grows_refl|]. intros nodes s4 _.
  destruct (bool_decide _); [apply grows_refl|].
  apply grows_bind; [|intros; apply grows_refl]. apply call_nodes_grows. eauto.
Qed.

(** A call for a first attempt of one of the jobs. *)
Definition runs_one_of (now : time) (djs : list string) (c : call) : Prop :=
  ∃ djn a pj, djn ∈ djs ∧ c = CallAgentRun a pj (Execution_ToProto (NewExecution now djn)).

Lemma Job_Run_grows now ch dj djs s :
  dj.(Job_Name) ∈ djs → grows (runs_one_of now djs) s (Job_Run now ch dj s).2.
Proof.
  intros Hin. unfold Job_Run. destruct (isRunnable _ _ _); [|apply grows_refl].
  apply grows_bind; [|intros; apply grows_refl].
  assert (∀ m : M Server Job, (tryM m s).2 = (m s).2) as ->
    by (intros m; unfold tryM; by destruct (m s) as [[] ?]).
  pose proof (Run_grows now ch (Job_Name dj) (NewExecution now (Job_Name dj)) s)
    as [(l & E & F) Hs].
  split; [|done]. exists l. split; [done|]. eapply Forall_impl; [exact F|].
  intros c (a & pj & ->). unfold runs_one_of. eauto 6.
Qed.

Lemma stored_name (d : db) σ n j : Holds d σ → (GetJob n d).1 = Ok j → j.(Job_Name) = n.
Proof.
  intros HH. rewrite (GetJob_value _ _ _ HH). unfold spec_GetJob.
  destruct (jobs σ !! n) as [j'|] eqn:E; [|done]. intros [= ->].
  pose proof (rep_jobs _ _ HH n) as HF. rewrite E in HF. inversion HF as [v ? Hr|]; subst.
  apply Hr.
Qed.

Lemma run_dependents_grows now ch djs all s :
  (∀ n, n ∈ djs → n ∈ all) → sound s →
  grows (runs_one_of now all) s (run_dependents now ch djs s).2.
Proof.
  revert s. induction djs as [|djn djs IH]; intros s Hsub Hs; cbn [run_dependents].
  { apply grows_refl. }
  apply grows_bind.
  { unfold tryM. rewrite read_job. destruct ((GetJob djn (s_db s)).1); apply grows_refl. }
  intros dj s1 H1. apply tryM_Ok in H1. rewrite read_job in H1.
  destruct H1 as [(j & -> & [= Hj <-])|(e & -> & [= _ <-])]; [|apply grows_refl].
  pose proof Hs as [σ Hσ].
  assert (Job_Name j ∈ all) as Hin
    by (rewrite (stored_name _ _ _ _ Hσ Hj); apply Hsub; by left).
  pose proof (Job_Run_grows now ch j all s Hin) as HG. apply grows_bind; [exact HG|].
  intros [] s2 E2. apply IH; [intros n Hn; apply Hsub; by right|].
  rewrite E2 in HG. by apply HG.
Qed.

Lemma GetExecutionGroup_same ex (d : db) : (GetExecutionGroup ex d).2 = d.
Proof.
  unfold GetExecutionGroup, GetExecutions, list_, bindM. rewrite db_View_spec.
  destruct (listTxFunc _ d) as [kvs found]. unfold errM, retM, liftM.
  by destruct (negb found && true), (unmarshalExecutions kvs).
Qed.

(** C29: chaining.  The calls that the final end of an execution makes are first attempts
    of jobs that depend on the job of the execution, and there are none unless the
    status of the job, as just stored, is success. *)
Theorem ExecutionDone_dependents now ch pbex s s' :
  IsLeader (s_agent s) = true → sound s →
  (∀ j0 pbex', (GetJob pbex.(pbEx_JobName) (s_db s)).1 = Ok j0 →
     run_processors (s_config s).(NodeName) (map_to_list j0.(Job_Processors)) pbex = Ok pbex' →
     command_ok (CmdExecutionDone pbex')) →
  grpc_ExecutionDone now ch pbex s = (Ok "saved", s') →
  ∃ j0 pbex' job, (GetJob pbex.(pbEx_JobName) (s_db s)).1 = Ok j0 ∧
    run_processors (s_config s).(NodeName) (map_to_list j0.(Job_Processors)) pbex = Ok pbex' ∧
    (GetJob pbex.(pbEx_JobName)
       (run_command now (CmdExecutionDone pbex') (s_db s)).2).1 = Ok job ∧
    ∃ l, s'.(s_calls) = s.(s_calls) ++ l ∧
      Forall (runs_one_of now job.(Job_DependentJobs)) l ∧
      (job.(Job_Status) ≠ StatusSuccess → l = []).
Proof.
  intros Hl [σ Hσ] Hok H. destruct (ExecutionDone_inv _ _ _ _ _ _ Hl H)
    as (j0 & pbex' & cmd & resp & s1 & job & Hj0 & Hp & Hc & Hr & Hj & Hd).
  specialize (Hok j0 pbex' Hj0 Hp). exists j0, pbex', job. split; [done|]. split; [done|].
  pose proof (raft_Apply_no_error _ _ _ _ _ Hr) as Hne.
  destruct (raft_Apply_command now _ _ s Hc Hne) as [_ Edb].
  pose proof (raft_Apply_same now cmd s) as (_ & _ & _ & _ & Ec).
  destruct (run_command_implements now _ Hok (s_db s) σ Hσ) as [_ Hσ1].
  rewrite Hr in Edb, Ec. cbn [snd] in Edb, Ec. rewrite <- Edb in Hσ1. rewrite <- Edb.
  rewrite (stored_name _ _ _ _ Hσ Hj0) in Hj. split; [done|].
  unfold done_rest in Hd. destruct (negb _ && _).
  { apply bindM_Ok in Hd as (? & ? & _ & ?). done. }
  apply bindM_Ok in Hd as (exg & s2 & H2 & Hd). rewrite on_node_on_db in H2.
  injection H2 as Eexg <-. apply bindM_Ok in Hd as (u & s3 & H3 & Hd).
  unfold on_outbox in H3. destruct (Send _ _) as [r o]. injection H3 as -> <-.
  apply bindM_Ok in Hd as (u' & s4 & H4 & [= <-]).
  rewrite GetExecutionGroup_same in H4.
  match type of H4 with context [mkSrv ?n ?a ?o ?c] => set (s3 := mkSrv n a o c) in H4 end.
  assert (sound s3) as Hs3 by (eexists; exact Hσ1).
  assert (s_calls s3 = s_calls s) as Ec3 by done.
  destruct (bool_decide (Job_DependentJobs job ≠ [])); cbn [andb] in H4.
  2: { injection H4 as _ <-. exists []. rewrite (right_id_L [] (++)). done. }
  case_bool_decide as Hst.
  - pose proof (run_dependents_grows now ch (Job_DependentJobs job) (Job_DependentJobs job) s3
      (λ n Hn, Hn) Hs3) as [(l & E & F) _].
    rewrite H4 in E. simpl in E. exists l. rewrite <- Ec3. split_and!; [done..|]. done.
  - injection H4 as _ <-. exists []. rewrite (right_id_L [] (++)). done.
Qed.

(** C30: concurrency.  A job that forbids concurrency is not run, and nothing happens at
    all, when some server of the region reports an execution of it that is still
    active, or when one of the servers cannot be asked. *)
Theorem Job_Run_forbid now ch (j : Job) s :
  j.(Job_Concurrency) = ConcurrencyForbid →
  (∃ p, p ∈ LocalServers (s_agent s) ∧
     match remote_active (TCPAddr_String p.(SP_RPCAddr)) with
     | Ok exs => ∃ e, e ∈ exs ∧ e.(pbEx_JobName) = j.(Job_Name)
     | _ => True
     end) →
  Job_Run now ch j s = (Ok tt, s).
Proof.
  intros Hf (p & Hp & Hact). unfold Job_Run.
  destruct (isRunnable _ _ j) eqn:E; [|done]. apply isRunnable_spec in E as (_ & _ & E).
  destruct (E Hf) as (exs & Hexs & HF). exfalso. rewrite Forall_forall in HF.
  assert (TCPAddr_String (SP_RPCAddr p) ∈
    (λ p, TCPAddr_String p.(SP_RPCAddr)) <$> LocalServers (s_agent s)) as Hin
    by (apply list_elem_of_fmap; eauto).
  unfold GetActiveExecutions in Hexs. revert exs Hexs HF.
  induction Hin as [a l|a b l _ IH]; cbn [collect_active]; intros exs Hexs HF.
  - destruct (remote_active _) as [l1| |]; [|done..]. destruct Hact as (e & He & En).
    simpl in Hexs. destruct (collect_active l) as [l2| |]; [|done..]. injection Hexs as <-.
    apply (HF e); [|done]. apply elem_of_app. by left.
  - destruct (remote_active b) as [l1| |]; [|done..]. simpl in Hexs.
    destruct (collect_active l) as [l2| |]; [|done..]. injection Hexs as <-.
    apply (IH Hact l2); [done|]. intros e He. apply HF, elem_of_app. by right.
Qed.
End ServerProps.

(** ** Examples *)
Module ServerExample.
Import Toy Example SchedulerExample ClusterExample TargetsExample NotifierExample.

(** A world in which every call succeeds; [busy] is the job that the other servers say
    they are running. *)
Definition world (busy : string) : World toyraft := {|
  call_outcome c := Ok tt;
  remote_active a := Ok (if bool_decide (busy = "") then []
                         else [Execution_ToProto (toy_exec busy "node2" 1 0 false)]);
  ProcessorPlugins k := None;
  raft_Apply_error r := None;
  GlobalLock := false
|}.
#[local] Existing Instance ToyDelivery.

(** A leader with the jobs [a] and [b], a child of [a], in the store, and [a] in the
    scheduler. *)
Definition jobR : Job :=
  mkJob "a" "" "" "@every 1m" "" "" 0 0 NullableTime_zero NullableTime_zero false ∅ ∅ 1 [] ""
    ∅ "" "shell" ∅ "" 0.
Definition store0 : toydb := (SetJob 0 Example.jobB false (SetJob 0 jobR false d0).2).2.

Definition serverL (a : Agent toyraft) : Srv (db:=toydb) :=
  mkSrv (mkNode a (Start [jobR] NewScheduler).2 store0) ∅ [] [].
Definition server : Srv (db:=toydb) := serverL agent0.

Definition failed : Execution := mkExecution "a" nanos_per_sec (2 * nanos_per_sec) false "" "node2" 5 1.
Definition succeeded : Execution := mkExecution "a" nanos_per_sec (2 * nanos_per_sec) true "" "node2" 5 1.

Definition targets {A} (r : res A * Srv (R:=toyraft) (db:=toydb)) : list (string * string * Z) :=
  omap (λ c, match c with
             | CallAgentRun a j e => Some (a, pbJob_Name j, pbEx_Attempt e)
             | _ => None
             end) r.2.(s_calls).

Example run_all : targets (Run (WD:=world "") 0 toy_choices "a" (NewExecution 0 "a") server) =
  [("10.0.0.1:6868", "a", 1); ("10.0.0.2:6868", "a", 1)].
Proof. vm_compute. reflexivity. Qed.

Example retry_one :
  targets (grpc_ExecutionDone (WD:=world "") 0 toy_choices (Execution_ToProto failed) server) =
  [("10.0.0.2:6868", "a", 2)].
Proof. vm_compute. reflexivity. Qed.

Example chained :
  targets (grpc_ExecutionDone (WD:=world "") 0 toy_choices (Execution_ToProto succeeded) server) =
  [("10.0.0.1:6868", "b", 1); ("10.0.0.2:6868", "b", 1)].
Proof. vm_compute. reflexivity. Qed.

Lemma leads : IsLeader (s_agent server) = true.
Proof. vm_compute. reflexivity. Qed.

Lemma Run_spec_witness :
  ∃ job s' nodes, Run (WD:=world "") 0 toy_choices "a" (NewExecution 0 "a") server = (Ok job, s') ∧
    target_nodes toy_choices job (NewExecution 0 "a") agent0 = Ok nodes ∧
    s'.(s_calls) = run_call job (NewExecution 0 "a") <$> (map_to_list nodes).*2.
Proof.
  destruct (Run (WD:=world "") 0 toy_choices "a" (NewExecution 0 "a") server) as [r s'] eqn:E.
  destruct r as [job|e|w];
    [|apply (f_equal (λ x, x.1)) in E; vm_compute in E; discriminate E..].
  destruct (Run_spec (WD:=world "") 0 toy_choices "a" (NewExecution 0 "a") server job s' E)
    as (j & nodes & _ & _ & Hn & _ & Hc & _).
  exists job, s', nodes. split; [reflexivity|]. split; [exact Hn|exact Hc].
Defined.


(** The same server when another one leads. *)
Definition follower : Srv (db:=toydb) :=
  serverL (set_raft (mkToyraft [] "10.0.0.2:6868" 7 false) agent0).

Lemma follows : IsLeader (s_agent follower) = false.
Proof. vm_compute. reflexivity. Qed.

Lemma ExecutionDone_forwarded_witness :
  (grpc_ExecutionDone (WD:=world "") 0 toy_choices (Execution_ToProto failed) follower).1
    = Err ErrNotLeader.
Proof.
  rewrite (ExecutionDone_forwarded (WD:=world "") 0 toy_choices (Execution_ToProto failed) follower
    follows (λ c w (H : Ok tt = Crash w), ltac:(discriminate H))).
  reflexivity.
Defined.

Lemma store0_holds : ∃ σ, Holds store0 σ.
Proof.
  assert (Holds d0 s0) as H0 by apply Rep_empty.
  destruct (SetJob_implements 0 jobR false d0 s0 H0) as [_ H1].
  destruct (SetJob_implements 0 Example.jobB false _ _ H1) as [_ H2]. by eexists.
Qed.

Lemma ExecutionDone_dependents_witness :
  ∃ s' job l, grpc_ExecutionDone (WD:=world "") 0 toy_choices (Execution_ToProto succeeded) server
          = (Ok "saved", s') ∧ s'.(s_calls) = l ∧ Forall (runs_one_of 0 (Job_DependentJobs job)) l.
Proof.
  destruct (grpc_ExecutionDone (WD:=world "") 0 toy_choices (Execution_ToProto succeeded) server)
    as [r s'] eqn:E.
  assert (r = Ok "saved") as Hr
    by (change r with (r, s').1; rewrite <- E; vm_compute; reflexivity).
  subst r. exists s'.
  destruct (ExecutionDone_dependents (WD:=world "") 0 toy_choices (Execution_ToProto succeeded)
    server s' leads store0_holds) as (j0 & pbex' & job & _ & _ & _ & l & Hl & HF & _).
  - intros j0 pbex' Hj Hp.
    assert (map_to_list (Job_Processors j0) = []) as Hm.
    { apply (f_equal (λ r, match r with Ok j => map_to_list (Job_Processors j) | _ => [] end)) in Hj.
      etransitivity; [symmetry; exact Hj|]. vm_compute. reflexivity. }
    rewrite Hm in Hp. injection Hp as <-. split.
    all: refine (bool_decide_unpack _ _); vm_compute; exact I.
  - exact E.
  - exists job, l. split; [reflexivity|]. split; [exact Hl|exact HF].
Defined.

Definition forbidden : Job :=
  mkJob "a" "" "" "@every 1m" "" "" 0 0 NullableTime_zero NullableTime_zero false ∅ ∅ 1 [] ""
    ∅ "forbid" "shell" ∅ "" 0.

Lemma Job_Run_forbid_witness :
  Job_Run (WD:=world "a") 0 toy_choices forbidden server = (Ok tt, server).
Proof.
  apply (Job_Run_forbid (WD:=world "a")); [reflexivity|].
  exists (parts_of node2). split.
  - apply list_elem_of_omap. exists node2. split; [right; left|]. vm_compute. reflexivity.
  - eexists. split; [left|]. vm_compute. reflexivity.
Defined.

(** A job that the store refuses is scheduled all the same.  [applySetJob] reports
    only a missing parent, so that a job with an illegal name is answered with success,
    runs in the scheduler, and is not in the store. *)
Theorem refused_job_scheduled :
  let j := toy_job "A" "@every 1m" "" in
  let r := grpc_SetJob (WD:=world "") 0 (Job_ToProto j) server in
  r.1 = Ok tt ∧ Validate j = Some (ErrOther "name contains illegal character 'A'") ∧
  (GetJob "A" (s_db r.2)).1 = Err ErrNotFound ∧
  (match GetEntry "A" r.2.(s_node).(n_sched) with
   | Ok (Some e) => e.(Entry_Job).(Job_Name) = "A"
   | _ => False
   end).
Proof. split_and!; vm_compute; reflexivity. Qed.

(** A retry for a node that has left serf's list is not refused: it is sent to the
    empty address, and reported as done. *)
Theorem retry_of_vanished_node :
  let ex := mkExecution "a" 0 0 false "" "node9" 5 2 in
  let r := Run (WD:=world "") 0 toy_choices "a" ex server in
  (∀ m, m ∈ (s_agent server).(a_serf) → m.(Member_Name) ≠ "node9") ∧
  (match r.1 with Ok _ => True | _ => False end) ∧ targets r = [("", "a", 2)].
Proof.
  split_and!; [|vm_compute; exact I|vm_compute; reflexivity].
  apply Forall_forall. refine (bool_decide_unpack _ _). vm_compute. exact I.
Qed.

(** A webhook that cannot be reached. *)
Definition NoDelivery : Delivery := {|
  Time_String t := pretty t;
  template_Render s := Some (λ d, Ok s);
  NewRequest_error s := None;
  deliver m := Err (ErrOther "connection refused")
|}.

Definition hook_agent : Agent toyraft :=
  mkAgent (mkConfig "node1" "" "" "" "" ∅ true "" [] [] 0 0 6868 6868 "info" "dc1" "global"
             false 0 "" false 0 1 "" 0 "" "" "" "" "" "http://hook" "done" [] "" [] "" "24h" false)
    agent0.(a_serf) ∅ ∅ None raft0.

(** A notification that fails stops the chain: the success of a job is stored, and
    its dependent job is run when the webhook answers and is not run when it does
    not. *)
Theorem failed_notification_stops_chain :
  let r1 := grpc_ExecutionDone (WD:=world "") 0 toy_choices
              (Execution_ToProto succeeded) (serverL hook_agent) in
  let r2 := grpc_ExecutionDone (WD:=world "") (DL:=NoDelivery) 0 toy_choices
              (Execution_ToProto succeeded) (serverL hook_agent) in
  r1.1 = Ok "saved" ∧ targets r1 = [("10.0.0.1:6868", "b", 1); ("10.0.0.2:6868", "b", 1)] ∧
  r2.1 = Err (ErrOther "notifier: Error posting notification: connection refused") ∧
  targets r2 = [] ∧ s_db r1.2 = s_db r2.2.
Proof. split_and!; vm_compute; reflexivity. Qed.
End ServerExample.
