(* ===== verification/Stream.v ===== *)
(** * [dkron/grpc_client.go] and [dkron/grpc_agent.go]: calls between nodes

    The client side of the gRPC interface, and the stream that reports an execution:
    [AgentRun] on the agent that runs the job, and [AgentRun] of the client on the
    server that called it.  Connections, remote handlers, executor plugins and
    [armon/circbuf] are parameters; the messages and calls made are part of the state,
    so that the theorems can speak of them. *)
From Stdlib Require Import ZArith Lia Ascii.
From stdpp Require Import base list gmap strings pretty.
From S2P Require Import Prelude GoStrings GoNet GoTime Pb NTime ExtCron Execution Job Instances Notifier.

#[local] Open Scope Z_scope.

(** ** The client *)

(** The error of a handler as the client sees it, [status.Error]. *)
Definition rpc_error (e : error) : error :=
  ErrOther ("rpc error: code = Unknown desc = " +:+ Error e).

Section Client.
Context {PT : Ptypes}.

(** [Connect(addr)]: the error of dialling an address; and a remote method, by address. *)
Variable connect : string → option error.

Definition call_remote {A B} (method : string → A → res B) (addr : string) (request : A) : res B :=
  match connect addr with
  | Some err => Err err
  | None =>
      match method addr request with
      | Err e => Err (rpc_error e)
      | r => r
      end
  end.

(** [ExecutionDone(addr, execution)]: a follower that has forwarded the request answers
    with an error that is not one for the caller. *)
Definition client_ExecutionDone (method : string → pbExecution → res string) (addr : string)
    (execution : Execution) : res unit :=
  match call_remote method addr (Execution_ToProto execution) with
  | Ok _ => Ok tt
  | Err e =>
      if bool_decide (Error e = "rpc error: code = Unknown desc = " +:+ Error ErrNotLeader)
      then Ok tt else Err e
  | Crash w => Crash w
  end.

(** [GetJob(addr, jobName)] *)
Definition client_GetJob (method : string → string → res pbJob) (addr jobName : string) : res Job :=
  job <-? call_remote method addr jobName ;; Ok (NewJobFromProto job).

(** [Leave(addr)] *)
Definition client_Leave (method : string → unit → res unit) (addr : string) : res unit :=
  call_remote method addr tt.

(** [SetJob(job)], [DeleteJob(jobName)], [RunJob(jobName)] and [SetExecution(execution)]
    call the leader. *)
Definition client_SetJob (method : string → pbJob → res unit) (leader : string) (job : Job) :
    res unit := call_remote method leader (Job_ToProto job).

Definition client_DeleteJob (method : string → string → res pbJob) (leader jobName : string) :
    res Job := job <-? call_remote method leader jobName ;; Ok (NewJobFromProto job).

Definition client_RunJob (method : string → string → res pbJob) (leader jobName : string) :
    res Job := job <-? call_remote method leader jobName ;; Ok (NewJobFromProto job).

Definition client_SetExecution (method : string → pbExecution → res unit) (leader : string)
    (execution : pbExecution) : res unit := call_remote method leader execution.

(** [RaftGetConfiguration(addr)] and [RaftRemovePeerByID(addr, peerID)] *)
Definition client_RaftGetConfiguration {A} (method : string → unit → res A) (addr : string) :
    res A := call_remote method addr tt.

Definition client_RaftRemovePeerByID (method : string → string → res unit) (addr peerID : string) :
    res unit := call_remote method addr peerID.

(** [GetActiveExecutions(addr)] *)
Definition client_GetActiveExecutions (method : string → unit → res (list pbExecution))
    (addr : string) : res (list pbExecution) := call_remote method addr tt.
End Client.

(** ** The agent's side of the stream *)

(** [types.ExecuteResponse] *)
Record ExecuteResponse := mkExecuteResponse { ER_Output : string; ER_Error : string }.

(** What an executor plugin does with a request: the partial outputs that it passes to
    [Update], and what it returns when it has seen whether each of them was sent. *)
Record ExecScript := mkExecScript {
  es_updates : list string;
  es_result : list bool → option ExecuteResponse * option error
}.

(** [armon/circbuf]: a buffer that keeps the last [size] bytes written. *)
Definition last_bytes (n : nat) (s : string) : string :=
  String.substring (String.length s - n) n s.

Class Circbuf := {
  circbuf_Bytes : nat → list string → string;
  circbuf_spec n ws : circbuf_Bytes n ws = last_bytes n (Join ws "")
}.

(** [maxBufSize] *)
Definition maxBufSize : Z := 256000.

Section AgentRun.
Context {PT : Ptypes} {CB : Circbuf}.
Variable executors : string → option (string → gmap string string → ExecScript).
(** [checkAndSelectServer()] and the client's [ExecutionDone]. *)
Variable selectServer : res string.
Variable executionDone : string → Execution → res unit.

(** The agent that runs a job: what it has sent, the errors that await the next
    messages, the executions it is running, and the fallback calls it made. *)
Record Runner := mkRunner {
  r_sent : list pbExecution;
  r_errors : list (option error);
  r_running : gset Z;
  r_done : list (string * Execution)
}.

(** [stream.Send(...)]: the next message goes through unless an error awaits it. *)
Definition send (e : pbExecution) : M Runner unit := λ r,
  match r.(r_errors) with
  | Some err :: errs => (Err err, mkRunner r.(r_sent) errs r.(r_running) r.(r_done))
  | None :: errs => (Ok tt, mkRunner (r.(r_sent) ++ [e]) errs r.(r_running) r.(r_done))
  | [] => (Ok tt, mkRunner (r.(r_sent) ++ [e]) [] r.(r_running) r.(r_done))
  end.

Definition set_running (f : gset Z → gset Z) : M Runner unit := λ r,
  (Ok tt, mkRunner r.(r_sent) r.(r_errors) (f r.(r_running)) r.(r_done)).

(** Assignments to fields of the execution. *)
Definition pbEx_start (started : option timestamp) (node : string) (e : pbExecution) :
    pbExecution :=
  mkpbExecution e.(pbEx_JobName) e.(pbEx_Success) e.(pbEx_Output) node e.(pbEx_Group)
    e.(pbEx_Attempt) started e.(pbEx_FinishedAt).
Definition pbEx_set_output (out : string) (e : pbExecution) : pbExecution :=
  mkpbExecution e.(pbEx_JobName) e.(pbEx_Success) out e.(pbEx_NodeName) e.(pbEx_Group)
    e.(pbEx_Attempt) e.(pbEx_StartedAt) e.(pbEx_FinishedAt).
Definition pbEx_finish (finished : option timestamp) (success : bool) (out : string)
    (e : pbExecution) : pbExecution :=
  mkpbExecution e.(pbEx_JobName) success out e.(pbEx_NodeName) e.(pbEx_Group)
    e.(pbEx_Attempt) e.(pbEx_StartedAt) finished.

(** [statusAgentHelper.Update] for every partial output: the execution with the last
    output, and which messages went through. *)
Fixpoint run_updates (outs : list string) (e : pbExecution) : M Runner (pbExecution * list bool) :=
  match outs with
  | [] => retM (e, [])
  | b :: outs' =>
      let e := pbEx_set_output b e in
      r <- tryM (send e) ;;
      rest <- run_updates outs' e ;;
      retM (rest.1, bool_decide (r = inl tt) :: rest.2)
  end.

(** The outcome of an executor: whether it succeeded, and what is written to the
    output.  A missing response without an error is dereferenced. *)
Definition outcome (res_ : option ExecuteResponse * option error) : res (bool * list string) :=
  let '(out, err) := res_ in
  err <-? match err, out with
          | Some e, _ => Ok (Some e)
          | None, Some o => Ok (if bool_decide (o.(ER_Error) ≠ "") then Some (ErrOther o.(ER_Error))
                                else None)
          | None, None => Crash "nil pointer dereference"
          end ;;
  Ok (bool_decide (err = None),
      match err with Some e => [Error e +:+ newline] | None => [] end
      ++ match out with Some o => [o.(ER_Output)] | None => [] end).

(** [AgentRun(req, stream)], started at [t0] and finished at [t1]. *)
Definition AgentRun (NodeName : string) (t0 t1 : time) (job : pbJob) (execution : pbExecution) :
    M Runner unit :=
  if bool_decide (job.(pbJob_Executor) = "")
  then errM (ErrOther "grpc_agent: No executor defined, nothing to do")
  else
    let execution := pbEx_start (TimestampProto t0) NodeName execution in
    send execution ;;;
    result <- match executors job.(pbJob_Executor) with
              | Some executor =>
                  set_running (λ R, {[execution.(pbEx_Group)]} ∪ R) ;;;
                  let script := executor job.(pbJob_Name) job.(pbJob_ExecutorConfig) in
                  u <- run_updates script.(es_updates) execution ;;
                  o <- liftM (outcome (script.(es_result) u.2)) ;;
                  retM (u.1, o)
              | None =>
                  retM (execution, (false, ["grpc_agent: Specified executor is not present"]))
              end ;;
    let '(execution, (success, output)) := (result : pbExecution * (bool * list string)) in
    let execution := pbEx_finish (TimestampProto t1) success
                       (circbuf_Bytes (Z.to_nat maxBufSize) output) execution in
    set_running (λ R, R ∖ {[execution.(pbEx_Group)]}) ;;;
    r <- tryM (send execution) ;;
    match r with
    | inl _ => retM tt
    | inr _ =>
        rpcServer <- liftM selectServer ;;
        (λ r, (executionDone rpcServer (NewExecutionFromProto execution),
               mkRunner r.(r_sent) r.(r_errors) r.(r_running)
                 (r.(r_done) ++ [(rpcServer, NewExecutionFromProto execution)])))
    end.
End AgentRun.

(** ** The server's side of the stream *)

(** The calls that the server makes to the leader. *)
Inductive leader_call :=
  | LeaderSetExecution (addr : string) (e : pbExecution)
  | LeaderExecutionDone (addr : string) (e : Execution).

Section ClientRun.
Context {PT : Ptypes}.
Variable leader : string.
Variable outcome_of : leader_call → res unit.

(** [agent.activeExecutions], the keys that are deleted when the call returns, and the
    calls made. *)
Record Follow := mkFollow {
  f_active : gmap string pbExecution;
  f_deferred : list string;
  f_calls : list leader_call
}.

Definition leader_do (c : leader_call) : M Follow unit := λ f,
  (outcome_of c, mkFollow f.(f_active) f.(f_deferred) (f.(f_calls) ++ [c])).

(** [activeExecutions.Store(key, e)] and the deferred deletion. *)
Definition register (e : pbExecution) : M Follow unit := λ f,
  (Ok tt, mkFollow (<[pbExecution_Key e := e]> f.(f_active))
            (pbExecution_Key e :: f.(f_deferred)) f.(f_calls)).

(** The loop over the messages, and what ends the stream: [io.EOF] or an error. *)
Fixpoint follow (now : time) (execution : pbExecution) (first : bool) (msgs : list pbExecution)
    (ending : option error) : M Follow unit :=
  match msgs with
  | [] =>
      match ending with
      | None => leader_do (LeaderExecutionDone leader (NewExecutionFromProto execution))
      | Some err =>
          let execution := pbEx_finish (TimestampProto now) execution.(pbEx_Success)
                             (Error ErrBrokenStream) execution in
          leader_do (LeaderExecutionDone leader (NewExecutionFromProto execution)) ;;;
          errM err
      end
  | e :: msgs' =>
      register e ;;;
      (if first then retM tt else leader_do (LeaderSetExecution leader e)) ;;;
      follow now e true msgs' ending
  end.

(** The deferred deletions, whatever the result. *)
Definition with_deferred (m : M Follow unit) : M Follow unit := λ f,
  let '(r, f') := m (mkFollow f.(f_active) [] f.(f_calls)) in
  (r, mkFollow (foldr delete f'.(f_active) f'.(f_deferred)) [] f'.(f_calls)).

(** [AgentRun(addr, job, execution)] of the client: [dialled] and [opened] are the errors
    of the connection and of opening the stream, when they fail. *)
Definition client_AgentRun (dialled opened : option error) (now : time) (execution : pbExecution)
    (msgs : list pbExecution) (ending : option error) : M Follow unit :=
  match dialled with
  | Some err => errM err
  | None =>
      match opened with
      | Some err => errM err
      | None => with_deferred (follow now execution false msgs ending)
      end
  end.
End ClientRun.

(** ** What the agent reports *)
Section AgentRunProps.
Context {PT : Ptypes} {CB : Circbuf}.
Variable executors : string → option (string → gmap string string → ExecScript).
Variable selectServer : res string.
Variable executionDone : string → Execution → res unit.
#[local] Abbreviation run := (AgentRun executors selectServer executionDone).

(** The fields that the updates leave alone. *)
Definition same_execution (e e' : pbExecution) : Prop :=
  e'.(pbEx_JobName) = e.(pbEx_JobName) ∧ e'.(pbEx_NodeName) = e.(pbEx_NodeName) ∧
  e'.(pbEx_Group) = e.(pbEx_Group) ∧ e'.(pbEx_Attempt) = e.(pbEx_Attempt) ∧
  e'.(pbEx_StartedAt) = e.(pbEx_StartedAt).

Lemma run_updates_ok outs e r :
  r.(r_errors) = [] →
  ∃ e' partials, run_updates outs e r =
    (Ok (e', replicate (length outs) true),
     mkRunner (r.(r_sent) ++ partials) [] r.(r_running) r.(r_done)) ∧
    same_execution e e' ∧ Forall (same_execution e) partials.
Proof.
  revert e r. induction outs as [|b outs IH]; intros e r Hr; cbn [run_updates].
  { exists e, []. rewrite (right_id_L [] (++)), <- Hr. destruct r. by repeat split. }
  unfold bindM at 1. unfold tryM, send. rewrite Hr.
  destruct (IH (pbEx_set_output b e) (mkRunner (r_sent r ++ [pbEx_set_output b e]) []
    (r_running r) (r_done r)) eq_refl) as (e' & ps & E & He & HF).
  unfold bindM at 1. rewrite E. exists e', (pbEx_set_output b e :: ps). simpl.
  rewrite <- (assoc_L (++)). split_and!; [done|done|]. by constructor.
Qed.

Lemma run_updates_any outs e r x r' :
  run_updates outs e r = (x, r') →
  ∃ e' l, x = Ok (e', l) ∧ same_execution e e' ∧ r'.(r_running) = r.(r_running) ∧
    r'.(r_done) = r.(r_done).
Proof.
  revert e r x r'. induction outs as [|b outs IH]; intros e r x r'; cbn [run_updates].
  { intros [= <- <-]. exists e, []. by repeat split. }
  unfold bindM at 1. unfold tryM.
  assert (∃ y r1, send (pbEx_set_output b e) r = (y, r1) ∧ (∀ w, y ≠ Crash w) ∧
    r_running r1 = r_running r ∧ r_done r1 = r_done r) as (y & r1 & E & Hy & E1 & E2).
  { unfold send. destruct (r_errors r) as [|[]]; do 2 eexists; by split_and!. }
  rewrite E. assert (∀ z, bindM (run_updates outs (pbEx_set_output b e))
    (λ rest, retM (rest.1, z :: rest.2)) r1 = (x, r') →
    ∃ e' l, x = Ok (e', l) ∧ same_execution e e' ∧ r_running r' = r_running r ∧
      r_done r' = r_done r) as H.
  { intros z. unfold bindM. destruct (run_updates outs _ r1) as [x1 r2] eqn:E3.
    destruct (IH _ _ _ _ E3) as (e' & l & -> & He & E4 & E5). intros [= <- <-].
    exists e', (z :: l). split_and!; [done|done|congruence..]. }
  destruct y as [u|err|w]; [apply H|apply H|by destruct (Hy w)].
Qed.

Lemma substring_short n m s : (String.length (String.substring n m s) ≤ m)%nat.
Proof.
  revert n m. induction s as [|c s IH]; intros [|n] [|m]; simpl; try lia.
  - pose proof (IH O m). lia.
  - apply IH.
  - apply IH.
Qed.

Lemma output_bound ws : Z.of_nat (String.length (circbuf_Bytes (Z.to_nat maxBufSize) ws)) ≤ maxBufSize.
Proof.
  rewrite circbuf_spec. unfold last_bytes.
  pose proof (substring_short (String.length (Join ws "") - Z.to_nat maxBufSize)
    (Z.to_nat maxBufSize) (Join ws "")) as H. unfold maxBufSize in *. lia.
Qed.

(** The executor is there and reports success. *)
Definition succeeds (job : pbJob) : Prop :=
  ∃ executor o, executors job.(pbJob_Executor) = Some executor ∧
    let script := executor job.(pbJob_Name) job.(pbJob_ExecutorConfig) in
    script.(es_result) (replicate (length script.(es_updates)) true) = (Some o, None) ∧
    o.(ER_Error) = "".

Lemma outcome_success x b ws :
  outcome x = Ok (b, ws) → b = true ↔ ∃ o, x = (Some o, None) ∧ o.(ER_Error) = "".
Proof.
  unfold outcome. destruct x as [[o|] [e|]]; simpl; [| | |done].
  - intros [= <- _]. split; [done|by intros (? & ? & _)].
  - destruct (decide (ER_Error o = "")) as [Ho|Ho].
    + rewrite (bool_decide_eq_false_2 (_ ≠ _)) by (intros Hn; by apply Hn). intros [= <- _]. split; eauto.
    + rewrite (bool_decide_eq_true_2 (_ ≠ _)) by done. intros [= <- _].
      split; [done|]. by intros (? & [= <-] & ?).
  - intros [= <- _]. split; [done|by intros (? & ? & _)].
Qed.

(** What an agent reports of an execution.  When the stream holds, the first message
    names the node and the start, and the last one is the finished execution, with the
    same start, at most [maxBufSize] bytes of output, and success exactly when the
    executor is loaded and returned a response without an error; all messages are of
    the same execution, and afterwards it is not counted as running any more. *)
Lemma AgentRun_stream node t0 t1 job ex r r' :
  r.(r_errors) = [] → run node t0 t1 job ex r = (Ok tt, r') →
  ∃ first partials final,
    first = pbEx_start (TimestampProto t0) node ex ∧
    r'.(r_sent) = r.(r_sent) ++ first :: partials ++ [final] ∧
    Forall (same_execution first) partials ∧ same_execution first final ∧
    final.(pbEx_FinishedAt) = TimestampProto t1 ∧
    Z.of_nat (String.length final.(pbEx_Output)) ≤ maxBufSize ∧
    (final.(pbEx_Success) = true ↔ succeeds job) ∧
    r'.(r_running) = r.(r_running) ∖ {[ex.(pbEx_Group)]} ∧ r'.(r_done) = r.(r_done).
Proof.
  intros Hr. unfold AgentRun. case_bool_decide as Hex; [done|].
  set (first := pbEx_start (TimestampProto t0) node ex).
  unfold bindM at 1. unfold send at 1. rewrite Hr. intros H.
  apply bindM_Ok in H as ([e2 [succ out]] & r2 & H2 & H).
  assert (∃ partials, r2 = mkRunner (r.(r_sent) ++ first :: partials) []
       (r_running r2) (r_done r) ∧ r_running r2 ∖ {[pbEx_Group ex]} = r_running r ∖ {[pbEx_Group ex]} ∧
     same_execution first e2 ∧ Forall (same_execution first) partials ∧
     (succ = true ↔ succeeds job)) as (partials & E2 & Erun & He2 & HF & Hs).
  { unfold succeeds. destruct (executors (pbJob_Executor job)) as [exec|].
    - unfold bindM at 1, set_running in H2. cbn [r_sent r_errors r_running r_done] in H2.
      match type of H2 with bindM (run_updates ?o ?e) _ ?r0 = _ =>
        destruct (run_updates_ok o e r0 eq_refl) as (e' & ps & E & He' & HFp) end.
      apply bindM_Ok in H2 as (u & r3 & H3 & H2). rewrite E in H3. injection H3 as <- <-.
      apply bindM_Ok in H2 as ([b ws] & r4 & [= Ho <-] & [= <- <- <- <-]).
      exists ps. cbn [r_running r_done r_sent]. rewrite <- (assoc_L (++)).
      split_and!; [done|set_solver|done|done|]. rewrite (outcome_success _ _ _ Ho). simpl.
      split; [intros (o & ? & ?); eauto 6|]. intros (? & o & [= <-] & ? & ?). eauto.
    - injection H2 as <- <- <- <-. exists []. cbn [r_running]. split_and!; try done.
      split; [done|]. by intros (? & ? & ? & _). }
  rewrite E2 in H. unfold bindM at 1, set_running in H. cbn [r_sent r_errors r_running r_done] in H.
  unfold bindM, tryM, send in H. cbn [r_errors] in H. injection H as <-.
  exists first, partials, (pbEx_finish (TimestampProto t1) succ
    (circbuf_Bytes (Z.to_nat maxBufSize) out) e2).
  cbn [r_sent r_running r_done pbEx_finish pbEx_FinishedAt pbEx_Output pbEx_Success pbEx_Group].
  destruct He2 as (E3 & E4 & E5 & E6 & E7). rewrite E5.
  split_and!; try done; [by rewrite <- (assoc_L (++))|apply output_bound].
Qed.

(** The outcome of an execution is not lost when the stream breaks.  Whenever
    [AgentRun] returns without error, the finished execution was the last message sent,
    or was handed to a server that answers through [ExecutionDone]; and the execution
    is no longer counted as running. *)
Theorem AgentRun_final node t0 t1 job ex r r' :
  run node t0 t1 job ex r = (Ok tt, r') →
  ∃ final, final.(pbEx_JobName) = ex.(pbEx_JobName) ∧ final.(pbEx_Group) = ex.(pbEx_Group) ∧
    final.(pbEx_NodeName) = node ∧ final.(pbEx_FinishedAt) = TimestampProto t1 ∧
    (ex.(pbEx_Group) ∉ r_running r') ∧
    (last (r_sent r') = Some final ∨
     ∃ server, selectServer = Ok server ∧
       executionDone server (NewExecutionFromProto final) = Ok tt ∧
       last (r_done r') = Some (server, NewExecutionFromProto final)).
Proof.
  unfold AgentRun. case_bool_decide as Hex; [done|].
  set (first := pbEx_start (TimestampProto t0) node ex).
  intros (u & r1 & _ & H)%bindM_Ok.
  apply bindM_Ok in H as ([e2 [succ out]] & r2 & H2 & H).
  assert (same_execution first e2) as (E3 & E4 & E5 & E6 & E7).
  { destruct (executors (pbJob_Executor job)) as [exec|].
    - apply bindM_Ok in H2 as (u1 & r3 & [= _ <-] & H2).
      apply bindM_Ok in H2 as (u2 & r4 & Hu & H2).
      apply bindM_Ok in H2 as (o & r5 & _ & [= <- _ _]).
      destruct (run_updates_any _ _ _ _ _ Hu) as (e' & l & [= ->] & He & _). exact He.
    - injection H2 as <- _ _ _. by repeat split. }
  apply bindM_Ok in H as (u2 & r3 & [= _ <-] & H).
  set (final := pbEx_finish (TimestampProto t1) succ
    (circbuf_Bytes (Z.to_nat maxBufSize) out) e2) in H.
  exists final. unfold final at 1 2 3 4. cbn [pbEx_finish pbEx_JobName pbEx_Group pbEx_NodeName
    pbEx_FinishedAt]. split_and!; [done..| |].
  - apply bindM_Ok in H as (x & r4 & Hx & H). apply tryM_Ok in Hx.
    assert (r_running r4 = r_running r2 ∖ {[pbEx_Group e2]}) as E8.
    { unfold send in Hx. cbn [r_errors] in Hx.
      destruct Hx as [(a & _ & Hx)|(e & _ & Hx)];
        destruct (r_errors r2) as [|[]]; simplify_eq; done. }
    assert (r_running r' = r_running r4) as ->.
    { destruct x; [by injection H as <-|]. apply bindM_Ok in H as (srv & r5 & [= _ <-] & H).
      injection H as _ <-. done. }
    rewrite E8, E5. set_solver.
  - apply bindM_Ok in H as (x & r4 & Hx & H). apply tryM_Ok in Hx as [(a & -> & Hx)|(e & -> & Hx)].
    + left. injection H as <-. unfold send in Hx. cbn [r_errors r_sent] in Hx.
      destruct (r_errors r2) as [|[]]; [|done|]; injection Hx as _ <-; cbn [r_sent];
        by rewrite last_snoc.
    + right. apply bindM_Ok in H as (srv & r5 & [= Hs <-] & H). injection H as Hd <-.
      exists srv. cbn [r_done]. split_and!; [done|done|]. by rewrite last_snoc.
Qed.
End AgentRunProps.

(** ** What the server that follows the stream reports to the leader *)
Section ClientRunProps.
Context {PT : Ptypes} {CB : Circbuf}.
Variable leader : string.
Variable outcome_of : leader_call → res unit.

(** The execution that the leader is told about when the stream is over. *)
Definition reported (now : time) (ex : pbExecution) (msgs : list pbExecution)
    (ending : option error) : pbExecution :=
  let e := default ex (last msgs) in
  match ending with
  | None => e
  | Some _ => pbEx_finish (TimestampProto now) e.(pbEx_Success) (Error ErrBrokenStream) e
  end.

(** The result of the call that tells it, followed by the error of the stream. *)
Definition then_ending (r : res unit) (ending : option error) : res unit :=
  match r, ending with
  | Ok _, Some err => Err err
  | _, _ => r
  end.

Lemma reported_cons now ex e msgs ending :
  reported now ex (e :: msgs) ending = reported now e msgs ending.
Proof. unfold reported. by rewrite last_cons; destruct (last msgs). Qed.

Lemma follow_seen now ex msgs ending f :
  follow leader outcome_of now ex true msgs ending f =
  let c := LeaderExecutionDone leader (NewExecutionFromProto (reported now ex msgs ending)) in
  (then_ending (outcome_of c) ending,
   mkFollow (foldl (λ m e, <[pbExecution_Key e := e]> m) f.(f_active) msgs)
     (reverse (pbExecution_Key <$> msgs) ++ f.(f_deferred)) (f.(f_calls) ++ [c])).
Proof.
  revert ex f. induction msgs as [|e msgs IH]; intros ex f; cbn [follow].
  - destruct ending as [err|]; cbn [reported last default].
    + unfold bindM, leader_do, errM. simpl. by destruct (outcome_of _) as [[]| |].
    + unfold leader_do, then_ending. simpl. by destruct (outcome_of _) as [[]| |].
  - unfold bindM, register, retM. rewrite IH, reported_cons. simpl.
    by rewrite reverse_cons, <- (assoc_L (++)).
Qed.

Lemma follow_unseen now ex msgs ending f :
  (∀ e, head msgs = Some e → outcome_of (LeaderSetExecution leader e) = Ok tt) →
  follow leader outcome_of now ex false msgs ending f =
  let c := LeaderExecutionDone leader (NewExecutionFromProto (reported now ex msgs ending)) in
  (then_ending (outcome_of c) ending,
   mkFollow (foldl (λ m e, <[pbExecution_Key e := e]> m) f.(f_active) msgs)
     (reverse (pbExecution_Key <$> msgs) ++ f.(f_deferred))
     (f.(f_calls) ++ (LeaderSetExecution leader <$> take 1 msgs) ++ [c])).
Proof.
  intros Hset. destruct msgs as [|e msgs].
  - pose proof (follow_seen now ex [] ending f) as E. cbn [follow] in E |- *. by rewrite E.
  - cbn [follow]. unfold bindM, register, leader_do. simpl. rewrite (Hset e) by done.
    rewrite follow_seen, reported_cons. simpl. by rewrite reverse_cons, <- !(assoc_L (++)).
Qed.

Lemma foldr_delete_lookup (m : gmap string pbExecution) ks k :
  foldr delete m ks !! k = if bool_decide (k ∈ ks) then None else m !! k.
Proof.
  induction ks as [|k' ks IH]; simpl; [done|]. destruct (decide (k = k')) as [->|Hk].
  - rewrite lookup_delete_eq, bool_decide_eq_true_2 by set_solver. done.
  - rewrite lookup_delete_ne, IH by done. by rewrite (bool_decide_ext (k ∈ k' :: ks) (k ∈ ks)) by set_solver.
Qed.

Lemma foldl_insert_lookup (m : gmap string pbExecution) msgs k :
  k ∉ pbExecution_Key <$> msgs →
  foldl (λ m e, <[pbExecution_Key e := e]> m) m msgs !! k = m !! k.
Proof.
  revert m. induction msgs as [|e msgs IH]; intros m Hk; [done|]. simpl.
  rewrite fmap_cons, not_elem_of_cons in Hk. destruct Hk as [Hk ?].
  rewrite IH by done. by rewrite lookup_insert_ne.
Qed.

(** The server that follows a stream tells the leader exactly once how the execution
    ended, with the last message received or, when the stream broke, with that message
    marked as finished and of unknown status; before that, the leader stores the first
    message.  Whatever the answers are, no execution of the stream stays registered as
    active, and the other ones are untouched. *)
Theorem client_AgentRun_spec now ex msgs ending f r f' :
  (∀ e, head msgs = Some e → outcome_of (LeaderSetExecution leader e) = Ok tt) →
  client_AgentRun leader outcome_of None None now ex msgs ending f = (r, f') →
  let c := LeaderExecutionDone leader (NewExecutionFromProto (reported now ex msgs ending)) in
  r = then_ending (outcome_of c) ending ∧
  f'.(f_calls) = f.(f_calls) ++ (LeaderSetExecution leader <$> take 1 msgs) ++ [c] ∧
  ∀ k, f'.(f_active) !! k =
    if bool_decide (k ∈ pbExecution_Key <$> msgs) then None else f.(f_active) !! k.
Proof.
  intros Hset H c. cbn [client_AgentRun] in H. unfold with_deferred in H.
  rewrite follow_unseen in H by done. injection H as <- <-. cbn [f_calls f_active f_deferred].
  split_and!; [done|done|]. intros k. rewrite (right_id_L [] (++)), foldr_delete_lookup.
  rewrite (bool_decide_ext _ (k ∈ pbExecution_Key <$> msgs)) by (by rewrite elem_of_reverse).
  case_bool_decide as Hk; [done|]. by apply foldl_insert_lookup.
Qed.

End ClientRunProps.

(** ** Concrete runs *)
Module StreamExample.
Import Toy.

#[export] Instance ToyCircbuf : Circbuf := {|
  circbuf_Bytes n ws := last_bytes n (Join ws "");
  circbuf_spec n ws := eq_refl
|}.

(** An executor that reports once on its way, and one that fails. *)
Definition executors (name : string) : option (string → gmap string string → ExecScript) :=
  if bool_decide (name = "shell")
  then Some (λ _ _, mkExecScript ["half"] (λ _, (Some (mkExecuteResponse "done" ""), None)))
  else if bool_decide (name = "http")
  then Some (λ _ _, mkExecScript [] (λ _, (Some (mkExecuteResponse "" "refused"), None)))
  else None.

Definition job (executor : string) : pbJob :=
  mkpbJob "a" "" "@every 1m" "" "" 0 0 false ∅ 0 [] "" "" executor ∅ "" ∅ None None None "" ∅.
Definition execution : pbExecution := Execution_ToProto (NewExecution 7 "a").

Definition run_of (executor : string) (errors : list (option error)) : res unit * Runner :=
  AgentRun executors (Ok "10.0.0.9:6868") (λ _ _, Ok tt) "node1" nanos_per_sec (2 * nanos_per_sec)
    (job executor) execution (mkRunner [] errors ∅ []).
Definition outputs (r : Runner) : list (bool * string) :=
  (λ e, (pbEx_Success e, pbEx_Output e)) <$> r.(r_sent).

Example run_shell : (run_of "shell" []).1 = Ok tt ∧
  outputs (run_of "shell" []).2 = [(false, ""); (false, "half"); (true, "done")].
Proof. vm_compute. done. Qed.

Example run_http : outputs (run_of "http" []).2 = [(false, ""); (false, "refused" +:+ newline)].
Proof. vm_compute. done. Qed.

Example run_missing : outputs (run_of "docker" []).2 =
  [(false, ""); (false, "grpc_agent: Specified executor is not present")].
Proof. vm_compute. done. Qed.

(** The stream breaks before the last message: the agent calls a server itself. *)
Lemma AgentRun_final_witness : ∃ r final,
  run_of "shell" [None; None; Some (ErrOther "EOF")] = (Ok tt, r) ∧
  length r.(r_sent) = 2%nat ∧ final.(pbEx_NodeName) = "node1" ∧
  final.(pbEx_FinishedAt) = TimestampProto (2 * nanos_per_sec).
Proof.
  destruct (run_of "shell" [None; None; Some (ErrOther "EOF")]) as [x r] eqn:E.
  assert (x = Ok tt) as -> by (apply (f_equal fst) in E; vm_compute in E; by rewrite E).
  destruct (AgentRun_final executors (Ok "10.0.0.9:6868") (λ _ _, Ok tt) "node1" nanos_per_sec
    (2 * nanos_per_sec) (job "shell") execution
    (mkRunner [] [None; None; Some (ErrOther "EOF")] ∅ []) r E) as (final & _ & _ & Hn & Hf & _).
  exists r, final. split_and!; [done| |done|done].
  apply (f_equal (λ x, length x.2.(r_sent))) in E. vm_compute in E. by rewrite E.
Defined.

Definition follower : Follow := mkFollow {["other" := execution]} [] [].

Lemma client_AgentRun_spec_witness : ∃ r f,
  client_AgentRun "leader" (λ _, Ok tt) None None 0 execution [execution]
    (Some (ErrOther "EOF")) follower = (r, f) ∧
  r = Err (ErrOther "EOF") ∧ length f.(f_calls) = 2%nat ∧
  f.(f_active) !! pbExecution_Key execution = None.
Proof.
  destruct (client_AgentRun "leader" (λ _, Ok tt) None None 0 execution [execution]
    (Some (ErrOther "EOF")) follower) as [r f] eqn:E. exists r, f. split; [done|].
  destruct (client_AgentRun_spec "leader" (λ _, Ok tt) 0 execution [execution]
    (Some (ErrOther "EOF")) follower r f (λ _ _, eq_refl) E) as (-> & -> & Hk).
  split_and!; [done|done|]. rewrite Hk. by rewrite bool_decide_eq_true_2 by set_solver.
Defined.

End StreamExample.
