(* ===== verification/RetryJoin.v ===== *)
(** * [dkron/retry_join.go]: joining the cluster until it works

    [retryJoin] asks for addresses and joins them, again and again.  The rounds are
    numbered; what go-discover, the address templates and serf's [Join] answer may
    change from round to round, so they are parameters that depend on the number.  The
    loop has fuel, and the theorems say when some fuel is enough and when none is. *)
From Stdlib Require Import ZArith Lia Ascii.
From stdpp Require Import base list gmap strings pretty.
From S2P Require Import Prelude GoStrings GoNet Config.

#[local] Open Scope Z_scope.

(** [type retryJoiner struct]: its data; the interval only says how long to sleep. *)
Record retryJoiner := mkRetryJoiner {
  rj_cluster : string;
  rj_addrs : list string;
  rj_maxAttempts : Z;
  rj_interval : Z
}.

Section RetryJoin.
(** go-discover: the error of [discover.New], the addresses of a configuration; and the
    number of agents that [join] synced with. *)
Variable discover_New : option error.
Variable disco_Addrs : nat → string → res (list string).
Variable resolver : nat → Resolver.
Variable join : nat → list string → res Z.

(** The addresses of one entry in a round: an error is logged and the entry skipped. *)
Definition entry_addrs (i : nat) (addr : string) : res (list string) :=
  match
    (if Contains addr "provider=" then disco_Addrs i addr
     else ipAddr <-? ParseSingleIPTemplate (RS:=resolver i) addr ;; Ok [ipAddr])
  with
  | Err _ => Ok []
  | r => r
  end.

Fixpoint round_addrs (i : nat) (entries : list string) : res (list string) :=
  match entries with
  | [] => Ok []
  | addr :: entries' =>
      found <-? entry_addrs i addr ;;
      rest <-? round_addrs i entries' ;;
      Ok (found ++ rest)
  end.

(** The loop: its result, when the fuel is enough, and the addresses that it tried to
    join, round by round. *)
Fixpoint retry_loop (fuel : nat) (r : retryJoiner) (i : nat) (joins : list (list string)) :
    option (res unit) * list (list string) :=
  match fuel with
  | O => (None, joins)
  | S fuel' =>
      match round_addrs i r.(rj_addrs) with
      | Ok addrs =>
          let joins := match addrs with [] => joins | _ => joins ++ [addrs] end in
          match (match addrs with [] => Ok None | _ =>
                   match join i addrs with
                   | Ok n => Ok (Some n)
                   | Err _ => Ok None
                   | Crash w => Crash w
                   end end) with
          | Ok (Some _) => (Some (Ok tt), joins)
          | Ok None =>
              let attempt := Z.of_nat i + 1 in
              if (0 <? r.(rj_maxAttempts)) && (r.(rj_maxAttempts) <? attempt)
              then (Some (Err (ErrOther ("agent: max join " +:+ r.(rj_cluster)
                                           +:+ " retry exhausted, exiting"))), joins)
              else retry_loop fuel' r (S i) joins
          | Err e => (Some (Err e), joins)
          | Crash w => (Some (Crash w), joins)
          end
      | Err e => (Some (Err e), joins)
      | Crash w => (Some (Crash w), joins)
      end
  end.

(** [retryJoin()] *)
Definition retryJoin (fuel : nat) (r : retryJoiner) : option (res unit) * list (list string) :=
  match r.(rj_addrs) with
  | [] => (Some (Ok tt), [])
  | _ =>
      match discover_New with
      | Some err => (Some (Err err), [])
      | None => retry_loop fuel r 0 []
      end
  end.

(** [retryJoinLAN()]: the joiner that it runs; an error goes to [retryJoinCh]. *)
Definition lan_joiner (c : Config) : retryJoiner :=
  mkRetryJoiner "LAN" c.(RetryJoinLAN) c.(RetryJoinMaxAttemptsLAN) c.(RetryJoinIntervalLAN).

(** ** When it returns *)

(** What a round does: it joins, or fails with the addresses it found. *)
Definition joined (r : retryJoiner) (i : nat) (addrs : list string) : Prop :=
  round_addrs i r.(rj_addrs) = Ok addrs ∧ addrs ≠ [] ∧ ∃ n, join i addrs = Ok n.
Definition failed (r : retryJoiner) (i : nat) (addrs : list string) : Prop :=
  round_addrs i r.(rj_addrs) = Ok addrs ∧ (addrs ≠ [] → ∃ e, join i addrs = Err e).

(** The attempts that are made are those of the rounds that found an address. *)
Definition attempts (rounds : list (list string)) : list (list string) :=
  filter (λ addrs, addrs ≠ []) rounds.

(** The loop gives up after a failed round [i]. *)
Definition gives_up (r : retryJoiner) (i : nat) : Prop :=
  0 < r.(rj_maxAttempts) ∧ r.(rj_maxAttempts) < Z.of_nat i + 1.

Lemma retry_loop_joined fuel r i joins addrs :
  joined r i addrs → retry_loop (S fuel) r i joins = (Some (Ok tt), joins ++ [addrs]).
Proof. intros (E & Hne & n & Hn). cbn [retry_loop]. rewrite E. by destruct addrs; [|rewrite Hn]. Qed.

Lemma retry_loop_failed fuel r i joins addrs :
  failed r i addrs →
  retry_loop (S fuel) r i joins =
  if decide (gives_up r i)
  then (Some (Err (ErrOther ("agent: max join " +:+ r.(rj_cluster)
                               +:+ " retry exhausted, exiting"))), joins ++ attempts [addrs])
  else retry_loop fuel r (S i) (joins ++ attempts [addrs]).
Proof.
  intros (E & Hf). cbn [retry_loop]. rewrite E.
  assert ((0 <? rj_maxAttempts r) && (rj_maxAttempts r <? Z.of_nat i + 1) =
    bool_decide (gives_up r i)) as ->.
  { apply eq_true_iff_eq. by rewrite bool_decide_eq_true, andb_true_iff, !Z.ltb_lt. }
  destruct addrs as [|a addrs].
  - change (attempts [[]]) with (@nil (list string)). rewrite (right_id_L [] (++)).
    by case_bool_decide; case_decide.
  - destruct (Hf ltac:(done)) as [e ->].
    by case_bool_decide; case_decide.
Qed.

Lemma retry_loop_skip r rounds i joins fuel :
  (∀ k addrs, rounds !! k = Some addrs → failed r (i + k) addrs ∧ ¬ gives_up r (i + k)) →
  retry_loop (length rounds + fuel) r i joins =
  retry_loop fuel r (i + length rounds) (joins ++ attempts rounds).
Proof.
  revert i joins. induction rounds as [|addrs rounds IH]; intros i joins H.
  { change (attempts []) with (@nil (list string)).
    by rewrite (right_id_L [] (++)), Nat.add_0_r. }
  destruct (H 0%nat addrs eq_refl) as [Hf Hg]. rewrite Nat.add_0_r in Hf, Hg.
  cbn [length Nat.add]. rewrite (retry_loop_failed _ _ _ _ addrs), decide_False by done.
  rewrite IH.
  - rewrite <- (assoc_L (++)). unfold attempts. rewrite <- filter_app. simpl. f_equal. lia.
  - intros k a Hk. destruct (H (S k) a Hk). by rewrite Nat.add_succ_comm.
Qed.

(** C38: when joining returns.  Suppose that the first rounds fail.  If the next one finds
    addresses and can join them, and the limit is not passed, [retryJoin] returns
    without error in that round.  With a limit on the attempts it gives up with an
    error after the limit and one more failed rounds.  Without a limit it goes on:
    no number of failed rounds makes it return.  In each case it has tried to join in
    exactly the rounds that found an address. *)
Theorem retryJoin_spec r rounds :
  r.(rj_addrs) ≠ [] → discover_New = None →
  (∀ i addrs, rounds !! i = Some addrs → failed r i addrs) →
  let n := Z.of_nat (length rounds) in
  let max := r.(rj_maxAttempts) in
  (∀ addrs fuel, joined r (length rounds) addrs → (0 < max → n ≤ max) →
     (length rounds < fuel)%nat →
     retryJoin fuel r = (Some (Ok tt), attempts rounds ++ [addrs])) ∧
  (∀ fuel, 0 < max → n = max + 1 → (length rounds ≤ fuel)%nat →
     retryJoin fuel r = (Some (Err (ErrOther ("agent: max join " +:+ r.(rj_cluster)
                           +:+ " retry exhausted, exiting"))), attempts rounds)) ∧
  (max ≤ 0 → retryJoin (length rounds) r = (None, attempts rounds)).
Proof.
  intros Hne Hd H n max. assert (∀ fuel, retryJoin fuel r = retry_loop fuel r 0 []) as E.
  { intros fuel. unfold retryJoin. rewrite Hd. by destruct (rj_addrs r). }
  split_and!; intros *.
  - intros Hj Hm Hf. rewrite E. replace fuel with (length rounds + S (fuel - length rounds - 1))%nat
      by lia. rewrite retry_loop_skip.
    + by rewrite (retry_loop_joined _ _ _ _ addrs).
    + intros k a Hk. split; [by apply H|]. intros [Hp Hg]. apply lookup_lt_Some in Hk.
      unfold max, n in *. lia.
  - subst n max. intros Hp Hm Hf. rewrite E.
    destruct rounds as [|a0 rs _] using rev_ind; [simpl in Hm; lia|].
    rewrite length_app in Hm, Hf. simpl in Hm, Hf.
    replace fuel with (length rs + S (fuel - length rs - 1))%nat by lia.
    rewrite retry_loop_skip.
    + rewrite (retry_loop_failed _ _ _ _ a0).
      * unfold attempts. rewrite filter_app. apply decide_True. split; [done|]. lia.
      * apply H. by rewrite lookup_app_r, Nat.sub_diag by lia.
    + intros k a Hk. split; [apply H; by apply lookup_app_l_Some|]. intros [_ Hg].
      apply lookup_lt_Some in Hk. lia.
  - intros Hm. rewrite E. rewrite <- (Nat.add_0_r (length rounds)), retry_loop_skip; [done|].
    intros k a Hk. split; [by apply H|]. unfold gives_up, max in *. lia.
Qed.
End RetryJoin.

(** ** Concrete runs *)
Module RetryExample.
#[local] Instance ToyResolver : Resolver.
Proof.
  refine {| template_Parse s := Ok s; LookupIP h := Ok []; ResolveTCPAddr a := Err ErrNotFound |}.
  intros h ips [= <-]. constructor.
Defined.

(** Serf can join from the third round on. *)
Definition join_at (i : nat) (addrs : list string) : res Z :=
  if bool_decide (i < 2)%nat then Err (ErrOther "no route") else Ok 1.

Definition joiner (max : Z) : retryJoiner := mkRetryJoiner "LAN" ["10.0.0.1"] max 30.

Example third_round :
  retryJoin None (λ _ _, Ok []) (λ _, ToyResolver) join_at 9 (joiner 2) =
  (Some (Ok tt), [["10.0.0.1"]; ["10.0.0.1"]; ["10.0.0.1"]]).
Proof. reflexivity. Qed.

Lemma retryJoin_spec_witness :
  retryJoin None (λ _ _, Ok []) (λ _, ToyResolver) join_at 9 (joiner 1) =
  (Some (Err (ErrOther "agent: max join LAN retry exhausted, exiting")),
   [["10.0.0.1"]; ["10.0.0.1"]]).
Proof.
  destruct (retryJoin_spec None (λ _ _, Ok []) (λ _, ToyResolver) join_at (joiner 1)
    [["10.0.0.1"]; ["10.0.0.1"]]) as (_ & Hup & _); [done|done| |].
  - intros [|[|i]] addrs; intros [= <-]; (split; [reflexivity|]); intros _; by eexists.
  - apply (Hup 9%nat); [reflexivity|reflexivity|simpl; lia].
Defined.
End RetryExample.
