(* ===== verification/Api.v ===== *)
(** * [dkron/api.go]: the HTTP interface

    The handlers of a server's HTTP interface.  They read the server's own store and
    change jobs through the gRPC client, so the client is an interface ([GRPCClient],
    the Go interface [DkronGRPCClient]), and the theorems of [ApiProps] discharge it
    with the handlers of the leader.  What a handler does to its response is the list of
    its calls to gin's context, in order; decoding a body is a parameter. *)
From Stdlib Require Import ZArith Lia Ascii Sorted.
From stdpp Require Import base list gmap strings pretty.
From S2P Require Import Prelude GoStrings GoNet GoTime Pb NTime ExtCron Execution Job BuntDB Store.
From S2P Require Import Scheduler JobTree Fsm Config Cluster Leader Targets Notifier Server Stream.

#[local] Open Scope Z_scope.

(** A request: [c.Param("job")], the query, [c.QueryMap("metadata")], the URI and the
    body. *)
Record Request := mkRequest {
  rq_job : string;
  rq_query : gmap string string;
  rq_metadata : gmap string string;
  rq_RequestURI : string;
  rq_body : string
}.

(** Decoding and encoding: [c.BindJSON] into a job that holds defaults, the file of a form
    with what [ioutil.ReadAll] makes of it, [json.Unmarshal] into a list of jobs (without
    null entries), and [json.Marshal] of a list of strings, which does not fail. *)
Class Decoding := {
  BindJSON : string → Job → res Job;
  FormFile : string → res (res string);
  Unmarshal_jobs : string → res (list Job);
  Marshal_strings : list string → res string;
  Marshal_strings_Ok l : ∃ text, Marshal_strings l = Ok text
}.

(** [status.Convert(err).Message()]: the text of the handler's error. *)
Class GrpcStatus := {
  status_Message : error → string;
  status_Message_rpc e : status_Message (rpc_error e) = Error e
}.

(** [sort.SliceStable]: insertion keeps the order of elements that are not less. *)
Section SliceStable.
Context {A : Type} (less : A → A → bool).

Fixpoint insert_stable (x : A) (l : list A) : list A :=
  match l with
  | [] => [x]
  | y :: l' => if less y x then y :: insert_stable x l' else x :: l
  end.

Definition SliceStable (l : list A) : list A := foldr insert_stable [] l.

Lemma insert_stable_perm x l : insert_stable x l ≡ₚ x :: l.
Proof.
  induction l as [|y l IH]; simpl; [done|]. destruct (less y x); [|done].
  rewrite IH. apply Permutation_swap.
Qed.

Lemma SliceStable_perm l : SliceStable l ≡ₚ l.
Proof. induction l as [|x l IH]; simpl; [done|]. by rewrite insert_stable_perm, IH. Qed.

Hypothesis asym : ∀ x y, less x y = true → less y x = false.
Hypothesis trans : ∀ x y z, less y x = false → less z y = false → less z x = false.

Lemma SliceStable_sorted l : StronglySorted (λ x y, less y x = false) (SliceStable l).
Proof.
  induction l as [|x l IH]; [constructor|]. simpl. revert IH. generalize (SliceStable l) as s.
  induction s as [|y s IH]; intros Hs; simpl; [by repeat constructor|].
  apply StronglySorted_inv in Hs as [Hs Hy]. destruct (less y x) eqn:E.
  - constructor; [by apply IH|]. rewrite insert_stable_perm. constructor; [by apply asym|done].
  - constructor; [by constructor|]. constructor; [done|].
    eapply Forall_impl; [exact Hy|]. intros z Hz. simpl in Hz. by eapply trans.
Qed.
End SliceStable.

Section Api.
Context {VS : Versions} {R : Type} {RF : Raft R} {WD : World R} {IS : Intersect} {DL : Delivery}.
Context {db : Type} {BDB : BuntDB db} {PT : Ptypes} {PB : Proto} {CP : CronParser}
        {CE : CronEngine} {UC : Unicode} {TZ : Locations} {SO : Sorting}.
Context {JS : Decoding} {GS : GrpcStatus}.

#[local] Abbreviation Server := (Srv (R:=R) (db:=db)).

(** The values that handlers render. *)
Inductive payload :=
  | PString (s : string)
  | PJob (j : Job)
  | PJobs (l : list Job)
  | PExecutions (l : list Execution)
  | PMember (m : option Member)
  | PMembers (l : list Member)
  | PPeers (p : gmap string (list ServerParts))
  | PStats (l : list (string * gmap string string)).

(** Calls to gin's context. *)
Inductive gin_call :=
  | AbortWithStatus (code : Z)
  | AbortWithError (code : Z) (err : error)
  | WriteString (s : string)
  | Header (key value : string)
  | Status (code : Z)
  | JSON (code : Z) (v : payload)
  | IndentedJSON (code : Z) (v : payload).

(** [type DkronGRPCClient interface]: the calls that the handlers make. *)
Record GRPCClient := mkGRPCClient {
  gc_SetJob : Job → M Server unit;
  gc_DeleteJob : string → M Server Job;
  gc_RunJob : string → M Server Job
}.

(** A handler changes the server and answers. *)
Record Ctx := mkCtx { c_srv : Server; c_resp : list gin_call }.
Definition gin (g : gin_call) : M Ctx unit := λ c, (Ok tt, mkCtx c.(c_srv) (c.(c_resp) ++ [g])).
Definition on_srv {A} (m : M Server A) : M Ctx A := λ c,
  let '(r, s) := m c.(c_srv) in (r, mkCtx s c.(c_resp)).
Definition on_store {A} (m : M db A) : M Ctx A := on_srv (on_node (on_db m)).

(** [renderJSON(c, status, v)] *)
Definition renderJSON (rq : Request) (code : Z) (v : payload) : M Ctx unit :=
  match rq.(rq_query) !! "pretty" with
  | Some _ => gin (IndentedJSON code v)
  | None => gin (JSON code v)
  end.

(** [MetaMiddleware()]: the header, and then the handlers after it. *)
Definition MetaMiddleware (next : M Ctx unit) : M Ctx unit := λ c,
  (gin (Header "X-Whom" (s_config c.(c_srv)).(NodeName)) ;;; next) c.

Section Handlers.
Variable client : GRPCClient.
(** [serf.Stats()] and [serf.LocalMember()]. *)
Variable serf_Stats : gmap string string.
Variable LocalMember : Member.
Variable Version : string.

(** [indexHandler(c)] *)
Definition indexHandler (rq : Request) : M Ctx unit :=
  renderJSON rq 200 (PStats
    [("agent", <["name" := LocalMember.(Member_Name)]> {["version" := Version]});
     ("serf", serf_Stats); ("tags", LocalMember.(Member_Tags))]).

(** [jobsHandler(c)] *)
Definition jobsHandler (rq : Request) : M Ctx unit :=
  jobs <- tryM (on_store (GetJobs (Some (mkJobOptions rq.(rq_metadata))))) ;;
  match jobs with
  | inr _ => retM tt
  | inl jobs => renderJSON rq 200 (PJobs jobs)
  end.

(** [jobGetHandler(c)] *)
Definition jobGetHandler (rq : Request) : M Ctx unit :=
  job <- tryM (on_store (GetJob rq.(rq_job))) ;;
  match job with
  | inr _ => gin (AbortWithStatus 404)
  | inl job => renderJSON rq 200 (PJob job)
  end.

(** The job that a body is decoded into. *)
Definition default_job : Job :=
  mkJob "" "" "" "" "" "" 0 0 NullableTime_zero NullableTime_zero false ∅ ∅ 0 [] ""
    ∅ ConcurrencyAllow "" ∅ "" time_zero.

(** [jobCreateOrUpdateHandler(c)]; a failing [BindJSON] has aborted the request. *)
Definition jobCreateOrUpdateHandler (rq : Request) : M Ctx unit :=
  job <- tryM (liftM (BindJSON rq.(rq_body) default_job)) ;;
  match job with
  | inr err =>
      gin (AbortWithError 400 err) ;;;
      gin (WriteString ("Unable to parse payload: " +:+ Error err +:+ "."))
  | inl job =>
      match Validate job with
      | Some err =>
          gin (AbortWithStatus 400) ;;;
          gin (WriteString ("Job contains invalid value: " +:+ Error err +:+ "."))
      | None =>
          r <- tryM (on_srv (client.(gc_SetJob) job)) ;;
          match r with
          | inr err =>
              let msg := status_Message err in
              (if bool_decide (msg = Error ErrParentJobNotFound)
               then gin (AbortWithStatus 404) else gin (AbortWithStatus 500)) ;;;
              gin (WriteString msg)
          | inl _ =>
              (match rq.(rq_query) !! "runoncreate" with
               | Some _ => tryM (on_srv (client.(gc_RunJob) job.(Job_Name))) ;;; retM tt
               | None => retM tt
               end) ;;;
              gin (Header "Location" (rq.(rq_RequestURI) +:+ "/" +:+ job.(Job_Name))) ;;;
              renderJSON rq 201 (PJob job)
          end
      end
  end.

(** [jobDeleteHandler(c)] *)
Definition jobDeleteHandler (rq : Request) : M Ctx unit :=
  job <- tryM (on_srv (client.(gc_DeleteJob) rq.(rq_job))) ;;
  match job with
  | inr err => gin (AbortWithError 404 err)
  | inl job => renderJSON rq 200 (PJob job)
  end.

(** [jobRunHandler(c)] *)
Definition jobRunHandler (rq : Request) : M Ctx unit :=
  job <- tryM (on_srv (client.(gc_RunJob) rq.(rq_job))) ;;
  match job with
  | inr err => gin (AbortWithError 404 err)
  | inl job =>
      gin (Header "Location" rq.(rq_RequestURI)) ;;;
      gin (Status 202) ;;;
      renderJSON rq 200 (PJob job)
  end.

(** [restoreHandler(c)]: the trees of the backup, then their jobs. *)
Definition restoreHandler (rq : Request) : M Ctx unit :=
  file <- tryM (liftM (FormFile rq.(rq_body))) ;;
  match file with
  | inr err => gin (AbortWithError 404 err)
  | inl file =>
      jobTree <- tryM (liftM (
        data <-? file ;;
        jobs <-? Unmarshal_jobs data ;;
        generateJobTree (leaf <$> jobs))) ;;
      match jobTree with
      | inr err => gin (AbortWithError 400 err)
      | inl jobTree =>
          result <- on_srv (recursiveSetJob client.(gc_SetJob) jobTree) ;;
          resp <- tryM (liftM (Marshal_strings result)) ;;
          match resp with
          | inr err => gin (AbortWithError 400 err)
          | inl resp => renderJSON rq 200 (PString resp)
          end
      end
  end.

(** [executionsHandler(c)] *)
Definition executionsHandler (rq : Request) : M Ctx unit :=
  job <- tryM (on_store (GetJob rq.(rq_job))) ;;
  match job with
  | inr err => gin (AbortWithError 404 err)
  | inl job =>
      executions <- tryM (on_store (GetExecutions job.(Job_Name))) ;;
      match executions with
      | inr ErrNotFound => renderJSON rq 200 (PExecutions [])
      | inr _ => retM tt
      | inl executions => renderJSON rq 200 (PExecutions executions)
      end
  end.

(** [membersHandler(c)], [leaderHandler(c)] and [isLeaderHandler(c)]; the second one
    goes on after it has aborted. *)
Definition membersHandler (rq : Request) : M Ctx unit :=
  c <- getM ;; renderJSON rq 200 (PMembers (s_agent c.(c_srv)).(a_serf)).

Definition leaderHandler (rq : Request) : M Ctx unit :=
  c <- getM ;;
  member <- tryM (liftM (leaderMember (s_agent c.(c_srv)))) ;;
  match member with
  | inr err =>
      gin (AbortWithError 500 err) ;;;
      gin (AbortWithStatus 404) ;;;
      renderJSON rq 200 (PMember None)
  | inl member => renderJSON rq 200 (PMember (Some member))
  end.

Definition isLeaderHandler (rq : Request) : M Ctx unit :=
  c <- getM ;;
  if IsLeader (s_agent c.(c_srv)) then renderJSON rq 200 (PString "I am a leader")
  else renderJSON rq 404 (PString "I am a follower").

(** [jobToggleHandler(c)] *)
Definition jobToggleHandler (rq : Request) : M Ctx unit :=
  job <- tryM (on_store (GetJob rq.(rq_job))) ;;
  match job with
  | inr err => gin (AbortWithError 404 err)
  | inl job =>
      let job := set_Disabled (negb job.(Job_Disabled)) job in
      r <- tryM (on_srv (client.(gc_SetJob) job)) ;;
      match r with
      | inr err => gin (AbortWithError 422 err)
      | inl _ =>
          gin (Header "Location" rq.(rq_RequestURI)) ;;;
          renderJSON rq 200 (PJob job)
      end
  end.

(** [busyHandler(c)] *)
Definition started_before (e1 e2 : Execution) : bool :=
  Before e1.(Ex_StartedAt) e2.(Ex_StartedAt).

Definition busyHandler (rq : Request) : M Ctx unit :=
  c <- getM ;;
  exs <- tryM (liftM (GetActiveExecutions (s_agent c.(c_srv)))) ;;
  match exs with
  | inr err => gin (AbortWithError 500 err)
  | inl exs =>
      renderJSON rq 200 (PExecutions (SliceStable started_before (NewExecutionFromProto <$> exs)))
  end.
End Handlers.

(** The client of a server that is the leader: the calls reach its own handlers, and
    their errors come back as errors of the transport. *)
Definition remote {A} (m : M Server A) : M Server A := λ s,
  let '(r, s') := m s in
  (match r with Err e => Err (rpc_error e) | _ => r end, s').

Definition leader_client (now : time) (ch : Choices) : GRPCClient := {|
  gc_SetJob job := remote (grpc_SetJob now (Job_ToProto job));
  gc_DeleteJob name :=
    job <- remote (grpc_DeleteJob now name) ;; retM (NewJobFromProto job);
  gc_RunJob name :=
    job <- remote (grpc_RunJob now ch name) ;; retM (NewJobFromProto job)
|}.
End Api.
