(* ===== verification/ApiProps.v ===== *)
(** * What the HTTP interface does on the leader

    The handlers of [Api] with the client of a leader: the answers, and what they do to
    the stored jobs, as the specification of the store says it. *)
From Stdlib Require Import ZArith Lia Ascii Sorted.
From stdpp Require Import base list gmap strings pretty.
From S2P Require Import Prelude GoStrings GoNet GoTime Pb NTime ExtCron Execution Job BuntDB Store.
From S2P Require Import StoreSpec StoreRefine Instances StoreProps StoreLinks Scheduler JobTree Fsm.
From S2P Require Import Config Cluster Leader LeaderReconcile Targets Notifier Server ServerProps.
From S2P Require Import Stream Api.

#[local] Open Scope Z_scope.

Section ApiProps.
Context {VS : Versions} {R : Type} {RF : Raft R} {WD : World R} {IS : Intersect} {DL : Delivery}.
Context {db : Type} {BDB : BuntDB db} {PT : Ptypes} {PB : Proto} {CP : CronParser}
        {CE : CronEngine} {UC : Unicode} {TZ : Locations} {SO : Sorting}.
Context {JS : Decoding} {GS : GrpcStatus}.

#[local] Abbreviation Server := (Srv (R:=R) (db:=db)).
Implicit Types (c : Ctx (R:=R) (db:=db)) (s : Server) (rq : Request).

(** ** Setting a job through the leader *)

(** Of a valid job only the parent can be wrong. *)
Lemma spec_SetJob_valid now job b σ :
  Valid job →
  (spec_SetJob now job b σ).1 = Ok tt ∨ (spec_SetJob now job b σ).1 = Err ErrParentJobNotFound.
Proof.
  intros Hv. unfold spec_SetJob. rewrite (proj2 (Validate_spec _) Hv).
  destruct (parent_missing σ job); [by right|].
  destruct (written_Valid now b (default Job_zero (jobs σ !! Job_Name job)) job Hv)
    as (next & -> & _).
  case_decide; [by left|]. unfold bindM, spec_update_parent.
  repeat case_match; simplify_eq/=; naive_solver.
Qed.

(** The job goes through the log: the answer is that of the store, whose state changes as
    specified; nothing else of the server does. *)
Lemma applySetJob_run now j s σ :
  Holds (s_db s) σ → raft_Apply_error (s_agent s).(a_raft) = None → Valid j → storable j →
  ∃ s', agent_applySetJob now (Job_ToProto j) s = ((spec_SetJob now (norm j) false σ).1, s') ∧
    same_but_db s s' ∧ Holds (s_db s') (spec_SetJob now (norm j) false σ).2.
Proof.
  intros HH Hr Hv Hst. destruct (Marshal_storable j Hst) as [v Hm].
  assert (encode_command (CmdSetJob (Job_ToProto j)) = Ok (String (type_byte SetJobType) v)) as He
    by (cbn [encode_command]; unfold Encode; by rewrite Hm).
  destruct (raft_Apply_command now _ _ s He Hr) as [Ea Ed].
  pose proof (raft_Apply_same now (String (type_byte SetJobType) v) s) as Hs.
  destruct (run_command_implements now (CmdSetJob (Job_ToProto j)) I (s_db s) σ HH) as [E1 E2].
  cbn [spec_command] in E1, E2. fold (norm j) in E1, E2.
  unfold agent_applySetJob, bindM, liftM. cbn [encode_command] in He. rewrite He.
  destruct (raft_Apply now _ s) as [x s1]. cbn [fst snd] in Ea, Ed, Hs. rewrite Ea, E1.
  rewrite <- Ed in E2. revert E1 E2. unfold bindM, tryM.
  destruct (spec_SetJob_valid now (norm j) false σ (Valid_norm _ Hv)) as [E|E];
    destruct (spec_SetJob now (norm j) false σ) as [y σ']; simpl in E; subst y;
    intros _ E2; exists s1; by split_and!.
Qed.

(** What the scheduler does with a job that was set. *)
Definition sched_of s : Scheduler := s.(s_node).(n_sched).
Definition added (j : Job) s : res unit * Scheduler := AddJob (NewJobFromProto (Job_ToProto j)) (sched_of s).

Lemma client_SetJob_run now ch j s σ :
  Holds (s_db s) σ → raft_Apply_error (s_agent s).(a_raft) = None → Valid j → storable j →
  ∃ s', Holds (s_db s') (spec_SetJob now (norm j) false σ).2 ∧
    (leader_client now ch).(gc_SetJob) j s =
    match (spec_SetJob now (norm j) false σ).1, (added j s).1 with
    | Ok _, Ok _ => (Ok tt, s')
    | Ok _, Err e => (Err (rpc_error e), s')
    | Ok _, Crash w => (Crash w, s')
    | _, _ => (Err (rpc_error ErrParentJobNotFound), s')
    end ∧
    s_agent s' = s_agent s ∧ s'.(s_calls) = s.(s_calls) ∧
    sched_of s' = (if (spec_SetJob now (norm j) false σ).1 is Ok _ then (added j s).2
                   else sched_of s).
Proof.
  intros HH Hr Hv Hst.
  destruct (applySetJob_run now j s σ HH Hr Hv Hst) as (s1 & E & (Ha & Hs & _ & _ & Hc) & H1).
  cbn [leader_client gc_SetJob]. unfold remote, grpc_SetJob. unfold bindM at 1. rewrite E.
  destruct (spec_SetJob_valid now (norm j) false σ (Valid_norm _ Hv)) as [E1|E1]; rewrite E1.
  - unfold added, sched_of. rewrite <- Hs. unfold on_node, on_sched.
    destruct (AddJob _ _) as [[[]|e|w] sc];
      (eexists; split_and!; [|done|done|done|done]); exact H1.
  - exists s1. by split_and!.
Qed.

(** A handler step that calls the server and reports its error. *)
Lemma on_srv_try {A} (m : M Server A) c :
  tryM (on_srv m) c =
  match (m c.(c_srv)).1 with
  | Ok a => (Ok (inl a), mkCtx (m c.(c_srv)).2 c.(c_resp))
  | Err e => (Ok (inr e), mkCtx (m c.(c_srv)).2 c.(c_resp))
  | Crash w => (Crash w, mkCtx (m c.(c_srv)).2 c.(c_resp))
  end.
Proof. unfold tryM, on_srv. by destruct (m _) as [[] ?]. Qed.

Lemma read_store_try name c :
  tryM (on_store (GetJob name)) c =
  match (GetJob name (s_db c.(c_srv))).1 with
  | Ok a => (Ok (inl a), c)
  | Err e => (Ok (inr e), c)
  | Crash w => (Crash w, c)
  end.
Proof.
  unfold on_store. rewrite on_srv_try, read_job. destruct c as [sc rs]. simpl.
  by destruct ((GetJob name (s_db sc)).1).
Qed.

(** The status for an error of [SetJob]. *)
Definition set_error (e : error) : list gin_call :=
  [AbortWithStatus (if bool_decide (Error e = Error ErrParentJobNotFound) then 404 else 500);
   WriteString (Error e)].

(** The answer to a valid job: what the store and the scheduler say. *)
Definition create_answer rq (j : Job) (stored scheduled : res unit) : list gin_call :=
  match stored, scheduled with
  | Ok _, Ok _ => [Header "Location" (rq.(rq_RequestURI) +:+ "/" +:+ j.(Job_Name)); JSON 201 (PJob j)]
  | Ok _, Err e => set_error e
  | _, _ => set_error ErrParentJobNotFound
  end.

(** The handler after the body was read. *)
Lemma jobCreate_run client rq c j :
  rq.(rq_query) = ∅ → BindJSON rq.(rq_body) default_job = Ok j →
  jobCreateOrUpdateHandler client rq c =
  match Validate j with
  | Some e =>
      (Ok tt, mkCtx c.(c_srv) (c.(c_resp) ++ [AbortWithStatus 400;
                WriteString ("Job contains invalid value: " +:+ Error e +:+ ".")]))
  | None =>
      let '(r, s') := client.(gc_SetJob) j c.(c_srv) in
      match r with
      | Ok _ => (Ok tt, mkCtx s' (c.(c_resp) ++
                  [Header "Location" (rq.(rq_RequestURI) +:+ "/" +:+ j.(Job_Name));
                   JSON 201 (PJob j)]))
      | Err e => (Ok tt, mkCtx s' (c.(c_resp) ++
                  [AbortWithStatus (if bool_decide (status_Message e = Error ErrParentJobNotFound)
                                    then 404 else 500); WriteString (status_Message e)]))
      | Crash w => (Crash w, mkCtx s' c.(c_resp))
      end
  end.
Proof.
  intros Hq Hb. unfold jobCreateOrUpdateHandler, renderJSON. rewrite Hq, !lookup_empty.
  assert (tryM (liftM (BindJSON (rq_body rq) default_job)) c = (Ok (inl j), c)) as Ej
    by (unfold tryM, liftM; by rewrite Hb).
  unfold bindM at 1. rewrite Ej. destruct (Validate j) as [e|].
  { unfold bindM, gin. simpl. by rewrite <- (assoc_L (++)). }
  unfold bindM at 1. rewrite on_srv_try.
  destruct (gc_SetJob client j (c_srv c)) as [[[]|e|w] s']; simpl; [|case_bool_decide|done];
    unfold bindM, gin, retM; simpl; by rewrite <- (assoc_L (++)).
Qed.

(** C37: creating a job over HTTP.  The leader answers a job that does not validate with
    400 and changes nothing.  A valid job goes through the log: the store ends as
    [SetJob]'s specification says, and the answer is 201 exactly when both the store and
    the scheduler took the job; an unknown parent is answered with 404 and the scheduler
    is left alone, and an error of the scheduler with 500. *)
Theorem jobCreate_spec now ch rq c j σ :
  Holds (s_db c.(c_srv)) σ → raft_Apply_error (s_agent c.(c_srv)).(a_raft) = None →
  rq.(rq_query) = ∅ → BindJSON rq.(rq_body) default_job = Ok j → storable j →
  (∀ w, (added j c.(c_srv)).1 ≠ Crash w) →
  let r := jobCreateOrUpdateHandler (leader_client now ch) rq c in
  let stored := spec_SetJob now (norm j) false σ in
  r.1 = Ok tt ∧
  match Validate j with
  | Some e =>
      r.2 = mkCtx c.(c_srv) (c.(c_resp) ++ [AbortWithStatus 400;
              WriteString ("Job contains invalid value: " +:+ Error e +:+ ".")])
  | None =>
      r.2.(c_resp) = c.(c_resp) ++ create_answer rq j stored.1 (added j c.(c_srv)).1 ∧
      Holds (s_db r.2.(c_srv)) stored.2 ∧ r.2.(c_srv).(s_calls) = c.(c_srv).(s_calls) ∧
      sched_of r.2.(c_srv) = (if stored.1 is Ok _ then (added j c.(c_srv)).2
                              else sched_of c.(c_srv))
  end.
Proof.
  intros HH Hr Hq Hb Hst Hcr r stored. subst r. rewrite (jobCreate_run _ _ _ j Hq Hb).
  destruct (Validate j) as [e|] eqn:Hv; [done|].
  destruct (client_SetJob_run now ch j c.(c_srv) σ HH Hr (proj1 (Validate_spec _) Hv) Hst)
    as (s' & H' & Ec & _ & Hcalls & Hs).
  fold stored in H', Hs, Ec |- *. rewrite Ec. unfold create_answer, set_error.
  destruct stored.1 as [[]|e|w], (added j (c_srv c)).1 as [[]|e'|w'] eqn:Ea;
    try (by destruct (Hcr w')); rewrite ?status_Message_rpc; by split_and!.
Qed.

(** Reading a job over HTTP: the stored job, or 404; nothing changes. *)
Lemma jobGet_run rq c σ :
  Holds (s_db c.(c_srv)) σ → rq.(rq_query) = ∅ →
  jobGetHandler rq c =
  (Ok tt, mkCtx c.(c_srv) (c.(c_resp) ++
     [match σ.(jobs) !! rq.(rq_job) with
      | Some j => JSON 200 (PJob j)
      | None => AbortWithStatus 404
      end])).
Proof.
  intros HH Hq. unfold jobGetHandler, renderJSON, bindM. rewrite read_store_try, Hq, lookup_empty.
  rewrite (GetJob_value _ _ _ HH). unfold spec_GetJob. by destruct (jobs σ !! _).
Qed.

(** ** Toggling *)

Lemma NullableTime_After_irrefl t : NullableTime_After t t = false.
Proof. unfold NullableTime_After, After. destruct (hasValue t); [apply Z.ltb_irrefl|done]. Qed.

(** A stored job that is set with another [Disabled] is written as given. *)
Lemma written_Disabled now b (j : Job) :
  written now false j (set_Disabled b j) = Ok (set_Disabled b j).
Proof.
  unfold written, set_next_activation. unfold merge_stored.
  destruct (decide (Job_Name j = "")).
  - rewrite decide_False by naive_solver. unfold Before. by rewrite Z.ltb_irrefl.
  - simpl. rewrite decide_False by naive_solver. unfold Before. rewrite !Z.ltb_irrefl.
    rewrite !NullableTime_After_irrefl, decide_False by naive_solver.
    by case_decide.
Qed.

(** Setting a stored job with another [Disabled] changes that field of the stored job and
    nothing else. *)
Lemma spec_SetJob_Disabled now b n (j : Job) s σ :
  Holds (s_db s) σ → Parents σ.(jobs) → σ.(jobs) !! n = Some j →
  Valid (set_Disabled b j) ∧ storable (set_Disabled b j) ∧
  spec_SetJob now (norm (set_Disabled b j)) false σ = (Ok tt, with_job n (set_Disabled b j) σ).
Proof.
  intros HH HP Hn. destruct (Rep_job _ _ _ _ HH Hn) as [v [_ Hname Hv Hwf Hst]].
  assert (Job_wf (set_Disabled b j)) as Hwf' by (destruct Hwf; by split).
  assert (Valid (set_Disabled b j)) as Hv' by by apply Valid_ext with (j := j).
  split; [done|]. split; [exact Hst|]. rewrite (norm_id _ Hwf').
  unfold spec_SetJob. rewrite (proj2 (Validate_spec _) Hv').
  change (Job_Name (set_Disabled b j)) with (Job_Name j). rewrite Hname, Hn. cbn [default].
  assert (parent_missing σ (set_Disabled b j) = false) as ->
    by exact (Parents_not_missing σ n j HP Hn).
  rewrite written_Disabled, (decide_True _ _ (Hst : storable (set_Disabled b j))).
  rewrite decide_True by done.
  by rewrite (norm_id _ Hwf').
Qed.

(** Toggling a job over HTTP.  Of a stored job, the leader flips the field that
    disables it, in the store and in the scheduler, and answers with the flipped job;
    no other field and no other job changes, so that toggling twice gives back the
    jobs as they were. *)
Theorem jobToggle_spec now ch rq c j σ :
  Holds (s_db c.(c_srv)) σ → Parents σ.(jobs) →
  raft_Apply_error (s_agent c.(c_srv)).(a_raft) = None → rq.(rq_query) = ∅ →
  σ.(jobs) !! rq.(rq_job) = Some j →
  let j' := set_Disabled (negb j.(Job_Disabled)) j in
  (added j' c.(c_srv)).1 = Ok tt →
  ∃ s', jobToggleHandler (leader_client now ch) rq c =
      (Ok tt, mkCtx s' (c.(c_resp) ++ [Header "Location" rq.(rq_RequestURI); JSON 200 (PJob j')])) ∧
    Holds (s_db s') (with_job rq.(rq_job) j' σ) ∧ sched_of s' = (added j' c.(c_srv)).2 ∧
    with_job rq.(rq_job) (set_Disabled (negb j'.(Job_Disabled)) j')
      (with_job rq.(rq_job) j' σ) = σ.
Proof.
  intros HH HP Hr Hq Hn j' Ha.
  destruct (spec_SetJob_Disabled now (negb j.(Job_Disabled)) (rq_job rq) j _ σ HH HP Hn)
    as (Hv & Hst & Es). fold j' in Hv, Hst, Es.
  destruct (client_SetJob_run now ch j' c.(c_srv) σ HH Hr Hv Hst) as (s' & H' & Ec & _ & _ & Hs).
  rewrite Es in H', Hs, Ec. rewrite Ha in Ec. cbn [fst snd] in H', Hs, Ec.
  exists s'. split_and!; [|done|done|].
  - unfold jobToggleHandler, renderJSON. rewrite Hq, lookup_empty. unfold bindM at 1.
    rewrite read_store_try, (GetJob_value _ _ _ HH). unfold spec_GetJob. rewrite Hn. fold j'.
    unfold bindM at 1. rewrite on_srv_try, Ec. unfold bindM, gin. simpl.
    by rewrite <- (assoc_L (++)).
  - unfold with_job. destruct σ as [J E]. simpl in *. f_equal.
    rewrite insert_insert_eq. unfold j'. simpl. rewrite negb_involutive.
    replace (set_Disabled (Job_Disabled j) (set_Disabled (negb (Job_Disabled j)) j)) with j
      by by destruct j. by apply insert_id.
Qed.

(** ** Executions in progress *)

(** The executions in progress over HTTP: when every server of the region answers,
    the list holds exactly the executions that they report, earliest start first;
    otherwise the answer is 500.  The server does not change. *)
Theorem busy_spec rq c :
  rq.(rq_query) = ∅ → (∀ w, GetActiveExecutions (s_agent c.(c_srv)) ≠ Crash w) →
  ∃ g, busyHandler rq c = (Ok tt, mkCtx c.(c_srv) (c.(c_resp) ++ [g])) ∧
    match GetActiveExecutions (s_agent c.(c_srv)) with
    | Ok exs => ∃ l, g = JSON 200 (PExecutions l) ∧ l ≡ₚ NewExecutionFromProto <$> exs ∧
        StronglySorted (λ e1 e2, e1.(Ex_StartedAt) ≤ e2.(Ex_StartedAt)) l
    | Err e => g = AbortWithError 500 e
    | Crash _ => False
    end.
Proof.
  intros Hq Hc. unfold busyHandler, renderJSON. rewrite Hq, lookup_empty.
  unfold bindM, getM, tryM, liftM.
  destruct (GetActiveExecutions (s_agent (c_srv c))) as [exs|e|w] eqn:E; [| |by destruct (Hc w)].
  - eexists. split; [done|]. eexists. split; [done|]. split; [apply SliceStable_perm|].
    rewrite <- (list_fmap_id (SliceStable _ _)).
    eapply StronglySorted_fmap; [|apply SliceStable_sorted].
    + intros x y. unfold started_before, Before. rewrite Z.ltb_ge. done.
    + intros x y. unfold started_before, Before. rewrite Z.ltb_lt, Z.ltb_ge. lia.
    + intros x y z. unfold started_before, Before. rewrite !Z.ltb_ge. lia.
  - by eexists.
Qed.
End ApiProps.
