(* ===== verification/ApiRestore.v ===== *)
(** * Restoring a backup over HTTP

    The whole path of [POST /v1/restore] on the leader: the trees of the backup, the
    creation of their jobs parents first, each through the log and the scheduler. *)
From Stdlib Require Import ZArith Lia Ascii.
From stdpp Require Import base list gmap strings pretty.
From S2P Require Import Prelude GoStrings GoNet GoTime Pb NTime ExtCron Execution Job BuntDB Store.
From S2P Require Import StoreSpec StoreRefine Instances StoreProps StoreLinks Scheduler JobTree Fsm.
From S2P Require Import Config Cluster Leader LeaderReconcile Targets Notifier Server ServerProps.
From S2P Require Import Stream Api ApiProps.

#[local] Open Scope Z_scope.

Section Restore.
Context {VS : Versions} {R : Type} {RF : Raft R} {WD : World R} {IS : Intersect} {DL : Delivery}.
Context {db : Type} {BDB : BuntDB db} {PT : Ptypes} {PB : Proto} {CP : CronParser}
        {CE : CronEngine} {UC : Unicode} {TZ : Locations} {SO : Sorting}.
Context {JS : Decoding} {GS : GrpcStatus}.

#[local] Abbreviation Server := (Srv (R:=R) (db:=db)).
Implicit Types (s : Server) (σ : state).

(** ** The store *)

(** A string of the job or of the stored one. *)
Lemma storable_written now ej job job' :
  storable job → storable ej → written now false ej job = Ok job' → storable job'.
Proof.
  intros Hj He. unfold written, set_next_activation.
  assert (storable (merge_stored false ej job)) as Hm.
  { unfold merge_stored. case_decide; [done|]. unfold storable, job_strings in *.
    cbn [Job_ToProto pbJob_Name pbJob_Timezone pbJob_Schedule pbJob_Owner pbJob_OwnerEmail
      pbJob_ParentJob pbJob_Concurrency pbJob_Executor pbJob_Status pbJob_Displayname app
      Job_Name Job_Timezone Job_Schedule Job_Owner Job_OwnerEmail Job_ParentJob Job_Concurrency
      Job_Executor Job_Status Job_DisplayName] in *.
    rewrite (decide_False (P := _ ∧ false = true)) by naive_solver.
    rewrite !Forall_cons in Hj, He |- *. case_decide; tauto. }
  intros H. assert (∃ t, job' = set_Next t (merge_stored false ej job)) as [t ->]; [|exact Hm].
  case_decide; [destruct (GetNext _ _); [|done..]; injection H as <-; by eexists|].
  destruct (Before _ _); injection H as <-; [by eexists|].
  exists (Job_Next (merge_stored false ej job)). by destruct (merge_stored false ej job).
Qed.

(** Telling a parent that is stored. *)
Lemma update_parent_Parents f p σ :
  Parents σ.(jobs) → (p = "" ∨ is_Some (σ.(jobs) !! p)) →
  ∃ σ', spec_update_parent f p σ = (Ok tt, σ') ∧ Parents σ'.(jobs) ∧
    ∀ k, is_Some (σ.(jobs) !! k) → is_Some (σ'.(jobs) !! k).
Proof.
  intros HP Hp. destruct (decide (p = "")) as [->|Hne]; [by exists σ|].
  destruct Hp as [|[pj Hpj]]; [done|]. rewrite (update_parent_ok _ p pj) by done.
  eexists. split; [done|]. split; [by apply Parents_relink|]. intros k Hk. simpl.
  destruct (decide (p = k)) as [->|]; [rewrite lookup_insert_eq; by eexists|].
  by rewrite lookup_insert_ne.
Qed.

(** A valid, storable job whose parent is stored is taken; no job is lost. *)
Lemma spec_SetJob_Parents now job (d : db) σ :
  Holds d σ → Parents σ.(jobs) → Valid job → storable job →
  (job.(Job_ParentJob) = "" ∨ is_Some (σ.(jobs) !! job.(Job_ParentJob))) →
  ∃ σ', spec_SetJob now job false σ = (Ok tt, σ') ∧ Parents σ'.(jobs) ∧
    is_Some (σ'.(jobs) !! job.(Job_Name)) ∧
    ∀ k, is_Some (σ.(jobs) !! k) → is_Some (σ'.(jobs) !! k).
Proof.
  intros HH HP Hv Hst Hp. set (n := job.(Job_Name)).
  set (ej := default Job_zero (σ.(jobs) !! n)).
  assert (storable ej) as Hej.
  { unfold ej. destruct (jobs σ !! n) as [j|] eqn:E; [by destruct (Rep_job _ _ _ _ HH E) as [? []]|].
    refine (bool_decide_unpack _ _). vm_compute. exact I. }
  destruct (written_Valid now false ej job Hv) as (next & Hw & _).
  set (job' := set_Next next _) in Hw. pose proof (storable_written _ _ _ _ Hst Hej Hw) as Hst'.
  assert (parent_missing σ job = false) as Hpm.
  { apply bool_decide_eq_false. intros [H1 H2]. destruct Hp as [|[? ?]]; congruence. }
  unfold spec_SetJob. rewrite (proj2 (Validate_spec _) Hv), Hpm. fold n ej. rewrite Hw.
  rewrite (decide_True _ _ Hst'). set (σ1 := with_job n (norm job') σ).
  assert (∀ k, is_Some (σ.(jobs) !! k) → is_Some (σ1.(jobs) !! k)) as Hmono.
  { intros k Hk. simpl. destruct (decide (n = k)) as [->|]; [rewrite lookup_insert_eq; by eexists|].
    by rewrite lookup_insert_ne. }
  assert (is_Some (σ1.(jobs) !! n)) as Hn by (simpl; rewrite lookup_insert_eq; by eexists).
  assert (Parents σ1.(jobs)) as HP1.
  { apply Parents_insert; [done|]. assert (Job_ParentJob (norm job') = Job_ParentJob job) as ->
      by apply (merge_stored_same false ej job). done. }
  destruct (decide (Job_ParentJob job = Job_ParentJob ej)); [by exists σ1|].
  destruct (update_parent_Parents (drop_child n) (Job_ParentJob ej) σ1 HP1)
    as (σ2 & E2 & HP2 & Hm2).
  { unfold ej. destruct (jobs σ !! n) as [j|] eqn:E; [|by left].
    destruct (HP n j E) as [|H]; [by left|right]. by apply Hmono. }
  destruct (update_parent_Parents (add_child n) (Job_ParentJob job) σ2 HP2)
    as (σ3 & E3 & HP3 & Hm3); [destruct Hp; [by left|right; auto]|].
  exists σ3. unfold bindM. rewrite E2, E3. split_and!; auto.
Qed.

(** ** One job through the leader *)

(** The leader can take jobs: its store stands for [σ], in which parents are stored, the
    log works and the scheduler's map agrees with its engine. *)
Record ready σ s : Prop := {
  ready_holds : Holds (s_db s) σ;
  ready_parents : Parents σ.(jobs);
  ready_raft : raft_Apply_error (s_agent s).(a_raft) = None;
  ready_sched : ∃ c, (sched_of s).(Cron) = Some c ∧ agrees c (sched_of s).(EntryJobMap)
}.

(** A job that every part of the leader accepts. *)
Record restorable (j : Job) : Prop := {
  rest_valid : Valid j;
  rest_storable : storable j;
  rest_parses e : j.(Job_Disabled) = false → j.(Job_ParentJob) = "" →
    ExtParser_Parse (cron_spec j) ≠ Err e
}.

Lemma restorable_norm j : restorable j → Valid (norm j) ∧ storable (norm j).
Proof. intros []. split; [by apply Valid_norm|by apply storable_norm]. Qed.

Lemma set_one now ch j σ s :
  ready σ s → restorable j →
  (j.(Job_ParentJob) = "" ∨ is_Some (σ.(jobs) !! j.(Job_ParentJob))) →
  ∃ σ' s', (leader_client now ch).(gc_SetJob) j s = (Ok tt, s') ∧ ready σ' s' ∧
    is_Some (σ'.(jobs) !! j.(Job_Name)) ∧ ∀ k, is_Some (σ.(jobs) !! k) → is_Some (σ'.(jobs) !! k).
Proof.
  intros [HH HP Hr (c & Hc & Ha)] Hj Hp. destruct (restorable_norm j Hj) as [Hv' Hst'].
  destruct Hj as [Hv Hst Hparse].
  destruct (spec_SetJob_Parents now (norm j) (s_db s) σ HH HP Hv' Hst' Hp)
    as (σ' & Es & HP' & Hn & Hm).
  destruct (client_SetJob_run now ch j s σ HH Hr Hv Hst) as (s' & HH' & Ec & Ea & _ & Hs').
  rewrite Es in HH', Ec, Hs'. cbn [fst snd] in HH', Ec, Hs'.
  destruct (AddJob_run (NewJobFromProto (Job_ToProto j)) c (sched_of s) Hc Ha)
    as (r & c' & names' & Eadd & Ha' & _ & _ & _ & Hres).
  assert (r = Ok tt) as ->.
  { destruct Hres as [|(e & _ & Hd & Hp0 & He)]; [done|]. by destruct (Hparse e Hd Hp0). }
  unfold added in Ec, Hs'. rewrite Eadd in Ec, Hs'. cbn [fst snd] in Ec, Hs'.
  exists σ', s'. split_and!; [done| |done|done]. split; [done|done|by rewrite Ea|].
  exists c'. by rewrite Hs'.
Qed.

(** ** All jobs of a forest *)

Definition created (j : Job) : string := "success create " +:+ j.(Job_Name).

(** Everything is created, and nothing that was stored is lost. *)
Definition restores (m : M Server (list string)) (js : list Job) σ s : Prop :=
  ∃ σ' s', m s = (Ok (created <$> js), s') ∧ ready σ' s' ∧
    (∀ j, j ∈ js → is_Some (σ'.(jobs) !! j.(Job_Name))) ∧
    ∀ k, is_Some (σ.(jobs) !! k) → is_Some (σ'.(jobs) !! k).

Definition root_ok σ (t : tree) : Prop :=
  (root t).(Job_ParentJob) = "" ∨ is_Some (σ.(jobs) !! (root t).(Job_ParentJob)).

Section Forest.
Variable (now : time) (ch : Choices).
#[local] Abbreviation set := (gc_SetJob (leader_client now ch)).

Lemma set_forest ts σ s :
  Forall (λ t, ∀ σ s, ready σ s → root_ok σ t → restores (recursiveSetJob_one set t) (flatten t) σ s)
    ts →
  ready σ s → Forall (root_ok σ) ts → restores (recursiveSetJob set ts) (jobs_of ts) σ s.
Proof.
  intros HF. revert σ s. induction HF as [|t ts Ht _ IH]; intros σ s Hr Hts.
  { exists σ, s. split_and!; [done|done| |done]. intros j Hj. by apply elem_of_nil in Hj. }
  apply Forall_cons in Hts as [Hrt Hts].
  destruct (Ht σ s Hr Hrt) as (σ1 & s1 & E1 & Hr1 & Hj1 & Hm1).
  destruct (IH σ1 s1 Hr1) as (σ2 & s2 & E2 & Hr2 & Hj2 & Hm2).
  { eapply Forall_impl; [exact Hts|]. intros t' [|H]; [by left|right; by apply Hm1]. }
  exists σ2, s2. cbn [recursiveSetJob]. unfold bindM. rewrite E1, E2.
  rewrite jobs_of_cons, fmap_app. split_and!; [done|done| |auto].
  intros j [Hj|Hj]%elem_of_app; auto.
Qed.

Lemma set_tree t σ s :
  tree_ok t → Forall restorable (flatten t) → ready σ s → root_ok σ t →
  restores (recursiveSetJob_one set t) (flatten t) σ s.
Proof.
  revert σ s. induction t as [job kids IH] using tree_ind'. intros σ s Hok Hj Hr Hp.
  inversion Hok as [? ? Hks]; subst. rewrite flatten_node in Hj |- *.
  apply Forall_cons in Hj as [Hjob Hkids].
  destruct (set_one now ch job σ s Hr Hjob Hp) as (σ1 & s1 & E1 & Hr1 & Hn1 & Hm1).
  destruct (set_forest kids σ1 s1) as (σ2 & s2 & E2 & Hr2 & Hj2 & Hm2); [|done| |].
  - rewrite Forall_forall in IH, Hks |- *. intros k Hk σ' s' Hr' Hp'.
    apply IH; [done|by apply Hks| |done|done].
    rewrite Forall_forall in Hkids |- *. intros j Hj. apply Hkids, elem_of_jobs_of. eauto.
  - eapply Forall_impl; [exact Hks|]. intros k [Hk _]. right. by rewrite Hk.
  - exists σ2, s2. rewrite recursiveSetJob_node. unfold bindM, tryM. rewrite E1, E2.
    split_and!; [done|done| |auto]. intros j [->|Hj]%elem_of_cons; auto.
Qed.
End Forest.

(** C36: a proper backup is restored completely.  When the leader is ready, all jobs of the
    backup are acceptable, no two share a name, parents are in the backup and no job is
    its own ancestor, then the answer is 200 with the JSON text of one line of
    success for every job,
    every job of the backup is stored, and no stored job is lost. *)
Theorem restore_complete now ch rq c data backup (rank : string → nat) σ :
  ready σ c.(c_srv) → rq.(rq_query) = ∅ →
  FormFile rq.(rq_body) = Ok (Ok data) → Unmarshal_jobs data = Ok backup →
  Forall restorable backup → NoDup (Job_Name <$> backup) →
  (∀ j, j ∈ backup → j.(Job_ParentJob) ≠ "" → j.(Job_ParentJob) ∈ (Job_Name <$> backup) ∧
     (rank j.(Job_ParentJob) < rank j.(Job_Name))%nat) →
  ∃ σ' s' lines text,
    Marshal_strings lines = Ok text ∧
    restoreHandler (leader_client now ch) rq c =
      (Ok tt, mkCtx s' (c.(c_resp) ++ [JSON 200 (PString text)])) ∧
    lines ≡ₚ created <$> backup ∧ ready σ' s' ∧
    (∀ j, j ∈ backup → is_Some (σ'.(jobs) !! j.(Job_Name))) ∧
    ∀ k, is_Some (σ.(jobs) !! k) → is_Some (σ'.(jobs) !! k).
Proof.
  intros Hr Hq Hf Hu Hb Hnd Hpar.
  assert (Forall Valid backup) as Hv by (eapply Forall_impl; [exact Hb|]; by intros j []).
  assert (∃ ts, generateJobTree (leaf <$> backup) = Ok ts) as [ts Ets].
  { unfold generateJobTree. apply (generate_loop_complete backup rank); [done..|lia| |].
    - by rewrite jobs_of_leaves.
    - apply leaves_ok. }
  pose proof (generateJobTree_result backup) as Hres. rewrite Ets in Hres.
  destruct Hres as (HP & _ & Hts).
  destruct (set_forest now ch ts σ (c_srv c)) as (σ' & s' & E & Hr' & Hj & Hm); [|done| |].
  - rewrite Forall_forall in Hts |- *. rewrite Forall_forall in Hb. intros t Ht σ1 s1 Hr1 Hp1.
    apply set_tree; [by apply Hts| |done|done].
    rewrite Forall_forall. intros j Hj. apply Hb. rewrite <- HP. apply elem_of_jobs_of. eauto.
  - eapply Forall_impl; [exact Hts|]. intros t [Ht _]. by left.
  - destruct (Marshal_strings_Ok (created <$> jobs_of ts)) as [text Etext].
    exists σ', s', (created <$> jobs_of ts), text.
    split_and!; [done| |by rewrite HP|done| |done].
    + unfold restoreHandler, renderJSON. rewrite Hq, lookup_empty, Hf.
      unfold bindM, tryM, liftM, res_bind. rewrite Hu, Ets. unfold on_srv. by rewrite E, Etext.
    + intros j Hjb. apply Hj. by rewrite HP.
Qed.
End Restore.

(** ** Concrete requests *)
Module ApiExample.
Import Toy Example SchedulerExample JobTreeExample ClusterExample TargetsExample NotifierExample.
Import ServerExample.

(** A decoder for which the body is the name of the job, and a file holds the backup; the
    lines of an answer are joined. *)
#[export] Instance ToyDecoding : Decoding.
Proof.
  refine {|
    BindJSON body _ := Ok (toy_job body "@every 1m" "");
    FormFile body := Ok (Ok body);
    Unmarshal_jobs _ := Ok backup;
    Marshal_strings l := Ok (Join l ",")
  |}.
  intros l. by eexists.
Defined.

(** What follows a prefix. *)
Fixpoint strip (p s : string) : string :=
  match p, s with
  | String a p', String b s' => if Ascii.eqb a b then strip p' s' else s
  | _, _ => s
  end.
#[export] Instance ToyStatus : GrpcStatus.
Proof.
  refine {| status_Message e := strip "rpc error: code = Unknown desc = " (Error e) |}.
  intros e. reflexivity.
Defined.

#[local] Instance quiet : World toyraft := world "".

(** A leader with an empty store and an empty scheduler. *)
Definition fresh : Srv (R:=toyraft) (db:=toydb) := mkSrv (mkNode agent0 sched0 d0) ∅ [] [].
Definition ctx0 : Ctx := mkCtx fresh [].
Definition request (job body : string) : Request := mkRequest job ∅ ∅ "/v1/jobs" body.

Lemma ready0 : ready s0 fresh.
Proof.
  split; [exact holds0|by intros k j ?|vm_compute; reflexivity|].
  exists (cron_New (CronEngine:=ToyEngine)). split; [reflexivity|apply agrees_new].
Qed.

(** Deciding the three conditions at once. *)
Definition restorable_b (j : Job) : bool :=
  bool_decide (Validate j = None) && bool_decide (storable j) &&
  match ExtParser_Parse (cron_spec j) with
  | Err _ => bool_decide (Job_Disabled j ≠ false ∨ Job_ParentJob j ≠ "")
  | _ => true
  end.

Lemma restorable_b_spec j : restorable_b j = true → restorable j.
Proof.
  unfold restorable_b. intros [[Hv%bool_decide_eq_true Hs%bool_decide_eq_true]%andb_true_iff Hp]%andb_true_iff.
  split; [by apply Validate_spec|done|]. intros e Hd Hpar He. rewrite He in Hp.
  apply bool_decide_eq_true in Hp. naive_solver.
Qed.

Lemma restorable_backup : Forall restorable backup.
Proof.
  eapply Forall_impl; [|intros j; apply restorable_b_spec].
  apply Forall_forall. intros j Hj. apply (proj1 (forallb_forall restorable_b backup)).
  - vm_compute. reflexivity.
  - by apply list_elem_of_In.
Qed.

Lemma restore_complete_witness : ∃ σ' s',
  restoreHandler (leader_client 0 toy_choices) (request "" "backup.json") ctx0 =
    (Ok tt, mkCtx s' [JSON 200 (PString
                            "success create a,success create b,success create c")]) ∧
  ready σ' s' ∧ is_Some (σ'.(jobs) !! "c").
Proof.
  destruct (restore_complete 0 toy_choices (request "" "backup.json") ctx0 "backup.json" backup
    backup_rank s0 ready0) as (σ' & s' & lines & text & _ & E & _ & Hr & Hj & _).
  - reflexivity.
  - reflexivity.
  - reflexivity.
  - exact restorable_backup.
  - refine (bool_decide_unpack _ _). vm_compute. exact I.
  - intros j Hj Hp. destruct (proj1 (Forall_forall _ _) backup_parents j Hj) as [H|H]; [by destruct Hp|].
    exact H.
  - exists σ', s'. split; [|split; [exact Hr|]].
    + rewrite E. apply (f_equal (λ r, c_resp r.2)) in E. vm_compute in E.
      injection E as E. rewrite <- E. reflexivity.
    + apply (Hj (toy_job "c" "" "b")). left.
Defined.

Lemma jobCreate_spec_witness :
  let r := jobCreateOrUpdateHandler (leader_client 0 toy_choices) (request "" "a") ctx0 in
  r.1 = Ok tt ∧ r.2.(c_resp) = [Header "Location" "/v1/jobs/a"; JSON 201 (PJob jobA)] ∧
  ∃ σ', Holds (s_db r.2.(c_srv)) σ'.
Proof.
  destruct (jobCreate_spec 0 toy_choices (request "" "a") ctx0 jobA s0 holds0) as [H1 H2].
  - vm_compute. reflexivity.
  - reflexivity.
  - reflexivity.
  - refine (bool_decide_unpack _ _). vm_compute. exact I.
  - intros w. vm_compute. discriminate.
  - split; [exact H1|]. assert (Validate jobA = None) as Hv by (vm_compute; reflexivity).
    rewrite Hv in H2. destruct H2 as (H2 & H3 & _). split; [|by eexists].
    rewrite H2. vm_compute. reflexivity.
Defined.

(** The leader once [a] is stored, and the stored job. *)
Definition ctx1 : Ctx := mkCtx (mkSrv (R:=toyraft) (mkNode agent0 sched0 d1) ∅ [] []) [].
Definition storedA : Job := set_Next (60 * nanos_per_sec) jobA.

Lemma jobToggle_spec_witness : ∃ s',
  jobToggleHandler (leader_client 0 toy_choices) (request "a" "") ctx1 =
    (Ok tt, mkCtx s' [Header "Location" "/v1/jobs"; JSON 200 (PJob (set_Disabled true storedA))]) ∧
  Holds (s_db s') (with_job "a" (set_Disabled true storedA) s1).
Proof.
  destruct (jobToggle_spec 0 toy_choices (request "a" "") ctx1 storedA s1 holds1)
    as (s' & E & H & _).
  - intros k j Hj. left. assert (s1.(jobs) = {["a" := storedA]}) as Es by (vm_compute; reflexivity).
    rewrite Es in Hj. apply lookup_singleton_Some in Hj as [_ <-]. reflexivity.
  - vm_compute. reflexivity.
  - reflexivity.
  - vm_compute. reflexivity.
  - vm_compute. reflexivity.
  - exists s'. split; [exact E|exact H].
Defined.

(** Two servers that report executions of one job. *)
Lemma busy_spec_witness : ∃ l,
  busyHandler (WD:=world "a") (request "" "") (mkCtx fresh []) =
    (Ok tt, mkCtx fresh [JSON 200 (PExecutions l)]) ∧ length l = 2%nat.
Proof.
  destruct (busy_spec (WD:=world "a") (request "" "") (mkCtx fresh [])) as (g & E & H).
  - reflexivity.
  - intros w. vm_compute. discriminate.
  - destruct (GetActiveExecutions (WD:=world "a") (s_agent (c_srv (mkCtx fresh []))))
      as [exs| |] eqn:Ex; [|vm_compute in Ex; discriminate Ex|destruct H].
    destruct H as (l & -> & HP & _). exists l. split; [exact E|].
    rewrite HP, length_fmap. vm_compute in Ex. injection Ex as <-. reflexivity.
Defined.
End ApiExample.
