(* ===== verification/Dashboard.v ===== *)
(** * [dkron/dashboard.go]: the pages of the web interface

    The data that the handlers hand to the templates, the functions that the templates
    call, and the templates that make up a page.  Rendering is that of [html/template] and
    gin; the embedded files and the clock are parameters. *)
From Stdlib Require Import ZArith Lia Ascii.
From stdpp Require Import base list gmap strings sorting pretty.
From S2P Require Import Prelude GoStrings GoNet GoTime Pb NTime ExtCron Execution Job BuntDB Store.
From S2P Require Import StoreSpec StoreExecs StoreHistory Instances Scheduler Fsm Config Cluster.
From S2P Require Import Leader LeaderReconcile Targets Notifier Server ServerProps.

#[local] Open Scope Z_scope.

(** ** Truncated names *)

(** The loop [for index := range s] of [truncate]: the runes that are left with their
    bytes, the index of the next one, and how many were seen. *)
Fixpoint truncate_loop (rest : list (Z * string)) (index numRunes : nat) (s : string) : string :=
  match rest with
  | [] => s
  | (_, bytes) :: rest' =>
      let numRunes := S numRunes in
      if (25 <? numRunes)%nat then take_bytes index s
      else truncate_loop rest' (index + String.length bytes) numRunes s
  end.
Definition truncate (s : string) : string := truncate_loop (runes (String.length s) s) 0 0 s.

(** The width of a rune. *)
Lemma decode_rune_width c s :
  (1 ≤ (decode_rune (String c s)).2 ≤ 4)%nat ∧
  ((decode_rune (String c s)).2 ≤ String.length (String c s))%nat.
Proof. unfold decode_rune. repeat case_match; simpl; lia. Qed.

Lemma take_drop_bytes w s :
  (w ≤ String.length s)%nat → take_bytes w s +:+ String.substring w (String.length s - w) s = s.
Proof.
  unfold take_bytes. revert w. induction s as [|c s IH]; intros w Hw; [by destruct w|].
  destruct w as [|w]; simpl in *.
  - rewrite app_nil_l. f_equal. specialize (IH 0%nat ltac:(lia)). rewrite Nat.sub_0_r in IH.
    assert (String.substring 0 0 s = "") as E0 by (by destruct s). by rewrite E0, app_nil_l in IH.
  - rewrite app_cons. f_equal. apply IH. lia.
Qed.

Lemma substring_length_le n m s :
  (n + m ≤ String.length s)%nat → String.length (String.substring n m s) = m.
Proof.
  revert n m. induction s as [|c s IH]; intros n m H; simpl in *; [destruct n, m; simpl; lia|].
  destruct n as [|n]; [destruct m as [|m]|]; simpl; [done|rewrite IH; lia|]. apply IH. lia.
Qed.

Lemma Join_concat x l : Join (x :: l) "" = x +:+ Join l "".
Proof. destruct l; simpl; by autorewrite with gostr. Qed.

(** The runes of a string: their bytes make up the string, each has at most four. *)
Lemma runes_spec fuel s :
  (String.length s ≤ fuel)%nat →
  Join (runes fuel s).*2 "" = s ∧
  Forall (λ rb, (1 ≤ String.length rb.2 ≤ 4)%nat) (runes fuel s).
Proof.
  revert s. induction fuel as [|fuel IH]; intros s Hl; [destruct s; [done|simpl in Hl; lia]|].
  destruct s as [|c s]; [done|]. cbn [runes]. pose proof (decode_rune_width c s) as [Hw Hl'].
  destruct (decode_rune (String c s)) as [r w]. cbn [snd] in Hw, Hl'.
  set (rest := String.substring w _ _).
  assert (String.length rest = (String.length (String c s) - w)%nat) as Er
    by (apply substring_length_le; lia).
  destruct (IH rest) as [Ej HF]; [simpl in *; lia|]. split.
  - rewrite fmap_cons. cbn [snd].
    rewrite Join_concat, Ej. by apply take_drop_bytes.
  - constructor; [|done]. cbn [snd]. unfold take_bytes. rewrite substring_length_le by lia. lia.
Qed.

Lemma Join_app l1 l2 : Join (l1 ++ l2) "" = Join l1 "" +:+ Join l2 "".
Proof.
  induction l1 as [|x l1 IH]; [done|]. rewrite <- app_comm_cons, !Join_concat, IH.
  by autorewrite with gostr.
Qed.

Lemma take_bytes_app s t : take_bytes (String.length s) (s +:+ t) = s.
Proof.
  unfold take_bytes. induction s as [|c s IH]; [by destruct t|]. rewrite app_cons. simpl. by rewrite IH.
Qed.

Lemma truncate_loop_spec rest done_ s n :
  s = Join done_ "" +:+ Join rest.*2 "" → (n ≤ 25)%nat →
  truncate_loop rest (String.length (Join done_ "")) n s
  = Join done_ "" +:+ Join (take (25 - n) rest).*2 "".
Proof.
  revert done_ n. induction rest as [|[r b] rest IH]; intros done_ n Hs Hn; cbn [truncate_loop].
  { rewrite take_nil. by rewrite Hs. }
  destruct (Nat.ltb_spec 25 (S n)) as [Hlt|Hle].
  - replace (25 - n)%nat with 0%nat by lia. rewrite Hs, take_bytes_app. simpl.
    by autorewrite with gostr.
  - replace (25 - n)%nat with (S (25 - S n)) by lia. rewrite firstn_cons.
    assert (∀ l : list string, Join (done_ ++ [b]) "" +:+ Join l "" = Join done_ "" +:+ Join (b :: l) "") as E.
    { intros l. rewrite <- !Join_app, <- (assoc_L (++)). done. }
    specialize (IH (done_ ++ [b]) (S n)). rewrite !E in IH. rewrite !fmap_cons in *. cbn [snd] in *.
    rewrite <- IH; [|done|lia]. f_equal. rewrite Join_app, app_length_s. done.
Qed.

(** Names are cut between runes.  A truncated text is made of the first 25 runes of the
    text, whole: it is the text itself when that has no more, and it never has more
    than 100 bytes. *)
Theorem truncate_spec s :
  let rs := runes (String.length s) s in
  truncate s = Join (take 25 rs).*2 "" ∧
  ((length rs ≤ 25)%nat → truncate s = s) ∧ (String.length (truncate s) ≤ 100)%nat.
Proof.
  intros rs. destruct (runes_spec (String.length s) s) as [Ej HF]; [done|]. fold rs in Ej, HF.
  assert (truncate s = Join (take 25 rs).*2 "") as E.
  { unfold truncate. fold rs. pose proof (truncate_loop_spec rs [] s 0) as H. simpl in H.
    rewrite !app_nil_l in H. apply H; [done|lia]. }
  split; [done|]. rewrite E. split; [intros Hl; by rewrite take_ge|].
  assert (∀ n l, Forall (λ rb : Z * string, (1 ≤ String.length rb.2 ≤ 4)%nat) l →
    (String.length (Join (take n l).*2 "") ≤ 4 * n)%nat) as Hb; [|apply (Hb 25%nat _ HF)].
  clear. induction n as [|n IH]; intros l HF; [simpl; lia|].
  destruct HF as [|[r b] l Hb HF]; [simpl; lia|]. rewrite firstn_cons, fmap_cons.
  rewrite Join_concat, app_length_s.
  specialize (IH l HF). simpl in *. lia.
Qed.

(** [toString(value)]: the bytes as they are. *)
Definition toString (value : string) : string := value.

Example truncate_utf8 : truncate "aaaaaaaaaaaaaaaaaaaaaaaaaaaaaa" = "aaaaaaaaaaaaaaaaaaaaaaaaa" ∧
  truncate "short" = "short".
Proof. split; vm_compute; reflexivity. Qed.

(** ** Pages *)

Definition dashboardPathPrefix : string := "dashboard".
Definition assetsPrefix : string := "static".
Definition apiPathPrefix : string := "v1".

(** [type commonDashboardData struct] *)
Record commonDashboardData := mkCommon {
  cd_Version : string;
  cd_LeaderName : string;
  cd_MemberName : string;
  cd_AssetsPath : string;
  cd_Path : string;
  cd_APIPath : string;
  cd_Name : string;
  cd_Time : string
}.

(** What a handler renders: the name of the template and its data. *)
Record page := mkPage {
  pg_template : string;
  pg_common : commonDashboardData;
  pg_executions : option (gmap Z (list Execution) * string * list Z * Z)
}.

Section Pages.
Context {VS : Versions} {R : Type} {RF : Raft R}.
Context {db : Type} {BDB : BuntDB db} {PT : Ptypes} {PB : Proto} {CP : CronParser}
        {CE : CronEngine} {UC : Unicode} {TZ : Locations} {SO : Sorting}.
(** The version and the name of the program, and the text of the time,
    [Format("15:04:05 UTC")]. *)
Variables (Version Name : string) (clock_text : string).

(** [newCommonDashboardData(a, nodeName, path)] *)
Definition newCommonDashboardData (a : Agent R) (nodeName path : string) : res commonDashboardData :=
  leaderName <-? match leaderMember a with
                 | Ok l => Ok l.(Member_Name)
                 | Err _ => Ok ""
                 | Crash w => Crash w
                 end ;;
  Ok (mkCommon Version leaderName nodeName (path +:+ assetsPrefix) (path +:+ dashboardPathPrefix)
        (path +:+ apiPathPrefix) Name clock_text).

(** [dashboardIndexHandler], [dashboardJobsHandler] and [dashboardBusyHandler] differ in the
    template. *)
Definition plain_page (template : string) (a : Agent R) : res page :=
  common <-? newCommonDashboardData a a.(a_config).(NodeName) "../" ;;
  Ok (mkPage template common None).
Definition dashboardIndexHandler : Agent R → res page := plain_page "index".
Definition dashboardJobsHandler : Agent R → res page := plain_page "jobs".
Definition dashboardBusyHandler : Agent R → res page := plain_page "busy".

(** [for _, v := range groups { count = count + len(v) }] *)
Definition count_executions (groups : gmap Z (list Execution)) : Z :=
  foldl (λ count v, count + Z.of_nat (length v)) 0 (map_to_list groups).*2.

(** [dashboardExecutionsHandler(c)]: an error of the store is logged, and the page shows
    no executions. *)
Definition dashboardExecutionsHandler (job : string) (n : Node (R:=R) (db:=db)) : res page :=
  groups <-? match (GetGroupedExecutions job n.(n_db)).1 with
             | Ok g => Ok g
             | Err _ => Ok (∅, [])
             | Crash w => Crash w
             end ;;
  let '(groups, byGroup) := (groups : gmap Z (list Execution) * list Z) in
  common <-? newCommonDashboardData n.(n_agent) n.(n_agent).(a_config).(NodeName) "../../../" ;;
  Ok (mkPage "executions" common (Some (groups, job, byGroup, count_executions groups))).

Lemma count_sum (l : list (list Execution)) z :
  foldl (λ count v, count + Z.of_nat (length v)) z l = z + Z.of_nat (sum_list (length <$> l)).
Proof.
  revert z. induction l as [|x l IH]; intros z; [simpl; lia|].
  rewrite fmap_cons. cbn [foldl sum_list sum_list_with]. rewrite IH. unfold sum_list. simpl. lia.
Qed.

Lemma count_add_to_group (groups : gmap Z (list Execution)) e :
  count_executions (add_to_group groups e) = count_executions groups + 1.
Proof.
  unfold count_executions, add_to_group. rewrite !count_sum. set (g := Ex_Group e).
  assert (∀ l1 l2 : list (list Execution), l1 ≡ₚ l2 →
    sum_list (length <$> l1) = sum_list (length <$> l2)) as HP by (intros l1 l2 ->; done).
  destruct (groups !! g) as [l|] eqn:El.
  - assert (map_to_list groups ≡ₚ (g, l) :: map_to_list (delete g groups)) as H1
      by (by rewrite map_to_list_delete).
    assert (map_to_list (<[g := l ++ [e]]> groups) ≡ₚ (g, l ++ [e]) :: map_to_list (delete g groups)) as H2.
    { rewrite <- insert_delete_eq. apply map_to_list_insert, lookup_delete_eq. }
    cbn [default from_option id].
    rewrite (HP _ _ (fmap_Permutation snd _ _ H1)), (HP _ _ (fmap_Permutation snd _ _ H2)).
    rewrite !fmap_cons. cbn [snd]. simpl. rewrite length_app. simpl. lia.
  - pose proof (map_to_list_insert groups g ([] ++ [e]) El) as H2. cbn [default from_option].
    rewrite (HP _ _ (fmap_Permutation snd _ _ H2)). rewrite !fmap_cons. simpl. lia.
Qed.

(** The page of a job counts its executions: each is in exactly one group, its own, and
    the groups come latest first. *)
Lemma dashboardExecutions_spec job (n : Node (R:=R) (db:=db)) execs :
  (GetExecutions job n.(n_db)).1 = Ok execs →
  ∀ p, dashboardExecutionsHandler job n = Ok p →
  ∃ groups byGroup, p.(pg_executions) = Some (groups, job, byGroup, Z.of_nat (length execs)) ∧
    (∀ g l, groups !! g = Some l ↔ l ≠ [] ∧ l = filter (λ e, e.(Ex_Group) = g) execs) ∧
    StronglySorted (λ x y, y < x) byGroup.
Proof.
  intros HE p Hp. destruct (GetGroupedExecutions_spec job n.(n_db) execs HE)
    as (groups & byGroup & Eg & Hgr & Hs & _).
  unfold dashboardExecutionsHandler in Hp. rewrite Eg in Hp. cbn [res_bind] in Hp.
  destruct (newCommonDashboardData _ _ _); [|done..]. injection Hp as <-. cbn [pg_executions].
  exists groups, byGroup. split; [|done]. do 2 f_equal.
  unfold GetGroupedExecutions, bindM in Eg. destruct (GetExecutions job _) as [r d']. simpl in HE. subst r.
  injection Eg as <- _. clear.
  assert (∀ G, count_executions (foldl add_to_group G execs) = count_executions G + Z.of_nat (length execs)) as H.
  { induction execs as [|e l IH]; intros G; simpl; [lia|]. rewrite IH, count_add_to_group. lia. }
  rewrite H. done.
Qed.
End Pages.

(** ** Templates *)
Section Templates.
(** [templates.Templates.Open] with [ioutil.ReadAll]. *)
Variable template_file : string → res string.

(** [mustLoadTemplate(path)]: nil when the file cannot be read. *)
Definition mustLoadTemplate (path : string) : string :=
  match template_file path with Ok tmpl => tmpl | _ => "" end.

(** [CreateMyRender()]: the pages, each with the templates that it is made of. *)
Definition CreateMyRender : list (string * list string) :=
  let status := mustLoadTemplate "/status.html.tmpl" in
  let dash := mustLoadTemplate "/dashboard.html.tmpl" in
  (λ name, (name, [dash; status; mustLoadTemplate ("/" +:+ name +:+ ".html.tmpl")]))
  <$> ["index"; "jobs"; "executions"; "busy"].

End Templates.
