(* ===== verification/Processors.v ===== *)
(** * The built-in processors

    [dkron-processor-files], [-log], [-syslog] and [-fluent]: each sends the output of an
    execution somewhere and, unless it is told to forward it, replaces the output by a
    note.  What they send is recorded; the outcome of writing a file and of opening the
    syslog are parameters.  Through [ProcessorPlugins] they are the processors of a
    server. *)
From Stdlib Require Import ZArith Lia Ascii.
From stdpp Require Import base list gmap strings pretty.
From S2P Require Import Prelude GoStrings GoNet GoTime Pb NTime ExtCron Execution Job BuntDB Store.
From S2P Require Import Instances Scheduler Fsm Config Cluster Leader Targets Notifier Server Stream.

#[local] Open Scope Z_scope.

(** What leaves a processor. *)
Inductive emission :=
  | WriteFile (path out : string)
  | MkdirAll (path : string)
  | Stdout (text : string)
  | Stderr (text : string)
  | Syslog (out : string)
  | FluentPost (tag_ host job_name message : string).

(** [args.Config[key]] *)
Definition config_get (config : gmap string string) (key : string) : string :=
  default "" (config !! key).

Section Processors.
Context {PT : Ptypes}.
(** [os.IsNotExist] of the default directory, the error of [gsyslog.NewLogger], and the
    tag of the Fluent logger. *)
Variable default_dir_missing : bool.
Variable syslog_error : option error.
Variable fluent_tag : string.

(** [parseConfig(config)] of every processor: the field [forward]. *)
Definition parse_forward (config : gmap string string) : bool :=
  match ParseBool (config_get config "forward") with
  | Ok forward => forward
  | _ => false
  end.

(** ** [dkron-processor-files] *)

Definition defaultLogDir : string := "/var/log/dkron".

(** [type FilesOutput struct] and [parseConfig(config)] *)
Record FilesOutput := mkFilesOutput { fo_forward : bool; fo_logDir : string }.

Definition files_parseConfig (config : gmap string string) : FilesOutput * list emission :=
  let logDir := config_get config "log_dir" in
  if bool_decide (logDir ≠ "") then (mkFilesOutput (parse_forward config) logDir, [])
  else (mkFilesOutput (parse_forward config) defaultLogDir,
        if default_dir_missing then [MkdirAll defaultLogDir] else []).

(** [Process(args)] *)
Definition files_Process (e : pbExecution) (config : gmap string string) :
    pbExecution * list emission :=
  let '(l, made) := files_parseConfig config in
  let filePath := l.(fo_logDir) +:+ "/" +:+ pbExecution_Key e +:+ ".log" in
  (if negb l.(fo_forward) then pbEx_set_output filePath e else e,
   made ++ [WriteFile filePath e.(pbEx_Output)]).

(** ** [dkron-processor-log] *)

Definition log_Process (e : pbExecution) (config : gmap string string) :
    pbExecution * list emission :=
  let text := "----- BEGIN OUTPUT job=" +:+ e.(pbEx_JobName) +:+ " execution=" +:+ pbExecution_Key e
                +:+ " -----" +:+ newline +:+ e.(pbEx_Output) +:+ newline
                +:+ "----- END OUTPUT -----" +:+ newline in
  (if negb (parse_forward config) then pbEx_set_output "Output in dkron log" e else e,
   [if e.(pbEx_Success) then Stdout text else Stderr text]).

(** ** [dkron-processor-syslog] *)

Definition syslog_Process (e : pbExecution) (config : gmap string string) :
    pbExecution * list emission :=
  match syslog_error with
  | Some _ => (e, [])
  | None =>
      (if negb (parse_forward config) then pbEx_set_output "Output in syslog" e else e,
       [Syslog e.(pbEx_Output)])
  end.

(** ** [dkron-processor-fluent] *)

Definition fluent_Process (e : pbExecution) (config : gmap string string) :
    pbExecution * list emission :=
  (if negb (parse_forward config) then pbEx_set_output "Output sent to Fluent" e else e,
   [FluentPost fluent_tag e.(pbEx_NodeName) e.(pbEx_JobName) e.(pbEx_Output)]).

(** [getEnv(key)] of the Fluent processor, and the port that [main] gives the logger. *)
Definition fluent_getEnv (env : string → option string) (key : string) : string :=
  let v := default "" (env key) in
  if bool_decide (key = "FLUENT_PORT") then
    match Atoi v with
    | (r, Some _) => pretty r
    | (_, None) => "24224"
    end
  else if bool_decide (v = "") then "set_my_env_var"
  else match env key with
       | None => "var_is_empty"
       | Some v => v
       end.

Definition fluent_port (env : string → option string) : Z :=
  (Atoi (fluent_getEnv env "FLUENTBIT_PORT")).1.

(** The processors by the name they are configured under. *)
Definition builtin (name : string) :
    option (pbExecution → gmap string string → pbExecution * list emission) :=
  if bool_decide (name = "files") then Some files_Process
  else if bool_decide (name = "log") then Some log_Process
  else if bool_decide (name = "syslog") then Some syslog_Process
  else if bool_decide (name = "fluent") then Some fluent_Process
  else None.

(** The processors of a server: what they make of the execution. *)
Definition builtin_plugins (name : string) :
    option (pbExecution → gmap string string → pbExecution) :=
  (λ process e config, (process e config).1) <$> builtin name.

(** ** What they do to the execution *)

(** Only the output may change. *)
Definition same_but_output (e e' : pbExecution) : Prop := e' = pbEx_set_output e'.(pbEx_Output) e.

Lemma pbEx_set_output_id e : pbEx_set_output e.(pbEx_Output) e = e.
Proof. by destruct e. Qed.

(** Every built-in processor forwards when it is told to, and otherwise replaces nothing
    but the output. *)
Lemma builtin_spec name process e config :
  builtin name = Some process →
  same_but_output e (process e config).1 ∧
  (parse_forward config = true → (process e config).1 = e).
Proof.
  unfold builtin, same_but_output. intros H.
  assert (∀ (P : (pbExecution → gmap string string → pbExecution * list emission) → Prop),
    P files_Process → P log_Process → P syslog_Process → P fluent_Process → P process) as Hall.
  { intros P H1 H2 H3 H4. repeat case_bool_decide; naive_solver. }
  apply Hall; clear; unfold files_Process, log_Process, syslog_Process, fluent_Process,
    files_parseConfig; repeat case_match; simpl in *; simplify_eq/=;
    try case_bool_decide; split; intros; simplify_eq/=; try done;
    try (by rewrite pbEx_set_output_id); destruct (parse_forward config); simplify_eq/=;
    try done; by rewrite pbEx_set_output_id.
Qed.
End Processors.

(** ** Chains of processors on the server *)
Section Chain.
Context {PT : Ptypes} {R : Type} {WD : World R}.
Variable default_dir_missing : bool.
Variable syslog_error : option error.
Variable fluent_tag : string.
#[local] Abbreviation builtin := (builtin default_dir_missing syslog_error fluent_tag).
Hypothesis plugins : ∀ k,
  ProcessorPlugins k = builtin_plugins default_dir_missing syslog_error fluent_tag k.

(** What a chain of processors emits, in the order in which it is run. *)
Fixpoint emitted (node : string) (procs : list (string * option (gmap string string)))
    (e : pbExecution) : list emission :=
  match procs with
  | [] => []
  | (k, v) :: procs' =>
      match builtin k, v with
      | Some process, Some config =>
          let '(e', out) := process e (<["reporting_node" := node]> config) in
          out ++ emitted node procs' e'
      | _, _ => emitted node procs' e
      end
  end.

(** All loaded processors of the job forward the output. *)
Definition all_forward (procs : list (string * option (gmap string string))) : Prop :=
  Forall (λ kv, is_Some (builtin kv.1) → ∃ config, kv.2 = Some config ∧ parse_forward config = true)
    procs.

(** What one processor emits for an execution. *)
Definition emission_of (node : string) (e : pbExecution)
    (kv : string * option (gmap string string)) : list emission :=
  match builtin kv.1, kv.2 with
  | Some process, Some config => (process e (<["reporting_node" := node]> config)).2
  | _, _ => []
  end.

Lemma parse_forward_reporting node config :
  parse_forward (<["reporting_node" := node]> config) = parse_forward config.
Proof. unfold parse_forward, config_get. by rewrite lookup_insert_ne. Qed.

(** C39: processors that forward.  When every processor of a job forwards the output, the
    execution goes to the log unchanged, whatever order the processors run in, and each
    of them is given the output of the job.  In every case at most the output of the
    execution changes. *)
Theorem processors_forward node procs e :
  (∀ e', run_processors node procs e = Ok e' → same_but_output e e') ∧
  (all_forward procs →
   run_processors node procs e = Ok e ∧
   emitted node procs e = concat (emission_of node e <$> procs) ∧
   ∀ procs', procs' ≡ₚ procs →
     run_processors node procs' e = Ok e ∧ emitted node procs' e ≡ₚ emitted node procs e).
Proof.
  assert (∀ procs, all_forward procs → run_processors node procs e = Ok e ∧
    emitted node procs e = concat (emission_of node e <$> procs)) as Hall.
  { clear procs. induction procs as [|[k v] procs IH]; [done|].
    intros [Hk Hf]%Forall_cons. destruct (IH Hf) as [E1 E2]. rewrite fmap_cons.
    cbn [run_processors emitted concat]. unfold emission_of at 1. rewrite plugins.
    unfold builtin_plugins. cbn [fst snd] in *. destruct (builtin k) as [process|] eqn:Eb; [|done].
    destruct Hk as (config & -> & Hfw); [by eexists|]. cbn [fmap option_fmap option_map].
    assert ((process e (<["reporting_node" := node]> config)).1 = e) as Ep
      by (apply (builtin_spec _ _ _ _ _ _ _ Eb); by rewrite parse_forward_reporting).
    destruct (process e _) as [e' out]. cbn [fst snd] in *. subst e'. by rewrite E1, E2. }
  split.
  - clear Hall. revert e. induction procs as [|[k v] procs IH]; intros e e'; cbn [run_processors].
    { intros [= <-]. unfold same_but_output. by rewrite pbEx_set_output_id. }
    rewrite plugins. unfold builtin_plugins. destruct (builtin k) as [process|] eqn:Eb; simpl;
      [|apply IH]. destruct v as [config|]; [|done]. intros H%IH.
    destruct (builtin_spec _ _ _ _ _ e (<["reporting_node" := node]> config) Eb) as [H1 _].
    unfold same_but_output in *. by rewrite H, H1.
  - intros Hf. destruct (Hall procs Hf) as [E1 E2]. split_and!; [done|done|]. intros procs' HP.
    destruct (Hall procs') as [E1' E2']; [by unfold all_forward; rewrite HP|].
    split; [done|]. rewrite E2, E2'. clear -HP. induction HP as [| | |l1 l2 l3 _ IH1 _ IH2]; simpl.
    + done.
    + by apply Permutation_app_head.
    + rewrite !(assoc_L (++)). apply Permutation_app_tail, Permutation_app_comm.
    + by etransitivity.
Qed.
End Chain.

(** ** Examples *)
Module ProcessorsExample.
Import Toy.

#[local] Instance chain_world : World unit := {|
  call_outcome c := Ok tt;
  remote_active a := Ok [];
  ProcessorPlugins := builtin_plugins false None "dkron";
  raft_Apply_error r := None;
  GlobalLock := false
|}.

Definition done_execution : pbExecution :=
  Execution_ToProto (mkExecution "a" nanos_per_sec (2 * nanos_per_sec) true "42" "node1" 5 1).
Definition forwarding : option (gmap string string) := Some {["forward" := "true"]}.

Lemma processors_forward_witness :
  run_processors "node1" [("log", forwarding); ("files", forwarding)] done_execution =
    Ok done_execution ∧
  length (emitted false None "dkron" "node1" [("log", forwarding); ("files", forwarding)]
    done_execution) = 2%nat.
Proof.
  destruct (processors_forward (WD:=chain_world) false None "dkron" (λ _, eq_refl) "node1"
    [("log", forwarding); ("files", forwarding)] done_execution) as [_ H].
  destruct H as (H1 & H2 & _).
  - repeat constructor; intros _; eexists; split; reflexivity.
  - split; [exact H1|]. rewrite H2. reflexivity.
Defined.

(** Without forwarding the order, which is that of a Go map, decides what is kept: the
    second processor is given the note of the first one. *)
Lemma order_decides :
  let log := ("log", Some ∅) in
  let files := ("files", Some {["log_dir" := "/l"]}) in
  emitted false None "dkron" "node1" [files; log] done_execution ≠
    emitted false None "dkron" "node1" [log; files] done_execution ∧
  (∃ path l, emitted false None "dkron" "node1" [files; log] done_execution
               = WriteFile path "42" :: l) ∧
  (∃ path g, emitted false None "dkron" "node1" [log; files] done_execution
               = [g; WriteFile path "Output in dkron log"]).
Proof.
  split_and!; [vm_compute; discriminate| |]; vm_compute; by do 2 eexists.
Qed.
End ProcessorsExample.
