(* ===== verification/Executors.v ===== *)
(** * The built-in executors

    [dkron-executor-shell], [-http] and [-rabbitmq]: what they do with the configuration
    of a job, as the executors that [AgentRun] calls.  Processes, users, HTTP and AMQP
    are outside the program and are parameters; a panic of a plugin reaches the agent as
    an error of the call. *)
From Stdlib Require Import ZArith Lia Ascii.
From stdpp Require Import base list gmap strings pretty.
From S2P Require Import Prelude GoStrings GoNet Base64 GoTime Pb NTime ExtCron Execution Job.
From S2P Require Import Instances Notifier Stream Server Processors.

#[local] Open Scope Z_scope.

(** What an executor's [ExecuteImpl] does: the partial outputs that it reports, its
    output and its error. *)
Record Impl := mkImpl { im_updates : list string; im_output : string; im_err : option error }.

(** [Execute(args, cb)] of every executor: the error becomes a field of the response. *)
Definition Execute (i : Impl) : ExecScript :=
  mkExecScript i.(im_updates) (λ _,
    (Some (mkExecuteResponse i.(im_output)
             (match i.(im_err) with Some err => Error err | None => "" end)), None)).

(** The executor as the agent sees it: [crashed] is the error of a call to a plugin that
    panics. *)
Definition as_plugin (crashed : error) (r : res Impl) : ExecScript :=
  match r with
  | Ok i => Execute i
  | Err e => mkExecScript [] (λ _, (None, Some e))
  | Crash _ => mkExecScript [] (λ _, (None, Some crashed))
  end.

(** [if err != nil { return nil, err }] *)
Definition check (e : option error) : res unit :=
  match e with Some err => Err err | None => Ok tt end.

Definition fail (out : string) (err : error) : Impl := mkImpl [] out (Some err).

(** ** [dkron-executor-shell] *)

(** [exec.Cmd]: what is run. *)
Record Cmd := mkCmd {
  cmd_args : list string;
  cmd_Env : list string;
  cmd_Dir : string;
  cmd_Credential : option (Z * Z)
}.

(** The operating system: its environment, users and groups, what a command that is given
    a payload writes to its outputs, in order, and the errors of its pipe, its start and
    its end; and [shellwords.Parse].  (The payload is written before the start: one that
    does not fit the buffer of the pipe would block for ever, which is not modelled.) *)
Class System := {
  Environ : list string;
  user_Lookup : string → res (string * string);
  user_LookupGroup : string → res string;
  shellwords_Parse : string → res (list string);
  StdinPipe_error : Cmd → option error;
  start_error : Cmd → option error;
  command_writes : Cmd → string → list string;
  wait_error : Cmd → string → option error
}.

Section Shell.
Context {CB : Circbuf} {SY : System}.

(** [buildCmd(command, useShell, env, cwd)] on Unix *)
Definition buildCmd (command : string) (useShell : bool) (env : list string) (cwd : string) :
    res Cmd :=
  args <-? (if useShell then Ok ["/bin/sh"; "-c"; command] else shellwords_Parse command) ;;
  match args with
  | [] => Crash "index out of range [0] with length 0"
  | _ => Ok (mkCmd args (Environ ++ env) cwd None)
  end.

(** [setCmdAttr(cmd, config)] on Unix; the ids become unsigned 32-bit numbers. *)
Definition setCmdAttr (cmd : Cmd) (config : gmap string string) : res Cmd :=
  let su := config_get config "su" in
  if bool_decide (su ≠ "") then
    let parts := Split ":" su in
    u <-? user_Lookup (default "" (head parts)) ;;
    let '(u_Uid, u_Gid) := (u : string * string) in
    gid <-? match parts with
            | _ :: group :: _ => user_LookupGroup group
            | _ => Ok u_Gid
            end ;;
    Ok (mkCmd cmd.(cmd_args) cmd.(cmd_Env) cmd.(cmd_Dir)
          (Some (uintN 32 (Atoi u_Uid).1, uintN 32 (Atoi gid).1)))
  else Ok cmd.

(** [ExecuteImpl(args, cb)]: every write of the command is reported and kept in the
    buffer. *)
Definition shell_ExecuteImpl (config : gmap string string) : res Impl :=
  let shell := match ParseBool (config_get config "shell") with Ok b => b | _ => false end in
  let env := Split "," (config_get config "env") in
  match
    (cmd <-? buildCmd (config_get config "command") shell env (config_get config "cwd") ;;
     cmd <-? setCmdAttr cmd config ;;
     piped <-? check (StdinPipe_error cmd) ;;
     payload <-? DecodeString (config_get config "payload") ;;
     started <-? check (start_error cmd) ;;
     Ok (cmd, payload))
  with
  | Ok (cmd, payload) =>
      let writes := command_writes cmd payload in
      Ok (mkImpl writes (circbuf_Bytes (Z.to_nat maxBufSize) writes) (wait_error cmd payload))
  | Err err => Ok (fail "" err)
  | Crash w => Crash w
  end.
End Shell.

(** ** [dkron-executor-http] *)

(** An HTTP request and a client, as far as the executor sets them. *)
Record HttpRequest := mkHttpRequest {
  hr_Method : string;
  hr_URL : string;
  hr_Body : string;
  hr_Header : list (string * string)
}.
Record HttpClient := mkHttpClient {
  hc_Timeout : Z;
  hc_InsecureSkipVerify : bool;
  hc_Certificate : option string;
  hc_RootCAs : option string
}.

(** [net/http], [crypto/tls], [encoding/json] and [regexp]: the error of a request, the
    answer to it (the status and the body, as far as it can be read), loading
    certificates, and decoding a list of strings.  [GoSyntax] is the verb [%#v]. *)
Class Http := {
  http_NewRequest : string → string → option error;
  client_Do : HttpClient → HttpRequest → res (Z * res string);
  LoadX509KeyPair : string → string → res string;
  ReadFile : string → res string;
  AppendCertsFromPEM : string → bool;
  Unmarshal_strings : string → list string * option error;
  regexp_MatchString : string → string → bool;
  GoSyntax : gmap string string → string
}.

Section HttpExecutor.
Context {CB : Circbuf} {HT : Http}.

Definition default_timeout : Z := 30.

(** [atoiOrDefault(s, _default)] *)
Definition atoiOrDefault (s : string) (dflt : Z) : Z * option error :=
  match Atoi s with
  | (i, None) => (i, None)
  | (_, Some err) =>
      (dflt, Some (ErrOther (dquote +:+ s +:+ dquote +:+ " not understood (" +:+ Error err
                               +:+ "), using default value of " +:+ pretty dflt)))
  end.

(** [loadCertPool(filename)] *)
Definition loadCertPool (filename : string) : res string :=
  certs <-? ReadFile filename ;;
  if AppendCertsFromPEM certs then Ok certs else Err (ErrOther "no certificates in file").

(** [createClient(config)]: a client and warnings. *)
Definition createClient (config : gmap string string) : HttpClient * list error :=
  let get := config_get config in
  let warn (b : bool) (prefix : string) (e : option error) :=
    match e with
    | Some err => if b then [ErrOther (prefix +:+ Error err)] else []
    | None => []
    end in
  let '(timeout, terr) := atoiOrDefault (get "timeout") default_timeout in
  let '(insecure, ierr) :=
    match ParseBool (get "tlsNoVerifyPeer") with
    | Ok b => (b, None)
    | Err e => (false, Some e)
    | Crash _ => (false, None)
    end in
  let '(cert, cwarn) :=
    if bool_decide (get "tlsCertificateFile" ≠ "") then
      match LoadX509KeyPair (get "tlsCertificateFile") (get "tlsCertificateKeyFile") with
      | Ok cert => (Some cert, [])
      | Err e => (None, [ErrOther ("not using client certificate: " +:+ Error e)])
      | Crash _ => (None, [])
      end
    else (None, []) in
  let '(roots, rwarn) :=
    if bool_decide (get "tlsRootCAsFile" ≠ "") then
      match loadCertPool (get "tlsRootCAsFile") with
      | Ok roots => (Some roots, [])
      | Err e => (None, [ErrOther ("using system root CAs instead of configured CAs: "
                                     +:+ Error e)])
      | Crash _ => (None, [])
      end
    else (None, []) in
  (mkHttpClient (intN 64 (timeout * nanos_per_sec)) insecure cert roots,
   warn (bool_decide (get "timeout" ≠ "")) "invalid timeout value: " terr
   ++ warn (bool_decide (get "tlsNoVerifyPeer" ≠ "")) "not disabling certificate validation: " ierr
   ++ cwarn ++ rwarn).

(** The checks of the response's code and body. *)
Definition code_expected (expectCode : string) (StatusCode : Z) : bool :=
  bool_decide (expectCode = "") || Contains (expectCode +:+ ",") (pretty StatusCode +:+ ",").

Definition body_expected (expectBody out : string) : bool :=
  bool_decide (expectBody = "") || regexp_MatchString expectBody out.

(** [ExecuteImpl(args)] *)
Definition http_ExecuteImpl (config : gmap string string) : res Impl :=
  let get := config_get config in
  let bytes := circbuf_Bytes (Z.to_nat maxBufSize) in
  let written := if bool_decide (get "debug" ≠ "")
                 then ["Config: " +:+ GoSyntax config +:+ newline] else [] in
  if bool_decide (get "url" = "") then Ok (fail (bytes written) (ErrOther "url is empty"))
  else if bool_decide (get "method" = "")
  then Ok (fail (bytes written) (ErrOther "method is empty"))
  else
    match http_NewRequest (get "method") (get "url") with
    | Some err => Ok (fail (bytes written) err)
    | None =>
        let '(headers, written) :=
          if bool_decide (get "headers" ≠ "") then
            match Unmarshal_strings (get "headers") with
            | (hs, None) => (hs, written)
            | (hs, Some _) => (hs, written ++ ["Error: parsing headers failed" +:+ newline])
            end
          else ([], written) in
        header <-? webhook_headers headers ;;
        let '(client, warns) := createClient config in
        let written := written ++
          ((λ w, "Warning: " +:+ Error w +:+ "." +:+ newline) <$> warns) in
        match client_Do client (mkHttpRequest (get "method") (get "url") (get "body") header) with
        | Err err => Ok (fail (bytes written) err)
        | Crash w => Crash w
        | Ok (StatusCode, body) =>
            match body with
            | Err err => Ok (fail (bytes written) err)
            | Crash w => Crash w
            | Ok out =>
                let output := bytes (written ++ [out]) in
                if negb (code_expected (get "expectCode") StatusCode) then
                  Ok (fail output (ErrOther
                    "received response code does not match the expected code"))
                else if negb (body_expected (get "expectBody") out) then
                  Ok (fail output (ErrOther
                    "received response body did not match the expected body"))
                else Ok (mkImpl [] output None)
            end
        end
    end.
End HttpExecutor.

(** ** [dkron-executor-rabbitmq] *)

(** The broker: the error of dialling and of opening a channel, declaring a queue (its
    name), and publishing. *)
Class Amqp := {
  amqp_Dial : string → option error;
  amqp_Channel : option error;
  QueueDeclare : string → res string;
  Publish : string → string → option error
}.

Section RabbitMQ.
Context {AM : Amqp}.

(** The body of the message: bytes in base64, or a text. *)
Definition rabbitmq_body (config : gmap string string) : res string :=
  match config !! "base64" with
  | Some b64 => DecodeString b64
  | None => Ok (config_get config "text")
  end.

(** [ExecuteImpl(args, cb)] *)
Definition rabbitmq_ExecuteImpl (config : gmap string string) : res Impl :=
  let url := config_get config "url" in
  let queue := config_get config "queue" in
  if bool_decide (url = "") then Ok (fail "" (ErrOther "url is empty"))
  else if bool_decide (queue = "") then Ok (fail "" (ErrOther "queue is empty"))
  else
    match
      (dialled <-? check (amqp_Dial url) ;;
       opened <-? check amqp_Channel ;;
       q <-? QueueDeclare queue ;;
       body <-? rabbitmq_body config ;;
       check (Publish q body))
    with
    | Ok _ => Ok (mkImpl [] "" None)
    | Err err => Ok (fail "" err)
    | Crash w => Crash w
    end.
End RabbitMQ.

(** ** The executors of an agent *)
Section Builtin.
Context {CB : Circbuf} {SY : System} {HT : Http} {AM : Amqp}.
Variable crashed : error.

Definition builtin_impl (name : string) : option (gmap string string → res Impl) :=
  if bool_decide (name = "shell") then Some shell_ExecuteImpl
  else if bool_decide (name = "http") then Some http_ExecuteImpl
  else if bool_decide (name = "rabbitmq") then Some rabbitmq_ExecuteImpl
  else None.

Definition builtin_executors (name : string) :
    option (string → gmap string string → ExecScript) :=
  (λ impl _ config, as_plugin crashed (impl config)) <$> builtin_impl name.

(** A run succeeds when the executor is built in, does not panic, and has no error (an
    error without a text is none). *)
Lemma builtin_succeeds (job : pbJob) :
  succeeds builtin_executors job ↔
  ∃ impl i, builtin_impl job.(pbJob_Executor) = Some impl ∧
    impl job.(pbJob_ExecutorConfig) = Ok i ∧
    match i.(im_err) with Some err => Error err = "" | None => True end.
Proof.
  unfold succeeds, builtin_executors. split.
  - intros (executor & o & E & Hr & He). destruct (builtin_impl _) as [impl|]; [|done].
    injection E as <-. exists impl. destruct (impl _) as [i|e|w]; simpl in Hr; [|done..].
    injection Hr as <-. exists i. simpl in He. by destruct (im_err i).
  - intros (impl & i & E & Ei & He). rewrite E. eexists _, _. split; [reflexivity|].
    cbv beta zeta. rewrite Ei. split; [reflexivity|]. simpl. by destruct (im_err i).
Qed.
End Builtin.

(** ** Expected codes *)

(** The three digits of a status code. *)
Lemma pretty_code z :
  100 ≤ z < 1000 → ∃ a b c, pretty z = String a (String b (String c "")) ∧
    a ≠ ","%char ∧ b ≠ ","%char ∧ c ≠ ","%char.
Proof.
  intros Hz. assert (Forall (λ z, match pretty z with
      | String a (String b (String c "")) => a ≠ ","%char ∧ b ≠ ","%char ∧ c ≠ ","%char
      | _ => False
      end) ((λ n, 100 + Z.of_nat n) <$> seq 0 900)) as H.
  { rewrite Forall_forall. intros x (n & -> & Hn)%list_elem_of_fmap.
    apply elem_of_seq in Hn.
    assert (forallb (λ n, match pretty (100 + Z.of_nat n) with
      | String a (String b (String c "")) => negb (Ascii.eqb a ",") && negb (Ascii.eqb b ",")
          && negb (Ascii.eqb c ",")
      | _ => false end) (seq 0 900) = true) as Hb by (vm_compute; reflexivity).
    rewrite forallb_forall in Hb. specialize (Hb n). rewrite in_seq in Hb. specialize (Hb ltac:(lia)).
    destruct (pretty (100 + Z.of_nat n)) as [|a [|b [|c []]]]; try done.
    apply andb_true_iff in Hb as [[Ha Hb']%andb_true_iff Hc].
    rewrite negb_true_iff, Ascii.eqb_neq in Ha, Hb', Hc. done. }
  rewrite Forall_forall in H. specialize (H z). destruct (pretty z) as [|a [|b [|c []]]] eqn:E;
    try (destruct H; apply list_elem_of_fmap; exists (Z.to_nat (z - 100)); rewrite elem_of_seq; lia).
  exists a, b, c. split; [done|]. apply H. apply list_elem_of_fmap. exists (Z.to_nat (z - 100)).
  rewrite elem_of_seq. lia.
Qed.

Lemma Join_cons x xs : xs ≠ [] → Join (x :: xs) "," = x +:+ "," +:+ Join xs ",".
Proof. by destruct xs. Qed.

Lemma HasPrefix_cons x s a p : HasPrefix (String x s) (String a p) = bool_decide (a = x) && HasPrefix s p.
Proof. unfold HasPrefix. simpl. destruct (ascii_dec a x), (bool_decide_reflect (a = x)); done. Qed.

Lemma HasPrefix_nil s : HasPrefix s "" = true.
Proof. by destruct s. Qed.

Lemma Contains_cons x s p : Contains (String x s) p = HasPrefix (String x s) p || Contains s p.
Proof. done. Qed.

(** A code and a comma can only be found at the beginning of an entry. *)
Lemma Contains_entry (a b c x y w : ascii) t :
  a ≠ ","%char → b ≠ ","%char → c ≠ ","%char →
  Contains (String x (String y (String w (String "," t)))) (String a (String b (String c ","))) = true
  ↔ (a = x ∧ b = y ∧ c = w) ∨ Contains t (String a (String b (String c ","))) = true.
Proof.
  intros Ha Hb Hc. rewrite !Contains_cons.
  rewrite (HasPrefix_cons "," t), (bool_decide_eq_false_2 (a = ","%char)) by done.
  rewrite (HasPrefix_cons w), (HasPrefix_cons "," t), (bool_decide_eq_false_2 (b = ","%char)) by done.
  rewrite (HasPrefix_cons y), (HasPrefix_cons w), (HasPrefix_cons "," t),
    (bool_decide_eq_false_2 (c = ","%char)) by done.
  rewrite !HasPrefix_cons, HasPrefix_nil, !andb_false_r. simpl.
  rewrite orb_true_iff, !andb_true_iff, !bool_decide_eq_true. naive_solver.
Qed.

(** The expected codes of the HTTP executor.  A list of status codes separated by commas
    accepts a response exactly when its code is in the list: looking for the code as a
    substring is enough, because all codes have three digits. *)
Theorem code_expected_spec codes st :
  codes ≠ [] → Forall (λ z, 100 ≤ z < 1000) (st :: codes) →
  code_expected (Join (pretty <$> codes) ",") st = true ↔ st ∈ codes.
Proof.
  intros Hne [Hst HF]%Forall_cons.
  destruct (pretty_code st Hst) as (a & b & c & Est & Ha & Hb & Hc).
  assert (∀ codes, codes ≠ [] → Forall (λ z, 100 ≤ z < 1000) codes →
    Contains (Join (pretty <$> codes) "," +:+ ",") (pretty st +:+ ",") = true ↔ st ∈ codes) as H.
  { clear codes Hne HF. induction codes as [|z codes IH]; [done|]. intros _ [Hz HF]%Forall_cons.
    destruct (pretty_code z Hz) as (x & y & w & Ez & Hx & Hy & Hw).
    assert (st = z ↔ a = x ∧ b = y ∧ c = w) as Heq.
    { split; [intros ->; rewrite Ez in Est; by injection Est as -> -> ->|].
      intros (-> & -> & ->). apply (inj pretty). congruence. }
    rewrite elem_of_cons, Heq, fmap_cons, Est, Ez. destruct codes as [|z' codes].
    - cbn [fmap list_fmap Join]. rewrite <- (app_nil_r ","). rewrite !app_cons, !app_nil_l.
      rewrite (Contains_entry a b c x y w "") by done. set_solver.
    - rewrite Join_cons by done. rewrite !app_cons, !app_nil_l, app_cons.
      rewrite (Contains_entry a b c x y w) by done. rewrite Est in IH. by rewrite <- IH. }
  unfold code_expected. rewrite <- H by done. rewrite orb_true_iff, bool_decide_eq_true.
  split; [|by right]. intros [E|]; [|done]. exfalso.
  destruct codes as [|z codes]; [done|]. apply Forall_cons in HF as [Hz _].
  destruct (pretty_code z Hz) as (x & y & w & Ez & _). rewrite fmap_cons, Ez in E.
  by destruct codes.
Qed.

(** ** When a run succeeds *)
Section Success.
Context {CB : Circbuf} {SY : System} {HT : Http} {AM : Amqp}.
Variable crashed : error.

(** Errors of the outside world say something. *)
Hypothesis request_text : ∀ m u e, http_NewRequest m u = Some e → Error e ≠ "".
Hypothesis do_text : ∀ c r e, client_Do c r = Err e → Error e ≠ "".
Hypothesis body_text : ∀ c r st e, client_Do c r = Ok (st, Err e) → Error e ≠ "".

(** The headers of a request. *)
Definition config_headers (config : gmap string string) : list string :=
  if bool_decide (config_get config "headers" ≠ "")
  then (Unmarshal_strings (config_get config "headers")).1 else [].

(** C40: when an HTTP job succeeds.  An execution by the HTTP executor is reported as a success
    exactly when a URL and a method are configured, the request could be made, with
    headers that all have a colon, and the response was read and has the code and the
    body that are expected. *)
Theorem http_success (job : pbJob) :
  job.(pbJob_Executor) = "http" →
  let config := job.(pbJob_ExecutorConfig) in
  let get := config_get config in
  succeeds (builtin_executors crashed) job ↔
  get "url" ≠ "" ∧ get "method" ≠ "" ∧ http_NewRequest (get "method") (get "url") = None ∧
  ∃ header StatusCode out,
    webhook_headers (config_headers config) = Ok header ∧
    client_Do (createClient config).1
      (mkHttpRequest (get "method") (get "url") (get "body") header) = Ok (StatusCode, Ok out) ∧
    code_expected (get "expectCode") StatusCode = true ∧
    body_expected (get "expectBody") out = true.
Proof.
  intros Hex config get. rewrite builtin_succeeds, Hex.
  assert ((∃ impl i, builtin_impl "http" = Some impl ∧ impl config = Ok i ∧
    match im_err i with Some err => Error err = "" | None => True end) ↔
    ∃ i, http_ExecuteImpl config = Ok i ∧
      match im_err i with Some err => Error err = "" | None => True end) as Himpl
    by (unfold builtin_impl; naive_solver).
  etransitivity; [exact Himpl|]. clear Himpl.
  unfold http_ExecuteImpl, config_headers. fold get.
  case_bool_decide as Hu; [naive_solver|]. case_bool_decide as Hm; [naive_solver|].
  destruct (http_NewRequest _ _) as [e|] eqn:Er.
  { apply request_text in Er. split; [|naive_solver]. by intros (i & [= <-] & ?). }
  match goal with |- context [let '(headers, written) := ?x in _] =>
    destruct x as [headers written] eqn:Eh end.
  assert ((if bool_decide (get "headers" ≠ "") then (Unmarshal_strings (get "headers")).1 else [])
    = headers) as ->.
  { case_bool_decide; [|by injection Eh].
    destruct (Unmarshal_strings _) as [hs [e|]]; by injection Eh as <-. }
  destruct (webhook_headers headers) as [header|e|w]; simpl;
    [|by split; [intros (? & ? & _)|intros (_ & _ & _ & ? & ? & ? & ? & _)]..].
  destruct (createClient config) as [client warns]. cbn [fst].
  destruct (client_Do _ _) as [[st [out|e|w]]|e|w] eqn:Ed.
  2-5: split; [intros (i & Hi & He)|intros (_ & _ & _ & ? & ? & ? & [= <-] & E & _);
    by rewrite Ed in E].
  - destruct (code_expected _ _) eqn:Ec; cbn [negb]; [destruct (body_expected _ _) eqn:Eb; cbn [negb]|].
    + split; [|intros _; by eexists]. intros _. split_and!; [done..|]. by exists header, st, out.
    + split; [by intros (i & [= <-] & ?)|]. intros (_ & _ & _ & ? & ? & ? & [= <-] & E & _ & ?).
      rewrite Ed in E. injection E as <- <-. congruence.
    + split; [by intros (i & [= <-] & ?)|]. intros (_ & _ & _ & ? & ? & ? & [= <-] & E & ? & _).
      rewrite Ed in E. injection E as <- <-. congruence.
  - injection Hi as <-. by destruct (body_text _ _ _ _ Ed).
  - done.
  - injection Hi as <-. by destruct (do_text _ _ _ Ed).
  - done.
Qed.
End Success.

(** ** Examples *)
Module ExecutorsExample.
Import Toy StreamExample.

(** A system on which every command prints its input and exits well, with the words of a
    command separated by spaces. *)
#[export] Instance ToySystem : System := {|
  Environ := ["PATH=/bin"];
  user_Lookup u := if bool_decide (u = "root") then Ok ("0", "0") else Err (ErrOther "unknown user");
  user_LookupGroup g := if bool_decide (g = "wheel") then Ok "10" else Err (ErrOther "unknown group");
  shellwords_Parse s := Ok (if bool_decide (s = "") then [] else Split " " s);
  StdinPipe_error _ := None;
  start_error c := None;
  command_writes c input := [input];
  wait_error c input := None
|}.

(** A web server that answers with 200 and [ok]. *)
#[export] Instance ToyHttp : Http := {|
  http_NewRequest m u := if bool_decide (m = "BAD METHOD") then Some (ErrOther "invalid method") else None;
  client_Do c r := Ok (200, Ok "ok");
  LoadX509KeyPair c k := Err (ErrOther "no such file");
  ReadFile f := Err (ErrOther "no such file");
  AppendCertsFromPEM s := false;
  Unmarshal_strings s := ([s], None);
  regexp_MatchString re s := bool_decide (re = s);
  GoSyntax m := "map[string]string{}"
|}.

#[export] Instance ToyAmqp : Amqp := {|
  amqp_Dial u := None;
  amqp_Channel := None;
  QueueDeclare q := Ok q;
  Publish q b := None
|}.

(** A command with a user, an environment and an input in base64. *)
Example shell_echo : shell_ExecuteImpl
    {["command" := "cat -"; "su" := "root:wheel"; "payload" := EncodeToString "hello"]} =
  Ok (mkImpl ["hello"] "hello" None).
Proof. vm_compute. reflexivity. Qed.

Example shell_user : shell_ExecuteImpl {["command" := "cat"; "su" := "nobody"]} =
  Ok (fail "" (ErrOther "unknown user")).
Proof. vm_compute. reflexivity. Qed.

(** A job without a command makes the plugin panic instead of reporting an error. *)
Example shell_empty : shell_ExecuteImpl ∅ = Crash "index out of range [0] with length 0".
Proof. vm_compute. reflexivity. Qed.

Lemma code_expected_spec_witness : code_expected "200,206" 206 = true.
Proof.
  apply (code_expected_spec [200; 206] 206); [discriminate| |right; left].
  refine (bool_decide_unpack _ _). vm_compute. exact I.
Defined.

Definition http_job : pbJob :=
  mkpbJob "a" "" "@every 1m" "" "" 0 0 false ∅ 0 [] "" "" "http"
    {["url" := "http://h/"; "method" := "GET"; "expectCode" := "200,206"; "headers" := "A: b"]}
    "" ∅ None None None "" ∅.

Lemma http_success_witness : succeeds (builtin_executors (ErrOther "EOF")) http_job.
Proof.
  apply http_success.
  - intros m u e. simpl. case_bool_decide; [|discriminate]. intros [= <-]. discriminate.
  - intros c r e. discriminate.
  - intros c r st e. discriminate.
  - reflexivity.
  - split; [vm_compute; discriminate|]. split; [vm_compute; discriminate|].
    split; [vm_compute; reflexivity|]. exists [("A", "b")], 200, "ok".
    split_and!; vm_compute; reflexivity.
Defined.
End ExecutorsExample.
