(* ===== verification/PluginRpc.v ===== *)
(** * [plugin/]: executors and processors in processes of their own

    Dkron runs its plugins as child processes.  An executor is called over gRPC, and while
    it runs it reports its output through a second server, that of the caller; a processor
    is called over net/rpc.  The adaptors on both sides are modelled here, over go-plugin's
    broker and the transport as parameters.  An executor is a program that may call
    [Update] any number of times and see what each call returned. *)
From Stdlib Require Import ZArith Lia Ascii.
From stdpp Require Import base list gmap strings pretty.
From S2P Require Import Prelude GoStrings GoNet GoTime Pb NTime ExtCron Execution Job Instances.
From S2P Require Import Notifier Stream.

#[local] Open Scope Z_scope.

(** ** Executors *)

(** [types.ExecuteRequest] *)
Record ExecuteRequest := mkExecuteRequest {
  EReq_JobName : string;
  EReq_Config : gmap string string;
  EReq_StatusServer : Z
}.
Definition set_StatusServer (id : Z) (args : ExecuteRequest) : ExecuteRequest :=
  mkExecuteRequest args.(EReq_JobName) args.(EReq_Config) id.

(** [type StatusHelper interface], over the state [S] of its implementation. *)
Definition StatusHelper (S : Type) : Type := string → bool → S → (Z * option error) * S.

(** [type Executor interface]: what a call of [Execute] does.  It calls [Update], goes on
    with what that returned, and in the end returns a response and an error, or panics. *)
Inductive program :=
  | Return (out : option ExecuteResponse) (err : option error)
  | Panic (why : string)
  | Update (b : string) (c : bool) (k : Z * option error → program).

Definition Executor : Type := ExecuteRequest → program.

Fixpoint run {S} (cb : StatusHelper S) (p : program) (s : S) :
    res (option ExecuteResponse * option error) * S :=
  match p with
  | Return out err => (Ok (out, err), s)
  | Panic w => (Crash w, s)
  | Update b c k => let '(r, s') := cb b c s in run cb (k r) s'
  end.

(** [GRPCStatusHelperServer.Update], on the side of the agent. *)
Definition GRPCStatusHelperServer_Update {S} (Impl : StatusHelper S) (output : string) (isError : bool)
    (s : S) : (Z + error) * S :=
  let '((r, err), s') := Impl output isError s in
  (match err with Some e => inr e | None => inl r end, s').

(** The go-plugin broker and the transport: the next id, the outcome of [Dial] for an id,
    whether the goroutine that serves an id has made its server by the time the call returns
    (a successful [Dial] is answered by it), the error of an update that is lost, the error
    of a call whose response is nil, and that of a call to a process that died. *)
Class Broker := {
  NextId : Z;
  broker_Dial : Z → option error;
  served : Z → bool;
  served_Dial id : broker_Dial id = None → served id = true;
  lost : string → bool → option error;
  marshal_nil : error;
  unavailable : error
}.

Section Adaptors.
Context {BR : Broker} {S : Type}.

(** The generated stub: the error of the handler arrives as a status. *)
Definition call_Update (cb : StatusHelper S) (b : string) (c : bool) (s : S) : (Z + error) * S :=
  match lost b c with
  | Some e => (inr e, s)
  | None =>
      let '(r, s') := GRPCStatusHelperServer_Update cb b c s in
      (match r with inr e => inr (rpc_error e) | inl r => inl r end, s')
  end.

(** [GRPCStatusHelperClient.Update], on the side of the plugin. *)
Definition GRPCStatusHelperClient_Update (cb : StatusHelper S) : StatusHelper S := λ b c s,
  let '(r, s') := call_Update cb b c s in
  (match r with inr e => (0, Some e) | inl r => (r, None) end, s').

(** [ExecutorServer.Execute(ctx, req)], on the side of the plugin; [cb] is what the caller
    serves under the id of the request. *)
Definition ExecutorServer_Execute (Impl : Executor) (req : ExecuteRequest) (cb : StatusHelper S) (s : S) :
    res (option ExecuteResponse * option error) * S :=
  match broker_Dial req.(EReq_StatusServer) with
  | Some e => (Ok (None, Some e), s)
  | None => run (GRPCStatusHelperClient_Update cb) (Impl req) s
  end.

(** What arrives of a response: errors as a status, without the response; a response that
    is nil cannot be sent; a process that panics is gone. *)
Definition wire (r : res (option ExecuteResponse * option error)) :
    option ExecuteResponse * option error :=
  match r with
  | Ok (_, Some e) => (None, Some (rpc_error e))
  | Ok (Some out, None) => (Some out, None)
  | Ok (None, None) => (None, Some marshal_nil)
  | Err e => (None, Some e)
  | Crash _ => (None, Some unavailable)
  end.

(** [ExecutorClient.Execute(args, cb)], on the side of the agent.  [s.Stop()] dereferences
    the server that the goroutine was to make. *)
Definition ExecutorClient_Execute (Impl : Executor) (args : ExecuteRequest) (cb : StatusHelper S) (s : S) :
    res (option ExecuteResponse * option error) * S :=
  let brokerID := NextId in
  let args := set_StatusServer brokerID args in
  let '(r, s') := ExecutorServer_Execute Impl args cb s in
  (if served brokerID then Ok (wire r) else Crash "nil pointer dereference", s').
End Adaptors.

(** ** The agent's helper *)
Section Agent.
Context {BR : Broker}.

(** [statusAgentHelper.Update(b, c)]: the execution with its last output, and the stream. *)
Definition statusAgentHelper_Update : StatusHelper (pbExecution * Runner) := λ b c '(e, r),
  let e := pbEx_set_output b e in
  match send e r with
  | (Err err, r') => ((0, Some err), (e, r'))
  | (_, r') => ((0, None), (e, r'))
  end.

(** A script of [Stream] as a program: its updates, one after the other, then its result. *)
Fixpoint script_updates (outs : list string) (bs : list bool)
    (k : list bool → option ExecuteResponse * option error) : program :=
  match outs with
  | [] => let '(out, err) := k bs in Return out err
  | b :: outs' => Update b false (λ r, script_updates outs' (bs ++ [bool_decide (r.2 = None)]) k)
  end.
Definition script_program (sc : ExecScript) : program := script_updates sc.(es_updates) [] sc.(es_result).

(** An update that gets through: the plugin sees an error exactly when the stream had one. *)
Lemma client_Update_ok {S} (cb : StatusHelper S) b c s :
  lost b c = None →
  let d := cb b c s in
  let p := GRPCStatusHelperClient_Update cb b c s in
  p.2 = d.2 ∧ (p.1.2 = None ↔ d.1.2 = None) ∧ (d.1.2 = None → p.1 = d.1).
Proof.
  intros Hl. unfold GRPCStatusHelperClient_Update, call_Update, GRPCStatusHelperServer_Update.
  rewrite Hl. destruct (cb b c s) as [[r [err|]] s']; simpl; naive_solver.
Qed.

Lemma send_no_crash e r w : (send e r).1 ≠ Crash w.
Proof. unfold send. by destruct (r_errors r) as [|[] ?]. Qed.

Lemma run_script outs bs k e r :
  (∀ b, lost b false = None) →
  ∃ e' bs' r', run_updates outs e r = (Ok (e', bs'), r') ∧
    run (GRPCStatusHelperClient_Update statusAgentHelper_Update) (script_updates outs bs k) (e, r)
    = (Ok (k (bs ++ bs')), (e', r')).
Proof.
  intros Hl. revert bs e r. induction outs as [|b outs IH]; intros bs e r; cbn [run_updates script_updates].
  { exists e, [], r. rewrite (right_id_L [] (++)). by destruct (k bs). }
  cbn [run]. destruct (client_Update_ok statusAgentHelper_Update b false (e, r) (Hl b)) as (E2 & E1 & _).
  destruct (GRPCStatusHelperClient_Update _ b false (e, r)) as [[n err] s1]. simpl in E1, E2. subst s1.
  unfold bindM at 1, tryM. cbn [statusAgentHelper_Update] in *.
  pose proof (send_no_crash (pbEx_set_output b e) r) as Hnc.
  destruct (send (pbEx_set_output b e) r) as [[[]|e1|w] r1]; [| |by destruct (Hnc w)];
    cbn [fst snd] in E1; cbn [snd].
  - destruct (IH (bs ++ [bool_decide (err = None)]) (pbEx_set_output b e) r1) as (e' & bs' & r' & E & Er).
    exists e', (true :: bs'), r'. unfold bindM. rewrite E. split; [done|].
    rewrite Er, <- (assoc_L (++)). rewrite bool_decide_eq_true_2 by tauto. done.
  - destruct (IH (bs ++ [bool_decide (err = None)]) (pbEx_set_output b e) r1) as (e' & bs' & r' & E & Er).
    exists e', (false :: bs'), r'. unfold bindM. rewrite E. split; [done|].
    rewrite Er, <- (assoc_L (++)). rewrite bool_decide_eq_false_2; [done|].
    intros Hn. by apply E1 in Hn.
Qed.


(** A plugin that panics, at whatever point, is an error of the call for the agent. *)
Lemma plugin_panics impl args e r w :
  broker_Dial NextId = None →
  (ExecutorServer_Execute impl (set_StatusServer NextId args) statusAgentHelper_Update (e, r)).1 = Crash w →
  (ExecutorClient_Execute impl args statusAgentHelper_Update (e, r)).1 = Ok (None, Some unavailable).
Proof.
  intros Hd Hw. unfold ExecutorClient_Execute. rewrite (served_Dial _ Hd).
  destruct (ExecutorServer_Execute _ _ _ _) as [x s']. simpl in Hw. by subst x.
Qed.
End Agent.

(** ** Processors *)

(** [plugin.ProcessorArgs] *)
Record ProcessorArgs := mkProcessorArgs { PA_Execution : pbExecution; PA_Config : gmap string string }.

(** [type Processor interface], [ProcessorServer.Process(args, resp)]: the result is
    assigned to the response, and there is never an error. *)
Definition Processor : Type := ProcessorArgs → res pbExecution.
Definition ProcessorServer_Process (P : Processor) (args : ProcessorArgs) (resp : pbExecution) :
    res unit * pbExecution :=
  match P args with
  | Ok e => (Ok tt, e)
  | Err e => (Err e, resp)
  | Crash w => (Crash w, resp)
  end.

(** The zero value of [types.Execution]. *)
Definition zero_Execution : pbExecution := mkpbExecution "" false "" "" 0 0 None None.

(** [ProcessorClient.Process(args)]: [call_error] is the error of the transport; every
    error of the call, and the death of the plugin is one, is a panic. *)
Definition ProcessorClient_Process (call_error : option error) (P : Processor) (args : ProcessorArgs) :
    res pbExecution :=
  match call_error with
  | Some err => Crash (Error err)
  | None =>
      match ProcessorServer_Process P args zero_Execution with
      | (Ok _, resp) => Ok resp
      | (Err err, _) => Crash (Error err)
      | (Crash _, _) => Crash "unexpected EOF"
      end
  end.

Lemma ProcessorClient_Process_ok P args e :
  P args = Ok e → ProcessorClient_Process None P args = Ok e.
Proof. unfold ProcessorClient_Process, ProcessorServer_Process. by intros ->. Qed.

(** ** Making plugins *)

Definition ProcessorPluginName : string := "processor".
Definition ExecutorPluginName : string := "executor".

(** [Handshake] *)
Record HandshakeConfig := mkHandshake
  { ProtocolVersion : Z; MagicCookieKey : string; MagicCookieValue : string }.
Definition Handshake : HandshakeConfig :=
  mkHandshake 1 "DKRON_PLUGIN_MAGIC_COOKIE"
    "b29a76488b6f3ca7955c5f769b50641f0fcd88748d8cedecda313d516320ca19".

(** The kinds of plugins, and the maps of kinds by name: [PluginMap] of the clients,
    [pluginMap(opts)] of [Serve] for processors, and those of the executors' mains. *)
Inductive plugin_kind := KindProcessor | KindExecutor.
Definition PluginMap : gmap string plugin_kind :=
  {["processor" := KindProcessor; "executor" := KindExecutor]}.
Definition pluginMap : gmap string plugin_kind := {["processor" := KindProcessor]}.
Definition executor_main : gmap string plugin_kind := {["executor" := KindExecutor]}.

(** [plugin.Protocol] and the fields of [plugin.ClientConfig] that are set. *)
Inductive protocol := ProtocolNetRPC | ProtocolGRPC.
Record ClientConfig := mkClientConfig {
  cc_Cmd : string;
  cc_HandshakeConfig : HandshakeConfig;
  cc_Managed : bool;
  cc_Plugins : gmap string plugin_kind;
  cc_AllowedProtocols : list protocol
}.

Section Factory.
Context {H A : Type}.
(** [plugin.NewClient] with [client.Client()], and [Dispense]. *)
Variable Client : ClientConfig → res H.
Variable Dispense : H → string → res A.

(** The configuration that [pluginFactory] makes. *)
Definition plugin_config (path pluginType : string) : ClientConfig :=
  mkClientConfig path Handshake true PluginMap
    (if bool_decide (pluginType = ProcessorPluginName) then [ProtocolNetRPC]
     else if bool_decide (pluginType = ExecutorPluginName) then [ProtocolGRPC]
     else []).

(** [pluginFactory(path, pluginType)] *)
Definition pluginFactory (path pluginType : string) : res A :=
  rpcClient <-? Client (plugin_config path pluginType) ;;
  Dispense rpcClient pluginType.
End Factory.

(** ** Examples *)
Module PluginExample.

(** A broker that connects. *)
#[local] Instance ToyBroker : Broker.
Proof.
  refine {| NextId := 1; broker_Dial id := None; served id := true; lost b c := None;
            marshal_nil := ErrOther "rpc error: code = Internal desc = grpc: error while marshaling: proto: Marshal called with nil";
            unavailable := ErrOther "rpc error: code = Unavailable desc = transport is closing" |}.
  done.
Defined.

(** An executor that reports twice. *)
Definition chatty (req : ExecuteRequest) : ExecScript :=
  mkExecScript ["a"; "b"] (λ bs, if bool_decide (bs = [true; true])
    then (Some (mkExecuteResponse ("ab" +:+ req.(EReq_JobName)) ""), None) else (None, None)).
Definition args0 : ExecuteRequest := mkExecuteRequest "job" ∅ 0.


(** A response that is missing is an error for the agent, not a nil it would dereference. *)
Example missing_response :
  ∃ e, (ExecutorClient_Execute (λ _, Return None None) args0 statusAgentHelper_Update
          (zero_Execution, mkRunner [] [] ∅ [])).1 = Ok (None, Some e).
Proof. by eexists. Qed.
End PluginExample.
