(* ===== verification/Logging.v ===== *)
(** * Logs: [dkron/log.go] and [dkron/hclog_adapter.go]

    The logger of the agent, and the adaptor through which hashicorp's libraries (plugins and
    raft) write to it.  Logrus is a parameter: entries with their fields, the level of their
    logger, and the lines that they print. *)
From Stdlib Require Import ZArith Lia Ascii.
From stdpp Require Import base list gmap strings pretty.
From S2P Require Import Prelude GoStrings.

#[local] Open Scope Z_scope.

(** [logrus.Level] *)
Inductive Level := PanicLevel | FatalLevel | ErrorLevel | WarnLevel | InfoLevel | DebugLevel | TraceLevel.
#[export] Instance Level_eq_dec : EqDecision Level.
Proof. solve_decision. Defined.
Definition level_num (l : Level) : Z :=
  match l with
  | PanicLevel => 0 | FatalLevel => 1 | ErrorLevel => 2 | WarnLevel => 3 | InfoLevel => 4
  | DebugLevel => 5 | TraceLevel => 6
  end.

(** An [interface{}]: a string, or a value of another type. *)
Inductive any := AString (s : string) | AOther (type : string) (value : Z).
#[export] Instance any_eq_dec : EqDecision any.
Proof. solve_decision. Defined.

(** A line of the log. *)
Record line := mkLine { ln_level : Level; ln_msg : string; ln_fields : gmap string any }.

(** [logrus]: an entry holds fields and belongs to a logger with a level; its own level is
    set when it is printed, and is zero before.  A message is printed when its level is at
    most that of the logger. *)
Class Logrus := {
  Entry : Type;
  NewEntry : Level → Entry;
  WithFields : gmap string any → Entry → Entry;
  Data : Entry → gmap string any;
  Entry_Level : Entry → Level;
  Logger_Level : Entry → Level;
  print : Level → string → Entry → list line;
  ParseLevel : string → res Level;
  Data_NewEntry l : Data (NewEntry l) = ∅;
  Logger_Level_NewEntry l : Logger_Level (NewEntry l) = l;
  Data_WithFields f e : Data (WithFields f e) = f ∪ Data e;
  Logger_Level_WithFields f e : Logger_Level (WithFields f e) = Logger_Level e;
  Entry_Level_WithFields f e : Entry_Level (WithFields f e) = PanicLevel;
  print_spec l msg e : print l msg e =
    if level_num l <=? level_num (Logger_Level e) then [mkLine l msg (Data e)] else []
}.

Section Logging.
Context {LR : Logrus}.

(** ** The logger of the agent *)

(** What [InitLogger] leaves: [log], and gin in debug mode, which writes to [log], or in
    release mode, which writes nothing. *)
Record Logs := mkLogs { lg_log : Entry; lg_gin_debug : bool }.

(** [InitLogger(logLevel, node)] *)
Definition InitLogger (logLevel node : string) : Logs :=
  let level := match ParseLevel logLevel with Ok l => l | _ => InfoLevel end in
  let log := WithFields {["node" := AString node]} (NewEntry level) in
  mkLogs log (bool_decide (level = DebugLevel)).

(** ** The adaptor *)

(** [type HCLogAdapter struct] *)
Record HCLogAdapter := mkHCLogAdapter { Logger : Entry; LoggerName : string }.

(** The loop of [CreateEntry]: keys must be strings. *)
Fixpoint add_fields (args : list any) (fields : gmap string any) : res (gmap string any) :=
  match args with
  | [] => Ok fields
  | AString k :: v :: args' => add_fields args' (<[k := v]> fields)
  | AOther t _ :: _ => Crash ("interface conversion: interface {} is " +:+ t +:+ ", not string")
  | [AString _] => Crash "index out of range"
  end.

(** [CreateEntry(args)] *)
Definition CreateEntry (args : list any) (a : HCLogAdapter) : res Entry :=
  let args := if Nat.even (length args) then args else args ++ [AString "<unknown>"] in
  fields <-? add_fields args ∅ ;;
  Ok (WithFields fields a.(Logger)).

(** [Log], [Trace], [Debug], [Info], [Warn] and [Error]: the lines that are printed. *)
Definition log_at (l : Level) (msg : string) (args : list any) (a : HCLogAdapter) : res (list line) :=
  e <-? CreateEntry args a ;; Ok (print l msg e).
Definition Log (msg : string) (args : list any) (a : HCLogAdapter) : res (list line) := Ok [].
Definition Trace (msg : string) (args : list any) (a : HCLogAdapter) : res (list line) := Ok [].
Definition Debug := log_at DebugLevel.
Definition Info := log_at InfoLevel.
Definition Warn := log_at WarnLevel.
Definition Error_ := log_at ErrorLevel.

(** [shouldEmit(level)] and the checks that use it. *)
Definition shouldEmit (l : Level) (a : HCLogAdapter) : bool :=
  let currentLevel := Entry_Level (WithFields ∅ a.(Logger)) in
  level_num l <=? level_num currentLevel.
Definition IsTrace (a : HCLogAdapter) : bool := false.
Definition IsDebug := shouldEmit DebugLevel.
Definition IsInfo := shouldEmit InfoLevel.
Definition IsWarn := shouldEmit WarnLevel.
Definition IsError := shouldEmit ErrorLevel.

(** [With(args)], [Name()], [ResetNamed(name)] and [Named(name)] *)
Definition With (args : list any) (a : HCLogAdapter) : res HCLogAdapter :=
  e <-? CreateEntry args a ;; Ok (mkHCLogAdapter e "").
Definition Name (a : HCLogAdapter) : string := a.(LoggerName).
Definition ResetNamed (name : string) (a : HCLogAdapter) : res HCLogAdapter :=
  e <-? CreateEntry [AString "subsystem_name"; AString name] a ;; Ok (mkHCLogAdapter e name).
Definition Named (name : string) (a : HCLogAdapter) : res HCLogAdapter :=
  let newName := (if bool_decide (a.(LoggerName) ≠ "") then Name a +:+ "." else "") +:+ name in
  ResetNamed newName a.

(** [StandardWriter], [ImpliedArgs] and [StandardLogger]: a nil writer, no arguments, and
    a logger whose lines are printed at the level of information. *)
Definition StandardWriter (a : HCLogAdapter) : option unit := None.
Definition ImpliedArgs (a : HCLogAdapter) : list any := [].
Definition StandardLogger (a : HCLogAdapter) : string → list line :=
  λ msg, print InfoLevel msg (WithFields ∅ a.(Logger)).

(** The logger that [pluginFactory] gives to the client of a plugin. *)
Definition plugin_logger (logLevel node : string) : HCLogAdapter :=
  mkHCLogAdapter (InitLogger logLevel node).(lg_log) "plugins".

(** ** What reaches the log *)

Lemma ResetNamed_run name a :
  ResetNamed name a
  = Ok (mkHCLogAdapter (WithFields {["subsystem_name" := AString name]} a.(Logger)) name).
Proof. done. Qed.

(** Sub-loggers of sub-loggers. *)
Fixpoint Named_all (names : list string) (a : HCLogAdapter) : res HCLogAdapter :=
  match names with
  | [] => Ok a
  | n :: names' => a' <-? Named n a ;; Named_all names' a'
  end.

Lemma app_empty (s t : string) : s +:+ t = "" → s = "" ∧ t = "".
Proof. by destruct s. Qed.

Lemma Named_run n a :
  Named n a = ResetNamed (if decide (a.(LoggerName) = "") then n else a.(LoggerName) +:+ "." +:+ n) a.
Proof.
  unfold Named, Name. rewrite bool_decide_not. case_decide as H; [by rewrite bool_decide_eq_true_2|].
  rewrite bool_decide_eq_false_2 by done. simpl. by autorewrite with gostr.
Qed.

(** The adaptor at the end of a chain of names. *)
Lemma Named_all_spec names a :
  Forall (λ n, n ≠ "") names → names ≠ [] →
  let path := Join (if decide (a.(LoggerName) = "") then names else a.(LoggerName) :: names) "." in
  ∃ a', Named_all names a = Ok a' ∧ Name a' = path ∧
    Logger_Level a'.(Logger) = Logger_Level a.(Logger) ∧
    Data a'.(Logger) = <["subsystem_name" := AString path]> (Data a.(Logger)).
Proof.
  revert a. induction names as [|n names IH]; intros a HF Hne; [done|]. apply Forall_cons in HF as [Hn HF].
  cbn [Named_all]. rewrite Named_run, ResetNamed_run. cbn [res_bind].
  set (name := if decide (LoggerName a = "") then n else _).
  set (a1 := mkHCLogAdapter _ name).
  assert (name ≠ "") as Hname by (unfold name; case_decide; [done|]; by intros [? _]%app_empty).
  assert (Data a1.(Logger) = <["subsystem_name" := AString name]> (Data a.(Logger))) as HD.
  { simpl. by rewrite Data_WithFields, insert_union_singleton_l. }
  assert (Logger_Level a1.(Logger) = Logger_Level a.(Logger)) as HL by (simpl; apply Logger_Level_WithFields).
  assert (∀ l, Join (name :: l) "." = Join (if decide (LoggerName a = "") then n :: l else LoggerName a :: n :: l) ".")
    as Hj.
  { intros l. unfold name. case_decide; [done|]. destruct l as [|m l]; simpl; [done|].
    by autorewrite with gostr. }
  destruct names as [|m names].
  { exists a1. split_and!; [done| |done|]; rewrite <- Hj; done. }
  destruct (IH a1 HF ltac:(done)) as (a' & E & Hp & Hl & Hd).
  change (LoggerName a1) with name in *. rewrite decide_False in Hp, Hd by exact Hname.
  exists a'. rewrite Hp, Hl, Hd, HL, HD, insert_insert_eq. by rewrite <- Hj.
Qed.

(** Keys that are strings make fields, and the last value of a key stays. *)
Lemma add_fields_spec kvs fields :
  add_fields (concat ((λ kv, [AString kv.1; kv.2]) <$> kvs)) fields
  = Ok (foldl (λ m kv, <[kv.1 := kv.2]> m) fields kvs).
Proof. revert fields. induction kvs as [|[k v] kvs IH]; intros fields; [done|]. apply IH. Qed.

Lemma log_args_even (kvs : list (string * any)) :
  Nat.even (length (concat ((λ kv, [AString kv.1; kv.2]) <$> kvs))) = true.
Proof. by induction kvs. Qed.

Lemma log_at_spec l msg kvs a :
  log_at l msg (concat ((λ kv, [AString kv.1; kv.2]) <$> kvs)) a
  = Ok (if level_num l <=? level_num (Logger_Level a.(Logger))
        then [mkLine l msg (foldl (λ m kv, <[kv.1 := kv.2]> m) ∅ kvs ∪ Data a.(Logger))] else []).
Proof.
  unfold log_at, CreateEntry. rewrite log_args_even, add_fields_spec. cbn [res_bind].
  by rewrite print_spec, Data_WithFields, Logger_Level_WithFields.
Qed.

(** What the plugins log.  The logger of the plugins is made for the node at the
    configured level (information when it cannot be read), and the plugin library logs
    through sub-loggers of it.  A line, with arguments that come in pairs of a string and
    a value, is printed exactly when the level allows it, and carries the node, the dotted
    path of the names as [subsystem_name] and the last value of every argument.  Still the
    checks of the adaptor say that no level is enabled, since they look at an entry that was
    never printed. *)
Theorem adaptor_lines logLevel node names l msg kvs :
  Forall (λ n, n ≠ "") names → names ≠ [] →
  let level := match ParseLevel logLevel with Ok v => v | _ => InfoLevel end in
  let fields := foldl (λ m kv, <[kv.1 := kv.2]> m) ∅ kvs in
  let path := Join ("plugins" :: names) "." in
  ∃ a, Named_all names (plugin_logger logLevel node) = Ok a ∧ Name a = path ∧
    log_at l msg (concat ((λ kv, [AString kv.1; kv.2]) <$> kvs)) a
    = Ok (if level_num l <=? level_num level
          then [mkLine l msg (fields ∪ {["subsystem_name" := AString path; "node" := AString node]})]
          else []) ∧
    IsDebug a = false ∧ IsInfo a = false ∧ IsWarn a = false ∧ IsError a = false.
Proof.
  intros HF Hne level fields path.
  destruct (Named_all_spec names (plugin_logger logLevel node) HF Hne) as (a & E & Hp & Hl & Hd).
  cbn [LoggerName Logger plugin_logger] in *. rewrite decide_False in Hp, Hd by done.
  exists a. split; [done|]. split; [done|]. split.
  - rewrite log_at_spec, Hl, Hd. unfold InitLogger. cbn [lg_log].
    rewrite Logger_Level_WithFields, Logger_Level_NewEntry, Data_WithFields, Data_NewEntry.
    by rewrite (right_id_L ∅ (∪)).
  - unfold IsDebug, IsInfo, IsWarn, IsError, shouldEmit. by rewrite Entry_Level_WithFields.
Qed.

(** A key that is not a string brings the process down. *)
Lemma key_panics t v args a : ∃ w, CreateEntry (AOther t v :: args) a = Crash w.
Proof. unfold CreateEntry. destruct (Nat.even _); by eexists. Qed.
End Logging.

(** ** Examples *)
Module LoggingExample.

(** Entries with their logger's level, their own level and their fields. *)
#[local] Program Instance ToyLogrus : Logrus := {|
  Entry := Level * Level * gmap string any;
  NewEntry l := (l, PanicLevel, ∅);
  WithFields f e := (e.1.1, PanicLevel, f ∪ e.2);
  Data e := e.2;
  Entry_Level e := e.1.2;
  Logger_Level e := e.1.1;
  print l msg e := if level_num l <=? level_num e.1.1 then [mkLine l msg e.2] else [];
  ParseLevel s := if bool_decide (s = "debug") then Ok DebugLevel
                  else Err (ErrOther ("not a valid logrus Level: " +:+ s))
|}.
Solve Obligations with done.

Lemma adaptor_lines_witness : ∃ a,
  Named_all ["dkron-executor-shell"; "stdio"] (plugin_logger "debug" "node1") = Ok a ∧
  Name a = "plugins.dkron-executor-shell.stdio" ∧
  Debug "started" [AString "pid"; AOther "int" 7] a
  = Ok [mkLine DebugLevel "started" {["pid" := AOther "int" 7;
          "subsystem_name" := AString "plugins.dkron-executor-shell.stdio"; "node" := AString "node1"]}].
Proof.
  destruct (adaptor_lines "debug" "node1" ["dkron-executor-shell"; "stdio"] DebugLevel "started"
    [("pid", AOther "int" 7)]) as (a & E & Hn & Hl & _).
  - repeat constructor; discriminate.
  - discriminate.
  - exists a. split; [exact E|]. split; [exact Hn|]. etransitivity; [exact Hl|].
    vm_compute. reflexivity.
Defined.

(** [With] forgets the name of the logger, not the field. *)
Example with_forgets_name : ∃ a,
  (a1 <-? Named "raft" (plugin_logger "x" "node1") ;; With [AString "peer"] a1) = Ok a ∧
  Name a = "" ∧ Data a.(Logger) !! "subsystem_name" = Some (AString "plugins.raft") ∧
  Data a.(Logger) !! "peer" = Some (AString "<unknown>").
Proof. eexists. split; [reflexivity|]. vm_compute. done. Qed.
End LoggingExample.
