(* ===== verification/Setup.v ===== *)
(** * Starting an agent: [setupSerf] and [setupRaft] of [dkron/agent.go]

    What a configuration makes of serf and raft: the addresses, tags and key of the serf
    node, and the steps that bring up raft, recovery and bootstrap included.  Opening
    stores, recovering and bootstrapping are calls of hashicorp/raft and are recorded;
    their errors are parameters. *)
From Stdlib Require Import ZArith Lia Ascii.
From stdpp Require Import base list gmap strings pretty.
From S2P Require Import Prelude GoStrings GoNet GoDuration Base64 Config Cluster.

#[local] Open Scope Z_scope.

(** ** Serf *)

(** [EncryptBytes()] *)
Definition EncryptBytes (c : Config) : res string := DecodeString c.(EncryptKey).

(** The default configurations of memberlist, by name. *)
Inductive profile := LAN | WAN | Local.

(** The fields of [serf.Config] that are set from the configuration. *)
Record SerfConfig := mkSerfConfig {
  sf_Profile : profile;
  sf_BindAddr : string;
  sf_BindPort : Z;
  sf_AdvertiseAddr : string;
  sf_AdvertisePort : Z;
  sf_SecretKey : string;
  sf_NodeName : string;
  sf_Tags : gmap string string;
  sf_ReconnectTimeout : Z
}.

Section Serf.
Context {RS : Resolver}.
(** The error of [serf.Create] and the version of the program. *)
Variable serf_Create : SerfConfig → option error.
Variable Version : string.

(** An error with a text before it. *)
Definition prefixed {A} (prefix : string) (r : res A) : res A :=
  match r with
  | Err e => Err (ErrOther (prefix +:+ Error e))
  | _ => r
  end.

(** [setupSerf()]: the configuration that serf was created with; [None] when an address is
    never decided; an error of the duration ends the process. *)
Definition setupSerf (fuel : nat) (c : Config) : option (res SerfConfig) :=
  match AddrParts_fuel fuel c.(BindAddr) with
  | None => None
  | Some bind =>
      match prefixed "invalid bind address: " bind with
      | Err e => Some (Err e)
      | Crash w => Some (Crash w)
      | Ok (bindIP, bindPort) =>
          match (if bool_decide (c.(AdvertiseAddr) ≠ "")
                 then AddrParts_fuel fuel c.(AdvertiseAddr) else Some (Ok ("", 0))) with
          | None => None
          | Some adv => Some (
              adv <-? prefixed "invalid advertise address: " adv ;;
              let '(advertiseIP, advertisePort) := (adv : string * Z) in
              encryptKey <-? prefixed "invalid encryption key: " (EncryptBytes c) ;;
              prof <-? (if bool_decide (c.(Profile) = "lan") then Ok LAN
                        else if bool_decide (c.(Profile) = "wan") then Ok WAN
                        else if bool_decide (c.(Profile) = "local") then Ok Local
                        else Err (ErrOther ("unknown profile: " +:+ c.(Profile)))) ;;
              timeout <-? match ParseDuration c.(SerfReconnectTimeout) with
                          | Err e => Crash (Error e)
                          | r => r
                          end ;;
              let serfConfig :=
                mkSerfConfig prof bindIP bindPort advertiseIP advertisePort encryptKey
                  c.(NodeName) (serf_tags Version c) timeout in
              match serf_Create serfConfig with
              | Some err => Err err
              | None => Ok serfConfig
              end)
          end
      end
  end.
End Serf.

(** ** Raft *)

(** The calls that change the raft state of a server. *)
Inductive raft_effect :=
  | RecoverCluster (servers : list RaftServer)
  | RemovePeersFile
  | BootstrapCluster (servers : list RaftServer)
  | NewRaft (heartbeat election lease : Z).

(** What hashicorp/raft and the disk answer.  [recover] is the outcome of
    [raft.RecoverCluster] given what the state machine does with a snapshot or an entry
    that is replayed on it. *)
Class RaftFiles := {
  NewFileSnapshotStore : string → option error;
  NewBoltStore : string → option error;
  NewLogCache : option error;
  peers_exist : string → bool;
  ReadConfigJSON : string → res (list RaftServer);
  recover : res unit → res unit;
  remove_error : option error;
  HasExistingState : res bool;
  bootstrap_error : option error;
  NewRaft_error : option error;
  LocalAddr : string;
  HeartbeatTimeout : Z;
  ElectionTimeout : Z;
  LeaderLeaseTimeout : Z
}.

Section Raft.
Context {FS : RaftFiles}.

(** [path/filepath] on Unix: [Clean] drops empty and dot elements and resolves dot-dot
    ones; [Join] cleans what it joins. *)
Fixpoint clean_elements (rooted : bool) (elems out : list string) : list string :=
  match elems with
  | [] => rev out
  | e :: elems' =>
      if bool_decide (e = "" ∨ e = ".") then clean_elements rooted elems' out
      else if bool_decide (e = "..") then
        match out with
        | top :: out' =>
            if bool_decide (top = "..") then clean_elements rooted elems' (e :: out)
            else clean_elements rooted elems' out'
        | [] => clean_elements rooted elems' (if rooted then [] else [e])
        end
      else clean_elements rooted elems' (e :: out)
  end.
Definition filepath_Clean (path : string) : string :=
  let rooted := HasPrefix path "/" in
  let body := Join (clean_elements rooted (Split "/" path) []) "/" in
  if rooted then "/" +:+ body else if bool_decide (body = "") then "." else body.
Fixpoint filepath_Join (elems : list string) : string :=
  match elems with
  | [] => ""
  | e :: elems' => if bool_decide (e = "") then filepath_Join elems'
                   else filepath_Clean (Join elems "/")
  end.

Example joined_paths :
  filepath_Join ["/var//dkron/."; "raft"; "raft.db"] = "/var/dkron/raft/raft.db" ∧
  filepath_Join [""; "raft"] = "raft" ∧ filepath_Join ["../a/../b"; "raft"] = "../b/raft" ∧
  filepath_Join ["/.."; "raft"] = "/raft".
Proof. vm_compute. done. Qed.

(** [fmt.Errorf(prefix + "%s", err)] of a failed call. *)
Definition check (prefix : option string) (e : option error) : res unit :=
  match e, prefix with
  | None, _ => Ok tt
  | Some err, Some prefix => Err (ErrOther (prefix +:+ Error err))
  | Some err, None => Err err
  end.

(** A call that is recorded, whether or not it fails. *)
Definition raft_do (f : raft_effect) (r : res unit) : M (list raft_effect) unit := λ l,
  (r, l ++ [f]).

(** [newFSM(nil, nil)]: its store is nil, so that restoring a snapshot or applying an
    entry panics. *)
Definition tmpFsm : res unit := Crash "nil pointer dereference".

(** Recovery from [peers.json], on disk only. *)
Definition recover_raft (DataDir : string) : M (list raft_effect) unit :=
  let peersFile := filepath_Join [DataDir; "raft"; "peers.json"] in
  if peers_exist peersFile then
    configuration <- liftM (prefixed "recovery failed to parse peers.json: "
                              (ReadConfigJSON peersFile)) ;;
    raft_do (RecoverCluster configuration) (prefixed "recovery failed: " (recover tmpFsm)) ;;;
    raft_do RemovePeersFile
      (check (Some ("recovery failed to delete peers.json, please delete manually "
                      +:+ "(see peers.info for details): ")) remove_error)
  else retM tt.

Definition open_stores (DataDir : string) : M (list raft_effect) unit :=
  liftM (check (Some "file snapshot store: ")
           (NewFileSnapshotStore (filepath_Join [DataDir; "raft"]))) ;;;
  liftM (check (Some "error creating new raft store: ")
           (NewBoltStore (filepath_Join [DataDir; "raft"; "raft.db"]))) ;;;
  liftM (check None NewLogCache) ;;;
  recover_raft DataDir.

(** The single server that a bootstrap starts with. *)
Definition self_server (c : Config) : RaftServer := mkRaftServer c.(NodeName) LocalAddr Voter.

(** A server that expects only itself bootstraps. *)
Definition expect_one (c : Config) : Config :=
  if (0 <? c.(BootstrapExpect)) && (c.(BootstrapExpect) =? 1) then set_Bootstrap true c else c.

(** [setupRaft()]: the configuration afterwards. *)
Definition setupRaft (c : Config) : M (list raft_effect) Config :=
  let c := expect_one c in
  let m := c.(RaftMultiplier) in
  if (m <? 1) || (10 <? m)
  then errM (ErrOther ("raft-multiplier cannot be " +:+ pretty m
                         +:+ ". Must be between 1 and 10"))
  else
    (if c.(DevMode) then retM tt else open_stores c.(DataDir)) ;;;
    (if c.(Bootstrap) || c.(DevMode) then
       hasState <- liftM HasExistingState ;;
       if negb hasState then raft_do (BootstrapCluster [self_server c]) (check None bootstrap_error)
       else retM tt
     else retM tt) ;;;
    raft_do (NewRaft (HeartbeatTimeout * m) (ElectionTimeout * m) (LeaderLeaseTimeout * m))
      (check (Some "new raft: ") NewRaft_error) ;;;
    retM c.

(** The steps before the bootstrap do not bootstrap. *)
Definition no_bootstrap (l : list raft_effect) : Prop :=
  Forall (λ f, match f with BootstrapCluster _ | NewRaft _ _ _ => False | _ => True end) l.

(** A part that only adds such steps to the record. *)
Definition quiet {A} (m : M (list raft_effect) A) : Prop :=
  ∀ l x l', m l = (x, l') → ∃ fs, l' = l ++ fs ∧ no_bootstrap fs.

Lemma quiet_lift {A} (r : res A) : quiet (liftM r).
Proof.
  intros l x l' [= <- <-]. exists []. rewrite (right_id_L [] (++)). split; [done|constructor].
Qed.

Lemma quiet_do f r : no_bootstrap [f] → quiet (raft_do f r).
Proof. intros Hf l x l' [= <- <-]. by exists [f]. Qed.

Lemma quiet_bind {A B} (m : M (list raft_effect) A) (k : A → M (list raft_effect) B) :
  quiet m → (∀ a, quiet (k a)) → quiet (bindM m k).
Proof.
  intros Hm Hk l x l'. unfold bindM. destruct (m l) as [r l1] eqn:E.
  destruct (Hm _ _ _ E) as (fs & -> & Hfs).
  destruct r as [a|e|w]; [|intros [= <- <-]; by exists fs..].
  intros (fs' & -> & Hfs')%Hk. exists (fs ++ fs'). rewrite <- (assoc_L (++)). split; [done|].
  by apply Forall_app.
Qed.

Lemma open_stores_effects dir l x l' :
  open_stores dir l = (x, l') → ∃ fs, l' = l ++ fs ∧ no_bootstrap fs.
Proof.
  revert l x l'. change (quiet (open_stores dir)). unfold open_stores, recover_raft.
  repeat (apply quiet_bind; [apply quiet_lift|intros _]).
  destruct (peers_exist _); [|apply (quiet_lift (Ok tt))].
  apply quiet_bind; [apply quiet_lift|intros servers].
  apply quiet_bind; [|intros _]; apply quiet_do; by repeat constructor.
Qed.

(** The configuration that [setupRaft] leaves. *)
Lemma setupRaft_config c l c' l' : setupRaft c l = (Ok c', l') → c' = expect_one c.
Proof.
  unfold setupRaft. destruct (_ || _); [done|].
  intros (u & l1 & _ & H)%bindM_Ok. apply bindM_Ok in H as (u2 & l2 & _ & H).
  by apply bindM_Ok in H as (u3 & l3 & _ & [= <- _]).
Qed.

(** Bringing up raft.  A server that starts raft has timeouts scaled by a multiplier from
    1 to 10, and it bootstraps a cluster, of itself alone, exactly when it is configured to
    (or runs in development mode, or expects one server) and has no raft state; what was
    there before is never bootstrapped over. *)
Theorem setupRaft_spec c l c' l' :
  setupRaft c l = (Ok c', l') →
  c' = expect_one c ∧ 1 ≤ c.(RaftMultiplier) ≤ 10 ∧
  ∃ opened, no_bootstrap opened ∧
    l' = l ++ opened
      ++ (if bool_decide (((expect_one c).(Bootstrap) = true ∨ c.(DevMode) = true) ∧
                          HasExistingState = Ok false)
          then [BootstrapCluster [self_server c]] else [])
      ++ [NewRaft (HeartbeatTimeout * c.(RaftMultiplier)) (ElectionTimeout * c.(RaftMultiplier))
            (LeaderLeaseTimeout * c.(RaftMultiplier))].
Proof.
  unfold setupRaft.
  assert (RaftMultiplier (expect_one c) = RaftMultiplier c ∧ DevMode (expect_one c) = DevMode c ∧
    DataDir (expect_one c) = DataDir c ∧ self_server (expect_one c) = self_server c)
    as (-> & -> & -> & ->) by (unfold expect_one; by destruct (_ && _)).
  destruct (_ || _) eqn:Hm; [done|]. apply orb_false_iff in Hm as [H1%Z.ltb_ge H2%Z.ltb_ge].
  intros (u & l1 & Ho & H)%bindM_Ok.
  assert (∃ fs, l1 = l ++ fs ∧ no_bootstrap fs) as (opened & -> & Hno).
  { destruct (DevMode c); [|by eapply open_stores_effects].
    injection Ho as _ <-. exists []. rewrite (right_id_L [] (++)). split; [done|constructor]. }
  apply bindM_Ok in H as (u2 & l2 & Hb & H).
  apply bindM_Ok in H as (u3 & l3 & Hn & [= <- <-]). unfold raft_do in Hn.
  destruct NewRaft_error; [done|]. injection Hn as _ <-.
  split; [done|]. split; [lia|]. exists opened. split; [done|].
  assert (l2 = (l ++ opened) ++ if bool_decide (((expect_one c).(Bootstrap) = true ∨
    c.(DevMode) = true) ∧ HasExistingState = Ok false) then [BootstrapCluster [self_server c]]
    else []) as ->; [|by rewrite <- !(assoc_L (++))].
  destruct (Bootstrap (expect_one c) || DevMode c) eqn:Hbd.
  - apply bindM_Ok in Hb as (has & l4 & [= Hhas <-] & Hb). destruct has; cbn [negb] in Hb.
    + injection Hb as _ <-. rewrite Hhas, bool_decide_eq_false_2 by naive_solver.
      by rewrite (right_id_L [] (++)).
    + unfold raft_do in Hb. destruct bootstrap_error; [done|]. injection Hb as _ <-.
      rewrite bool_decide_eq_true_2; [done|]. apply orb_true_iff in Hbd. done.
  - injection Hb as _ <-. apply orb_false_iff in Hbd as [-> ->].
    rewrite bool_decide_eq_false_2 by naive_solver. by rewrite (right_id_L [] (++)).
Qed.
End Raft.

(** ** Examples *)
Module SetupExample.

(** A clean disk, and one with a [peers.json] and a log to replay. *)
Definition files (recovering : bool) : RaftFiles := {|
  NewFileSnapshotStore d := None;
  NewBoltStore f := None;
  NewLogCache := None;
  peers_exist f := recovering;
  ReadConfigJSON f := Ok [];
  recover entry := if recovering then entry else Ok tt;
  remove_error := None;
  HasExistingState := Ok false;
  bootstrap_error := None;
  NewRaft_error := None;
  LocalAddr := "10.0.0.1:6868";
  HeartbeatTimeout := 1000;
  ElectionTimeout := 1000;
  LeaderLeaseTimeout := 500
|}.
#[local] Instance CleanFiles : RaftFiles := files false.

(** A server that expects one server. *)
Definition single (multiplier : Z) : Config :=
  mkConfig "node1" "" "" "lan" "" ∅ true "" [] [] 0 0 6868 0 "info" "dc1" "global"
    false 1 "dkron.data" false 0 multiplier "" 0 "" "" "" "" "" "" "" [] "" [] "" "24h" false.

Lemma setupRaft_spec_witness : ∃ c' l',
  setupRaft (single 5) [] = (Ok c', l') ∧ c'.(Bootstrap) = true ∧
  l' = [BootstrapCluster [mkRaftServer "node1" "10.0.0.1:6868" Voter]; NewRaft 5000 5000 2500].
Proof.
  destruct (setupRaft (single 5) []) as [r l'] eqn:E.
  destruct r as [c'|e|w]; [|vm_compute in E; discriminate E..].
  destruct (setupRaft_spec (single 5) [] c' l' E) as (-> & _ & opened & _ & _).
  eexists _, l'. split; [reflexivity|]. split; [vm_compute; reflexivity|].
  apply (f_equal snd) in E. vm_compute in E. symmetry. exact E.
Defined.

(** A recovery that has entries to replay crashes: the state machine has no store. *)
Example recovery_crashes : (setupRaft (FS:=files true) (single 1) []).1 =
  Crash "nil pointer dereference".
Proof. vm_compute. reflexivity. Qed.

(** The multiplier 0, which the flag documents as the default timing, is refused. *)
Example multiplier_zero : (setupRaft (single 0) []).1 =
  Err (ErrOther "raft-multiplier cannot be 0. Must be between 1 and 10").
Proof. vm_compute. reflexivity. Qed.
End SetupExample.
