(* ===== verification/RaftLayer.v ===== *)
(** * [dkron/raft_grpc.go]: the layer that raft's connections go through

    Raft listens on the connections that the mux of the agent hands to it, and dials other
    servers with or without TLS.  Connections, listeners and dialling are those of [net] and
    [crypto/tls]. *)
From Stdlib Require Import ZArith Lia.
From stdpp Require Import base list strings.
From S2P Require Import Prelude.

#[local] Open Scope Z_scope.

(** [net] and [crypto/tls] *)
Class Net := {
  Conn : Type;
  Listener : Type;
  TLS : Type;
  dialer_Dial : Z → string → res Conn;
  tls_DialWithDialer : Z → string → TLS → res Conn;
  listener_Accept : Listener → res Conn;
  listener_Close : Listener → res unit;
  listener_Addr : Listener → string
}.

Section RaftLayer.
Context {NE : Net}.

(** [type RaftLayer struct] *)
Record RaftLayer := mkRaftLayer { TLSConfig : option TLS; ln : option Listener }.

(** [NewRaftLayer()] and [NewTLSRaftLayer(tlsConfig)] *)
Definition NewRaftLayer : RaftLayer := mkRaftLayer None None.
Definition NewTLSRaftLayer (tlsConfig : option TLS) : RaftLayer := mkRaftLayer tlsConfig None.

(** [Open(l)] *)
Definition Open (l : Listener) : M RaftLayer unit := λ t, (Ok tt, mkRaftLayer t.(TLSConfig) (Some l)).

(** [Dial(addr, timeout)] *)
Definition Dial (addr : string) (timeout : Z) (t : RaftLayer) : res Conn :=
  match t.(TLSConfig) with
  | Some tlsConfig => tls_DialWithDialer timeout addr tlsConfig
  | None => dialer_Dial timeout addr
  end.

(** [Accept()], [Close()] and [Addr()]: the listener is nil before [Open]. *)
Definition with_listener {A} (f : Listener → res A) (t : RaftLayer) : res A :=
  match t.(ln) with
  | Some l => f l
  | None => Crash "nil pointer dereference"
  end.
Definition Accept : RaftLayer → res Conn := with_listener listener_Accept.
Definition Close : RaftLayer → res unit := with_listener listener_Close.
Definition Addr : RaftLayer → res string := with_listener (λ l, Ok (listener_Addr l)).

(** The part of [StartServer] that makes the layer: encrypted when the agent is. *)
Definition agent_layer (tlsConfig : option TLS) (raftl : Listener) : RaftLayer :=
  (Open raftl (match tlsConfig with Some _ => NewTLSRaftLayer tlsConfig | None => NewRaftLayer end)).2.

(** The layer of an agent listens on what the mux gives it, and every connection that it
    dials is encrypted exactly when the agent has a TLS configuration, with that
    configuration; a layer that was not opened cannot be used. *)
Lemma agent_layer_spec tlsConfig raftl addr timeout :
  let t := agent_layer tlsConfig raftl in
  Accept t = listener_Accept raftl ∧ Close t = listener_Close raftl ∧ Addr t = Ok (listener_Addr raftl) ∧
  Dial addr timeout t = match tlsConfig with
                        | Some c => tls_DialWithDialer timeout addr c
                        | None => dialer_Dial timeout addr
                        end ∧
  Accept (NewTLSRaftLayer tlsConfig) = Crash "nil pointer dereference".
Proof. by destruct tlsConfig. Qed.
End RaftLayer.
