(* ===== verification/Lifecycle.v ===== *)
(** * The life of an agent: [Start], [StartServer] and [Stop] of [dkron/agent.go]

    What an agent does between its creation and its end, with [options.go] and
    [metrics.go]: serf is created and joined, the metrics and the listener are set up, a
    server brings up its store, scheduler, HTTP interface, gRPC server and raft, and the
    tags that make it known are published.  Every call to the outside is recorded in the
    order in which it is made; the outcomes of these calls are parameters.  [Start] may
    also block: while an address is never decided, while the cluster is not joined, and when
    joining failed, because the error goes to a channel that nobody reads before [Start] has
    returned. *)
From Stdlib Require Import ZArith Lia Ascii.
From stdpp Require Import base list gmap strings pretty.
From S2P Require Import Prelude GoStrings GoNet GoTime GoDuration Base64 Config Pb NTime ExtCron Execution Job.
From S2P Require Import BuntDB Store Instances Scheduler Fsm Cluster ClusterProps Leader LeaderReconcile Targets.
From S2P Require Import Notifier Server Stream RetryJoin Api Setup.

#[local] Open Scope Z_scope.

(** ** Metrics *)

(** The sinks of [initMetrics]. *)
Inductive sink :=
  | PrometheusSink
  | StatsdSink (addr : string)
  | DogStatsdSink (addr hostname : string) (tags : list string)
  | InmemSink.

(** The calls that are recorded. *)
Inductive effect :=
  | SerfCreate (sc : SerfConfig)
  | SerfJoin (addrs : list string) (ignoreOld : bool)
  | MetricsGlobal (sinks : list sink)
  | Listen (addr : string)
  | ServeHTTP (addr : string)
  | ServeGRPC (tls : bool) (services : list string)
  | RaftLayerOpen (tls : bool)
  | RaftStep (f : raft_effect)
  | ServeMux
  | MonitorLeadership
  | SetTags (tags : gmap string string)
  | EventLoop
  | RaftShutdown
  | StoreClose
  | SerfLeave
  | SerfShutdown.

(** What the libraries and the host answer. *)
Class Host := {
  host_resolver :: Resolver;
  host_raft :: RaftFiles;
  serf_Create : SerfConfig → option error;
  LocalAddr_IP : IP;
  Version : string;
  discover_New : option error;
  disco_Addrs : nat → string → res (list string);
  join_resolver : nat → Resolver;
  serf_Join : nat → list string → res Z;
  NewPrometheusSink : option error;
  NewStatsdSink : string → option error;
  NewDogStatsdSink : string → option error;
  net_Listen : string → option error;
  buntdb_Open : option error;
  serf_Leave : option error;
  serf_Shutdown : option error
}.

Section Lifecycle.
Context {CP : CronParser} {CE : CronEngine} {HO : Host}.

(** [initMetrics(a)]: the sinks that metrics go to. *)
Definition initMetrics (c : Config) : res (list sink) :=
  prom <-? (if c.(EnablePrometheus) then
              match NewPrometheusSink with Some e => Err e | None => Ok [PrometheusSink] end
            else Ok []) ;;
  statsd <-? (if bool_decide (c.(StatsdAddr) ≠ "") then
                match NewStatsdSink c.(StatsdAddr) with
                | Some e => Err (ErrOther ("failed to start statsd sink. Got: " +:+ Error e))
                | None => Ok [StatsdSink c.(StatsdAddr)]
                end
              else Ok []) ;;
  dog <-? (if bool_decide (c.(DogStatsdAddr) ≠ "") then
             match NewDogStatsdSink c.(DogStatsdAddr) with
             | Some e => Err (ErrOther ("failed to start DogStatsd sink. Got: " +:+ Error e))
             | None => Ok [DogStatsdSink c.(DogStatsdAddr) c.(NodeName) c.(DogStatsdTags)]
             end
           else Ok []) ;;
  Ok (prom ++ statsd ++ dog ++ [InmemSink]).

(** ** The agent *)

(** [type Agent struct], the fields that starting and stopping use, and the calls made.  A
    field that is only looked at for nil is a [bool]. *)
Record Life := mkLife {
  l_config : Config;
  l_TLSConfig : bool;
  l_Store : bool;
  l_HTTPTransport : bool;
  l_GRPCServer : bool;
  l_GRPCClient : bool;
  l_sched : option Scheduler;
  l_tags : gmap string string;
  l_ready : bool;
  l_trace : list effect
}.

(** [NewAgent(config, options...)] with [WithStore] and [WithTransportCredentials]. *)
Definition AgentOption : Type := Life → Life.
Definition WithStore : AgentOption := λ l,
  mkLife l.(l_config) l.(l_TLSConfig) true l.(l_HTTPTransport) l.(l_GRPCServer) l.(l_GRPCClient)
    l.(l_sched) l.(l_tags) l.(l_ready) l.(l_trace).
Definition WithTransportCredentials : AgentOption := λ l,
  mkLife l.(l_config) true l.(l_Store) l.(l_HTTPTransport) l.(l_GRPCServer) l.(l_GRPCClient)
    l.(l_sched) l.(l_tags) l.(l_ready) l.(l_trace).
Definition new_agent (config : Config) (options : list AgentOption) : Life :=
  foldl (λ l option, option l) (mkLife config false false false false false None ∅ false []) options.

Definition emit (f : effect) : M Life unit := λ l,
  (Ok tt, mkLife l.(l_config) l.(l_TLSConfig) l.(l_Store) l.(l_HTTPTransport) l.(l_GRPCServer)
            l.(l_GRPCClient) l.(l_sched) l.(l_tags) l.(l_ready) (l.(l_trace) ++ [f])).
Definition set_config (c : Config) : M Life unit := λ l,
  (Ok tt, mkLife c l.(l_TLSConfig) l.(l_Store) l.(l_HTTPTransport) l.(l_GRPCServer)
            l.(l_GRPCClient) l.(l_sched) l.(l_tags) l.(l_ready) l.(l_trace)).
Definition set_sched (s : option Scheduler) : M Life unit := λ l,
  (Ok tt, mkLife l.(l_config) l.(l_TLSConfig) l.(l_Store) l.(l_HTTPTransport) l.(l_GRPCServer)
            l.(l_GRPCClient) s l.(l_tags) l.(l_ready) l.(l_trace)).
Definition set_tags (t : gmap string string) : M Life unit := λ l,
  (Ok tt, mkLife l.(l_config) l.(l_TLSConfig) l.(l_Store) l.(l_HTTPTransport) l.(l_GRPCServer)
            l.(l_GRPCClient) l.(l_sched) t l.(l_ready) l.(l_trace)).
(** The components that are made when they were not given. *)
Definition make_store : M Life unit := λ l,
  (Ok tt, mkLife l.(l_config) l.(l_TLSConfig) true l.(l_HTTPTransport) l.(l_GRPCServer)
            l.(l_GRPCClient) l.(l_sched) l.(l_tags) l.(l_ready) l.(l_trace)).
Definition make_transport : M Life unit := λ l,
  (Ok tt, mkLife l.(l_config) l.(l_TLSConfig) l.(l_Store) true l.(l_GRPCServer)
            l.(l_GRPCClient) l.(l_sched) l.(l_tags) l.(l_ready) l.(l_trace)).
Definition make_server : M Life unit := λ l,
  (Ok tt, mkLife l.(l_config) l.(l_TLSConfig) l.(l_Store) l.(l_HTTPTransport) true
            l.(l_GRPCClient) l.(l_sched) l.(l_tags) l.(l_ready) l.(l_trace)).
Definition make_client : M Life unit := λ l,
  (Ok tt, mkLife l.(l_config) l.(l_TLSConfig) l.(l_Store) l.(l_HTTPTransport) l.(l_GRPCServer)
            true l.(l_sched) l.(l_tags) l.(l_ready) l.(l_trace)).
Definition set_ready : M Life unit := λ l,
  (Ok tt, mkLife l.(l_config) l.(l_TLSConfig) l.(l_Store) l.(l_HTTPTransport) l.(l_GRPCServer)
            l.(l_GRPCClient) l.(l_sched) l.(l_tags) true l.(l_trace)).

(** [log.Fatal(err)] *)
Definition fatal {A} (r : res A) : res A :=
  match r with Err e => Crash (Error e) | _ => r end.

(** [NewStore()] *)
Definition NewStore : res unit := match buntdb_Open with Some e => Err e | None => Ok tt end.

(** The calls of [setupRaft] in the record of the agent. *)
Definition on_raft_steps : M Life unit := λ l,
  let '(r, fs) := setupRaft l.(l_config) [] in
  let l' := mkLife (match r with Ok c => c | _ => expect_one l.(l_config) end) l.(l_TLSConfig)
              l.(l_Store) l.(l_HTTPTransport) l.(l_GRPCServer) l.(l_GRPCClient) l.(l_sched)
              l.(l_tags) l.(l_ready) (l.(l_trace) ++ (RaftStep <$> fs)) in
  (match r with Ok _ => Ok tt | Err e => Err e | Crash w => Crash w end, l').

(** [StartServer()]; the errors end the process.  The gRPC server serves the jobs and the
    executions in both cases, on the listener that the mux gives it. *)
Definition StartServer : M Life unit :=
  l <- getM ;;
  (if l.(l_Store) then retM tt else liftM (fatal NewStore) ;;; make_store) ;;;
  set_sched (Some NewScheduler) ;;;
  make_transport ;;;
  emit (ServeHTTP l.(l_config).(HTTPAddr)) ;;;
  make_server ;;;
  emit (ServeGRPC l.(l_TLSConfig) ["Dkron"; "Agent"]) ;;;
  emit (RaftLayerOpen l.(l_TLSConfig)) ;;;
  (λ l, let '(r, l') := on_raft_steps l in (fatal r, l')) ;;;
  emit ServeMux ;;;
  emit MonitorLeadership.

(** [bindRPCAddr()]: the errors of the split are dropped. *)
Definition bindRPCAddr (fuel : nat) (c : Config) : string :=
  let bindIP := match AddrParts_fuel fuel c.(BindAddr) with
                | Some (Ok (ip, _)) => ip
                | _ => ""
                end in
  JoinHostPort bindIP (pretty c.(RPCPort)).

(** [Start()] after the cluster was joined: metrics, the listener, the servers, the tags. *)
Definition serve (fuel : nat) : M Life unit :=
  l <- getM ;;
  sinks <- liftM (match initMetrics l.(l_config) with
                  | Err _ => Crash "agent: Can not setup metrics"
                  | r => r
                  end) ;;
  emit (MetricsGlobal sinks) ;;;
  (if l.(l_config).(AdvertiseRPCPort) <=? 0
   then set_config (set_AdvertiseRPCPort l.(l_config).(RPCPort) l.(l_config)) else retM tt) ;;;
  l <- getM ;;
  let addr := bindRPCAddr fuel l.(l_config) in
  liftM (fatal (match net_Listen addr with Some e => Err e | None => Ok tt end)) ;;;
  emit (Listen addr) ;;;
  (if l.(l_config).(Server) then StartServer else emit (ServeGRPC l.(l_TLSConfig) ["Agent"])) ;;;
  make_client ;;;
  l <- getM ;;
  let tags := start_tags LocalAddr_IP l.(l_config) l.(l_tags) in
  set_tags tags ;;;
  emit (SetTags tags) ;;;
  emit EventLoop ;;;
  set_ready.

(** How a call ends: it returns, or it blocks for ever. *)
Inductive ending := Returned (r : res unit) | Blocks.

(** Joining the cluster: [None] when it blocks. *)
Definition join_cluster (fuel : nat) (c : Config) : option (res (list effect)) :=
  match c.(RetryJoinLAN) with
  | [] => Some (Ok [SerfJoin c.(StartJoin) false])
  | _ =>
      match retryJoin discover_New disco_Addrs join_resolver serf_Join fuel (lan_joiner c) with
      | (Some (Ok _), joins) => Some (Ok ((λ addrs, SerfJoin addrs true) <$> joins))
      | (Some (Crash w), _) => Some (Crash w)
      | (Some (Err _), _) | (None, _) => None
      end
  end.

(** [Start()] *)
Definition agent_Start (fuel : nat) (l : Life) : ending * Life :=
  let '(r, c) := normalizeAddrs l.(l_config) in
  let l := (set_config c l).2 in
  match r with
  | Crash w => (Returned (Crash w), l)
  | _ =>
      match setupSerf serf_Create Version fuel c with
      | None => (Blocks, l)
      | Some (Crash w) => (Returned (Crash w), l)
      | Some (Err e) => (Returned (Err (ErrOther ("agent: Can not setup serf, " +:+ Error e))), l)
      | Some (Ok sc) =>
          let l := (set_tags sc.(sf_Tags) (emit (SerfCreate sc) l).2).2 in
          match join_cluster fuel c with
          | None => (Blocks, l)
          | Some (Err e) => (Returned (Err e), l)
          | Some (Crash w) => (Returned (Crash w), l)
          | Some (Ok joins) =>
              let l := foldl (λ l f, (emit f l).2) l joins in
              let '(r, l') := serve fuel l in (Returned r, l')
          end
      end
  end.

(** [Stop()]: the scheduler of a server is nil before it was started. *)
Definition agent_Stop : M Life unit :=
  l <- getM ;;
  (if l.(l_config).(Server) then
     emit RaftShutdown ;;; emit StoreClose ;;;
     match l.(l_sched) with
     | None => crashM "nil pointer dereference"
     | Some s =>
         if s.(Started) then
           let '(r, s') := (Stop ;;; ClearCron) s in
           set_sched (Some s') ;;; liftM r
         else retM tt
     end
   else retM tt) ;;;
  emit SerfLeave ;;;
  liftM (match serf_Leave with Some e => Err e | None => Ok tt end) ;;;
  emit SerfShutdown ;;;
  liftM (match serf_Shutdown with Some e => Err e | None => Ok tt end).

(** ** What a started agent has done *)

(** The configuration when the servers start: the port defaults to the one that is bound. *)
Definition with_port (c : Config) : Config :=
  if c.(AdvertiseRPCPort) <=? 0 then set_AdvertiseRPCPort c.(RPCPort) c else c.

(** The calls of the servers: a server brings up the HTTP interface before gRPC and raft, and
    looks for leadership last; another node only serves executions. *)
Definition serving (tls : bool) (c : Config) (steps : list raft_effect) : list effect :=
  if c.(Server) then
    ServeHTTP c.(HTTPAddr) :: ServeGRPC tls ["Dkron"; "Agent"] :: RaftLayerOpen tls
      :: (RaftStep <$> steps) ++ [ServeMux; MonitorLeadership]
  else [ServeGRPC tls ["Agent"]].

(** A trace in one list. *)
Ltac flat_trace := repeat (progress (rewrite <- ?(assoc_L (++)); simpl)).

Lemma StartServer_Ok l l' :
  StartServer l = (Ok tt, l') →
  ∃ c steps, setupRaft l.(l_config) [] = (Ok c, steps) ∧
    l' = mkLife c l.(l_TLSConfig) true true true l.(l_GRPCClient) (Some NewScheduler) l.(l_tags)
           l.(l_ready)
           (l.(l_trace) ++ [ServeHTTP l.(l_config).(HTTPAddr); ServeGRPC l.(l_TLSConfig) ["Dkron"; "Agent"];
              RaftLayerOpen l.(l_TLSConfig)] ++ (RaftStep <$> steps) ++ [ServeMux; MonitorLeadership]).
Proof.
  destruct l as [c tls st ht gs gc sc tg rd tr]. unfold StartServer, bindM, getM. cbn [l_Store l_config l_TLSConfig].
  intros H.
  assert ((if st then retM tt else bindM (liftM (fatal NewStore)) (λ _, make_store))
    (mkLife c tls st ht gs gc sc tg rd tr) = (Ok tt, mkLife c tls true ht gs gc sc tg rd tr)) as E.
  { destruct st; [done|]. unfold bindM, liftM, NewStore in *. by destruct buntdb_Open. }
  unfold bindM in E. rewrite E in H. cbn in H. unfold on_raft_steps in H. cbn in H.
  destruct (setupRaft c []) as [[c'|e|w] steps]; [|done..]. cbn in H. injection H as <-.
  exists c', steps. split; [done|]. f_equal. by rewrite <- !(assoc_L (++)).
Qed.

Lemma serve_Ok fuel l l' :
  serve fuel l = (Ok tt, l') →
  let c := with_port l.(l_config) in
  ∃ sinks steps, initMetrics l.(l_config) = Ok sinks ∧
    (if c.(Server) then ∃ c', setupRaft c [] = (Ok c', steps) ∧ l'.(l_config) = c'
     else l'.(l_config) = c ∧ steps = []) ∧
    let tags := start_tags LocalAddr_IP l'.(l_config) l.(l_tags) in
    l'.(l_tags) = tags ∧ l'.(l_ready) = true ∧ (l'.(l_sched) = if c.(Server) then Some NewScheduler else l.(l_sched)) ∧
    l'.(l_trace) = l.(l_trace) ++ [MetricsGlobal sinks; Listen (bindRPCAddr fuel c)]
      ++ serving l.(l_TLSConfig) c steps ++ [SetTags tags; EventLoop].
Proof.
  destruct l as [c0 tls st ht gs gc sc tg rd tr]. unfold serve, serving. unfold bindM at 1, getM at 1.
  cbn [l_config l_tags l_trace l_TLSConfig]. intros H. set (c := with_port c0).
  destruct (initMetrics c0) as [sinks|e|w]; [|done..].
  unfold bindM at 1, liftM at 1 in H. unfold bindM at 1, emit at 1 in H. cbn [l_config l_tags l_trace l_TLSConfig l_Store
    l_HTTPTransport l_GRPCServer l_GRPCClient l_sched l_ready] in H.
  unfold bindM at 1 in H.
  assert ((if AdvertiseRPCPort c0 <=? 0 then set_config (set_AdvertiseRPCPort (RPCPort c0) c0) else retM tt)
    (mkLife c0 tls st ht gs gc sc tg rd (tr ++ [MetricsGlobal sinks]))
    = (Ok tt, mkLife c tls st ht gs gc sc tg rd (tr ++ [MetricsGlobal sinks]))) as E
    by (unfold c, with_port; by destruct (_ <=? 0)).
  rewrite E in H. clear E. unfold bindM at 1, getM at 1 in H. cbn [l_config] in H.
  destruct (net_Listen _); [done|]. unfold bindM at 1, liftM at 1 in H. cbn [fatal] in H.
  unfold bindM at 1, emit at 1 in H. cbn [l_config l_tags l_trace l_TLSConfig l_Store
    l_HTTPTransport l_GRPCServer l_GRPCClient l_sched l_ready] in H.
  unfold bindM at 1 in H. exists sinks.
  destruct (Server c) eqn:Hs.
  - destruct (StartServer _) as [[[]|e|w] l1] eqn:ES; [|done..].
    apply StartServer_Ok in ES as (c' & steps & Er & ->). cbn in Er.
    exists steps. cbn in H. injection H as <-. cbn. split_and!; [done|by exists c'|done..|].
    flat_trace. done.
  - cbn in H. injection H as <-. exists []. cbn. split_and!; [done..|].
    flat_trace. done.
Qed.

Lemma emit_all l fs :
  foldl (λ l f, (emit f l).2) l fs =
  mkLife l.(l_config) l.(l_TLSConfig) l.(l_Store) l.(l_HTTPTransport) l.(l_GRPCServer)
    l.(l_GRPCClient) l.(l_sched) l.(l_tags) l.(l_ready) (l.(l_trace) ++ fs).
Proof.
  revert l. induction fs as [|f fs IH]; intros l; simpl.
  - rewrite (right_id_L [] (++)). by destruct l.
  - rewrite IH. simpl. by rewrite <- (assoc_L (++)).
Qed.

(** The tags of serf are those of the configuration. *)
Lemma setupSerf_tags fuel c sc :
  setupSerf serf_Create Version fuel c = Some (Ok sc) → sc.(sf_Tags) = serf_tags Version c.
Proof.
  unfold setupSerf. destruct (AddrParts_fuel fuel (BindAddr c)) as [bind|]; [|done].
  destruct (prefixed _ bind) as [[bindIP bindPort]|e|w]; [|done..].
  destruct (if bool_decide _ then _ else _) as [adv|]; [|done]. intros [= H].
  destruct (prefixed _ adv) as [[advIP advPort]|e|w]; [|done..]. simpl in H.
  destruct (prefixed _ (EncryptBytes c)) as [key|e|w]; [|done..]. simpl in H.
  destruct (if bool_decide (Profile c = "lan") then _ else _) as [prof|e|w]; [|done..]. simpl in H.
  destruct (ParseDuration _) as [d|e|w]; [|done..]. simpl in H.
  destruct (serf_Create _); [done|]. by injection H as <-.
Qed.

(** C16: a started agent is announced.  When [Start] returns without error, the calls were
    made in order: serf first, then joining, metrics, the listener, the servers (on a server
    the HTTP interface, gRPC and raft, and only then the search for leadership), and the tags
    and the event loop last, when everything serves.  The agent is ready, and what its
    tags announce is what other nodes read: a server, with its region, data centre,
    bootstrap settings and the port that defaults to the bound one; or no server. *)
Theorem Start_announces fuel l l' {VS : Versions} :
  agent_Start fuel l = (Returned (Ok tt), l') →
  let c := (normalizeAddrs l.(l_config)).2 in
  let p := with_port c in
  (∃ sc joins sinks steps,
     setupSerf serf_Create Version fuel c = Some (Ok sc) ∧
     join_cluster fuel c = Some (Ok joins) ∧ initMetrics c = Ok sinks ∧
     (p.(Server) = true → setupRaft p [] = (Ok (expect_one p), steps)) ∧
     l'.(l_trace) = l.(l_trace) ++ [SerfCreate sc] ++ joins
       ++ [MetricsGlobal sinks; Listen (bindRPCAddr fuel p)]
       ++ serving l.(l_TLSConfig) p steps ++ [SetTags l'.(l_tags); EventLoop]) ∧
  l'.(l_ready) = true ∧
  (length LocalAddr_IP = 4%nat ∨ length LocalAddr_IP = 16%nat →
   in_int 64 p.(AdvertiseRPCPort) → in_int 64 p.(BootstrapExpect) →
   p.(Tags) !! "server" = None → p.(Tags) !! "bootstrap" = None → p.(Tags) !! "expect" = None →
   isServer (mkMember p.(NodeName) LocalAddr_IP l'.(l_tags) StatusAlive) =
     if p.(Server) then
       Some (mkServerParts p.(NodeName) p.(NodeName) p.(Region) p.(Datacenter)
         p.(AdvertiseRPCPort) (p.(Bootstrap) || (p.(BootstrapExpect) =? 1)) p.(BootstrapExpect)
         (match NewVersion Version with Ok v => v | _ => Version_zero end)
         (mkTCPAddr LocalAddr_IP p.(AdvertiseRPCPort)) (mkTCPAddr LocalAddr_IP p.(AdvertiseRPCPort))
         StatusAlive)
     else None).
Proof.
  unfold agent_Start. destruct (normalizeAddrs (l_config l)) as [r c]. cbn [snd].
  destruct r as [[]|e|w]; [| |done].
  all: destruct (setupSerf _ _ fuel c) as [[sc|e1|w]|] eqn:Es; [|done..];
    destruct (join_cluster fuel c) as [[joins|e1|w]|] eqn:Ej; [|done..];
    rewrite emit_all; cbn [set_tags set_config emit snd l_config l_TLSConfig l_Store l_HTTPTransport
      l_GRPCServer l_GRPCClient l_sched l_tags l_ready l_trace];
    destruct (serve _ _) as [rs l1] eqn:Ev; intros [= -> ->].
  all: apply serve_Ok in Ev as (sinks & steps & Em & Hr & Ht & Hrd & _ & Htr);
    cbn [l_config l_TLSConfig l_tags l_trace] in *;
    assert (start_tags LocalAddr_IP (l_config l') (sf_Tags sc)
      = (node_member Version (with_port c) LocalAddr_IP StatusAlive).(Member_Tags)) as Etags
    by (rewrite (setupSerf_tags _ _ _ Es); unfold with_port in *;
        destruct (AdvertiseRPCPort c <=? 0); cbn in Hr |- *; destruct (Server c);
        try destruct Hr as (c' & Hc & ->); try (apply setupRaft_config in Hc as ->);
        try destruct Hr as [-> _]; unfold expect_one; try destruct (_ && _); done).
  all: split; [|split; [done|]]; [exists sc, joins, sinks, steps|].
  2, 4: intros; rewrite Ht, Etags; by apply isServer_roundtrip.
  all: split_and!; [done..| |rewrite Htr, Ht; flat_trace; done];
    intros Hs; rewrite Hs in Hr; destruct Hr as (c' & Hc & _);
    by rewrite (setupRaft_config _ _ _ _ Hc) in Hc.
Qed.

(** ** Leaving *)

(** Leaving the cluster.  Stopping a server shuts raft down before its store is closed,
    stops and clears the scheduler when it ran, and then leaves serf, which is shut down
    only when leaving worked; the error is that of serf.  Another node only leaves.  No
    scheduler runs afterwards. *)
Theorem Stop_spec l r l' :
  (l.(l_config).(Server) = true →
     ∃ s, l.(l_sched) = Some s ∧ (s.(Started) = true → is_Some s.(Cron))) →
  agent_Stop l = (r, l') →
  l'.(l_trace) = l.(l_trace)
    ++ (if l.(l_config).(Server) then [RaftShutdown; StoreClose] else [])
    ++ SerfLeave :: (if serf_Leave is None then [SerfShutdown] else []) ∧
  r = match serf_Leave, serf_Shutdown with
      | Some e, _ | None, Some e => Err e
      | None, None => Ok tt
      end ∧
  l'.(l_config) = l.(l_config) ∧
  (l.(l_config).(Server) = true →
     ∃ s', l'.(l_sched) = Some s' ∧ s'.(Started) = false ∧
       (l.(l_sched) ≠ Some s' → s'.(Cron) = None)).
Proof.
  destruct l as [c tls st ht gs gc sch tg rd tr]. cbn [l_config l_sched l_trace]. intros Hw.
  unfold agent_Stop. unfold bindM at 1, getM. cbn [l_config l_sched].
  destruct (Server c); cbn.
  - destruct (Hw eq_refl) as (s & -> & Hs). destruct s as [cr [] em]; cbn in *.
    + destruct (Hs eq_refl) as [c0 Hc0]. subst cr. cbn.
      destruct serf_Leave; cbn; [|destruct serf_Shutdown; cbn];
        intros [= <- <-]; cbn; flat_trace; (split_and!; [done..|]).
      all: intros _; eexists; naive_solver.
    + destruct serf_Leave; cbn; [|destruct serf_Shutdown; cbn];
        intros [= <- <-]; cbn; flat_trace; (split_and!; [done..|]).
      all: intros _; eexists; naive_solver.
  - destruct serf_Leave; cbn; [|destruct serf_Shutdown; cbn];
      intros [= <- <-]; cbn; flat_trace; by split_and!.
Qed.

(** [Leave(ctx, in)] of the gRPC server *)
Definition grpc_Leave : M Life unit := agent_Stop.

(** [leaveHandler(c)] of the HTTP interface: the peers are rendered also after an error. *)
Definition leaveHandler {VS : Versions} (rq : Request) (peers : gmap string (list ServerParts)) :
    Life → res (list gin_call) * Life := λ l,
  let '(r, l') := agent_Stop l in
  let render := match rq.(rq_query) !! "pretty" with
                | Some _ => IndentedJSON 200 (PPeers peers)
                | None => JSON 200 (PPeers peers)
                end in
  (match r with
   | Ok _ => Ok [render]
   | Err e => Ok [AbortWithError 500 e; render]
   | Crash w => Crash w
   end, l').
End Lifecycle.

(** ** Examples *)
Module LifeExample.
Import Toy SchedulerExample ClusterExample SetupExample.

(** A host on which everything works. *)
#[local] Instance ToyHost : Host := {|
  host_resolver := ConfigExample.ToyResolver;
  host_raft := files false;
  serf_Create sc := None;
  LocalAddr_IP := [10; 0; 0; 1];
  Version := "3.0";
  discover_New := None;
  disco_Addrs i s := Ok [];
  join_resolver i := ConfigExample.ToyResolver;
  serf_Join i addrs := Ok 1;
  NewPrometheusSink := None;
  NewStatsdSink a := None;
  NewDogStatsdSink a := None;
  net_Listen a := None;
  buntdb_Open := None;
  serf_Leave := None;
  serf_Shutdown := None
|}.

(** A server whose advertised RPC port is not set. *)
Definition lone : Config :=
  mkConfig "node1" "10.0.0.1:8946" ":8080" "lan" "" ∅ true "" [] [] 0 0 6868 0 "info" "dc1" "global"
    false 1 "dkron.data" false 0 1 "" 0 "" "" "" "" "" "" "" [] "" [] "" "24h" false.
Definition life0 : Life (CE:=ToyEngine) := new_agent lone [WithStore].

Lemma started : (agent_Start 2 life0).1 = Returned (Ok tt).
Proof. vm_compute. reflexivity. Qed.

Lemma Start_announces_witness :
  isServer (mkMember "node1" [10; 0; 0; 1] (agent_Start 2 life0).2.(l_tags) StatusAlive) =
  Some (mkServerParts "node1" "node1" "global" "dc1" 6868 true 1 "3.0"
          (mkTCPAddr [10; 0; 0; 1] 6868) (mkTCPAddr [10; 0; 0; 1] 6868) StatusAlive).
Proof.
  pose proof started as H. destruct (agent_Start 2 life0) as [r l'] eqn:E. simpl in H. subst r.
  destruct (Start_announces 2 life0 l' E) as (_ & _ & Ha).
  refine (Ha (or_introl eq_refl) _ _ eq_refl eq_refl eq_refl);
    refine (bool_decide_unpack _ _); vm_compute; exact I.
Defined.

(** Stopping it. *)
Definition running : Life (CE:=ToyEngine) :=
  mkLife lone false true true true true (Some sched0) ∅ true [].

Lemma Stop_spec_witness :
  (agent_Stop running).2.(l_trace) = [RaftShutdown; StoreClose; SerfLeave; SerfShutdown] ∧
  (agent_Stop running).1 = Ok tt.
Proof.
  destruct (agent_Stop running) as [r l'] eqn:E.
  destruct (Stop_spec running r l') as (Ht & Hr & _); [|exact E|].
  - intros _. exists sched0. split; [reflexivity|]. intros _. by eexists.
  - split; [exact Ht|exact Hr].
Defined.
End LifeExample.
