(* ===== verification/Routes.v ===== *)
(** * The routes of the HTTP interface: [APIRoutes] and [DashboardRoutes]

    The table of the routes, as the two functions register them on gin's engine and its
    groups, and what it means that a path matches the pattern of a route.  Gin's router is a
    parameter: it hands a request to the only route that matches.  The table is shown to be
    free of conflicts, so that every request has at most one handler and every route gets
    its requests. *)
From Stdlib Require Import ZArith Lia Ascii.
From stdpp Require Import base list gmap strings pretty.
From S2P Require Import Prelude GoStrings GoNet GoTime Pb NTime ExtCron Execution Job BuntDB Store.
From S2P Require Import Instances Scheduler Fsm Config Cluster Leader LeaderReconcile Targets.
From S2P Require Import Notifier Server Stream JobTree Api Dashboard Setup.

#[local] Open Scope Z_scope.

(** ** The table *)

(** The handlers that are registered, by name. *)
Inductive endpoint :=
  | debugVars | health | metrics | index | members | leader | isLeader | leave | restore | busy
  | jobCreateOrUpdate | jobs_ | jobDelete | jobRun | jobToggle | jobGet | executions
  | root | static_ | dashboardIndex | dashboardJobs | dashboardExecutions | dashboardBusy.

#[export] Instance endpoint_eq_dec : EqDecision endpoint.
Proof. solve_decision. Defined.

Record route := mkRoute { rt_method : string; rt_path : string; rt_endpoint : endpoint }.

#[export] Instance route_eq_dec : EqDecision route.
Proof. solve_decision. Defined.

(** [joinPaths(absolutePath, relativePath)] of gin's groups: joined and cleaned, with the
    slash at the end of the relative path. *)
Fixpoint ends_with_slash (s : string) : bool :=
  match s with
  | EmptyString => false
  | String c EmptyString => Ascii.eqb c "/"
  | String _ s' => ends_with_slash s'
  end.
Definition joinPaths (absolutePath relativePath : string) : string :=
  if bool_decide (relativePath = "") then absolutePath
  else
    let final := filepath_Join [absolutePath; relativePath] in
    if ends_with_slash relativePath && negb (ends_with_slash final) then final +:+ "/" else final.

(** [group.GET(path, handler)] and the like. *)
Definition GET (group path : string) (e : endpoint) : route := mkRoute "GET" (joinPaths group path) e.
Definition POST (group path : string) (e : endpoint) : route := mkRoute "POST" (joinPaths group path) e.
Definition PATCH (group path : string) (e : endpoint) : route := mkRoute "PATCH" (joinPaths group path) e.
Definition DELETE (group path : string) (e : endpoint) : route := mkRoute "DELETE" (joinPaths group path) e.
Definition HEAD (group path : string) (e : endpoint) : route := mkRoute "HEAD" (joinPaths group path) e.

(** [APIRoutes(r)] *)
Definition APIRoutes (EnablePrometheus : bool) (r : string) : list route :=
  let v1 := joinPaths r "/v1" in
  let jobs := joinPaths v1 "/jobs" in
  [GET r "/debug/vars" debugVars; GET "/" "/health" health]
  ++ (if EnablePrometheus then [GET r "/metrics" metrics] else [])
  ++ [GET r "/v1" index;
      GET v1 "/" index;
      GET v1 "/members" members;
      GET v1 "/leader" leader;
      GET v1 "/isleader" isLeader;
      POST v1 "/leave" leave;
      POST v1 "/restore" restore;
      GET v1 "/busy" busy;
      POST v1 "/jobs" jobCreateOrUpdate;
      PATCH v1 "/jobs" jobCreateOrUpdate;
      GET v1 "/jobs" jobs_;
      DELETE jobs "/:job" jobDelete;
      POST jobs "/:job" jobRun;
      POST jobs "/:job/toggle" jobToggle;
      GET jobs "/:job" jobGet;
      GET jobs "/:job/executions" executions].

(** [DashboardRoutes(r)]; [StaticFS] registers a pattern for two methods. *)
Definition DashboardRoutes (r : string) : list route :=
  let dashboard := joinPaths r ("/" +:+ dashboardPathPrefix) in
  [GET r "/" root;
   GET r "static/*filepath" static_;
   HEAD r "static/*filepath" static_;
   GET dashboard "/" dashboardIndex;
   GET dashboard "/jobs" dashboardJobs;
   GET dashboard "/jobs/:job/executions" dashboardExecutions;
   GET dashboard "/busy" dashboardBusy].

(** [ServeHTTP()]: the routes of the engine. *)
Definition routes (EnablePrometheus : bool) : list route :=
  let rootPath := joinPaths "/" "/" in
  APIRoutes EnablePrometheus rootPath ++ DashboardRoutes rootPath.

(** ** Patterns *)

(** A segment of a pattern: a text, a parameter, or the rest of the path. *)
Inductive segment := Lit (s : string) | Param (name : string) | CatchAll (name : string).

Definition segment_of (s : string) : segment :=
  match s with
  | String ":"%char name => Param name
  | String "*"%char name => CatchAll name
  | _ => Lit s
  end.

Definition params : Type := list (string * string).

(** The parameters with which the segments of a path match a pattern. *)
Fixpoint match_segments (pat : list segment) (path : list string) : option params :=
  match pat, path with
  | [], [] => Some []
  | [CatchAll name], _ :: _ => Some [(name, "/" +:+ Join path "/")]
  | Lit s :: pat', x :: path' => if decide (s = x) then match_segments pat' path' else None
  | Param name :: pat', x :: path' =>
      if decide (x = "") then None
      else ps ← match_segments pat' path'; Some ((name, x) :: ps)
  | _, _ => None
  end.

Definition match_path (pattern path : string) : option params :=
  match_segments (segment_of <$> Split "/" pattern) (Split "/" path).

(** Two patterns that no path can match both: somewhere both have a text, and the texts
    differ, or a text is empty where the other has a parameter, or the one ends before. *)
Fixpoint apart (p q : list segment) : bool :=
  match p, q with
  | [CatchAll _], _ :: _ | _ :: _, [CatchAll _] => false
  | Lit s :: p', Lit t :: q' => if decide (s = t) then apart p' q' else true
  | Lit s :: p', Param _ :: q' => if decide (s = "") then true else apart p' q'
  | Param _ :: p', Lit s :: q' => if decide (s = "") then true else apart p' q'
  | Param _ :: p', Param _ :: q' => apart p' q'
  | [], _ :: _ | _ :: _, [] => true
  | _, _ => false
  end.

Lemma apart_spec p q path :
  apart p q = true → is_Some (match_segments p path) → is_Some (match_segments q path) → False.
Proof.
  revert q path. induction p as [|x p IH]; intros q path Ha [ps Hp] [qs Hq].
  - destruct q as [|y q]; [done|]. destruct path; [|done].
    by destruct y; destruct q.
  - destruct path as [|s path]; [by destruct x, p|]. destruct q as [|y q]; [done|].
    destruct x as [sx|nx|nx], y as [sy|ny|ny]; cbn [apart match_segments] in *;
      repeat case_decide; simplify_eq; try (by destruct p); try (by destruct q).
    all: try (apply bind_Some in Hp as (? & Hp & _)); try (apply bind_Some in Hq as (? & Hq & _)).
    all: try (by destruct p); try (by destruct q).
    all: eapply IH; [|by eexists..]; try done.
    all: by destruct p, q.
Qed.

Definition pattern (r : route) : list segment := segment_of <$> Split "/" r.(rt_path).

Definition no_conflict (r r' : route) : bool :=
  bool_decide (r = r') || negb (bool_decide (r.(rt_method) = r'.(rt_method)))
  || apart (pattern r) (pattern r').

(** At most one route of the table matches a request. *)
Lemma routes_unambiguous prom r r' path :
  r ∈ routes prom → r' ∈ routes prom → r.(rt_method) = r'.(rt_method) →
  is_Some (match_path r.(rt_path) path) → is_Some (match_path r'.(rt_path) path) → r = r'.
Proof.
  intros Hr Hr' Hm H H'.
  assert (forallb (λ r, forallb (no_conflict r) (routes prom)) (routes prom) = true) as Hall
    by (by destruct prom; vm_compute).
  rewrite forallb_forall in Hall. specialize (Hall r (proj1 (list_elem_of_In _ _) Hr)).
  rewrite forallb_forall in Hall. specialize (Hall r' (proj1 (list_elem_of_In _ _) Hr')).
  unfold no_conflict in Hall. rewrite !orb_true_iff, negb_true_iff, bool_decide_eq_true,
    bool_decide_eq_false in Hall.
  destruct Hall as [[?|?]|Ha]; [done|done|]. destruct (apart_spec _ _ (Split "/" path) Ha H H').
Qed.

(** ** The router *)

(** gin: a request goes to the route that matches it, when there is only one, and to no
    route when none does. *)
Class Router := {
  dispatch : list route → string → string → option (endpoint * params);
  dispatch_one rs r path ps :
    r ∈ rs → match_path r.(rt_path) path = Some ps →
    (∀ r', r' ∈ rs → r'.(rt_method) = r.(rt_method) → is_Some (match_path r'.(rt_path) path) → r' = r) →
    dispatch rs r.(rt_method) path = Some (r.(rt_endpoint), ps);
  dispatch_none rs method path :
    (∀ r, r ∈ rs → r.(rt_method) = method → match_path r.(rt_path) path = None) →
    dispatch rs method path = None
}.

Section Dispatch.
Context {RO : Router}.
Context {VS : Versions} {R : Type} {RF : Raft R} {WD : World R} {IS : Intersect} {DL : Delivery}.
Context {db : Type} {BDB : BuntDB db} {PT : Ptypes} {PB : Proto} {CP : CronParser}
        {CE : CronEngine} {UC : Unicode} {TZ : Locations} {SO : Sorting}.
Context {JS : Decoding} {GS : GrpcStatus}.
Variable client : GRPCClient (R:=R) (db:=db).
Variable serf_Stats : gmap string string.
Variable LocalMember : Member.
Variable Version : string.
(** The handlers that are not those of jobs: the exporters, the pages, and leaving. *)
Variable other : endpoint → params → M (Ctx (R:=R) (db:=db)) unit.

(** [c.Param(key)] *)
Definition Param_ (key : string) (ps : params) : string :=
  match list_find (λ p, p.1 = key) ps with Some (_, p) => p.2 | None => "" end.

(** The handler of an endpoint, with the parameters of the path. *)
Definition api_handler (e : endpoint) (ps : params) (rq : Request) : M Ctx unit :=
  let rq := mkRequest (Param_ "job" ps) rq.(rq_query) rq.(rq_metadata) rq.(rq_RequestURI) rq.(rq_body) in
  match e with
  | index => indexHandler serf_Stats LocalMember Version rq
  | members => membersHandler rq
  | leader => leaderHandler rq
  | isLeader => isLeaderHandler rq
  | restore => restoreHandler client rq
  | busy => busyHandler rq
  | jobCreateOrUpdate => jobCreateOrUpdateHandler client rq
  | jobs_ => jobsHandler rq
  | jobDelete => jobDeleteHandler client rq
  | jobRun => jobRunHandler client rq
  | jobToggle => jobToggleHandler client rq
  | jobGet => jobGetHandler rq
  | executions => executionsHandler rq
  | _ => other e ps
  end.

(** A request to the server.  The middleware is added to the engine after the routes were
    registered, so that gin runs it for unknown paths only. *)
Definition handle (prom : bool) (method path : string) (rq : Request) : M Ctx unit :=
  match dispatch (routes prom) method path with
  | Some (e, ps) => api_handler e ps rq
  | None => MetaMiddleware (gin (AbortWithStatus 404))
  end.

Lemma dispatch_route prom r path ps :
  r ∈ routes prom → match_path r.(rt_path) path = Some ps →
  dispatch (routes prom) r.(rt_method) path = Some (r.(rt_endpoint), ps).
Proof.
  intros Hr Hm. apply dispatch_one; [done..|]. intros r' Hr' Hmm Hs. symmetry.
  by apply (routes_unambiguous prom r r' path); [..|eexists|].
Qed.

(** The path of a job. *)
Lemma Split_noslash name : has_byte "/" name = false → Split "/" name = [name].
Proof.
  induction name as [|c name IH]; [done|]. cbn [has_byte Split]. rewrite orb_false_iff, bool_decide_eq_false.
  intros [Hc Hn]. rewrite decide_False by done. by rewrite IH.
Qed.

Lemma Split_app_slash name rest :
  has_byte "/" name = false → Split "/" (name +:+ String "/" rest) = name :: Split "/" rest.
Proof.
  induction name as [|c name IH]; [done|]. cbn [has_byte]. rewrite orb_false_iff, bool_decide_eq_false.
  intros [Hc Hn]. rewrite app_cons. cbn [Split]. rewrite decide_False by done. by rewrite IH.
Qed.

Lemma match_job pat tail_ path name :
  segment_of <$> Split "/" pat = [Lit ""; Lit "v1"; Lit "jobs"; Param "job"] ++ (Lit <$> tail_) →
  Split "/" path = [""; "v1"; "jobs"; name] ++ tail_ → name ≠ "" →
  match_path pat path = Some [("job", name)].
Proof.
  intros Hp Hs Hn. unfold match_path. rewrite Hp, Hs. cbn [app match_segments].
  rewrite !decide_True, decide_False by done. cbn [match_segments].
  assert (match_segments (Lit <$> tail_) tail_ = Some []) as ->; [|done].
  clear. induction tail_ as [|x l IH]; [done|]. rewrite fmap_cons. cbn [match_segments].
  by rewrite decide_True.
Qed.

End Dispatch.

(** ** Examples *)
Module RoutesExample.

(** A router that looks through the table. *)
Fixpoint first_match (rs : list route) (method path : string) : option (endpoint * params) :=
  match rs with
  | [] => None
  | r :: rs' =>
      if decide (r.(rt_method) = method) then
        match match_path r.(rt_path) path with
        | Some ps => Some (r.(rt_endpoint), ps)
        | None => first_match rs' method path
        end
      else first_match rs' method path
  end.

#[export] Instance ToyRouter : Router.
Proof.
  refine {| dispatch := first_match |}.
  - intros rs r path ps. induction rs as [|r0 rs IH]; [by intros ?%elem_of_nil|].
    intros Hr Hm Hu. cbn [first_match]. case_decide as Hmeth.
    + destruct (match_path (rt_path r0) path) as [ps0|] eqn:E0.
      * assert (r0 = r) as -> by (apply Hu; [left|done|by eexists]). by rewrite Hm in E0; simplify_eq.
      * apply IH; [|done|intros r' ?; apply Hu; by right].
        apply elem_of_cons in Hr as [->|?]; [congruence|done].
    + apply IH; [|done|intros r' ?; apply Hu; by right].
      apply elem_of_cons in Hr as [->|?]; done.
  - intros rs method path H. induction rs as [|r0 rs IH]; [done|]. cbn [first_match].
    case_decide as Hm; [rewrite (H r0) by (done || left)|]; apply IH; intros r Hr; apply H; by right.
Defined.

Example some_routes :
  dispatch (routes false) "GET" "/v1/jobs" = Some (jobs_, []) ∧
  dispatch (routes false) "POST" "/v1/jobs/a/toggle" = Some (jobToggle, [("job", "a")]) ∧
  dispatch (routes false) "GET" "/static/css/x.css" = Some (static_, [("filepath", "/css/x.css")]) ∧
  dispatch (routes false) "GET" "/metrics" = None ∧ dispatch (routes true) "GET" "/metrics" = Some (metrics, []) ∧
  dispatch (routes false) "GET" "/v1/" = Some (index, []) ∧
  dispatch (routes false) "GET" "/dashboard/jobs/a/executions" = Some (dashboardExecutions, [("job", "a")]).
Proof. vm_compute. split_and!; reflexivity. Qed.
End RoutesExample.
