(* ===== verification/Cmd.v ===== *)
(** * [cmd/]: the command line

    The tags and the key of a node, the plugins that are found on disk,
    and the main loop that waits for signals.  Reading flags and files, starting
    plugins and random bytes are parameters. *)
From Stdlib Require Import ZArith Lia Ascii.
From stdpp Require Import base list gmap strings pretty.
From S2P Require Import Prelude GoStrings GoNet Base64 Config Cluster Setup.

#[local] Open Scope Z_scope.

(** ** Tags *)

(** [UnmarshalTags(tags)] *)
Fixpoint unmarshal_tags (tags : list string) (result : gmap string string) :
    res (gmap string string) :=
  match tags with
  | [] => Ok result
  | t :: tags' =>
      match SplitN "=" t 2 with
      | [k; v] =>
          if bool_decide (k = "") then Err (ErrOther ("Invalid tag: '" +:+ t +:+ "'"))
          else unmarshal_tags tags' (<[k := v]> result)
      | _ => Err (ErrOther ("Invalid tag: '" +:+ t +:+ "'"))
      end
  end.

Definition UnmarshalTags (tags : list string) : res (gmap string string) := unmarshal_tags tags ∅.

(** The tags of [initConfig()]: those of the command line, or those of the file. *)
Definition init_tags (cliTags : list string) (fileTags : gmap string string) :
    res (gmap string string) :=
  match cliTags with
  | [] => Ok fileTags
  | _ => match UnmarshalTags cliTags with
         | Err e => Crash (Error e)
         | r => r
         end
  end.

(** A tag as it is written on the command line. *)
Definition tag_flag (kv : string * string) : string := kv.1 +:+ "=" +:+ kv.2.

Lemma unmarshal_tags_flags kvs acc :
  Forall (λ kv, kv.1 ≠ "" ∧ has_byte "=" kv.1 = false) kvs →
  unmarshal_tags (tag_flag <$> kvs) acc = Ok (foldl (λ m kv, <[kv.1 := kv.2]> m) acc kvs).
Proof.
  revert acc. induction kvs as [|[k v] kvs IH]; intros acc; [done|].
  intros [[Hne Hk] HF]%Forall_cons. rewrite fmap_cons. cbn [unmarshal_tags SplitN].
  unfold tag_flag at 1. cbn [fst snd] in *. rewrite app_cons, app_nil_l, cut_app by done.
  rewrite bool_decide_eq_false_2 by done. by apply IH.
Qed.

(** ** Keys *)

(** [keygen]: the bytes that were read become the printed key. *)
Definition keygen (read : res string) : res string :=
  match read with
  | Err e => Err (ErrOther ("Error reading random data: " +:+ Error e))
  | Crash w => Crash w
  | Ok key =>
      if bool_decide (String.length key = 16%nat) then Ok (EncodeToString key)
      else Err (ErrOther "Couldn't read enough entropy. Generate more entropy")
  end.

(** A node's identity from the command line to serf.  Tags written as flags, with keys
    that are not empty and hold no equals sign, are the tags of the configuration, a
    later flag for a key replacing an earlier one; and a key printed by [keygen], when it is
    configured, is the secret of serf: the sixteen bytes that were drawn. *)
Theorem flags_roundtrip kvs file c key printed :
  kvs ≠ [] → Forall (λ kv, kv.1 ≠ "" ∧ has_byte "=" kv.1 = false) kvs →
  keygen (Ok key) = Ok printed → c.(EncryptKey) = printed →
  init_tags (tag_flag <$> kvs) file = Ok (foldl (λ m kv, <[kv.1 := kv.2]> m) ∅ kvs) ∧
  EncryptBytes c = Ok key ∧ String.length key = 16%nat.
Proof.
  intros Hne HF Hk Hc. unfold init_tags, UnmarshalTags. rewrite unmarshal_tags_flags by done.
  split; [by destruct kvs|]. unfold keygen in Hk. case_bool_decide as Hl; [|done].
  injection Hk as Hk. unfold EncryptBytes. by rewrite Hc, <- Hk, DecodeString_EncodeToString.
Qed.

(** ** Plugins *)

(** [path.Base(path)] *)
Fixpoint trim_slashes (s : string) : string :=
  match s with
  | EmptyString => EmptyString
  | String c s' =>
      match trim_slashes s' with
      | EmptyString => if Ascii.eqb c "/" then EmptyString else String c EmptyString
      | t => String c t
      end
  end.
Fixpoint after_last_slash (s : string) : string :=
  match s with
  | EmptyString => EmptyString
  | String c s' => if has_byte "/" s' then after_last_slash s'
                   else if Ascii.eqb c "/" then s' else s
  end.
Definition path_Base (path : string) : string :=
  if bool_decide (path = "") then "."
  else match after_last_slash (trim_slashes path) with
       | EmptyString => "/"
       | b => b
       end.

(** [strings.TrimSuffix(s, suffix)] *)
Definition TrimSuffix (s suffix : string) : string :=
  let n := (String.length s - String.length suffix)%nat in
  if bool_decide (String.substring n (String.length suffix) s = suffix ∧
                  (String.length suffix ≤ String.length s)%nat)
  then String.substring 0 n s else s.

(** [getPluginName(file)] *)
Definition getPluginName (file : string) : option string :=
  match SplitN "-" (path_Base file) 3 with
  | [_; _; name] => Some (TrimSuffix name ".exe")
  | _ => None
  end.

Example plugin_names : getPluginName "/etc/dkron/plugins/dkron-executor-http" = Some "http" ∧
  getPluginName "C:/dkron/dkron-processor-my-log.exe" = Some "my-log" ∧ getPluginName "/usr/bin/dkron" = None.
Proof. vm_compute. done. Qed.

Section Plugins.
Context {P E : Type}.
(** [plugin.Discover], [osext.Executable] with its directory, and [pluginFactory] for both
    kinds of plugins. *)
Variable Discover : string → string → res (list string).
Variable exe_dir : option string.
Variable processor_factory : string → res P.
Variable executor_factory : string → res E.

(** The loop over the files of a kind. *)
Fixpoint load_plugins {A} (factory : string → res A) (files : list string)
    (loaded : gmap string A) : res (gmap string A) :=
  match files with
  | [] => Ok loaded
  | file :: files' =>
      match getPluginName file with
      | None => load_plugins factory files' loaded
      | Some name =>
          raw <-? factory file ;;
          load_plugins factory files' (<[name := raw]> loaded)
      end
  end.

(** [DiscoverPlugins()] *)
Definition DiscoverPlugins : res (gmap string P * gmap string E) :=
  processors <-? Discover "dkron-processor-*" "/etc/dkron/plugins" ;;
  executors <-? Discover "dkron-executor-*" "/etc/dkron/plugins" ;;
  found <-? match exe_dir with
            | None => Ok (processors, executors)
            | Some dir =>
                p <-? Discover "dkron-processor-*" dir ;;
                e <-? Discover "dkron-executor-*" dir ;;
                Ok (processors ++ p, executors ++ e)
            end ;;
  let '(processors, executors) := (found : list string * list string) in
  ps <-? load_plugins processor_factory processors ∅ ;;
  es <-? load_plugins executor_factory executors ∅ ;;
  Ok (ps, es).

(** The last file that has the name. *)
Definition last_named (name : string) (files : list string) : option string :=
  last (filter (λ f, getPluginName f = Some name) files).

Lemma load_plugins_spec {A} (factory : string → res A) files loaded out :
  load_plugins factory files loaded = Ok out →
  ∀ name, match last_named name files with
          | Some file => ∃ raw, factory file = Ok raw ∧ out !! name = Some raw
          | None => out !! name = loaded !! name
          end.
Proof.
  revert loaded. induction files as [|file files IH]; intros loaded; cbn [load_plugins].
  { by intros [= <-] name. }
  unfold last_named in *. intros H name. rewrite filter_cons.
  destruct (getPluginName file) as [n|] eqn:En.
  - destruct (factory file) as [raw| |] eqn:Ef; [|done..]. specialize (IH _ H name).
    case_decide as Hn; [|].
    + injection Hn as ->. rewrite last_cons.
      destruct (last (filter _ files)) as [f|]; [done|]. exists raw.
      by rewrite IH, lookup_insert_eq.
    + destruct (last (filter _ files)); [done|]. rewrite IH. apply lookup_insert_ne. congruence.
  - specialize (IH _ H name). by rewrite decide_False by done.
Qed.

(** The last plugin wins.  After the discovery, the executor of a name is the one made from
    the last file with that name, where the directory of the program comes after the
    configuration directory; there is none exactly when no file has the name. *)
Theorem DiscoverPlugins_last ps es name etc exe :
  DiscoverPlugins = Ok (ps, es) →
  Discover "dkron-executor-*" "/etc/dkron/plugins" = Ok etc →
  match exe_dir with
  | Some dir => Discover "dkron-executor-*" dir = Ok exe
  | None => exe = []
  end →
  match last_named name exe, last_named name etc with
  | Some file, _ | None, Some file => ∃ raw, executor_factory file = Ok raw ∧ es !! name = Some raw
  | None, None => es !! name = None
  end.
Proof.
  unfold DiscoverPlugins. intros H Hetc Hexe. rewrite Hetc in H.
  destruct (Discover _ _) as [procs| |]; [|done..]. simpl in H.
  assert (∃ procs' , (ps <-? load_plugins processor_factory procs' ∅ ;;
    es <-? load_plugins executor_factory (etc ++ exe) ∅ ;; Ok (ps, es)) = Ok (ps, es)) as [procs' H'].
  { destruct exe_dir as [dir|].
    - destruct (Discover "dkron-processor-*" dir); [|done..]. rewrite Hexe in H. simpl in H. eauto.
    - subst exe. rewrite (right_id_L [] (++)). eauto. }
  destruct (load_plugins processor_factory _ _); [|done..]. simpl in H'.
  destruct (load_plugins executor_factory _ _) as [es'| |] eqn:El; [|done..]. injection H' as _ ->.
  pose proof (load_plugins_spec _ _ _ _ El name) as Hs. unfold last_named in *.
  rewrite filter_app, last_app in Hs.
  destruct (last (filter _ exe)); [exact Hs|]. by destruct (last (filter _ etc)).
Qed.
End Plugins.

(** ** Signals *)

(** The signals that are asked for; [signalCh] holds four. *)
Inductive signal := Interrupt | SIGTERM | SIGHUP.
Definition signal_cap : nat := 4.

(** Where [handleSignals()] is: waiting, waiting for the running jobs after [Stop] was
    called, or returned with a code. *)
Inductive phase := Waiting | Draining | Exited (code : Z).

Record Main := mkMain { mn_phase : phase; mn_queue : list signal; mn_reloads : nat }.

(** What happens: a signal arrives, the error of the retried join or the closing of
    [ShutdownCh] is received, a signal is taken, the running jobs are counted. *)
Inductive happening :=
  | Arrives (s : signal)
  | RetryJoinFailed
  | ShutdownClosed
  | Taken
  | Counted (running : Z).

(** After the last job ended: the channel that was just closed is ready, and so is the
    channel of signals when it is not empty; one of them is chosen. *)
Definition exit_code (q : list signal) (code : Z) : Prop := code = 0 ∨ (code = 1 ∧ q ≠ []).

(** [handleSignals()] *)
Inductive main_step : Main → happening → Main → Prop :=
  | step_arrives p q n s :
      main_step (mkMain p q n) (Arrives s)
        (mkMain p (if bool_decide (length q < signal_cap)%nat then q ++ [s] else q) n)
  | step_retry q n : main_step (mkMain Waiting q n) RetryJoinFailed (mkMain (Exited 1) q n)
  | step_shutdown q n : main_step (mkMain Waiting q n) ShutdownClosed (mkMain Draining q n)
  | step_reload q n : main_step (mkMain Waiting (SIGHUP :: q) n) Taken (mkMain Waiting q (S n))
  | step_stop s q n : s ≠ SIGHUP →
      main_step (mkMain Waiting (s :: q) n) Taken (mkMain Draining q n)
  | step_busy q n k : 1 ≤ k → main_step (mkMain Draining q n) (Counted k) (mkMain Draining q n)
  | step_done q n k code : k < 1 → exit_code q code →
      main_step (mkMain Draining q n) (Counted k) (mkMain (Exited code) q n).

Inductive main_run : Main → list happening → Main → Prop :=
  | main_run_nil m : main_run m [] m
  | main_run_cons m h m1 hs m2 : main_step m h m1 → main_run m1 hs m2 → main_run m (h :: hs) m2.

(** While jobs run, the process stays: neither a second signal nor the time that passed
    ends it, although [gracefulTimeout] says how long to wait. *)
Lemma drain_waits q n hs m :
  main_run (mkMain Draining q n) hs m → (∀ k, Counted k ∈ hs → 1 ≤ k) →
  m.(mn_phase) = Draining.
Proof.
  revert q n. induction hs as [|h hs IH]; intros q n H Hk; inversion H as [|? ? m1 ? ? Hs Hr]; subst;
    [done|]. assert (∀ k, Counted k ∈ hs → 1 ≤ k) as Hk' by (intros k ?; apply Hk; set_solver).
  inversion Hs; subst; eauto. specialize (Hk k ltac:(set_solver)). lia.
Qed.

(** A count that finds a job, and everything that is not a count. *)
Definition busy (h : happening) : Prop := match h with Counted k => 1 ≤ k | _ => True end.
#[export] Instance busy_dec h : Decision (busy h).
Proof. destruct h; apply _. Defined.

(** A process that waits returns 0 only after it found that no job was running. *)
Lemma exit_zero q n hs m :
  main_run (mkMain Waiting q n) hs m → m.(mn_phase) = Exited 0 → ∃ k, Counted k ∈ hs ∧ k < 1.
Proof.
  intros H Hx. destruct (decide (Forall busy hs)) as [Hall|Hn].
  - exfalso. assert (∀ p q n, p = Waiting ∨ p = Draining ∨ p = Exited 1 →
      main_run (mkMain p q n) hs m → m.(mn_phase) ≠ Exited 0) as Hinv.
    { clear H Hx q n. induction Hall as [|h hs Hh _ IH]; intros p q n Hp H;
        inversion H as [|? ? m1 ? ? Hs Hr]; subst; [simpl; naive_solver|].
      inversion Hs; subst; try (eapply IH; [|exact Hr]; naive_solver). simpl in Hh. lia. }
    by apply (Hinv Waiting q n); [left|..].
  - apply not_Forall_Exists in Hn; [|apply _].
    apply Exists_exists in Hn as (h & Hin & Hh). destruct h; simpl in Hh; try done.
    exists running. split; [done|lia].
Qed.

(** ** Examples *)
Module CmdExample.

Definition keyed (k : string) : Config :=
  mkConfig "node1" "" "" "lan" "" ∅ true k [] [] 0 0 6868 0 "info" "dc1" "global"
    false 1 "dkron.data" false 0 1 "" 0 "" "" "" "" "" "" "" [] "" [] "" "24h" false.

Lemma flags_roundtrip_witness :
  init_tags ["role=web"; "zone=a=b"] ∅ = Ok {["role" := "web"; "zone" := "a=b"]} ∧
  EncryptBytes (keyed "MDEyMzQ1Njc4OWFiY2RlZg==") = Ok "0123456789abcdef".
Proof.
  destruct (flags_roundtrip [("role", "web"); ("zone", "a=b")] ∅
    (keyed "MDEyMzQ1Njc4OWFiY2RlZg==") "0123456789abcdef" "MDEyMzQ1Njc4OWFiY2RlZg==") as (H1 & H2 & _).
  - discriminate.
  - repeat constructor; discriminate.
  - vm_compute. reflexivity.
  - reflexivity.
  - split; [|exact H2]. etransitivity; [exact H1|]. vm_compute. reflexivity.
Defined.

(** Two directories with an executor each of the same name. *)
Definition dirs (glob dir : string) : res (list string) :=
  Ok (if bool_decide (glob = "dkron-executor-*") then [dir +:+ "/dkron-executor-http"] else []).

Lemma DiscoverPlugins_last_witness : ∃ ps es,
  DiscoverPlugins (P:=string) (E:=string) dirs (Some "/usr/bin") Ok Ok = Ok (ps, es) ∧
  es !! "http" = Some "/usr/bin/dkron-executor-http".
Proof.
  destruct (DiscoverPlugins (P:=string) (E:=string) dirs (Some "/usr/bin") Ok Ok)
    as [[ps es]| |] eqn:E; [|vm_compute in E; discriminate E..].
  exists ps, es. split; [reflexivity|].
  pose proof (DiscoverPlugins_last dirs (Some "/usr/bin") Ok Ok ps es "http"
    ["/etc/dkron/plugins/dkron-executor-http"] ["/usr/bin/dkron-executor-http"] E
    eq_refl eq_refl) as H. vm_compute in H. destruct H as (raw & [= <-] & H).
  apply (f_equal (λ r, match r with Ok (_, e) => e !! "http" | _ => None end)) in E.
  vm_compute in E. symmetry. exact E.
Defined.
End CmdExample.
