(* ===== verification/Flags.v ===== *)
(** * The options of an agent: flags, environment and configuration file

    The table of flags of [ConfigFlagSet] ([dkron/config.go]) and how [initConfig]
    ([cmd/dkron.go]) fills the configuration from them.  The fields of [Config] are found by the
    names of their struct tags.  Viper, which looks for a value on the command line, in the
    environment, in the file and among the defaults, and decodes what it finds into the
    structure, is a parameter with its documented behaviour. *)
From Stdlib Require Import ZArith Lia Ascii.
From stdpp Require Import base list gmap strings pretty.
From S2P Require Import Prelude GoStrings GoTime GoDuration Config Logging Cmd.

#[local] Open Scope Z_scope.

(** ** Settings and fields *)

(** The value of an option. *)
Inductive setting := SBool (b : bool) | SString (s : string) | SInt (z : Z) | SStrings (l : list string).

(** A field of the configuration with its type. *)
Inductive field :=
  | FBool (get : Config → bool)
  | FString (get : Config → string)
  | FInt (get : Config → Z)
  | FUint16 (get : Config → Z)
  | FStrings (get : Config → list string)
  | FDuration (get : Config → Z).

(** The fields of [type Config struct] under the names of their tags; a field without a tag
    is found by its own name in small letters.  [Tags] is set apart. *)
Definition config_fields : list (string * field) :=
  [("node-name", FString NodeName); ("bind-addr", FString BindAddr);
   ("http-addr", FString HTTPAddr); ("profile", FString Profile);
   ("advertise-addr", FString AdvertiseAddr); ("server", FBool Server);
   ("encrypt", FString EncryptKey); ("join", FStrings StartJoin);
   ("retry-join", FStrings RetryJoinLAN); ("retry-max", FInt RetryJoinMaxAttemptsLAN);
   ("retry-interval", FDuration RetryJoinIntervalLAN); ("rpc-port", FInt RPCPort);
   ("advertise-rpc-port", FInt AdvertiseRPCPort); ("log-level", FString LogLevel);
   ("datacenter", FString Datacenter); ("region", FString Region);
   ("bootstrap", FBool Bootstrap); ("bootstrap-expect", FInt BootstrapExpect);
   ("data-dir", FString DataDir); ("devmode", FBool DevMode);
   ("reconcileinterval", FDuration ReconcileInterval);
   ("raft-multiplier", FInt RaftMultiplier); ("mail-host", FString MailHost);
   ("mail-port", FUint16 MailPort); ("mail-username", FString MailUsername);
   ("mail-password", FString MailPassword); ("mail-from", FString MailFrom);
   ("mail-payload", FString MailPayload);
   ("mail-subject-prefix", FString MailSubjectPrefix); ("webhook-url", FString WebhookURL);
   ("webhook-payload", FString WebhookPayload);
   ("webhook-headers", FStrings WebhookHeaders); ("dog-statsd-addr", FString DogStatsdAddr);
   ("dog-statsd-tags", FStrings DogStatsdTags); ("statsd-addr", FString StatsdAddr);
   ("serf-reconnect-timeout", FString SerfReconnectTimeout);
   ("enable-prometheus", FBool EnablePrometheus)].

(** The flags of [ConfigFlagSet()] with their defaults, given [DefaultConfig()]. *)
Definition flag_set (c : Config) : list (string * setting) :=
  [("server", SBool false); ("node-name", SString c.(NodeName));
   ("bind-addr", SString c.(BindAddr)); ("advertise-addr", SString "");
   ("http-addr", SString c.(HTTPAddr)); ("profile", SString c.(Profile));
   ("join", SStrings []); ("retry-join", SStrings []); ("retry-max", SInt 0);
   ("retry-interval", SString (Duration_String DefaultRetryInterval));
   ("raft-multiplier", SInt c.(RaftMultiplier)); ("tag", SStrings []);
   ("encrypt", SString ""); ("log-level", SString c.(LogLevel));
   ("rpc-port", SInt c.(RPCPort)); ("advertise-rpc-port", SInt 0);
   ("bootstrap-expect", SInt 0); ("data-dir", SString c.(DataDir));
   ("datacenter", SString c.(Datacenter)); ("region", SString c.(Region));
   ("serf-reconnect-timeout", SString c.(SerfReconnectTimeout)); ("mail-host", SString "");
   ("mail-port", SInt 0); ("mail-username", SString ""); ("mail-password", SString "");
   ("mail-from", SString ""); ("mail-payload", SString "");
   ("mail-subject-prefix", SString c.(MailSubjectPrefix)); ("webhook-url", SString "");
   ("webhook-payload", SString ""); ("webhook-headers", SStrings []);
   ("dog-statsd-addr", SString ""); ("dog-statsd-tags", SStrings []);
   ("statsd-addr", SString ""); ("enable-prometheus", SBool false)].

(** [ConfigFlagSet()] *)
Definition ConfigFlagSet (hostname : res string) : res (list (string * setting)) :=
  c <-? DefaultConfig hostname ;; Ok (flag_set c).

(** A value that can be decoded into a field, the field of [c] that holds it, and a field
    that was left alone. *)
Definition fits (f : field) (v : setting) : bool :=
  match f, v with
  | FBool _, SBool _ | FString _, SString _ | FStrings _, SStrings _ => true
  | FInt _, SInt z => bool_decide (in_int 64 z)
  | FUint16 _, SInt z => bool_decide (in_uint 16 z)
  | FDuration _, SString s => match ParseDuration s with Ok _ => true | _ => false end
  | _, _ => false
  end.
Definition fitting (s : string → option setting) : bool :=
  forallb (λ kf, match s kf.1 with Some v => fits kf.2 v | None => true end) config_fields.
Definition reads (f : field) (c : Config) (v : setting) : Prop :=
  match f, v with
  | FBool get, SBool b => get c = b
  | FString get, SString s => get c = s
  | FStrings get, SStrings l => get c = l
  | FInt get, SInt z | FUint16 get, SInt z => get c = z
  | FDuration get, SString s => ParseDuration s = Ok (get c)
  | _, _ => False
  end.
Definition same (f : field) (c c' : Config) : Prop :=
  match f with
  | FBool get => get c' = get c
  | FString get => get c' = get c
  | FInt get | FUint16 get | FDuration get => get c' = get c
  | FStrings get => get c' = get c
  end.

(** ** Viper *)

(** The variable of the environment for an option: the prefix, capitals, underscores. *)
Fixpoint map_bytes (f : ascii → ascii) (s : string) : string :=
  match s with EmptyString => EmptyString | String c s' => String (f c) (map_bytes f s') end.
Definition upper (c : ascii) : ascii :=
  if in_range 97 122 (byte_val c) then ascii_of_nat (nat_of_ascii c - 32) else c.
Definition env_name (key : string) : string :=
  map_bytes (λ c, if Ascii.eqb c "-" then "_"%char else c) (map_bytes upper ("dkron_" +:+ key)).

Fixpoint assoc {A} (key : string) (l : list (string * A)) : option A :=
  match l with
  | [] => None
  | (k, v) :: l' => if String.eqb k key then Some v else assoc key l'
  end.

(** Where a value is looked for: the command line first, then the environment (an empty
    variable counts as unset), then the file, then the default of the flag.  The environment
    is only asked for options that are known. *)
Definition setting_of (given file : gmap string setting) (env : string → option string)
    (cast : string → string → setting) (flags : list (string * setting)) (key : string) :
    option setting :=
  match given !! key with
  | Some v => Some v
  | None =>
      match file !! key, assoc key flags with
      | None, None => None
      | in_file, default =>
          match env (env_name key) with
          | Some (String c s) => Some (cast key (String c s))
          | _ => match in_file with Some v => Some v | None => default end
          end
      end
  end.

Class Viper := {
  given : gmap string setting;
  file : gmap string setting;
  Getenv : string → option string;
  cast : string → string → setting;
  GetStringMapString : string → gmap string string;
  Get : list (string * setting) → string → option setting;
  Unmarshal : (string → option setting) → Config → res Config;
  Get_spec flags key : Get flags key = setting_of given file Getenv cast flags key;
  Unmarshal_total s c :
    fitting s = true → ∃ c', Unmarshal s c = Ok c';
  Unmarshal_fields s c c' :
    Unmarshal s c = Ok c' →
    Forall (λ '(key, f), match s key with Some v => reads f c' v | None => same f c c' end) config_fields
}.

(** Assignments to fields. *)
Definition set_Tags (v : gmap string string) (c : Config) : Config :=
  mkConfig c.(NodeName) c.(BindAddr) c.(HTTPAddr) c.(Profile) c.(AdvertiseAddr) v c.(Server)
  c.(EncryptKey) c.(StartJoin) c.(RetryJoinLAN) c.(RetryJoinMaxAttemptsLAN)
  c.(RetryJoinIntervalLAN) c.(RPCPort) c.(AdvertiseRPCPort) c.(LogLevel) c.(Datacenter)
  c.(Region) c.(Bootstrap) c.(BootstrapExpect) c.(DataDir) c.(DevMode) c.(ReconcileInterval)
  c.(RaftMultiplier) c.(MailHost) c.(MailPort) c.(MailUsername) c.(MailPassword) c.(MailFrom)
  c.(MailPayload) c.(MailSubjectPrefix) c.(WebhookURL) c.(WebhookPayload) c.(WebhookHeaders)
  c.(DogStatsdAddr) c.(DogStatsdTags) c.(StatsdAddr) c.(SerfReconnectTimeout)
  c.(EnablePrometheus).
Definition set_RetryJoinIntervalLAN (v : Z) (c : Config) : Config :=
  mkConfig c.(NodeName) c.(BindAddr) c.(HTTPAddr) c.(Profile) c.(AdvertiseAddr) c.(Tags)
  c.(Server) c.(EncryptKey) c.(StartJoin) c.(RetryJoinLAN) c.(RetryJoinMaxAttemptsLAN) v
  c.(RPCPort) c.(AdvertiseRPCPort) c.(LogLevel) c.(Datacenter) c.(Region) c.(Bootstrap)
  c.(BootstrapExpect) c.(DataDir) c.(DevMode) c.(ReconcileInterval) c.(RaftMultiplier)
  c.(MailHost) c.(MailPort) c.(MailUsername) c.(MailPassword) c.(MailFrom) c.(MailPayload)
  c.(MailSubjectPrefix) c.(WebhookURL) c.(WebhookPayload) c.(WebhookHeaders) c.(DogStatsdAddr)
  c.(DogStatsdTags) c.(StatsdAddr) c.(SerfReconnectTimeout) c.(EnablePrometheus).

Section Init.
Context {LR : Logrus} {VI : Viper}.

(** [viper.GetStringSlice] and [viper.GetString] *)
Definition GetStringSlice (flags : list (string * setting)) (key : string) : list string :=
  match Get flags key with Some (SStrings l) => l | _ => [] end.
Definition GetString (flags : list (string * setting)) (key : string) : string :=
  match Get flags key with Some (SString s) => s | _ => "" end.

(** [initConfig()], on the configuration that the package starts with; errors end the
    process. *)
Definition initConfig (hostname : res string) : res (Config * Logs) :=
  config <-? DefaultConfig hostname ;;
  flags <-? ConfigFlagSet hostname ;;
  config <-? match Unmarshal (Get flags) config with Err e => Crash (Error e) | r => r end ;;
  tags <-? init_tags (GetStringSlice flags "tag") (GetStringMapString "tags") ;;
  let config := set_Tags tags config in
  Ok (config, InitLogger (GetString flags "log-level") config.(NodeName)).

(** The options that have no flag. *)
Definition file_only : list string := ["bootstrap"; "devmode"; "reconcileinterval"].

(** The names in the tables. *)
Lemma flag_names c key :
  is_Some (assoc key (flag_set c)) ↔ key = "tag" ∨ (key ∈ config_fields.*1 ∧ key ∉ file_only).
Proof.
  assert (∀ (l : list (string * setting)), is_Some (assoc key l) ↔ key ∈ l.*1) as Hassoc.
  { induction l as [|[k v] l IH]; simpl; [rewrite elem_of_nil; by split; [intros []|]|].
    rewrite elem_of_cons, <- IH. destruct (String.eqb_spec k key); naive_solver. }
  rewrite Hassoc.
  assert (Forall (λ k, k = "tag" ∨ (k ∈ config_fields.*1 ∧ k ∉ file_only)) (flag_set c).*1) as H1
    by (refine (bool_decide_unpack _ _); vm_compute; exact I).
  assert (Forall (λ k, k ∈ file_only ∨ k ∈ (flag_set c).*1) config_fields.*1) as H2
    by (refine (bool_decide_unpack _ _); vm_compute; exact I).
  rewrite !Forall_forall in H1, H2. split; [auto|]. intros [->|[Hin Hn]].
  - refine (bool_decide_unpack _ _). vm_compute. exact I.
  - destruct (H2 key Hin); [done|by auto].
Qed.

(** The fields after [Tags] was assigned. *)
Definition ends (s : string → option setting) (c c' : Config) (kf : string * field) : Prop :=
  match s kf.1 with Some v => reads kf.2 c' v | None => same kf.2 c c' end.
Lemma ends_Tags s c c' t : Forall (ends s c c') config_fields → Forall (ends s c (set_Tags t c')) config_fields.
Proof.
  unfold config_fields. intros H.
  repeat (apply Forall_cons in H as [Hf H]; apply Forall_cons; split; [exact Hf|clear Hf]).
  apply Forall_nil_2.
Qed.

(** Nothing but the defaults. *)
Lemma defaults_only given file env cast flags key :
  given = ∅ → file = ∅ → (∀ x, env x = None) → setting_of given file env cast flags key = assoc key flags.
Proof.
  intros -> -> He. unfold setting_of. rewrite !lookup_empty, He. by destruct (assoc key flags).
Qed.

(** A configuration whose fields are those of the defaults. *)
Lemma defaults_fields hostname c0 c :
  DefaultConfig (Ok hostname) = Ok c0 →
  Forall (ends (λ key, assoc key (flag_set c0)) c0 c) config_fields →
  c = set_RetryJoinIntervalLAN DefaultRetryInterval (set_Tags c.(Tags) c0).
Proof.
  intros [= <-] HF. unfold config_fields in HF. destruct c.
  repeat (apply Forall_cons in HF as [Hf HF]; unfold ends in Hf;
          cbn -[ParseDuration Duration_String] in Hf;
          lazymatch type of Hf with ParseDuration _ = _ => rename Hf into Hd | _ => subst end).
  unfold set_RetryJoinIntervalLAN, set_Tags. simpl. f_equal.
  vm_compute in Hd. by injection Hd as <-.
Qed.

(** C17: every option reaches its field.  When what is found for each field can be
    decoded and the tags can be read, the agent runs with the following configuration.
    Every flag but [tag] is the name of a field, and the field has the value that was found
    first: on the command line, in the environment under its name with the prefix, in the
    file, or the default of the flag.  The three fields without a flag keep the default
    unless the file has them.  The tags are those of the flags, or else of the file, and the log has
    the level and the node that were configured.  When nothing is set anywhere, the
    configuration is [DefaultConfig] with the retry interval of its flag. *)
Theorem initConfig_spec hostname c0 tags :
  DefaultConfig (Ok hostname) = Ok c0 →
  let found := setting_of given file Getenv cast (flag_set c0) in
  fitting found = true →
  init_tags (match found "tag" with Some (SStrings l) => l | _ => [] end) (GetStringMapString "tags") = Ok tags →
  ∃ c, initConfig (Ok hostname) = Ok (c, InitLogger c.(LogLevel) c.(NodeName)) ∧
    c.(Tags) = tags ∧
    (∀ key f, (key, f) ∈ config_fields →
      match found key with Some v => reads f c v | None => key ∈ file_only ∧ same f c0 c end) ∧
    (given = ∅ → file = ∅ → (∀ x, Getenv x = None) →
      c = set_RetryJoinIntervalLAN DefaultRetryInterval (set_Tags tags c0)).
Proof.
  intros Hc0 found Hfits Htags.
  assert (∀ key, Get (flag_set c0) key = found key) as HG by (intros; apply Get_spec).
  destruct (Unmarshal_total (Get (flag_set c0)) c0) as [c Hc].
  { unfold fitting in *. rewrite forallb_forall in *. intros kf Hin. rewrite HG. by apply Hfits. }
  assert (Forall (ends found c0 c) config_fields) as HE.
  { eapply Forall_impl; [exact (Unmarshal_fields _ _ _ Hc)|]. intros [key f]. unfold ends. simpl. by rewrite HG. }
  apply (ends_Tags _ _ _ tags) in HE. set (c' := set_Tags tags c) in *. exists c'.
  split_and!; [|done| |].
  - unfold initConfig, ConfigFlagSet. rewrite Hc0. cbn [res_bind]. rewrite Hc. cbn [res_bind].
    unfold GetStringSlice, GetString. rewrite !HG, Htags. cbn [res_bind]. do 3 f_equal.
    assert (ends found c0 c' ("log-level", FString LogLevel)) as HL.
    { rewrite Forall_forall in HE. apply HE, (list_elem_of_lookup_2 _ 13). reflexivity. }
    unfold ends in HL. simpl in HL. destruct (found "log-level") as [[]|] eqn:EL; try done.
    exfalso. unfold found, setting_of in EL. destruct (flag_names c0 "log-level") as [_ [d Hd]].
    { right. split; refine (bool_decide_unpack _ _); vm_compute; exact I. }
    rewrite Hd in EL. by repeat case_match.
  - intros key f Hin. rewrite Forall_forall in HE. specialize (HE _ Hin). unfold ends in HE. simpl in HE.
    destruct (found key) as [v|] eqn:EF; [done|]. split; [|done].
    destruct (decide (key ∈ file_only)) as [|Hn]; [done|].
    destruct (flag_names c0 key) as [_ [d Hd]].
    { right. split; [|done]. apply list_elem_of_fmap. by exists (key, f). }
    unfold found, setting_of in EF. rewrite Hd in EF. by repeat case_match.
  - intros Hg Hf He. apply (defaults_fields hostname); [done|].
    eapply Forall_impl; [exact HE|]. intros [key f]. unfold ends. simpl. unfold found.
    by rewrite defaults_only.
Qed.
End Init.

(** ** Examples *)
Module FlagsExample.
Import LoggingExample.
#[local] Existing Instance ToyLogrus.

(** Decoding as the structure says. *)
Definition gs (v : option setting) (d : string) : string := match v with Some (SString s) => s | _ => d end.
Definition gb (v : option setting) (d : bool) : bool := match v with Some (SBool b) => b | _ => d end.
Definition gi (v : option setting) (d : Z) : Z := match v with Some (SInt z) => z | _ => d end.
Definition gl (v : option setting) (d : list string) : list string :=
  match v with Some (SStrings l) => l | _ => d end.
Definition gd (v : option setting) (d : Z) : Z :=
  match v with Some (SString s) => match ParseDuration s with Ok z => z | _ => d end | _ => d end.
Definition decode (s : string → option setting) (c : Config) : res Config :=
  if fitting s then
    Ok (mkConfig (gs (s "node-name") c.(NodeName)) (gs (s "bind-addr") c.(BindAddr))
        (gs (s "http-addr") c.(HTTPAddr)) (gs (s "profile") c.(Profile))
        (gs (s "advertise-addr") c.(AdvertiseAddr)) c.(Tags) (gb (s "server") c.(Server))
        (gs (s "encrypt") c.(EncryptKey)) (gl (s "join") c.(StartJoin))
        (gl (s "retry-join") c.(RetryJoinLAN)) (gi (s "retry-max") c.(RetryJoinMaxAttemptsLAN))
        (gd (s "retry-interval") c.(RetryJoinIntervalLAN)) (gi (s "rpc-port") c.(RPCPort))
        (gi (s "advertise-rpc-port") c.(AdvertiseRPCPort)) (gs (s "log-level") c.(LogLevel))
        (gs (s "datacenter") c.(Datacenter)) (gs (s "region") c.(Region))
        (gb (s "bootstrap") c.(Bootstrap)) (gi (s "bootstrap-expect") c.(BootstrapExpect))
        (gs (s "data-dir") c.(DataDir)) (gb (s "devmode") c.(DevMode))
        (gd (s "reconcileinterval") c.(ReconcileInterval))
        (gi (s "raft-multiplier") c.(RaftMultiplier)) (gs (s "mail-host") c.(MailHost))
        (gi (s "mail-port") c.(MailPort)) (gs (s "mail-username") c.(MailUsername))
        (gs (s "mail-password") c.(MailPassword)) (gs (s "mail-from") c.(MailFrom))
        (gs (s "mail-payload") c.(MailPayload))
        (gs (s "mail-subject-prefix") c.(MailSubjectPrefix))
        (gs (s "webhook-url") c.(WebhookURL)) (gs (s "webhook-payload") c.(WebhookPayload))
        (gl (s "webhook-headers") c.(WebhookHeaders))
        (gs (s "dog-statsd-addr") c.(DogStatsdAddr)) (gl (s "dog-statsd-tags") c.(DogStatsdTags))
        (gs (s "statsd-addr") c.(StatsdAddr))
        (gs (s "serf-reconnect-timeout") c.(SerfReconnectTimeout))
        (gb (s "enable-prometheus") c.(EnablePrometheus)))
  else Err (ErrOther "error decoding").

(** A server that is started with a flag, a variable of the environment and a file. *)
#[local] Instance ToyViper : Viper.
Proof.
  refine {| given := {["server" := SBool true; "tag" := SStrings ["role=web"]]};
            file := {["region" := SString "eu"; "datacenter" := SString "dc2"]};
            Getenv x := if bool_decide (x = "DKRON_DATACENTER") then Some "dc3" else None;
            cast key s := SString s;
            GetStringMapString key := ∅;
            Get := setting_of _ _ _ _;
            Unmarshal := decode |}.
  - reflexivity.
  - intros s c H. unfold decode. rewrite H. by eexists.
  - intros s c c'. unfold decode. destruct (fitting s) eqn:HF; [|done]. intros [= <-].
    unfold fitting in HF. rewrite forallb_forall in HF.
    assert (∀ kf, In kf config_fields → match s kf.1 with Some v => fits kf.2 v = true | None => True end) as HF'.
    { intros kf Hin. specialize (HF kf Hin). by destruct (s kf.1). }
    clear HF. apply List.Forall_forall in HF'. unfold config_fields in HF' at 1. unfold config_fields.
    repeat (apply Forall_cons in HF' as [Hf HF']; apply Forall_cons; split;
      [cbn [fst snd] in Hf; cbv beta iota;
       match goal with |- match ?s ?k with Some _ => _ | None => _ end => destruct (s k) as [[]|] end;
       try done; cbn [fits reads gd RetryJoinIntervalLAN ReconcileInterval] in *; by case_match|clear Hf]).
    apply Forall_nil_2.
Defined.

Lemma initConfig_spec_witness : ∃ c logs,
  initConfig (Ok "node1") = Ok (c, logs) ∧ c.(Server) = true ∧ c.(Region) = "eu" ∧
  c.(Datacenter) = "dc3" ∧ c.(RetryJoinIntervalLAN) = 30 * nanos_per_sec ∧ c.(Tags) = {["role" := "web"]}.
Proof.
  destruct (DefaultConfig (Ok "node1")) as [c0| |] eqn:E; [|discriminate E..].
  destruct (initConfig_spec "node1" c0 {["role" := "web"]} E) as (c & Hi & Ht & Hf & _).
  - injection E as <-. vm_compute. reflexivity.
  - injection E as <-. vm_compute. reflexivity.
  - injection E as <-. exists c, (InitLogger (LogLevel c) (NodeName c)).
    pose proof (Hf "server" (FBool Server) (list_elem_of_lookup_2 config_fields 5 (_, _) eq_refl)) as H1.
    pose proof (Hf "region" (FString Region) (list_elem_of_lookup_2 config_fields 15 (_, _) eq_refl)) as H2.
    pose proof (Hf "datacenter" (FString Datacenter) (list_elem_of_lookup_2 config_fields 14 (_, _) eq_refl)) as H3.
    pose proof (Hf "retry-interval" (FDuration RetryJoinIntervalLAN) (list_elem_of_lookup_2 config_fields 10 (_, _) eq_refl)) as H4.
    vm_compute in H1, H2, H3, H4. injection H4 as H4.
    split; [exact Hi|]. split; [exact H1|]. split; [exact H2|]. split; [exact H3|]. split; [|exact Ht].
    vm_compute. symmetry. exact H4.
Defined.
End FlagsExample.
