(* ===== verification/Commands.v ===== *)
(** * The commands of [cmd/]: [agent], [leave], [raft list-peers], [raft remove-peer]

    What a command of an operator does to the server that it calls, through the gRPC client
    ([Stream]) and the handlers of the server ([Server], [Lifecycle]); and the life of the
    process that the [agent] command starts.  Cobra, which reads the arguments, and the
    layout of the table of peers are left out. *)
From Stdlib Require Import ZArith Lia Ascii.
From stdpp Require Import base list gmap strings pretty.
From S2P Require Import Prelude GoStrings GoNet Config Pb ExtCron Scheduler Cluster Leader LeaderReconcile.
From S2P Require Import Server Stream Setup Lifecycle Cmd.

#[local] Open Scope Z_scope.

(** ** Raft *)
Section Raft.
Context {RS : Resolver} {VS : Versions} {R : Type} {RF : Raft R}.
(** The error of dialling an address. *)
Variable connect : string → option error.

(** A row of the table, and [raft list-peers]: the rows that are laid out, as the server [a]
    at the address answers. *)
Definition peer_row (s : RaftEntry) : string :=
  let state := if s.(RE_Leader) then "leader" else "follower" in
  s.(RE_Node) +:+ "|" +:+ s.(RE_Id) +:+ "|" +:+ s.(RE_Address) +:+ "|" +:+ state +:+ "|"
    +:+ FormatBool s.(RE_Voter).

Definition raftListCmd (rpcAddr : string) (a : Agent R) : res (list string) :=
  ip <-? ParseSingleIPTemplate rpcAddr ;;
  reply <-? client_RaftGetConfiguration connect (λ _ _, RaftGetConfiguration a) ip ;;
  Ok ("Node|ID|Address|State|Voter" :: (peer_row <$> reply)).

(** [raft remove-peer]: what it prints, and the server [a] afterwards. *)
Definition raftRemovePeerCmd (rpcAddr peerID : string) : M (Agent R) string := λ a,
  match ParseSingleIPTemplate rpcAddr with
  | Ok ip =>
      (_ <-? client_RaftRemovePeerByID connect (λ _ id, (RaftRemovePeerByID id a).1) ip peerID ;;
       Ok "Peer removed",
       match connect ip with
       | Some _ => a
       | None => (RaftRemovePeerByID peerID a).2
       end)
  | Err e => (Err e, a)
  | Crash w => (Crash w, a)
  end.

(** The peer of a row. *)
Definition row_of (a : Agent R) (s : RaftServer) : string :=
  peer_row (raft_entry (server_map a.(a_serf)) (raft_Leader a.(a_raft)) s).

Lemma list_peers_rows rpcAddr a ip servers :
  ParseSingleIPTemplate rpcAddr = Ok ip → connect ip = None →
  raft_GetConfiguration a.(a_raft) = Ok servers →
  raftListCmd rpcAddr a = Ok ("Node|ID|Address|State|Voter" :: (row_of a <$> servers)).
Proof.
  intros Hip Hc Hs. unfold raftListCmd. rewrite Hip. cbn [res_bind].
  unfold client_RaftGetConfiguration, call_remote, RaftGetConfiguration. rewrite Hc, Hs. cbn [res_bind].
  by rewrite <- list_fmap_compose.
Qed.

Lemma known_peer (servers : list RaftServer) id :
  existsb (λ s, bool_decide (s.(RS_ID) = id)) servers = true ↔ id ∈ RS_ID <$> servers.
Proof.
  rewrite existsb_exists, list_elem_of_fmap. setoid_rewrite bool_decide_eq_true.
  setoid_rewrite <- list_elem_of_In. naive_solver.
Qed.

(** C20: removing a peer.  On a server that can be reached, [raft remove-peer] of an id that is
    not in the configuration of raft fails with an error that names it and changes nothing.
    Of an id that is there, it says that the peer was removed exactly when raft carried it
    out; then the peers that [raft list-peers] lists are the former ones without it, in
    their order, and at most one of them is the leader.  An error of raft is reported. *)
Theorem remove_peer_spec rpcAddr ip peerID (a : Agent R) servers out a' :
  ParseSingleIPTemplate rpcAddr = Ok ip → connect ip = None → raft_wf a.(a_raft) →
  raft_GetConfiguration a.(a_raft) = Ok servers →
  raftRemovePeerCmd rpcAddr peerID a = (out, a') →
  (peerID ∉ RS_ID <$> servers → a' = a ∧
     out = Err (rpc_error (ErrOther ("id " +:+ quoted peerID +:+ " was not found in the Raft configuration")))) ∧
  (peerID ∈ RS_ID <$> servers →
     out = match (raft_RemoveServer peerID a.(a_raft)).1 with
           | Ok _ => Ok "Peer removed"
           | Err e => Err (rpc_error e)
           | Crash w => Crash w
           end) ∧
  (out = Ok "Peer removed" →
     a'.(a_serf) = a.(a_serf) ∧ raft_wf a'.(a_raft) ∧
     ∀ servers', raft_GetConfiguration a'.(a_raft) = Ok servers' →
       servers' = filter (λ s, s.(RS_ID) ≠ peerID) servers ∧
       raftListCmd rpcAddr a' = Ok ("Node|ID|Address|State|Voter" :: (row_of a' <$> servers')) ∧
       (length (filter (λ e, e.(RE_Leader) = true)
         (raft_entry (server_map a'.(a_serf)) (raft_Leader a'.(a_raft)) <$> servers')) ≤ 1)%nat).
Proof.
  intros Hip Hc Hwf Hs. unfold raftRemovePeerCmd. rewrite Hip, Hc.
  unfold client_RaftRemovePeerByID, call_remote. rewrite Hc.
  unfold RaftRemovePeerByID, bindM, getM, liftM. rewrite Hs. intros [= <- <-].
  destruct (existsb _ servers) eqn:Ex.
  - apply known_peer in Ex. unfold on_raft.
    destruct (raft_RemoveServer peerID (a_raft a)) as [r r'] eqn:Er. cbn [fst snd].
    split; [done|]. split; [by destruct r|]. intros Ho. destruct r as [[]|e|w]; [|done..].
    cbn [set_raft a_serf a_raft]. pose proof (RemoveServer_wf peerID _ Hwf) as Hwf'. rewrite Er in Hwf'. cbn in Hwf'.
    split_and!; [done..|]. intros servers' Hs'.
    assert (servers' = filter (λ s, s.(RS_ID) ≠ peerID) servers) as E.
    { rewrite (GetConfiguration_Ok _ _ Hs'), (GetConfiguration_Ok _ _ Hs). by apply RemoveServer_Ok. }
    split_and!; [done|by apply (list_peers_rows _ _ ip)|].
    apply raft_addresses in Hwf'. rewrite <- (GetConfiguration_Ok _ _ Hs') in Hwf'. clear -Hwf'.
    induction servers' as [|s l IH]; [simpl; lia|]. rewrite fmap_cons in *.
    apply NoDup_cons in Hwf' as [Hn Hd]. rewrite filter_cons. case_decide as Hl; [|by apply IH].
    rewrite filter_none; [simpl; lia|]. intros e (s' & -> & Hs')%list_elem_of_fmap Hl'. apply Hn.
    assert (∀ m ld x, RE_Leader (raft_entry m ld x) = bool_decide (x.(RS_Address) = ld)) as HL
      by (intros; unfold raft_entry; by case_match).
    rewrite !HL, bool_decide_eq_true in *. apply list_elem_of_fmap. exists s'. split; congruence.
  - assert (peerID ∉ RS_ID <$> servers) as Hn by (intros ?%known_peer; congruence).
    cbn. by split_and!.
Qed.
End Raft.

(** ** Leaving *)
Section Leave.
Context {CP : CronParser} {CE : CronEngine} {HO : Host}.
Variable connect : string → option error.

(** The gRPC services that an agent has registered. *)
Definition services (l : Life) : list string :=
  concat (omap (λ f, match f with ServeGRPC _ s => Some s | _ => None end) l.(l_trace)).

(** A call of [Leave] to the agent. *)
Definition serve_Leave : M Life unit := λ l,
  if bool_decide ("Dkron" ∈ services l) then grpc_Leave l
  else (Err (ErrOther "unknown service proto.Dkron"), l).

(** [leave]: what the command returns, and the agent at the address afterwards. *)
Definition leaveCmd (rpcAddr : string) : M Life unit := λ l,
  match ParseSingleIPTemplate rpcAddr with
  | Ok ip =>
      (client_Leave connect (λ _ _, (serve_Leave l).1) ip,
       match connect ip with Some _ => l | None => (serve_Leave l).2 end)
  | Err e => (Err e, l)
  | Crash w => (Crash w, l)
  end.

(** The command has no effect on an agent that is no server: it does not serve the method. *)
Lemma leave_only_servers rpcAddr ip l :
  ParseSingleIPTemplate rpcAddr = Ok ip → "Dkron" ∉ services l →
  ∃ e, leaveCmd rpcAddr l = (Err e, l).
Proof.
  intros Hip Hn. unfold leaveCmd, client_Leave, call_remote, serve_Leave. rewrite Hip.
  destruct (connect ip); [by eexists|]. rewrite bool_decide_eq_false_2 by done. by eexists.
Qed.

(** On a server it is [Stop]. *)
Lemma leave_stops rpcAddr ip l :
  ParseSingleIPTemplate rpcAddr = Ok ip → connect ip = None → "Dkron" ∈ services l →
  (leaveCmd rpcAddr l).2 = (agent_Stop l).2 ∧
  ((leaveCmd rpcAddr l).1 = Ok tt ↔ (agent_Stop l).1 = Ok tt).
Proof.
  intros Hip Hc Hs. unfold leaveCmd, client_Leave, call_remote, serve_Leave, grpc_Leave.
  rewrite Hip, Hc, bool_decide_eq_true_2 by done. split; [done|].
  by destruct (agent_Stop l) as [[[]|e|w] l'].
Qed.

(** ** The process of an agent *)

(** [GetRunningJobs()]: the entries of [runningExecutions], which the streams of the agent
    add and delete. *)
Definition GetRunningJobs (r : Runner) : Z := Z.of_nat (size r.(r_running)).

Lemma no_running_jobs r : GetRunningJobs r < 1 ↔ r.(r_running) = ∅.
Proof.
  unfold GetRunningJobs. rewrite <- leibniz_equiv_iff, <- size_empty_iff. lia.
Qed.

(** [agentRun]: the plugins that were found, the start, and the wait for signals, with what
    happens in the meantime; it returns an error or nil.  The plugins are fields of the agent
    that starting does not look at. *)
Inductive agentRun {P : Type} (discovered : res P) (fuel : nat) (config : Config) :
    list happening → res unit → Prop :=
  | run_no_plugins e :
      discovered = Err e → agentRun discovered fuel config [] (Crash (Error e))
  | run_not_started p r l' :
      discovered = Ok p → agent_Start fuel (new_agent config []) = (Returned r, l') →
      r ≠ Ok tt → agentRun discovered fuel config [] r
  | run_exit p l' hs m code :
      discovered = Ok p → agent_Start fuel (new_agent config []) = (Returned (Ok tt), l') →
      main_run (mkMain Waiting [] 0) hs m → m.(mn_phase) = Exited code →
      agentRun discovered fuel config hs
        (if code =? 0 then Ok tt else Err (ErrOther ("Exit status: " +:+ pretty code))).

(** What asks the agent to stop. *)
#[local] Instance happening_eq_dec : EqDecision happening.
Proof. intros [[]| | | |x] [[]| | | |y]; try (by left); try (by right). destruct (decide (x = y)); [left|right]; congruence. Defined.
Definition asked (h : happening) : Prop := h = Arrives Interrupt ∨ h = Arrives SIGTERM ∨ h = ShutdownClosed.
#[local] Instance asked_dec h : Decision (asked h).
Proof. unfold asked. apply _. Defined.

(** A process that was not asked waits with nothing but [SIGHUP] to take, or has failed. *)
Definition unasked (m : Main) : Prop :=
  (m.(mn_phase) = Waiting ∧ Forall (λ s, s = SIGHUP) m.(mn_queue)) ∨ m.(mn_phase) = Exited 1.

Lemma unasked_step m h m' : main_step m h m' → ¬ asked h → unasked m → unasked m'.
Proof.
  intros Hs Ha Hu. unfold asked in Ha. unfold unasked in *.
  inversion Hs; subst; simpl in *; destruct Hu as [[? Hq]|?]; simplify_eq; try naive_solver.
  - left. split; [done|]. case_bool_decide; [|done]. apply Forall_app_2; [done|].
    constructor; [|done]. destruct s; naive_solver.
  - left. split; [done|]. by apply Forall_cons in Hq as [_ ?].
  - by apply Forall_cons in Hq as [-> _].
Qed.

Lemma unasked_run hs m m' : main_run m hs m' → Forall (λ h, ¬ asked h) hs → unasked m → unasked m'.
Proof. induction 1; rewrite ?Forall_cons; naive_solver eauto using unasked_step. Qed.

(** C19: the end of an agent.  The [agent] command returns without an error only when its
    plugins were found, the agent was started, something asked it to stop (an interrupt, a
    termination or the closing of the shutdown channel), and the running jobs were counted
    and none was left.  Once it has been asked, it does not return as long as each count
    finds a job, whatever signals come. *)
Theorem agentRun_exit {P} (discovered : res P) fuel config hs :
  (agentRun discovered fuel config hs (Ok tt) →
     (∃ p, discovered = Ok p) ∧ (∃ l', agent_Start fuel (new_agent config []) = (Returned (Ok tt), l')) ∧
     Exists asked hs ∧ ∃ k, Counted k ∈ hs ∧ k < 1) ∧
  (∀ q n m, main_run (mkMain Draining q n) hs m → (∀ k, Counted k ∈ hs → 1 ≤ k) →
     m.(mn_phase) = Draining).
Proof.
  split; [|intros; by eapply drain_waits]. intros H.
  inversion H as [| ? ? ? Hd Hst Hne |p l' ? m code Hd Hst Hm Hx Hs]; subst; [done|].
  destruct (code =? 0) eqn:Ec; [|done]. apply Z.eqb_eq in Ec. subst code.
  split_and!; [by eexists|by eexists| |by eapply exit_zero].
  destruct (decide (Exists asked hs)) as [|Hn]; [done|]. exfalso.
  apply not_Exists_Forall in Hn; [|apply _].
  destruct (unasked_run _ _ _ Hm Hn) as [[? _]|?]; [by left|congruence..].
Qed.
End Leave.

(** ** Examples *)
Module CommandsExample.
Import ClusterExample ConfigExample.

Lemma remove_peer_spec_witness :
  (raftRemovePeerCmd (RS:=ToyResolver) (λ _, None) "10.0.0.1:6868" "node3" agent0).1 = Ok "Peer removed" ∧
  raftListCmd (RS:=ToyResolver) (λ _, None) "10.0.0.1:6868"
    (raftRemovePeerCmd (RS:=ToyResolver) (λ _, None) "10.0.0.1:6868" "node3" agent0).2
  = Ok ["Node|ID|Address|State|Voter"; "node1|node1|10.0.0.1:6868|leader|true";
        "(unknown)|node2|10.0.0.9:6868|follower|true"].
Proof.
  destruct (raftRemovePeerCmd (RS:=ToyResolver) (λ _, None) "10.0.0.1:6868" "node3" agent0) as [out a'] eqn:E.
  destruct (remove_peer_spec (RS:=ToyResolver) (λ _, None) "10.0.0.1:6868" "10.0.0.1:6868" "node3" agent0
    raft0.(t_servers) out a') as (_ & H1 & H2).
  - vm_compute. reflexivity.
  - reflexivity.
  - refine (bool_decide_unpack _ _). vm_compute. exact I.
  - reflexivity.
  - exact E.
  - assert (out = Ok "Peer removed") as Ho.
    { rewrite H1 by (refine (bool_decide_unpack _ _); vm_compute; exact I). vm_compute. reflexivity. }
    split; [exact Ho|]. destruct (H2 Ho) as (_ & _ & H3).
    assert (a' = (raftRemovePeerCmd (RS:=ToyResolver) (λ _, None) "10.0.0.1:6868" "node3" agent0).2) as Ea
      by (rewrite E; reflexivity).
    destruct (H3 a'.(a_raft).(t_servers) eq_refl) as (_ & H4 & _).
    etransitivity; [exact H4|]. subst a'. vm_compute. reflexivity.
Defined.

(** A server that gets a termination while a job runs. *)
Example clean_exit :
  agentRun (CE:=SchedulerExample.ToyEngine) (HO:=LifeExample.ToyHost) (Ok tt) 2 LifeExample.lone
    [Arrives SIGHUP; Taken; Arrives SIGTERM; Taken; Counted 1; Counted 0] (Ok tt).
Proof.
  destruct (agent_Start (CE:=SchedulerExample.ToyEngine) (HO:=LifeExample.ToyHost) 2
    (new_agent LifeExample.lone [])) as [r l'] eqn:E.
  assert (r = Returned (Ok tt)) as -> by (apply (f_equal fst) in E; vm_compute in E; by symmetry).
  change (Ok tt) with (if 0 =? 0 then Ok tt else Err (ErrOther ("Exit status: " +:+ pretty 0))) at 2.
  eapply (run_exit _ _ _ tt l' _ (mkMain (Exited 0) [] 1)); [reflexivity|exact E| |reflexivity].
  apply (main_run_cons _ _ (mkMain Waiting [SIGHUP] 0)); [exact (step_arrives Waiting [] 0 SIGHUP)|].
  apply (main_run_cons _ _ (mkMain Waiting [] 1)); [apply step_reload|].
  apply (main_run_cons _ _ (mkMain Waiting [SIGTERM] 1)); [exact (step_arrives Waiting [] 1 SIGTERM)|].
  apply (main_run_cons _ _ (mkMain Draining [] 1)); [by apply step_stop|].
  apply (main_run_cons _ _ (mkMain Draining [] 1)); [by apply step_busy|].
  apply (main_run_cons _ _ (mkMain (Exited 0) [] 1)); [apply step_done; [lia|by left]|]. constructor.
Qed.
End CommandsExample.
