(* ===== verification/Threads.v ===== *)
(** * Threads: handlers that interleave

    A handler of a server runs in a goroutine of its own.  Here a goroutine is a program
    whose actions are the accesses to the shared state, each of them atomic; a schedule
    says which thread takes the next action.  Run alone, a program is a program of the
    monad [M]; a program is verified under the interference of the others by what the
    others are known to respect (rely) and what it respects itself (guarantee). *)
From Stdlib Require Import ZArith Lia.
From stdpp Require Import base list numbers strings relations.
From S2P Require Import Prelude GoStrings.

(** A thread: it is over with a result, or takes an action and goes on with its result. *)
Inductive prog (S A : Type) : Type :=
  | Done (r : res A)
  | Act {B : Type} (m : M S B) (k : res B → prog S A).
Arguments Done {S A} r.
Arguments Act {S A B} m k.

Section Programs.
Context {S : Type}.

Definition retP {A} (a : A) : prog S A := Done (Ok a).
Definition liftP {A} (r : res A) : prog S A := Done r.
Definition act {A} (m : M S A) : prog S A := Act m Done.

Fixpoint bindP {A B} (p : prog S A) (k : A → prog S B) : prog S B :=
  match p with
  | Done (Ok a) => k a
  | Done (Err e) => Done (Err e)
  | Done (Crash w) => Done (Crash w)
  | Act m k' => Act m (λ r, bindP (k' r) k)
  end.

(** The error kept as a value. *)
Fixpoint tryP {A} (p : prog S A) : prog S (A + error) :=
  match p with
  | Done (Ok a) => Done (Ok (inl a))
  | Done (Err e) => Done (Ok (inr e))
  | Done (Crash w) => Done (Crash w)
  | Act m k => Act m (λ r, tryP (k r))
  end.

(** An error with a text before it. *)
Fixpoint wrapP {A} (prefix : string) (p : prog S A) : prog S A :=
  match p with
  | Done (Err e) => Done (Err (ErrOther (prefix +:+ ": " +:+ Error e)))
  | Done r => Done r
  | Act m k => Act m (λ r, wrapP prefix (k r))
  end.

(** ** Alone *)

Fixpoint alone {A} (p : prog S A) : M S A := λ s,
  match p with
  | Done r => (r, s)
  | Act m k => let '(r, s') := m s in alone (k r) s'
  end.

Lemma alone_bind {A B} (p : prog S A) (k : A → prog S B) s :
  alone (bindP p k) s = bindM (alone p) (λ a, alone (k a)) s.
Proof.
  revert s. induction p as [[a|e|w]|C m k' IH]; intros s; [done..|]. simpl.
  destruct (m s) as [r s'] eqn:E. rewrite IH. unfold bindM. simpl. by rewrite E.
Qed.

Lemma alone_try {A} (p : prog S A) s : alone (tryP p) s = tryM (alone p) s.
Proof.
  revert s. induction p as [[a|e|w]|C m k' IH]; intros s; [done..|]. simpl.
  destruct (m s) as [r s'] eqn:E. rewrite IH. unfold tryM. simpl. by rewrite E.
Qed.

Lemma alone_act {A} (m : M S A) s : alone (act m) s = m s.
Proof. simpl. by destruct (m s). Qed.

(** ** Schedules *)

(** The state and the threads; [turn i] lets the thread [i] take its next action, if it
    has one. *)
Definition turn {A} (i : nat) (st : S * list (prog S A)) : S * list (prog S A) :=
  match st.2 !! i with
  | Some (Act m k) => let '(r, s') := m st.1 in (s', <[i := k r]> st.2)
  | _ => st
  end.

Definition sched {A} (turns : list nat) (st : S * list (prog S A)) : S * list (prog S A) :=
  foldl (λ st i, turn i st) st turns.

Lemma sched_app {A} ts1 ts2 (st : S * list (prog S A)) : sched (ts1 ++ ts2) st = sched ts2 (sched ts1 st).
Proof. apply foldl_app. Qed.

(** Threads never come or go. *)
Lemma sched_length {A} turns (st : S * list (prog S A)) : length (sched turns st).2 = length st.2.
Proof.
  revert st. induction turns as [|i turns IH]; intros st; [done|]. simpl. rewrite IH. unfold turn.
  destruct (st.2 !! i) as [[r|B m k]|]; [done| |done]. destruct (m st.1). apply length_insert.
Qed.

(** ** Rely and guarantee *)

(** [Inv] holds between actions, every action moves the state along [Rel], and what a thread
    knows of the state is stable under [Rel]. *)
Context (Inv : S → Prop) (Rel : S → S → Prop) `{!PreOrder Rel}.

(** A thread that may rely on [Rel] since the state [s], guarantees [Inv] and [Rel], and
    ends with [Q]. *)
Fixpoint ok {A} (Q : res A → S → Prop) (p : prog S A) (s : S) : Prop :=
  match p with
  | Done r => ∀ s', Rel s s' → Inv s' → Q r s'
  | Act m k => ∀ s1, Rel s s1 → Inv s1 →
      Inv (m s1).2 ∧ Rel s1 (m s1).2 ∧ ok Q (k (m s1).1) (m s1).2
  end.

Lemma ok_stable {A} Q (p : prog S A) s s' : ok Q p s → Rel s s' → ok Q p s'.
Proof. destruct p; simpl; intros H HR s1 HR1; apply H; by trans s'. Qed.

Lemma ok_mono {A} (Q Q' : res A → S → Prop) p s :
  ok Q p s → (∀ r s', Rel s s' → Inv s' → Q r s' → Q' r s') → ok Q' p s.
Proof.
  revert s. induction p as [r|B m k IH]; simpl; intros s H HQ.
  - intros s' HR HI. by apply HQ, H.
  - intros s1 HR HI. destruct (H s1 HR HI) as (H1 & H2 & H3). split_and!; [done..|].
    apply IH; [done|]. intros r s' ? ?. apply HQ; [|done]. by repeat (etrans; [done|]).
Qed.

Lemma ok_ret {A} (Q : res A → S → Prop) r s : (∀ s', Rel s s' → Inv s' → Q r s') → ok Q (Done r) s.
Proof. done. Qed.

Lemma ok_bind {A B} (Q : res A → S → Prop) (Q' : res B → S → Prop) p k s :
  ok Q p s →
  (∀ a s', Rel s s' → (∀ s1, Rel s' s1 → Inv s1 → Q (Ok a) s1) → ok Q' (k a) s') →
  (∀ e s', Rel s s' → Inv s' → Q (Err e) s' → Q' (Err e) s') →
  (∀ w s', Rel s s' → Inv s' → Q (Crash w) s' → Q' (Crash w) s') →
  ok Q' (bindP p k) s.
Proof.
  revert s. induction p as [[a|e|w]|C m k' IH]; simpl; intros s H Ha He Hw.
  - by apply Ha.
  - intros s' HR HI. by apply He, H.
  - intros s' HR HI. by apply Hw, H.
  - intros s1 HR HI. destruct (H s1 HR HI) as (H1 & H2 & H3). split_and!; [done..|].
    assert (Rel s (m s1).2) as HR2 by (by trans s1).
    apply IH; [done|..]; intros; [apply Ha|apply He|apply Hw]; try done; by trans (m s1).2.
Qed.

Lemma ok_try {A} (Q : res A → S → Prop) (Q' : res (A + error) → S → Prop) p s :
  ok Q p s →
  (∀ r s', Rel s s' → Inv s' → Q r s' →
     Q' (match r with Ok a => Ok (inl a) | Err e => Ok (inr e) | Crash w => Crash w end) s') →
  ok Q' (tryP p) s.
Proof.
  revert s. induction p as [[a|e|w]|C m k' IH]; simpl; intros s H HQ.
  1-3: intros s' HR HI; exact (HQ _ s' HR HI (H s' HR HI)).
  intros s1 HR HI. destruct (H s1 HR HI) as (H1 & H2 & H3). split_and!; [done..|].
  apply IH; [done|]. intros r s' ? ?. apply HQ; [|done]. by repeat (etrans; [done|]).
Qed.

Lemma ok_wrap {A} prefix (Q Q' : res A → S → Prop) p s :
  ok Q p s →
  (∀ r s', Rel s s' → Inv s' → Q r s' →
     Q' (match r with Err e => Err (ErrOther (prefix +:+ ": " +:+ Error e)) | _ => r end) s') →
  ok Q' (wrapP prefix p) s.
Proof.
  revert s. induction p as [[a|e|w]|C m k' IH]; simpl; intros s H HQ.
  1-3: intros s' HR HI; exact (HQ _ s' HR HI (H s' HR HI)).
  intros s1 HR HI. destruct (H s1 HR HI) as (H1 & H2 & H3). split_and!; [done..|].
  apply IH; [done|]. intros r s' ? ?. apply HQ; [|done]. by repeat (etrans; [done|]).
Qed.

(** All threads are verified. *)
Definition all_ok {A} (Q : nat → res A → S → Prop) (st : S * list (prog S A)) : Prop :=
  Inv st.1 ∧ ∀ i p, st.2 !! i = Some p → ok (Q i) p st.1.

Lemma turn_ok {A} (Q : nat → res A → S → Prop) j st :
  all_ok Q st → all_ok Q (turn j st) ∧ Rel st.1 (turn j st).1.
Proof.
  destruct st as [s ts]. intros [HI Hok]. unfold turn. cbn [fst snd] in *.
  destruct (ts !! j) as [[r|B m k]|] eqn:Ej; [by split|..|by split].
  destruct (Hok j _ Ej s) as (H1 & H2 & H3); [reflexivity|done|].
  destruct (m s) as [r s'] eqn:Em. cbn [fst snd] in *. split; [|done]. split; [done|].
  cbn [fst snd]. intros i p Hp. destruct (decide (i = j)) as [->|Hne].
  - rewrite list_lookup_insert_eq in Hp by by eapply lookup_lt_Some. by injection Hp as <-.
  - rewrite list_lookup_insert_ne in Hp by done. by eapply ok_stable; [apply Hok|].
Qed.

(** Threads that are each verified under the interference of the others keep the
    invariant and the relation along every schedule, and the threads that are over end as
    they should. *)
Lemma sched_ok {A} (Q : nat → res A → S → Prop) turns st :
  all_ok Q st → all_ok Q (sched turns st) ∧ Rel st.1 (sched turns st).1.
Proof.
  revert st. induction turns as [|j turns IH]; intros st H; [done|].
  destruct (turn_ok Q j st H) as [H1 H2]. destruct (IH _ H1) as [H3 H4].
  split; [exact H3|]. by trans (turn j st).1.
Qed.

(** A thread that is over. *)
Lemma ok_done {A} (Q : res A → S → Prop) r s : Inv s → ok Q (Done r) s → Q r s.
Proof. intros HI H. by apply H. Qed.
End Programs.

(** ** What threads spend *)

(** A measure of the state that a thread increases by exactly [k] if it ends without an
    error, and by at most [k] otherwise, whatever happens between its actions. *)
Section Spending.
Context {S : Type} (μ : S → nat).

Fixpoint spends {A} (p : prog S A) (k : nat) : Prop :=
  match p with
  | Done (Ok _) => k = 0%nat
  | Done _ => True
  | Act m f => ∀ s, ∃ k1, (k1 ≤ k)%nat ∧ (μ (m s).2 + k1 = μ s + k)%nat ∧ spends (f (m s).1) k1
  end.

Lemma spends_act {A} (m : M S A) : (∀ s, μ (m s).2 = μ s) → spends (act m) 0.
Proof.
  intros Hm s. exists O. rewrite Hm. split_and!; [lia|lia|]. simpl. by destruct (m s).1.
Qed.

Lemma spends_bind {A B} (p : prog S A) (f : A → prog S B) k l :
  spends p k → (∀ a, spends (f a) l) → spends (bindP p f) (k + l).
Proof.
  revert k. induction p as [[a|e|w]|C m g IH]; simpl; intros k Hp Hf.
  - subst k. apply Hf.
  - done.
  - done.
  - intros s. destruct (Hp s) as (k1 & Hk & Hm & Hg). exists (k1 + l)%nat.
    split_and!; [lia|lia|by apply IH].
Qed.

Lemma spends_bind_first {A B} (p : prog S A) (f : A → prog S B) k :
  spends p k → (∀ a, spends (f a) 0) → spends (bindP p f) k.
Proof. intros Hp Hf. rewrite <- (Nat.add_0_r k). by apply spends_bind. Qed.

Lemma spends_bind_rest {A B} (p : prog S A) (f : A → prog S B) k :
  spends p 0 → (∀ a, spends (f a) k) → spends (bindP p f) k.
Proof. intros Hp Hf. by apply (spends_bind p f 0). Qed.

(** A thread that spends nothing may be tried. *)
Lemma spends_try {A} (p : prog S A) : spends p 0 → spends (tryP p) 0.
Proof.
  induction p as [[a|e|w]|C m g IH]; simpl; intros Hp; [done..|].
  intros s. destruct (Hp s) as (k1 & Hk & Hm & Hg). exists k1. split_and!; [done..|].
  assert (k1 = 0)%nat as -> by lia. by apply IH.
Qed.

Lemma spends_wrap {A} prefix (p : prog S A) k : spends p k → spends (wrapP prefix p) k.
Proof.
  revert k. induction p as [[a|e|w]|C m g IH]; simpl; intros k Hp; [done..|].
  intros s. destruct (Hp s) as (k1 & Hk & Hm & Hg). exists k1. split_and!; [done..|by apply IH].
Qed.

(** What all threads spend is what the measure grows by, once they are over. *)
Lemma turn_spends {A} i (st : S * list (prog S A)) ks :
  Forall2 spends st.2 ks →
  ∃ ks', Forall2 spends (turn i st).2 ks' ∧ (μ (turn i st).1 + sum_list ks' = μ st.1 + sum_list ks)%nat.
Proof.
  intros HF. destruct st as [s ts]. unfold turn. cbn [fst snd] in *.
  destruct (ts !! i) as [[r|B m f]|] eqn:Ei; [by exists ks| |by exists ks].
  destruct (Forall2_lookup_l _ _ _ _ _ HF Ei) as (k & Hk & Hs). destruct (Hs s) as (k1 & H1 & Hm & Hf).
  destruct (m s) as [r s'] eqn:Em. cbn [fst snd] in *. exists (<[i := k1]> ks).
  split; [by apply Forall2_insert|]. clear - Hm Hk.
  revert ks Hk. induction i as [|i IH]; intros [|k0 ks] Hk; simplify_eq/=; [lia|].
  specialize (IH ks Hk). lia.
Qed.

Lemma sched_spends {A} turns (st : S * list (prog S A)) ks :
  Forall2 spends st.2 ks →
  ∃ ks', Forall2 spends (sched turns st).2 ks' ∧ (μ (sched turns st).1 + sum_list ks' = μ st.1 + sum_list ks)%nat.
Proof.
  revert st ks. induction turns as [|i turns IH]; intros st ks HF; [by exists ks|]. simpl.
  destruct (turn_spends i st ks HF) as (ks1 & H1 & E1). destruct (IH _ _ H1) as (ks2 & H2 & E2).
  exists ks2. split; [done|]. unfold sched in *. lia.
Qed.

Lemma sched_spent {A} turns (st : S * list (prog S A)) ks :
  Forall2 spends st.2 ks → Forall (λ p, ∃ a, p = Done (Ok a)) (sched turns st).2 →
  μ (sched turns st).1 = (μ st.1 + sum_list ks)%nat.
Proof.
  intros HF Hd. destruct (sched_spends turns st ks HF) as (ks' & H1 & <-).
  assert (sum_list ks' = 0)%nat as ->; [|lia].
  revert Hd. induction H1 as [|p k ps ks' Hp _ IH]; intros Hd; [done|].
  apply Forall_cons in Hd as [[a ->] Hd]. simpl in *. rewrite IH by done. lia.
Qed.
End Spending.

Create Rewrite HintDb threads.
#[export] Hint Rewrite @alone_bind @alone_try @alone_act : threads.

Declare Scope prog_scope.
Delimit Scope prog_scope with prog.
Notation "x <- p ;; k" := (bindP p (λ x, k))
  (at level 60, p at next level, right associativity) : prog_scope.
Notation "p ;;; k" := (bindP p (λ _, k)) (at level 60, right associativity) : prog_scope.
