(* ===== verification/Handlers.v ===== *)
(** * The handlers of a server as threads

    The handlers of [Server] ([dkron/grpc.go], [dkron/run.go], [dkron/api.go]) split at their
    accesses to what the goroutines of a server share: a transaction of the store, an entry
    of the raft log (which the state machine applies one after the other), a look at the
    scheduler or at serf, a call to another node.  The state also records the commands of
    the log that were applied.  Run alone, each is the handler of [Server]. *)
From Stdlib Require Import ZArith Lia.
From stdpp Require Import base list gmap strings pretty.
From S2P Require Import Prelude GoStrings GoNet GoTime Pb NTime ExtCron Execution Job BuntDB Store.
From S2P Require Import Instances Scheduler Fsm Config Cluster Leader Targets Notifier Server Threads.

#[local] Open Scope Z_scope.

Section Handlers.
Context {VS : Versions} {R : Type} {RF : Raft R} {WD : World R} {IS : Intersect} {DL : Delivery}.
Context {db : Type} {BDB : BuntDB db} {PT : Ptypes} {PB : Proto} {CP : CronParser}
        {CE : CronEngine} {UC : Unicode} {TZ : Locations} {SO : Sorting}.
#[local] Abbreviation Server := (Srv (R:=R) (db:=db)).

(** A server with the commands that its state machine has applied, and when. *)
Definition Logged : Type := Server * list (time * command).
Definition thread : Type → Type := prog Logged.

(** An action on the server alone, and a command: it is encoded, appended and applied. *)
Definition on_server {A} (m : M Server A) : M Logged A := λ '(s, g),
  let '(r, s') := m s in (r, (s', g)).
Definition commit (now : time) (c : command) (data : string) : M Logged response := λ '(s, g),
  let '(r, s') := raft_Apply now data s in
  (r, (s', match r with Ok _ => g ++ [(now, c)] | _ => g end)).
Definition look {A} (m : M Server A) : thread A := act (on_server m).
Definition apply_command (now : time) (c : command) : thread response :=
  bindP (liftP (encode_command c)) (λ data, act (commit now c data)).
Definition read_job (name : string) : thread Job := look (on_node (on_db (GetJob name))).

#[local] Open Scope prog_scope.

(** [applySetJob(job)] of the agent *)
Definition applySetJob_thread (now : time) (job : pbJob) : thread unit :=
  res <- apply_command now (CmdSetJob job) ;;
  match res with
  | RespErr ErrParentJobNotFound => liftP (Err ErrParentJobNotFound)
  | RespErr ErrSameParent => liftP (Err ErrParentJobNotFound)
  | _ => retP tt
  end.

(** The calls of [Run] to the nodes. *)
Fixpoint call_nodes_thread (job : pbJob) (ex : pbExecution) (addrs : list string) : thread unit :=
  match addrs with
  | [] => retP tt
  | addr :: addrs' =>
      tryP (look (make_call (CallAgentRun addr job ex))) ;;; call_nodes_thread job ex addrs'
  end.

(** [Run(jobName, ex)] *)
Definition Run_thread (now : time) (ch : Choices) (jobName : string) (ex : Execution) : thread Job :=
  job <- wrapP ("agent: Run error retrieving job: " +:+ jobName +:+ " from store") (read_job jobName) ;;
  job <- (if bool_decide (job.(Job_ParentJob) = "") then
            e <- look (λ s, (GetEntry jobName s.(s_node).(n_sched), s)) ;;
            match e with
            | Some e =>
                let job := set_Next e.(Entry_Next) job in
                wrapP ("agent: Run error storing job " +:+ jobName +:+ " before running")
                  (applySetJob_thread now (Job_ToProto job)) ;;;
                retP job
            | None => liftP (Err (ErrOther ("agent: Run error retrieving job: " +:+ jobName
                                              +:+ " from scheduler")))
            end
          else retP job) ;;
  filterMap <- look (λ s, (target_nodes ch job ex (s_agent s), s)) ;;
  if bool_decide (filterMap = ∅)
  then liftP (Err (ErrOther ("no target nodes found to run job " +:+ ex.(Ex_JobName))))
  else
    call_nodes_thread (Job_ToProto job) (Execution_ToProto ex) (map_to_list filterMap).*2 ;;;
    retP job.

(** [(j *Job) Run()]: the executions of the region are looked at first. *)
Definition Job_Run_thread (now : time) (ch : Choices) (j : Job) : thread unit :=
  runnable <- look (λ s, (Ok (isRunnable GlobalLock (GetActiveExecutions (s_agent s)) j), s)) ;;
  if (runnable : bool)
  then tryP (Run_thread now ch j.(Job_Name) (NewExecution now j.(Job_Name))) ;;; retP tt
  else retP tt.

(** [SetJob(ctx, setJobReq)] and [DeleteJob(ctx, delJobReq)] *)
Definition SetJob_thread (now : time) (pj : pbJob) : thread unit :=
  applySetJob_thread now pj ;;;
  look (on_node (on_sched (AddJob (NewJobFromProto pj)))).

Definition DeleteJob_thread (now : time) (jobName : string) : thread pbJob :=
  res <- apply_command now (CmdDeleteJob jobName) ;;
  match res with
  | RespJob job =>
      let jpb := Job_ToProto job in
      look (on_node (on_sched (RemoveJob job))) ;;; retP jpb
  | _ => liftP (Err (ErrOther ("grpc: Error wrong response from apply in DeleteJob: "
                                 +:+ response_text res)))
  end.

(** The loop over the dependent jobs. *)
Fixpoint run_dependents_thread (now : time) (ch : Choices) (djs : list string) : thread unit :=
  match djs with
  | [] => retP tt
  | djn :: djs' =>
      dj <- tryP (read_job djn) ;;
      match dj with
      | inr _ => liftP (Crash "nil pointer dereference")
      | inl dj => Job_Run_thread now ch dj ;;; run_dependents_thread now ch djs'
      end
  end.

(** [ExecutionDone(ctx, execDoneReq)], after the fresh job was read. *)
Definition done_thread (now : time) (ch : Choices) (c : Config) (pbex : pbExecution) (job : Job) :
    thread string :=
  let execution := NewExecutionFromProto pbex in
  if negb execution.(Ex_Success) && (execution.(Ex_Attempt) <? job.(Job_Retries) + 1) then
    Run_thread now ch job.(Job_Name) (next_attempt execution) ;;; retP "retry"
  else
    exg <- look (on_node (on_db (GetExecutionGroup execution))) ;;
    look (on_outbox (Send (Notification c execution exg job))) ;;;
    (if bool_decide (job.(Job_DependentJobs) ≠ []) && bool_decide (job.(Job_Status) = StatusSuccess)
     then run_dependents_thread now ch job.(Job_DependentJobs) else retP tt) ;;;
    retP "saved".

Definition ExecutionDone_thread (now : time) (ch : Choices) (pbex : pbExecution) : thread string :=
  s <- look getM ;;
  if negb (IsLeader (s_agent s)) then
    tryP (look (make_call (CallExecutionDone (raft_Leader (s_agent s).(a_raft))
                             (NewExecutionFromProto pbex)))) ;;;
    liftP (Err ErrNotLeader)
  else
    job <- read_job pbex.(pbEx_JobName) ;;
    pbex <- liftP (run_processors (s_config s).(NodeName) (map_to_list job.(Job_Processors)) pbex) ;;
    apply_command now (CmdExecutionDone pbex) ;;;
    fresh <- tryP (read_job job.(Job_Name)) ;;
    match fresh with
    | inr _ => liftP (Crash "nil pointer dereference")
    | inl job => done_thread now ch (s_config s) pbex job
    end.

(** [SetExecution(ctx, execution)] *)
Definition SetExecution_thread (now : time) (pbex : pbExecution) : thread unit :=
  r <- tryP (apply_command now (CmdSetExecution pbex)) ;;
  match r with
  | inl _ => retP tt
  | inr e => liftP (Crash (Error e))
  end.

(** The part of [jobToggleHandler(c)] that reads a job, flips it and sets it, on the
    leader. *)
Definition toggle_thread (now : time) (jobName : string) : thread unit :=
  job <- read_job jobName ;;
  SetJob_thread now (Job_ToProto (set_Disabled (negb job.(Job_Disabled)) job)).

#[local] Close Scope prog_scope.

(** ** Run alone *)

(** A thread that has the server to itself does what the handler does. *)
Definition erases {A} (p : thread A) (m : M Server A) : Prop :=
  ∀ s g, m s = ((alone p (s, g)).1, (alone p (s, g)).2.1).

Lemma erases_done {A} (r : res A) : erases (Done r) (liftM r).
Proof. by intros s g. Qed.
Lemma erases_ret {A} (a : A) : erases (retP a) (retM a).
Proof. by intros s g. Qed.
Lemma erases_err {A} e : erases (liftP (A:=A) (Err e)) (errM e).
Proof. by intros s g. Qed.
Lemma erases_crash {A} w : erases (liftP (A:=A) (Crash w)) (crashM w).
Proof. by intros s g. Qed.
Lemma erases_look {A} (m : M Server A) : erases (look m) m.
Proof. intros s g. unfold look. rewrite alone_act. simpl. by destruct (m s). Qed.

Lemma erases_bind {A B} (p : thread A) m (k : A → thread B) k' :
  erases p m → (∀ a, erases (k a) (k' a)) → erases (bindP p k) (bindM m k').
Proof.
  intros Hp Hk s g. rewrite alone_bind. unfold bindM. rewrite (Hp s g).
  destruct (alone p (s, g)) as [[a|e|w] [s' g']]; [|done..]. apply Hk.
Qed.

Lemma erases_bind_look {A B} (f : Server → A) (k : A → thread B) k' :
  (∀ a, erases (k a) (k' a)) →
  erases (bindP (look (λ s, (Ok (f s), s))) k) (bindM getM (λ s, k' (f s))).
Proof. intros Hk s g. rewrite alone_bind. unfold bindM, getM, look. rewrite alone_act. simpl. apply Hk. Qed.

Lemma erases_bind_liftM {A B} (f : Server → res A) (k : A → thread B) k' :
  (∀ a, erases (k a) (k' a)) →
  erases (bindP (look (λ s, (f s, s))) k) (bindM getM (λ s, bindM (liftM (f s)) k')).
Proof.
  intros Hk s g. rewrite alone_bind. unfold bindM, getM, liftM, look. rewrite alone_act. simpl.
  destruct (f s); [apply Hk|done..].
Qed.

Lemma erases_try {A} (p : thread A) m : erases p m → erases (tryP p) (tryM m).
Proof.
  intros Hp s g. rewrite alone_try. unfold tryM. rewrite (Hp s g).
  by destruct (alone p (s, g)) as [[] [? ?]].
Qed.

Lemma alone_wrap {A} prefix (p : thread A) st :
  alone (wrapP prefix p) st =
  match alone p st with
  | (Err e, st') => (Err (ErrOther (prefix +:+ ": " +:+ Error e)), st')
  | r => r
  end.
Proof.
  revert st. induction p as [[a|e|w]|C m k' IH]; intros st; [done..|]. simpl.
  destruct (m st) as [r st']. apply IH.
Qed.

Lemma erases_wrap {A} prefix (p : thread A) m : erases p m → erases (wrapP prefix p) (wrapM prefix m).
Proof.
  intros Hp s g. rewrite alone_wrap. unfold wrapM. rewrite (Hp s g).
  by destruct (alone p (s, g)) as [[] [? ?]].
Qed.

Lemma erases_command {A} now c (k : response → thread A) k' :
  (∀ r, erases (k r) (k' r)) →
  erases (bindP (apply_command now c) k)
    (bindM (liftM (encode_command c)) (λ cmd, bindM (raft_Apply now cmd) k')).
Proof.
  intros Hk s g. rewrite alone_bind. unfold apply_command, liftP, bindM, liftM.
  destruct (encode_command c) as [data|e|w]; [|done..]. simpl.
  destruct (raft_Apply now data s) as [[r|e|w] s']; [|done..]. apply Hk.
Qed.

Lemma erases_command_last now c :
  erases (apply_command now c) (bindM (liftM (encode_command c)) (raft_Apply now)).
Proof.
  intros s g. unfold apply_command, liftP, bindM, liftM.
  destruct (encode_command c) as [data|e|w]; [|done..]. simpl.
  by destruct (raft_Apply now data s) as [[] ?].
Qed.

Lemma erases_if {A} (b : bool) (p q : thread A) m n :
  erases p m → erases q n → erases (if b then p else q) (if b then m else n).
Proof. by destruct b. Qed.

(** The rule for the shape of the handler. *)
Ltac erase_step :=
  lazymatch goal with
  | |- erases (retP _) _ => apply erases_ret
  | |- erases (liftP (Err _)) _ => apply erases_err
  | |- erases (liftP (Crash _)) _ => apply erases_crash
  | |- erases (liftP _) _ => apply erases_done
  | |- erases (look _) _ => apply erases_look
  | |- erases (read_job _) _ => apply erases_look
  | |- erases (tryP _) _ => apply erases_try
  | |- erases (wrapP _ _) _ => apply erases_wrap
  | |- erases (bindP (apply_command _ _) _) _ => apply erases_command; intros ?
  | |- erases (bindP (look (λ s, (GetEntry _ _, s))) _) _ =>
      apply (erases_bind_liftM (λ s, GetEntry _ s.(s_node).(n_sched))); intros ?
  | |- erases (bindP (look (λ s, (target_nodes _ _ _ _, s))) _) _ =>
      apply (erases_bind_liftM (λ s, target_nodes _ _ _ (s_agent s))); intros ?
  | |- erases (bindP _ _) _ => apply erases_bind; [|intros ?]
  | |- erases (if _ then _ else _) _ => apply erases_if
  | |- erases (match ?x with _ => _ end) _ => destruct x
  end.

Lemma applySetJob_erases now pj : erases (applySetJob_thread now pj) (agent_applySetJob now pj).
Proof.
  unfold applySetJob_thread, agent_applySetJob.
  change (Encode SetJobType pj) with (encode_command (CmdSetJob pj)). repeat erase_step.
Qed.

Lemma call_nodes_erases pj pe addrs : erases (call_nodes_thread pj pe addrs) (call_nodes pj pe addrs).
Proof. induction addrs as [|a addrs IH]; cbn [call_nodes_thread call_nodes]; repeat erase_step. done. Qed.

Lemma Run_erases now ch name ex : erases (Run_thread now ch name ex) (Run now ch name ex).
Proof.
  unfold Run_thread, Run. repeat erase_step; [apply applySetJob_erases|apply call_nodes_erases].
Qed.

Lemma Job_Run_erases now ch j : erases (Job_Run_thread now ch j) (Job_Run now ch j).
Proof.
  assert (erases (Job_Run_thread now ch j)
    (bindM getM (λ s, if isRunnable GlobalLock (GetActiveExecutions (s_agent s)) j
       then tryM (Run now ch j.(Job_Name) (NewExecution now j.(Job_Name))) ;;; retM tt else retM tt))) as H.
  { unfold Job_Run_thread.
    apply (erases_bind_look (λ s, isRunnable GlobalLock (GetActiveExecutions (s_agent s)) j)
      _ (λ b : bool, if b then tryM (Run now ch j.(Job_Name) (NewExecution now j.(Job_Name))) ;;; retM tt else retM tt)).
    intros b. repeat erase_step. apply Run_erases. }
  intros s g. rewrite <- H. unfold Job_Run, bindM at 2, getM. by case_match.
Qed.

Lemma SetJob_erases now pj : erases (SetJob_thread now pj) (grpc_SetJob now pj).
Proof. unfold SetJob_thread, grpc_SetJob. repeat erase_step. apply applySetJob_erases. Qed.

Lemma DeleteJob_erases now name : erases (DeleteJob_thread now name) (grpc_DeleteJob now name).
Proof.
  unfold DeleteJob_thread, grpc_DeleteJob.
  change (Encode DeleteJobType _) with (encode_command (CmdDeleteJob name)). repeat erase_step.
Qed.

Lemma run_dependents_erases now ch djs :
  erases (run_dependents_thread now ch djs) (run_dependents now ch djs).
Proof.
  induction djs as [|djn djs IH]; cbn [run_dependents_thread run_dependents]; repeat erase_step;
    [apply Job_Run_erases|exact IH].
Qed.

Lemma ExecutionDone_erases now ch pbex :
  erases (ExecutionDone_thread now ch pbex) (grpc_ExecutionDone now ch pbex).
Proof.
  unfold ExecutionDone_thread, grpc_ExecutionDone, done_thread.
  apply (erases_bind_look (λ s, s)). intros s.
  repeat erase_step; [apply Run_erases|apply run_dependents_erases].
Qed.

Lemma SetExecution_erases now pbex : erases (SetExecution_thread now pbex) (grpc_SetExecution now pbex).
Proof.
  unfold SetExecution_thread, grpc_SetExecution.
  change (Encode SetExecutionType pbex) with (encode_command (CmdSetExecution pbex)).
  apply erases_bind; [apply erases_try, erases_command_last|intros r]. repeat erase_step.
Qed.
End Handlers.
