(* ===== verification/Interleaving.v ===== *)
(** * Requests that interleave

    A server answers requests concurrently: the scheduler runs jobs while agents report the
    ends of executions and clients change jobs.  The threads of [Handlers] are interleaved
    by an arbitrary schedule.  What the threads may rely on is a discipline: an invariant
    of the server and its log, a relation along which every action moves it, and the commands
    that may be committed. *)
From Stdlib Require Import ZArith Lia.
From stdpp Require Import base list gmap strings pretty relations.
From S2P Require Import Prelude GoStrings GoNet GoTime Pb NTime ExtCron Execution Job BuntDB Store.
From S2P Require Import StoreSpec StoreRefine StoreExecs StoreProps StoreHistory Instances Scheduler Fsm.
From S2P Require Import Config Cluster Leader Targets Notifier Server ServerProps Threads Handlers.

#[local] Open Scope Z_scope.

Section Interleaving.
Context {VS : Versions} {R : Type} {RF : Raft R} {WD : World R} {IS : Intersect} {DL : Delivery}.
Context {db : Type} {BDB : BuntDB db} {PT : Ptypes} {PB : Proto} {CP : CronParser}
        {CE : CronEngine} {UC : Unicode} {TZ : Locations} {SO : Sorting}.
#[local] Abbreviation Server := (Srv (R:=R) (db:=db)).
#[local] Abbreviation State := (Logged (R:=R) (db:=db)).
#[local] Abbreviation Thread := (thread (R:=R) (db:=db)).
#[local] Abbreviation log := (list (time * command)).

(** ** Requests *)

(** What a server is asked, at the instant at which it is answered: by clients, by agents,
    and by the scheduler ([RunJob] with the executions that are looked at first). *)
Inductive request :=
  | ReqRun (now : time) (ch : Choices) (jobName : string) (ex : Execution)
  | ReqTick (now : time) (ch : Choices) (job : Job)
  | ReqSetJob (now : time) (pj : pbJob)
  | ReqToggle (now : time) (jobName : string)
  | ReqDeleteJob (now : time) (jobName : string)
  | ReqSetExecution (now : time) (pbex : pbExecution)
  | ReqExecutionDone (now : time) (ch : Choices) (pbex : pbExecution).

Definition request_thread (q : request) : Thread unit :=
  match q with
  | ReqRun now ch name ex => bindP (Run_thread now ch name ex) (λ _, retP tt)
  | ReqTick now ch job => Job_Run_thread now ch job
  | ReqSetJob now pj => SetJob_thread now pj
  | ReqToggle now name => toggle_thread now name
  | ReqDeleteJob now name => bindP (DeleteJob_thread now name) (λ _, retP tt)
  | ReqSetExecution now pbex => SetExecution_thread now pbex
  | ReqExecutionDone now ch pbex => bindP (ExecutionDone_thread now ch pbex) (λ _, retP tt)
  end.

(** The handlers of [Server], and what a toggle does on the leader. *)
Definition serve_request (q : request) : M Server unit :=
  match q with
  | ReqRun now ch name ex => Run now ch name ex ;;; retM tt
  | ReqTick now ch job => Job_Run now ch job
  | ReqSetJob now pj => grpc_SetJob now pj
  | ReqToggle now name =>
      job <- on_node (on_db (GetJob name)) ;;
      grpc_SetJob now (Job_ToProto (set_Disabled (negb job.(Job_Disabled)) job))
  | ReqDeleteJob now name => grpc_DeleteJob now name ;;; retM tt
  | ReqSetExecution now pbex => grpc_SetExecution now pbex
  | ReqExecutionDone now ch pbex => grpc_ExecutionDone now ch pbex ;;; retM tt
  end.

(** The threads are the handlers.  A request that has the server to itself is answered
    as the handler answers it, with the same server afterwards. *)
Lemma request_alone q : erases (request_thread q) (serve_request q).
Proof.
  destruct q; cbn [request_thread serve_request].
  - apply erases_bind; [apply Run_erases|intros ?; apply erases_ret].
  - apply Job_Run_erases.
  - apply SetJob_erases.
  - unfold toggle_thread. apply erases_bind; [apply erases_look|intros ?; apply SetJob_erases].
  - apply erases_bind; [apply DeleteJob_erases|intros ?; apply erases_ret].
  - apply SetExecution_erases.
  - apply erases_bind; [apply ExecutionDone_erases|intros ?; apply erases_ret].
Qed.

(** ** Disciplines *)

(** An invariant and a relation for the server and its log, and the commands that may be
    committed.  Actions that leave the store and the agent alone are allowed; so are the
    commands that a thread makes of a job that it has read. *)
Class Discipline := {
  Inv : State → Prop;
  Rel : State → State → Prop;
  may : command → State → Prop;
  Rel_preorder :: PreOrder Rel;
  Rel_log st st' : Rel st st' → st.2 `prefix_of` st'.2;
  may_stable c st st' : may c st → Rel st st' → Inv st' → may c st';
  aside_ok s s' g :
    Inv (s, g) → s_db s' = s_db s → s_agent s' = s_agent s → Inv (s', g) ∧ Rel (s, g) (s', g);
  commit_ok now c data st :
    Inv st → may c st → encode_command c = Ok data →
    Inv (commit now c data st).2 ∧ Rel st (commit now c data st).2;
  may_run name j t s g :
    Inv (s, g) → (GetJob name (s_db s)).1 = Ok j → may (CmdSetJob (Job_ToProto (set_Next t j))) (s, g);
  may_toggle name j b s g :
    Inv (s, g) → (GetJob name (s_db s)).1 = Ok j → may (CmdSetJob (Job_ToProto (set_Disabled b j))) (s, g)
}.

(** What a request brings must be allowed: for the end of an execution, what the processors
    make of it. *)
Definition request_ok `{!Discipline} (q : request) : Prop :=
  match q with
  | ReqSetJob _ pj => ∀ st, Inv st → may (CmdSetJob pj) st
  | ReqDeleteJob _ name => ∀ st, Inv st → may (CmdDeleteJob name) st
  | ReqSetExecution _ pbex => ∀ st, Inv st → may (CmdSetExecution pbex) st
  | ReqExecutionDone _ _ pbex => ∀ node procs pbex' st,
      run_processors node procs pbex = Ok pbex' → Inv st → may (CmdExecutionDone pbex') st
  | _ => True
  end.

(** What the log holds when a request was answered without an error. *)
Definition committed (q : request) (g : log) : Prop :=
  match q with
  | ReqSetJob now pj => (now, CmdSetJob pj) ∈ g
  | ReqDeleteJob now name => (now, CmdDeleteJob name) ∈ g
  | ReqSetExecution now pbex => (now, CmdSetExecution pbex) ∈ g
  | ReqExecutionDone now _ pbex => ∃ node procs pbex',
      run_processors node procs pbex = Ok pbex' ∧ (now, CmdExecutionDone pbex') ∈ g
  | _ => True
  end.

Section Verified.
Context {DC : Discipline}.
#[local] Abbreviation okay := (ok Inv Rel).

(** Any result. *)
Definition anything {A} (r : res A) (st : State) : Prop := True.

Lemma ok_done_any {A} (r : res A) st : okay anything (Done r) st.
Proof. by intros ? ? ?. Qed.

Lemma ok_bind_any {A B} Q (p : Thread A) (k : A → Thread B) st :
  okay Q p st →
  (∀ a st', Rel st st' → (∀ st1, Rel st' st1 → Inv st1 → Q (Ok a) st1) → okay anything (k a) st') →
  okay anything (bindP p k) st.
Proof. intros Hp Hk. by eapply (ok_bind Inv Rel); [exact Hp|exact Hk|..]. Qed.

(** A result without an error means that the command is in the log. *)
Definition recorded {A} (now : time) (c : command) (r : res A) (st : State) : Prop :=
  match r with Ok _ => (now, c) ∈ st.2 | _ => True end.

(** An action that leaves the store and the agent alone. *)
Definition aside {A} (m : M Server A) : Prop :=
  ∀ s, s_db (m s).2 = s_db s ∧ s_agent (m s).2 = s_agent s.

Lemma ok_look {A} (m : M Server A) (Q : res A → State → Prop) st :
  aside m →
  (∀ s g st', Rel st (s, g) → Inv (s, g) → Rel (s, g) st' → Inv st' → Q (m s).1 st') →
  okay Q (look m) st.
Proof.
  intros Ha HQ [s g] HR HI. destruct (Ha s) as [Hd Hg]. unfold on_server.
  destruct (m s) as [r s'] eqn:E. cbn [fst snd] in *.
  destruct (aside_ok s s' g HI Hd Hg) as [H1 H2]. split_and!; [done..|].
  intros st' HR' HI'. specialize (HQ s g st' HR HI). rewrite E in HQ. apply HQ; [|done]. by etrans.
Qed.

Lemma ok_look_any {A} (m : M Server A) st : aside m → okay anything (look m) st.
Proof. intros Ha. by apply ok_look. Qed.

Lemma ok_command now c st :
  (∀ st', Rel st st' → Inv st' → may c st') →
  okay (recorded now c) (apply_command now c) st.
Proof.
  intros Hm. unfold apply_command, liftP. destruct (encode_command c) as [data|e|w] eqn:E; [|done..].
  cbn [bindP act ok]. intros st1 HR HI. destruct (commit_ok now c data st1 HI (Hm _ HR HI) E) as [H1 H2].
  split_and!; [done..|]. intros st' HR' HI'. destruct st1 as [s g]. unfold commit in *.
  destruct (raft_Apply now data s) as [[r|e|w] s1]; [|done..]. cbn [fst snd] in *.
  apply Rel_log in HR'. simpl in HR'. apply (elem_of_prefix (g ++ [(now, c)])); [set_solver|done].
Qed.

(** A job that was read may be set again, also later. *)
Definition read (r : res Job) (st : State) : Prop :=
  match r with
  | Ok j => ∀ t b, may (CmdSetJob (Job_ToProto (set_Next t j))) st
                   ∧ may (CmdSetJob (Job_ToProto (set_Disabled b j))) st
  | _ => True
  end.

Lemma ok_read name st : okay read (read_job name) st.
Proof.
  apply ok_look.
  - intros s. rewrite ServerProps.read_job. done.
  - intros s g st' HR HI HR' HI'. rewrite ServerProps.read_job. cbn [fst].
    destruct (GetJob name (s_db s)).1 as [j| |] eqn:E; [|done..]. intros t b.
    split; (eapply may_stable; [|done..]); [by eapply may_run|by eapply may_toggle].
Qed.

Lemma ok_applySetJob now pj st :
  (∀ st', Rel st st' → Inv st' → may (CmdSetJob pj) st') →
  okay (recorded now (CmdSetJob pj))
    (applySetJob_thread now pj) st.
Proof.
  intros Hm. eapply (ok_bind Inv Rel); [by apply ok_command|..]; [|done..].
  intros a st' HR HQ. destruct a as [|[]| | |]; by apply HQ || done.
Qed.

Lemma aside_read {A} (f : Server → res A) : aside (λ s, (f s, s)).
Proof. by intros s. Qed.

Lemma ok_call_nodes pj pe addrs st : okay anything (call_nodes_thread pj pe addrs) st.
Proof.
  revert st. induction addrs as [|a addrs IH]; intros st; cbn [call_nodes_thread]; [done|].
  eapply ok_bind_any; [eapply (ok_try Inv Rel anything anything); [by apply ok_look_any|done]|]. auto.
Qed.

Lemma ok_Run now ch name ex st : okay anything (Run_thread now ch name ex) st.
Proof.
  unfold Run_thread. eapply ok_bind_any.
  { eapply (ok_wrap Inv Rel _ read (λ r st, match r with Ok j => read (Ok j) st | _ => True end));
      [apply ok_read|]. by intros [j| |]. }
  intros j st1 HR1 Hj. eapply (ok_bind_any anything).
  - destruct (bool_decide _); [|done]. eapply (ok_bind_any anything).
    { apply ok_look_any, aside_read. }
    intros [e|] st2 HR2 _; [|done]. eapply (ok_bind_any anything); [|done].
    eapply (ok_wrap Inv Rel _ anything anything); [|done]. eapply (ok_mono Inv Rel); [apply ok_applySetJob|done].
    intros st3 HR3 HI3. apply (Hj st3); [by etrans|done|exact inhabitant].
  - intros job st2 HR2 _. eapply (ok_bind_any anything); [apply ok_look_any, aside_read|].
    intros nodes st3 HR3 _. destruct (bool_decide _); [done|].
    eapply (ok_bind_any anything); [apply ok_call_nodes|done].
Qed.

Lemma ok_Job_Run now ch j st : okay anything (Job_Run_thread now ch j) st.
Proof.
  unfold Job_Run_thread. eapply (ok_bind_any anything).
  { apply ok_look_any. by intros s. }
  intros b st1 _ _. destruct b; [|done]. eapply (ok_bind_any anything); [|done].
  by eapply (ok_try Inv Rel anything anything); [apply ok_Run|].
Qed.

Lemma ok_run_dependents now ch djs st : okay anything (run_dependents_thread now ch djs) st.
Proof.
  revert st. induction djs as [|djn djs IH]; intros st; cbn [run_dependents_thread]; [done|].
  eapply (ok_bind_any anything).
  { by eapply (ok_try Inv Rel read anything); [apply ok_read|]. }
  intros [dj|e] st1 _ _; [|done]. eapply (ok_bind_any anything); [apply ok_Job_Run|auto].
Qed.

Lemma ok_done_thread now ch c pbex job st : okay anything (done_thread now ch c pbex job) st.
Proof.
  unfold done_thread. destruct (_ && _).
  { eapply (ok_bind_any anything); [apply ok_Run|done]. }
  eapply (ok_bind_any anything).
  { apply ok_look_any. intros s. rewrite on_node_on_db. simpl. by rewrite GetExecutionGroup_same, srv_eta. }
  intros exg st1 _ _. eapply (ok_bind_any anything).
  { apply ok_look_any. intros s. unfold on_outbox. by destruct (Send _ _). }
  intros _ st2 _ _. eapply (ok_bind_any anything); [|done].
  destruct (_ && _); [apply ok_run_dependents|done].
Qed.

(** The result of a request is in the log. *)
Definition logged (q : request) (r : res unit) (st : State) : Prop :=
  match r with Ok _ => committed q st.2 | _ => True end.

Lemma ok_SetJob now pj st :
  (∀ st', Rel st st' → Inv st' → may (CmdSetJob pj) st') →
  okay (recorded now (CmdSetJob pj))
    (SetJob_thread now pj) st.
Proof.
  intros Hm. eapply (ok_bind Inv Rel); [by apply ok_applySetJob|..]; [|done..].
  intros a st1 HR HQ. eapply (ok_mono Inv Rel); [apply ok_look_any|].
  { intros s. unfold on_node, on_sched. by destruct (AddJob _ _). }
  intros [u|e|w] st2 HR2 HI2 _; [exact (HQ st2 HR2 HI2)|done..].
Qed.

Lemma ok_request q st : Inv st → request_ok q → okay (logged q) (request_thread q) st.
Proof.
  intros HI Hq. destruct q as [now ch name ex|now ch job|now pj|now name|now name|now pbex|now ch pbex];
    cbn [request_thread request_ok] in *.
  - eapply (ok_mono Inv Rel); [eapply (ok_bind_any anything); [apply ok_Run|done]|]. by intros [].
  - eapply (ok_mono Inv Rel); [apply ok_Job_Run|]. by intros [].
  - eapply (ok_mono Inv Rel); [apply ok_SetJob; auto|done].
  - eapply (ok_mono Inv Rel); [eapply (ok_bind_any read); [apply ok_read|]|by intros []].
    intros j st1 HR Hj. eapply (ok_mono Inv Rel); [apply ok_SetJob|done].
    intros st2 HR2 HI2. by apply (Hj st2 HR2 HI2 0).
  - eapply (ok_bind Inv Rel (recorded now (CmdDeleteJob name)));
      [|intros a st1 HR HQ; apply ok_ret; intros st2 HR2 HI2; exact (HQ st2 HR2 HI2)|done..].
    unfold DeleteJob_thread. eapply (ok_bind Inv Rel); [apply ok_command; auto|..]; [|done..].
    intros a st1 HR HQ. destruct a as [|e|j|k|t]; try done.
    eapply (ok_bind Inv Rel); [apply ok_look_any|..]; [|by intros ? st2 HR2 _; apply ok_ret; intros st3 HR3 HI3;
      apply HQ; [etrans|]|done..].
    intros s. unfold on_node, on_sched. by destruct (RemoveJob _ _).
  - unfold SetExecution_thread.
    eapply (ok_bind Inv Rel (λ r st', match r with Ok (inl _) => (now, CmdSetExecution pbex) ∈ st'.2 | _ => True end)).
    + eapply (ok_try Inv Rel); [apply ok_command; auto|]. by intros [].
    + intros [a|e] st1 HR HQ; [|done]. apply ok_ret. intros st2 HR2 HI2. exact (HQ st2 HR2 HI2).
    + done.
    + done.
  - eapply (ok_bind Inv Rel (λ r, logged (ReqExecutionDone now ch pbex) (_ <-? r ;; Ok tt)));
      [|intros a st1 HR HQ; apply ok_ret; intros st2 HR2 HI2; exact (HQ st2 HR2 HI2)|done..].
    unfold ExecutionDone_thread. eapply (ok_bind Inv Rel anything); [by apply ok_look_any|..]; [|done..].
    intros s st1 HR1 _. destruct (negb _).
    { eapply (ok_bind Inv Rel anything); [|done..].
      by eapply (ok_try Inv Rel anything anything); [by apply ok_look_any|]. }
    eapply (ok_bind Inv Rel anything); [eapply (ok_mono Inv Rel); [apply ok_read|done]|..]; [|done..].
    intros j st2 HR2 _. unfold liftP at 1.
    destruct (run_processors _ _ pbex) as [pbex'| |] eqn:Ep; cbn [bindP]; [|done..].
    eapply (ok_bind Inv Rel); [apply ok_command; by eauto|..]; [|done..].
    intros a st3 HR3 HQ. eapply (ok_mono Inv Rel (recorded now (CmdExecutionDone pbex'))).
    + eapply (ok_mono Inv Rel anything).
      * eapply (ok_bind_any anything); [by eapply (ok_try Inv Rel read anything); [apply ok_read|]|].
        intros [j'|e] st4 _ _; [apply ok_done_thread|done].
      * intros [u|e|w] st4 HR4 HI4 _; [exact (HQ st4 HR4 HI4)|done..].
    + intros r st4 HR4 HI4 Hr. destruct r; [|done..]. by eexists _, _, _.
Qed.

(** Every schedule of requests keeps to the discipline, and what was answered is in the
    log. *)
Lemma requests_ok turns s qs :
  Inv (s, []) → Forall request_ok qs →
  let st := sched turns ((s, []), request_thread <$> qs) in
  Inv st.1 ∧ Rel (s, []) st.1 ∧
  ∀ i q, qs !! i = Some q → st.2 !! i = Some (Done (Ok tt)) → committed q st.1.2.
Proof.
  intros HI Hqs st.
  destruct (sched_ok Inv Rel (λ i r st', match qs !! i with Some q => logged q r st' | None => True end)
    turns ((s, []), request_thread <$> qs)) as [[H1 H2] H3].
  { split; [done|]. cbn [fst snd]. intros i p Hp. apply list_lookup_fmap_Some in Hp as (q & -> & Hq).
    rewrite Hq. apply ok_request; [done|]. by eapply Forall_lookup_1. }
  split_and!; [done..|]. intros i q Hq Hd. specialize (H2 i _ Hd). rewrite Hq in H2.
  exact (ok_done Inv Rel (logged q) (Ok tt) st.1 H1 H2).
Qed.
End Verified.

(** ** The store is the log *)

(** What the commands of a log make of a state, and of a database. *)
Definition replay (g : log) (σ : state) : state :=
  foldl (λ σ e, (spec_command e.1 e.2 σ).2) σ g.
Definition run_log {db'} `{!BuntDB db'} (g : log) (d : db') : db' :=
  foldl (λ d e, (run_command e.1 e.2 d).2) d g.

Lemma replay_snoc g now c σ : replay (g ++ [(now, c)]) σ = (spec_command now c (replay g σ)).2.
Proof. unfold replay. by rewrite foldl_app. Qed.

Definition acceptable (e : time * command) : Prop := command_ok e.2.

Lemma run_log_holds {db'} `{!BuntDB db'} g (d : db') σ :
  Forall acceptable g → Holds d σ → Holds (run_log g d) (replay g σ).
Proof.
  intros HF. revert d σ. induction HF as [|[now c] g Hc _ IH]; intros d σ HH; [done|]. simpl.
  apply IH. by apply run_command_implements.
Qed.

(** A command that is committed is applied, or raft refuses it and nothing happens. *)
Lemma commit_cases now c data (s : Server) (g : log) σ :
  Holds (s_db s) σ → command_ok c → encode_command c = Ok data →
  let st := (commit now c data (s, g)).2 in
  s_agent st.1 = s_agent s ∧
  ((st.2 = g ∧ s_db st.1 = s_db s) ∨
   (st.2 = g ++ [(now, c)] ∧ Holds (s_db st.1) (spec_command now c σ).2)).
Proof.
  intros HH Hc He. unfold commit. pose proof (raft_Apply_same now data s) as (Ha & _).
  destruct (raft_Apply_error (s_agent s).(a_raft)) as [e|] eqn:Er.
  { unfold raft_Apply. rewrite Er. split; [done|]. by left. }
  destruct (raft_Apply_command now c data s He Er) as [H1 H2].
  destruct (run_command_implements now c Hc (s_db s) σ HH) as [H3 H4].
  destruct (spec_command_Ok now c σ) as [r Hr]. rewrite H3, Hr in H1.
  destruct (raft_Apply now data s) as [r' s']. cbn [fst snd] in *. subst r'.
  split; [done|]. right. split; [done|]. by rewrite H2.
Qed.

Section Serial.
Context (σ0 : state).

Definition LogDiscipline : Discipline.
Proof.
  refine {|
    Inv st := Holds (s_db st.1) (replay st.2 σ0) ∧ Forall acceptable st.2;
    Rel st st' := st.2 `prefix_of` st'.2 ∧ s_agent st'.1 = s_agent st.1;
    may c _ := command_ok c
  |}.
  - split; [by intros ?|]. intros ??? [? E1] [? E2]. split; [by etrans|congruence].
  - by intros st st' [? _].
  - done.
  - intros s s' g [HH HF] Hd Ha. cbn [fst snd] in *. by rewrite Hd.
  - intros now c data [s g] [HH HF] Hc He. cbn [fst snd] in *.
    destruct (commit_cases now c data s g _ HH Hc He) as [Ha [[-> Hd]|[-> HH']]].
    + split; [by rewrite Hd|done].
    + split; [|by split; [apply prefix_app_r|]]. rewrite replay_snoc. split; [done|].
      apply Forall_app_2; [done|]. by repeat constructor.
  - done.
  - done.
Defined.

(** What a request brings can be stored. *)
Definition request_fine (q : request) : Prop :=
  match q with
  | ReqSetExecution _ pbex => exec_ok (NewExecutionFromProto pbex)
  | ReqExecutionDone _ _ pbex => ∀ node procs pbex',
      run_processors node procs pbex = Ok pbex' → exec_ok (NewExecutionFromProto pbex')
  | _ => True
  end.

End Serial.
End Interleaving.
