(* ===== verification/Counting.v ===== *)
(** * No result is lost: the counters of a job under interleaved requests

    A run of a job reads it from the store, sets its next activation and writes the whole
    job back; a toggle does the same with its disabled field.  Between the two, executions of
    the job may end and be counted.  The counters that were read are then stale, and the
    merge of [SetJob] keeps the larger ones; here it is shown that this is enough. *)
From Stdlib Require Import ZArith Lia.
From stdpp Require Import base list gmap strings pretty relations.
From S2P Require Import Prelude GoStrings GoNet GoTime Pb NTime ExtCron Execution Job BuntDB Store.
From S2P Require Import StoreSpec StoreRefine StoreExecs StoreProps StoreHistory Instances Scheduler Fsm.
From S2P Require Import Config Cluster Leader Targets Notifier Server ServerProps Threads Handlers Interleaving.

#[local] Open Scope Z_scope.

(** The successes or the errors of a job. *)
Definition count (b : bool) (j : Job) : Z := if b then j.(Job_SuccessCount) else j.(Job_ErrorCount).

(** The ends of executions of a job in a log. *)
Definition is_end (b : bool) (n : string) (e : time * command) : Prop :=
  match e.2 with
  | CmdExecutionDone pbe => pbe.(pbEx_JobName) = n ∧ pbe.(pbEx_Success) = b
  | _ => False
  end.
#[export] Instance is_end_dec b n e : Decision (is_end b n e).
Proof. unfold is_end. destruct e.2; apply _. Defined.
Definition ends (b : bool) (n : string) (g : list (time * command)) : Z :=
  Z.of_nat (length (filter (is_end b n) g)).

Lemma ends_snoc b n g e :
  ends b n (g ++ [e]) = ends b n g + (if decide (is_end b n e) then 1 else 0).
Proof. unfold ends. rewrite filter_app, filter_cons, filter_nil. case_decide; rewrite length_app; simpl; lia. Qed.

Lemma ends_length b n g : 0 ≤ ends b n g ≤ Z.of_nat (length g).
Proof. unfold ends. pose proof (length_filter (is_end b n) g). lia. Qed.

Section States.
Context {PT : Ptypes} {PB : Proto} {CP : CronParser} {UC : Unicode} {TZ : Locations} {SO : Sorting}.

(** The counters of the jobs that are there move by [f]; those of a job that comes are zero. *)
Definition moves (f : bool → string → Z) (σ σ' : state) : Prop :=
  (∀ b n j, σ.(jobs) !! n = Some j → ∃ j', σ'.(jobs) !! n = Some j' ∧ count b j' = count b j + f b n) ∧
  (∀ b n j', σ.(jobs) !! n = None → σ'.(jobs) !! n = Some j' → count b j' = 0).
Definition still : bool → string → Z := λ _ _, 0.

Lemma moves_refl σ : moves still σ σ.
Proof. split; [|congruence]. intros b n j Hj. exists j. split; [done|]. unfold still. lia. Qed.

Lemma moves_jobs σ σ' : σ'.(jobs) = σ.(jobs) → moves still σ σ'.
Proof. unfold moves. intros ->. exact (moves_refl σ). Qed.

Lemma moves_trans σ1 σ2 σ3 : moves still σ1 σ2 → moves still σ2 σ3 → moves still σ1 σ3.
Proof.
  intros [H1 N1] [H2 N2]. split.
  - intros b n j Hj. destruct (H1 b n j Hj) as (j' & Hj' & E1).
    destruct (H2 b n j' Hj') as (j'' & Hj'' & E2). exists j''. split; [done|]. unfold still in *. lia.
  - intros b n j' Hn Hj'. destruct (σ2.(jobs) !! n) as [j2|] eqn:E2.
    + destruct (H2 b n j2 E2) as (j3 & Hj3 & E3). specialize (N1 b n j2 Hn E2). unfold still in *.
      simplify_eq. lia.
    + by apply (N2 b n).
Qed.

(** A job that is written over itself, or comes, with the right counters. *)
Lemma moves_with_job n j σ :
  (∀ b, count b j = match σ.(jobs) !! n with Some j0 => count b j0 | None => 0 end) →
  moves still σ (with_job n j σ).
Proof.
  intros H. unfold still. split; intros b m j0; simpl; destruct (decide (m = n)) as [->|Hne];
    rewrite ?lookup_insert_eq, ?(lookup_insert_ne _ n m) by done.
  - intros E. exists j. split; [done|]. rewrite H, E. lia.
  - intros E. exists j0. split; [done|]. lia.
  - intros E [= <-]. by rewrite H, E.
  - congruence.
Qed.

Lemma update_parent_moves f p σ : moves still σ (spec_update_parent f p σ).2.
Proof.
  unfold spec_update_parent. case_decide; [apply moves_refl|].
  destruct (σ.(jobs) !! p) as [pj|] eqn:E; [|apply moves_refl].
  destruct (parent_missing _ _); [apply moves_refl|]. simpl. apply moves_with_job. intros b. by rewrite E; destruct b.
Qed.

(** What the merge leaves of counters that are at most the stored ones. *)
Lemma count_merge c ej job b :
  ej.(Job_Name) ≠ "" → count b job ≤ count b ej → count b (merge_stored c ej job) = count b ej.
Proof.
  intros Hn. unfold merge_stored. rewrite decide_False by done.
  destruct b; simpl; intros H; repeat case_decide; simpl; repeat case_match; lia.
Qed.

Lemma count_norm b j : 0 ≤ count b j < 2 ^ 31 → count b (norm j) = count b j.
Proof. intros H. destruct b; simpl in *; apply intN_id; unfold in_int; lia. Qed.

(** The counters of a stored job, and none. *)
Definition stored_count (b : bool) (n : string) (σ : state) : Z :=
  match σ.(jobs) !! n with Some j => count b j | None => 0 end.

Lemma SetJob_moves now job σ :
  (∀ n j, σ.(jobs) !! n = Some j → j.(Job_Name) ≠ "") →
  (∀ b, 0 ≤ count b job ≤ stored_count b job.(Job_Name) σ) →
  (∀ b n, 0 ≤ stored_count b n σ < 2 ^ 31) →
  moves still σ (spec_SetJob now job false σ).2.
Proof.
  intros Hnames Hle Hr. unfold spec_SetJob.
  destruct (Validate job) eqn:Hv; [apply moves_refl|]. apply Validate_spec in Hv.
  destruct (parent_missing σ job); [apply moves_refl|].
  set (ej := default Job_zero (σ.(jobs) !! Job_Name job)).
  destruct (written_Valid now false ej job Hv) as (next & -> & _).
  set (job' := set_Next next (merge_stored false ej job)).
  assert (∀ b, count b job' = stored_count b job.(Job_Name) σ) as Hc.
  { intros b. assert (count b job' = count b (merge_stored false ej job)) as -> by by destruct b.
    specialize (Hle b). unfold stored_count in *. unfold ej.
    destruct (σ.(jobs) !! Job_Name job) as [j0|] eqn:E; simpl.
    - rewrite count_merge; [done|by eapply Hnames|lia].
    - assert (count b job = 0) as H0 by lia. unfold merge_stored. by rewrite decide_True. }
  set (s1 := if decide (storable job') then _ else σ).
  assert (moves still σ s1) as H1.
  { unfold s1. case_decide; [|apply moves_refl]. apply moves_with_job. intros b.
    rewrite count_norm; [apply Hc|]. rewrite Hc. apply Hr. }
  case_decide; [done|]. unfold bindM.
  pose proof (update_parent_moves (drop_child (Job_Name job)) (Job_ParentJob ej) s1) as H2.
  destruct (spec_update_parent _ _ s1) as [[[]|e|w] s2]; simpl in H2.
  - eapply moves_trans; [exact H1|]. eapply moves_trans; [exact H2|apply update_parent_moves].
  - by eapply moves_trans.
  - by eapply moves_trans.
Qed.

(** The end of an execution counts by one. *)
Definition by_end (pbe : pbExecution) : bool → string → Z := λ b n,
  if decide (pbe.(pbEx_JobName) = n ∧ pbe.(pbEx_Success) = b) then 1 else 0.

Lemma SetExecutionDone_moves pbe σ :
  (∀ b n, 0 ≤ stored_count b n σ < 2 ^ 31 - 1) →
  is_Some (σ.(jobs) !! pbe.(pbEx_JobName)) →
  moves (by_end pbe) σ (spec_SetExecutionDone (NewExecutionFromProto pbe) σ).2.
Proof.
  intros Hr [j Hj]. unfold spec_SetExecutionDone. cbn [NewExecutionFromProto Ex_JobName].
  rewrite Hj. cbn [snd]. split; intros b n j0; cbn [jobs];
    (destruct (decide (n = pbe.(pbEx_JobName))) as [->|Hne];
    [rewrite lookup_insert_eq|rewrite lookup_insert_ne by done]).
  - rewrite Hj. intros [= <-]. eexists. split; [done|].
    assert (∀ c, 0 ≤ count c j < 2 ^ 31 - 1) as Hc
      by (intros c; specialize (Hr c (pbEx_JobName pbe)); unfold stored_count in Hr; by rewrite Hj in Hr).
    unfold by_end. pose proof (Hc true) as H1. pose proof (Hc false) as H2.
    destruct b; simpl in *; destruct (pbEx_Success pbe); case_decide; try (naive_solver lia);
      apply intN_id; unfold in_int; lia.
  - intros E. exists j0. split; [done|]. unfold by_end. rewrite decide_False by naive_solver. lia.
  - by rewrite Hj.
  - congruence.
Qed.

(** What moves does not fall, and nothing but the ends of executions moves. *)
Lemma moves_stored f σ σ' b n :
  moves f σ σ' → (∀ b n, 0 ≤ f b n ≤ 1) →
  stored_count b n σ ≤ stored_count b n σ' ≤ stored_count b n σ + 1.
Proof.
  intros [H N] Hf. unfold stored_count. specialize (Hf b n).
  destruct (σ.(jobs) !! n) as [j|] eqn:E.
  - destruct (H b n j E) as (j' & -> & ->). lia.
  - destruct (σ'.(jobs) !! n) as [j'|] eqn:E'; [|lia]. rewrite (N b n j' E E'). lia.
Qed.

Lemma by_end_range pbe b n : 0 ≤ by_end pbe b n ≤ 1.
Proof. unfold by_end. case_decide; lia. Qed.
End States.

Section Counting.
Context {VS : Versions} {R : Type} {RF : Raft R} {WD : World R} {IS : Intersect} {DL : Delivery}.
Context {db : Type} {BDB : BuntDB db} {PT : Ptypes} {PB : Proto} {CP : CronParser}
        {CE : CronEngine} {UC : Unicode} {TZ : Locations} {SO : Sorting}.
#[local] Abbreviation Server := (Srv (R:=R) (db:=db)).
#[local] Abbreviation log := (list (time * command)).

(** The state of the store before, and a bound of its counters. *)
Context (σ0 : state) (B : Z).
Context (Hbound : ∀ b n, 0 ≤ stored_count b n σ0 ≤ B).

(** What the store's counters are after a log, as long as they fit in 32 bits. *)
Definition fits (g : log) : Prop := B + Z.of_nat (length g) < 2 ^ 31.
Definition kept (g : log) : Prop :=
  (∀ b n, 0 ≤ stored_count b n (replay g σ0) ≤ B + Z.of_nat (length g)) ∧
  (∀ b n j0, σ0.(jobs) !! n = Some j0 →
     ∃ j, (replay g σ0).(jobs) !! n = Some j ∧ count b j = count b j0 + ends b n g).

(** The counters that a job may be set with: those of some earlier moment. *)
Definition earlier (pj : pbJob) (g : log) : Prop :=
  let job := NewJobFromProto (wire_Job pj) in
  ∀ b, 0 ≤ count b job ≤ stored_count b job.(Job_Name) (replay g σ0).

Definition may_count (c : command) (g : log) : Prop :=
  match c with
  | CmdSetJob pj => fits g → earlier pj g
  | CmdDeleteJob _ => False
  | _ => command_ok c
  end.

Lemma fits_prefix g g' : g `prefix_of` g' → fits g' → fits g.
Proof. intros H%prefix_length. unfold fits. lia. Qed.

Lemma kept_nil : kept [].
Proof.
  split.
  - intros b n. simpl. specialize (Hbound b n). lia.
  - intros b n j0 Hj. exists j0. split; [done|]. unfold ends. simpl. lia.
Qed.

(** A command that may be committed moves the counters by what it stands for. *)
Lemma command_moves now c g :
  (∀ n j, (replay g σ0).(jobs) !! n = Some j → j.(Job_Name) ≠ "") →
  may_count c g → fits (g ++ [(now, c)]) → kept g →
  ∃ f, moves f (replay g σ0) (spec_command now c (replay g σ0)).2 ∧
       (∀ b n, 0 ≤ f b n ≤ 1) ∧
       ∀ b n, is_Some ((replay g σ0).(jobs) !! n) →
         f b n = if decide (is_end b n (now, c)) then 1 else 0.
Proof.
  intros Hnames Hm Hf [Hr _]. assert (fits g) as Hg by (eapply fits_prefix; [|done]; by apply prefix_app_r).
  set (σ := replay g σ0) in *. unfold fits in Hf. rewrite length_app in Hf. simpl in Hf.
  destruct c as [pj|name|pbe|pbe]; cbn [spec_command may_count] in *; unfold bindM, tryM.
  - exists still. split; [|split; [unfold still; lia|]].
    + specialize (Hm Hg). pose proof (SetJob_moves now (NewJobFromProto (wire_Job pj)) σ Hnames Hm) as H.
      destruct (spec_SetJob _ _ _ σ) as [[]]; apply H; intros b n; specialize (Hr b n); lia.
    + intros b n _. rewrite decide_False; [done|by intros []].
  - done.
  - exists still. split; [|split; [unfold still; lia|]].
    + by apply moves_jobs.
    + intros b n _. rewrite decide_False; [done|by intros []].
  - destruct (σ.(jobs) !! pbe.(pbEx_JobName)) as [j|] eqn:E.
    + exists (by_end pbe). split; [|split; [apply by_end_range|]].
      * pose proof (SetExecutionDone_moves pbe σ) as H. rewrite E in H.
        destruct (spec_SetExecutionDone _ σ) as [[]]; (apply H; [|done]); intros b n; specialize (Hr b n); lia.
      * intros b n _. unfold by_end, is_end. cbn. by repeat case_decide.
    + exists still. split; [|split; [unfold still; lia|]].
      * unfold spec_SetExecutionDone. cbn [NewExecutionFromProto Ex_JobName]. rewrite E. apply moves_refl.
      * intros b n [j Hj]. rewrite decide_False; [done|]. unfold is_end. cbn. intros [<- _]. congruence.
Qed.

Lemma kept_snoc now c g f :
  moves f (replay g σ0) (spec_command now c (replay g σ0)).2 →
  (∀ b n, 0 ≤ f b n ≤ 1) →
  (∀ b n, is_Some ((replay g σ0).(jobs) !! n) → f b n = if decide (is_end b n (now, c)) then 1 else 0) →
  kept g → kept (g ++ [(now, c)]).
Proof.
  intros Hmv Hf Hfe [Hr Hk]. split.
  - intros b n. rewrite replay_snoc, length_app. simpl.
    pose proof (moves_stored f _ _ b n Hmv Hf). specialize (Hr b n). lia.
  - intros b n j0 Hj0. destruct (Hk b n j0 Hj0) as (j & Hj & Hc). rewrite replay_snoc.
    destruct Hmv as [H _]. destruct (H b n j Hj) as (j' & Hj' & Hc').
    exists j'. split; [done|]. rewrite ends_snoc, Hc', Hc, (Hfe b n) by by eexists. lia.
Qed.

(** A job that is read may be set with what was read. *)
Lemma earlier_read (j : Job) g :
  (replay g σ0).(jobs) !! j.(Job_Name) = Some j → kept g → fits g →
  ∀ j', j'.(Job_Name) = j.(Job_Name) → (∀ b, count b j' = count b j) → earlier (Job_ToProto j') g.
Proof.
  intros Hj [Hr _] Hf j' Hn Hc b. change (NewJobFromProto (wire_Job (Job_ToProto j'))) with (norm j').
  change (Job_Name (norm j')) with (Job_Name j'). rewrite Hn. specialize (Hr b (Job_Name j)).
  unfold stored_count in *. rewrite Hj in *. unfold fits in Hf. rewrite count_norm; rewrite Hc; lia.
Qed.

Lemma Holds_names (d : db) σ n j : Holds d σ → σ.(jobs) !! n = Some j → j.(Job_Name) = n ∧ n ≠ "".
Proof. intros HH Hj. destruct (Rep_job _ _ _ _ HH Hj) as (v & [_ <- [Hv _ _ _ _ _] _ _]). done. Qed.

Lemma read_stored (d : db) σ n j :
  Holds d σ → (GetJob n d).1 = Ok j → σ.(jobs) !! j.(Job_Name) = Some j.
Proof.
  intros HH. rewrite (GetJob_value _ _ _ HH). unfold spec_GetJob.
  destruct (σ.(jobs) !! n) as [j'|] eqn:E; [|done]. intros [= ->].
  by destruct (Holds_names _ _ _ _ HH E) as [-> _].
Qed.

Definition CountDiscipline : Discipline (db:=db).
Proof.
  refine {|
    Inv st := Holds (s_db st.1) (replay st.2 σ0) ∧ Forall acceptable st.2 ∧ (fits st.2 → kept st.2);
    Rel st st' := st.2 `prefix_of` st'.2 ∧
      (fits st'.2 → ∀ b n, stored_count b n (replay st.2 σ0) ≤ stored_count b n (replay st'.2 σ0));
    may c st := may_count c st.2
  |}.
  - split; [by intros ?|]. intros s1 s2 s3 [P1 M1] [P2 M2]. split; [by etrans|].
    intros Hf b n. etrans; [apply M1; by eapply fits_prefix|by apply M2].
  - by intros st st' [? _].
  - intros c st st' Hm [Hp Hle] _. destruct c as [pj|name|pbe|pbe]; [|done..]. intros Hf b.
    destruct (Hm (fits_prefix _ _ Hp Hf) b) as [H1 H2]. split; [done|]. etrans; [done|]. by apply Hle.
  - intros s s' g (HH & HF & Hk) Hd _. cbn [fst snd] in *. by rewrite Hd.
  - intros now c data [s g] (HH & HF & Hk) Hc He. cbn [fst snd] in *.
    assert (command_ok c) as Hok by by destruct c.
    destruct (commit_cases now c data s g _ HH Hok He) as [_ [[-> Hd]|[-> HH']]].
    + split; [by rewrite Hd|done].
    + assert (g `prefix_of` g ++ [(now, c)]) as Hp by by apply prefix_app_r.
      assert (∀ n j, (replay g σ0).(jobs) !! n = Some j → j.(Job_Name) ≠ "") as Hnames
        by (intros n j Hj; by destruct (Holds_names _ _ _ _ HH Hj) as [-> ?]).
      split; [split_and!|split; [done|]].
      * by rewrite replay_snoc.
      * apply Forall_app_2; [done|]. by repeat constructor.
      * intros Hf. specialize (Hk (fits_prefix _ _ Hp Hf)).
        destruct (command_moves now c g Hnames Hc Hf Hk) as (f & H1 & H2 & H3). by eapply kept_snoc.
      * intros Hf b n. specialize (Hk (fits_prefix _ _ Hp Hf)). rewrite replay_snoc.
        destruct (command_moves now c g Hnames Hc Hf Hk) as (f & H1 & H2 & H3).
        by apply (moves_stored f _ _ b n).
  - intros name j t s g (HH & _ & Hk) Hj Hf. pose proof (read_stored _ _ _ _ HH Hj) as Hs.
    apply (earlier_read j); [done|by apply Hk|done..|by intros []].
  - intros name j b s g (HH & _ & Hk) Hj Hf. pose proof (read_stored _ _ _ _ HH Hj) as Hs.
    apply (earlier_read j); [done|by apply Hk|done..|by intros []].
Defined.

(** What a request brings: no job is deleted; a job that is set has the counters of some
    earlier moment, as none; executions can be stored. *)
Definition request_counts (q : request) : Prop :=
  match q with
  | ReqSetJob _ pj =>
      let job := NewJobFromProto (wire_Job pj) in
      ∀ b, 0 ≤ count b job ≤ stored_count b job.(Job_Name) σ0
  | ReqDeleteJob _ _ => False
  | _ => request_fine q
  end.

(** Whatever the schedule, the counters of the store are what the log stands for. *)
Lemma requests_count turns (s : Server) qs :
  Holds (s_db s) σ0 → Forall request_counts qs →
  let st := sched turns ((s, []), request_thread <$> qs) in
  Holds (s_db st.1.1) (replay st.1.2 σ0) ∧ (fits st.1.2 → kept st.1.2).
Proof.
  intros HH Hqs st. destruct (requests_ok (DC:=CountDiscipline) turns s qs) as ((H1 & _ & H2) & _ & _).
  { split_and!; [done..|]. intros _. apply kept_nil. }
  { eapply Forall_impl; [exact Hqs|]. intros [] Hq; simpl in *; eauto.
    intros st1 (_ & _ & Hk) Hf b. destruct (Hq b) as [H1 H2]. split; [done|]. etrans; [done|].
    specialize (Hk Hf). unfold stored_count at 1. destruct (σ0.(jobs) !! _) as [j0|] eqn:E.
    - destruct Hk as [_ Hk]. destruct (Hk b _ j0 E) as (j & Hj & Hc).
      pose proof (ends_length b (pbJob_Name pj) st1.2). unfold stored_count. cbn in Hj, Hc |- *.
      rewrite Hj. cbn in *. lia.
    - by apply Hk. }
  done.
Qed.

(** The job that is read, with its counters. *)
Lemma kept_read (d : db) g n j0 :
  Holds d (replay g σ0) → kept g → σ0.(jobs) !! n = Some j0 →
  ∃ j, (GetJob n d).1 = Ok j ∧ ∀ b, count b j = count b j0 + ends b n g.
Proof.
  intros HH [_ Hk] Hj0. destruct (Hk true n j0 Hj0) as (j & Hj & Hc).
  exists j. rewrite (GetJob_value _ _ _ HH). unfold spec_GetJob. rewrite Hj. split; [done|].
  intros []; [done|]. destruct (Hk false n j0 Hj0) as (j' & Hj' & Hc'). by simplify_eq.
Qed.

(** C7: no result is lost.  However runs, ticks, toggles, changes of jobs and reports of
    executions interleave, each with stale copies of the jobs that it read, the successes
    and the errors of every job are those it had before and the ends of its executions
    that are in the log, each counted once. *)
Theorem no_result_lost turns (s : Server) qs :
  Holds (s_db s) σ0 → Forall request_counts qs →
  let st := sched turns ((s, []), request_thread <$> qs) in
  let s' := st.1.1 in
  let g := st.1.2 in
  B + Z.of_nat (length g) < 2 ^ 31 →
  ∀ n j0, σ0.(jobs) !! n = Some j0 →
    ∃ j, (GetJob n (s_db s')).1 = Ok j ∧
         Job_SuccessCount j = Job_SuccessCount j0 + ends true n g ∧
         Job_ErrorCount j = Job_ErrorCount j0 + ends false n g.
Proof.
  intros HH Hqs st s' g Hf n j0 Hj0. destruct (requests_count turns s qs HH Hqs) as [H1 H2].
  destruct (kept_read _ _ n j0 H1 (H2 Hf) Hj0) as (j & Hj & Hc). exists j.
  split; [exact Hj|]. split; [exact (Hc true)|exact (Hc false)].
Qed.
End Counting.
