(* ===== verification/Results.v ===== *)
(** * Results are counted once, and from end to end

    A report of the end of an execution commits exactly one command to the log when it is
    answered without an error, and the other requests commit none of that kind.  With
    [Counting] this gives the counters of a job from the requests; with [Stream] it gives them
    from what the executors of the nodes returned. *)
From Stdlib Require Import ZArith Lia Ascii.
From stdpp Require Import base list numbers gmap strings pretty relations.
From S2P Require Import Prelude GoStrings GoNet GoTime Pb NTime ExtCron Execution Job BuntDB Store.
From S2P Require Import StoreSpec StoreRefine StoreExecs StoreProps StoreHistory Instances Scheduler Fsm.
From S2P Require Import Config Cluster Leader Targets Notifier Server ServerProps Stream Processors.
From S2P Require Import Threads Handlers Interleaving Counting.

#[local] Open Scope Z_scope.

Section Results.
Context {VS : Versions} {R : Type} {RF : Raft R} {WD : World R} {IS : Intersect} {DL : Delivery}.
Context {db : Type} {BDB : BuntDB db} {PT : Ptypes} {PB : Proto} {CP : CronParser}
        {CE : CronEngine} {UC : Unicode} {TZ : Locations} {SO : Sorting}.
#[local] Abbreviation Server := (Srv (R:=R) (db:=db)).
#[local] Abbreviation State := (Logged (R:=R) (db:=db)).
#[local] Abbreviation Thread := (thread (R:=R) (db:=db)).

(** ** What a request commits *)
Section Commits.
Context (b : bool) (n : string).

(** The ends in the log of a server. *)
Definition ends_of (st : State) : nat := length (filter (is_end b n) st.2).
#[local] Abbreviation commits := (spends ends_of).

Lemma commits_look {A} (m : M Server A) : commits (look m) 0.
Proof. apply spends_act. intros [s g]. unfold on_server. by destruct (m s). Qed.

Lemma commits_command now c :
  commits (apply_command now c) (if decide (is_end b n (now, c)) then 1 else 0).
Proof.
  unfold apply_command, liftP. destruct (encode_command c) as [data|e|w]; [|done..].
  cbn [bindP act spends]. intros [s g]. unfold commit, ends_of.
  destruct (raft_Apply now data s) as [[r|e|w] s']; cbn [fst snd].
  - exists O. rewrite filter_app, filter_cons, filter_nil, length_app. case_decide; simpl; split_and!; lia || done.
  - eexists. split_and!; [reflexivity|reflexivity|done].
  - eexists. split_and!; [reflexivity|reflexivity|done].
Qed.

(** A command that is no end. *)
Lemma commits_other now c : ¬ is_end b n (now, c) → commits (apply_command now c) 0.
Proof. intros H. generalize (commits_command now c). by rewrite decide_False. Qed.

Lemma commits_lift {A} (r : res A) : commits (liftP r) 0.
Proof. by destruct r. Qed.

(** Threads that commit no end. *)
Ltac commit_step :=
  match goal with
  | |- spends _ (bindP _ _) 0 => apply spends_bind_rest; [|intros ?]
  | |- spends _ (tryP _) 0 => apply spends_try
  | |- spends _ (wrapP _ _) 0 => apply spends_wrap
  | |- spends _ (look _) 0 => apply commits_look
  | |- spends _ (read_job _) 0 => apply commits_look
  | |- spends _ (liftP _) 0 => apply commits_lift
  | |- spends _ (retP _) 0 => reflexivity
  | |- spends _ (apply_command _ (CmdSetJob _)) 0 => apply commits_other; intros []
  | |- spends _ (apply_command _ (CmdDeleteJob _)) 0 => apply commits_other; intros []
  | |- spends _ (apply_command _ (CmdSetExecution _)) 0 => apply commits_other; intros []
  | |- spends _ (match ?x with _ => _ end) 0 => destruct x
  end.

Lemma commits_applySetJob now pj : commits (applySetJob_thread now pj) 0.
Proof. unfold applySetJob_thread. repeat commit_step. Qed.

Lemma commits_call_nodes pj pe addrs : commits (call_nodes_thread pj pe addrs) 0.
Proof. induction addrs as [|a addrs IH]; cbn [call_nodes_thread]; repeat commit_step. exact IH. Qed.

Lemma commits_Run now ch name ex : commits (Run_thread now ch name ex) 0.
Proof.
  unfold Run_thread. repeat commit_step; [apply commits_applySetJob|apply commits_call_nodes].
Qed.

Lemma commits_Job_Run now ch j : commits (Job_Run_thread now ch j) 0.
Proof. unfold Job_Run_thread. repeat commit_step. apply commits_Run. Qed.

Lemma commits_dependents now ch djs : commits (run_dependents_thread now ch djs) 0.
Proof.
  induction djs as [|dj djs IH]; cbn [run_dependents_thread]; repeat commit_step; [apply commits_Job_Run|exact IH].
Qed.

Lemma commits_done now ch c pbex job : commits (done_thread now ch c pbex job) 0.
Proof. unfold done_thread. repeat commit_step; [apply commits_Run|apply commits_dependents]. Qed.

Lemma commits_SetJob now pj : commits (SetJob_thread now pj) 0.
Proof. unfold SetJob_thread. repeat commit_step. apply commits_applySetJob. Qed.

(** The ends that a request reports. *)
Definition reports (q : request) : Prop :=
  match q with
  | ReqExecutionDone _ _ pbex => pbex.(pbEx_JobName) = n ∧ pbex.(pbEx_Success) = b
  | _ => False
  end.
#[export] Instance reports_dec q : Decision (reports q).
Proof. destruct q; apply _. Defined.

(** The processors change at most the output, as those of the repository do. *)
Definition processors_keep : Prop :=
  ∀ k process e config, ProcessorPlugins k = Some process → same_but_output e (process e config).

Lemma run_processors_keep node procs e e' :
  processors_keep → run_processors node procs e = Ok e' → same_but_output e e'.
Proof.
  intros Hp. revert e. induction procs as [|[k v] procs IH]; intros e; cbn [run_processors].
  - intros [= <-]. symmetry. apply pbEx_set_output_id.
  - destruct (ProcessorPlugins k) as [process|] eqn:Ek; [|apply IH]. destruct v as [config|]; [|done].
    intros H%IH. pose proof (Hp _ _ e (<["reporting_node":=node]> config) Ek) as H0.
    unfold same_but_output in *. by rewrite H, H0.
Qed.

Lemma commits_ExecutionDone now ch pbex :
  processors_keep →
  commits (ExecutionDone_thread now ch pbex) (if decide (reports (ReqExecutionDone now ch pbex)) then 1 else 0).
Proof.
  intros Hp. unfold ExecutionDone_thread. apply spends_bind_rest; [apply commits_look|]. intros s.
  destruct (negb _).
  { apply spends_bind_rest; [apply spends_try, commits_look|done]. }
  apply spends_bind_rest; [apply commits_look|]. intros job.
  destruct (run_processors _ _ pbex) as [pbex'| |] eqn:E; [|done..]. cbn [liftP bindP].
  apply spends_bind_first.
  - pose proof (run_processors_keep _ _ _ _ Hp E) as H. generalize (commits_command now (CmdExecutionDone pbex')).
    rewrite H. unfold is_end, reports. cbn. done.
  - intros a. repeat commit_step; apply commits_done.
Qed.

Lemma commits_request q :
  processors_keep → commits (request_thread q) (if decide (reports q) then 1 else 0).
Proof.
  intros Hp. destruct q as [now ch name ex|now ch job|now pj|now name|now name|now pbex|now ch pbex];
    [rewrite decide_False by (by intros [])..|]; cbn [request_thread].
  - repeat commit_step. apply commits_Run.
  - apply commits_Job_Run.
  - apply commits_SetJob.
  - unfold toggle_thread. repeat commit_step. apply commits_SetJob.
  - unfold DeleteJob_thread. repeat commit_step.
  - unfold SetExecution_thread. repeat commit_step.
  - apply spends_bind_first; [by apply commits_ExecutionDone|done].
Qed.
End Commits.

(** ** The counters from the requests *)

Lemma sum_reports b n qs :
  sum_list ((λ q, if decide (reports b n q) then 1 else 0)%nat <$> qs) = length (filter (reports b n) qs).
Proof.
  induction qs as [|q qs IH]; [done|]. rewrite fmap_cons, filter_cons. simpl. rewrite IH. by case_decide.
Qed.

(** When every request was answered without an error, the ends in the log are those
    that were reported. *)
Lemma reports_logged b n turns (s : Server) qs :
  processors_keep →
  let st := sched turns ((s, []), request_thread <$> qs) in
  Forall (λ p, p = Done (Ok tt)) st.2 → ends b n st.1.2 = Z.of_nat (length (filter (reports b n) qs)).
Proof.
  intros Hp st Hd. rewrite <- sum_reports. unfold ends. f_equal.
  pose proof (sched_spent (ends_of b n) turns ((s, []), request_thread <$> qs)
    ((λ q, if decide (reports b n q) then 1 else 0)%nat <$> qs)) as H.
  unfold ends_of in H. simpl in H. apply H; clear H.
  - apply Forall2_fmap_l, Forall2_fmap_r, Forall_Forall2_diag, Forall_true. intros q. by apply commits_request.
  - eapply Forall_impl; [exact Hd|]. intros p ->. by eexists.
Qed.

Lemma results_counted σ0 B turns (s : Server) qs :
  (∀ b n, 0 ≤ stored_count b n σ0 ≤ B) → processors_keep →
  Holds (s_db s) σ0 → Forall (request_counts σ0) qs →
  let st := sched turns ((s, []), request_thread <$> qs) in
  Forall (λ p, p = Done (Ok tt)) st.2 → B + Z.of_nat (length st.1.2) < 2 ^ 31 →
  ∀ n j0, σ0.(jobs) !! n = Some j0 →
    ∃ j, (GetJob n (s_db st.1.1)).1 = Ok j ∧
         ∀ b, count b j = count b j0 + Z.of_nat (length (filter (reports b n) qs)).
Proof.
  intros HB Hp HH Hqs st Hd Hf n j0 Hj0. destruct (requests_count σ0 B HB turns s qs HH Hqs) as [H1 H2].
  destruct (kept_read σ0 B _ _ n j0 H1 (H2 Hf) Hj0) as (j & Hj & Hc). exists j. split; [exact Hj|].
  intros b. rewrite Hc. f_equal. by apply reports_logged.
Qed.

(** ** From the executors to the counters *)

Section Fleet.
Context {CB : Circbuf}.

(** A run of the job by the agent of a node: its executors, what it would do when the
    stream breaks, the instants of the start and the end, and the execution it is given. *)
Record NodeRun := mkNodeRun {
  nr_executors : string → option (string → gmap string string → ExecScript);
  nr_server : res string;
  nr_done : string → Execution → res unit;
  nr_node : string;
  nr_start : time;
  nr_end : time;
  nr_execution : Execution
}.

Definition node_run (pj : pbJob) (r : NodeRun) : res unit * Runner :=
  AgentRun r.(nr_executors) r.(nr_server) r.(nr_done) r.(nr_node) r.(nr_start) r.(nr_end) pj
    (Execution_ToProto r.(nr_execution)) (mkRunner [] [] ∅ []).

(** What the server that called the node tells the leader, which answers. *)
Definition node_calls (leader : string) (now : time) (pj : pbJob) (r : NodeRun) : list leader_call :=
  (client_AgentRun leader (λ _, Ok tt) None None now (Execution_ToProto r.(nr_execution))
     (node_run pj r).2.(r_sent) None (mkFollow ∅ [] [])).2.(f_calls).

(** The call as the leader receives it. *)
Definition receive (now : leader_call → time) (ch : leader_call → Choices) (c : leader_call) : request :=
  match c with
  | LeaderSetExecution _ e => ReqSetExecution (now c) e
  | LeaderExecutionDone _ e => ReqExecutionDone (now c) (ch c) (Execution_ToProto e)
  end.

(** An execution of [n] that the agent can run at representable instants. *)
Record run_fine (n : string) (r : NodeRun) : Prop := {
  rf_job : r.(nr_execution).(Ex_JobName) = n;
  rf_wf : Execution_wf r.(nr_execution);
  rf_start : valid_time r.(nr_start);
  rf_end : valid_time r.(nr_end);
  rf_node : valid_utf8 r.(nr_node) = true
}.

Lemma node_calls_eq leader now pj r :
  (node_run pj r).1 = Ok tt →
  let first := pbEx_start (TimestampProto r.(nr_start)) r.(nr_node) (Execution_ToProto r.(nr_execution)) in
  ∃ final,
    node_calls leader now pj r =
      [LeaderSetExecution leader first; LeaderExecutionDone leader (NewExecutionFromProto final)] ∧
    same_execution first final ∧ final.(pbEx_FinishedAt) = TimestampProto r.(nr_end) ∧
    (final.(pbEx_Success) = true ↔ succeeds r.(nr_executors) pj).
Proof.
  intros Hr. unfold node_calls. destruct (node_run pj r) as [x r'] eqn:E. simpl in Hr. subst x. unfold node_run in E.
  apply AgentRun_stream in E; [|done]. destruct E
    as (first & ps & final & -> & Es & _ & He & Hf & _ & Hs & _).
  exists final. split_and!; [|done|done|done]. cbn [client_AgentRun snd]. unfold with_deferred.
  rewrite follow_unseen by done. cbn [f_calls]. rewrite Es. simpl.
  unfold reported. by rewrite app_comm_cons, last_snoc.
Qed.

(** Executions that differ in the output and the success can be stored or not alike. *)
Lemma exec_ok_fields e e' :
  e'.(Ex_JobName) = e.(Ex_JobName) → e'.(Ex_NodeName) = e.(Ex_NodeName) →
  Execution_wf e' → exec_ok e → exec_ok e'.
Proof. intros H1 H2 Hwf []. split; by rewrite ?H1, ?H2. Qed.

Lemma exec_ok_output e e' :
  same_but_output e e' → exec_ok (NewExecutionFromProto e) → exec_ok (NewExecutionFromProto e').
Proof. intros H [Hwf ? ? ?]. unfold same_but_output in H. rewrite H. by split. Qed.

Lemma pb_exec_ok n pbe :
  has_byte ":"%char n = false → valid_utf8 n = true → pbe.(pbEx_JobName) = n →
  valid_utf8 pbe.(pbEx_NodeName) = true → in_uint 32 pbe.(pbEx_Attempt) →
  valid_time (Timestamp pbe.(pbEx_StartedAt)) → valid_time (Timestamp pbe.(pbEx_FinishedAt)) →
  exec_ok (NewExecutionFromProto pbe).
Proof. intros Hc Hu Hn ? ? ? ?. split; cbn; rewrite ?Hn; done. Qed.

(** What a node's run asks of the leader: two requests that can be stored, one of which
    reports the end, as what it was. *)
Lemma node_requests σ0 n leader now pj r t ch :
  processors_keep → has_byte ":"%char n = false → valid_utf8 n = true →
  run_fine n r → (node_run pj r).1 = Ok tt →
  let qs := receive t ch <$> node_calls leader now pj r in
  Forall (request_counts σ0) qs ∧
  ∃ success, (success = true ↔ succeeds r.(nr_executors) pj) ∧
    ∀ b, length (filter (reports b n) qs) = if decide (success = b) then 1%nat else 0%nat.
Proof.
  intros Hp Hc Hu [Hn (Hws & Hwf & Hwa) Hs He Hnode] Hr.
  destruct (node_calls_eq leader now pj r Hr) as (final & -> & (E1 & E2 & E3 & E4 & E5) & Hf & Hsucc).
  cbn [pbEx_start Execution_ToProto pbEx_JobName pbEx_NodeName pbEx_Attempt pbEx_StartedAt] in E1, E2, E4, E5.
  assert (in_uint 32 (uintN 32 (Ex_Attempt (nr_execution r)))) as Ha by by rewrite uintN_id.
  assert (exec_ok (NewExecutionFromProto final)) as Hok.
  { apply (pb_exec_ok n); rewrite ?E1, ?E2, ?E4, ?E5, ?Hf, ?Timestamp_id; done. }
  split.
  - cbn [fmap list_fmap receive]. apply Forall_cons_2; [|apply Forall_singleton]; cbn [request_counts request_fine].
    + apply (pb_exec_ok n); cbn; rewrite ?Timestamp_id; done.
    + intros node procs pbex' Hpr. eapply exec_ok_output; [by eapply run_processors_keep|].
      by rewrite Execution_roundtrip by apply Hok.
  - exists final.(pbEx_Success). split; [done|]. intros b. cbn [fmap list_fmap receive].
    rewrite !filter_cons, filter_nil. rewrite decide_False by (by intros []). cbn.
    case_decide as H1; case_decide as H2; naive_solver.
Qed.

(** The requests of all the nodes. *)
Definition fleet_requests (leader : string) (now : time) (pj : pbJob) (t : leader_call → time)
    (ch : leader_call → Choices) (runs : list NodeRun) : list request :=
  concat ((λ r, receive t ch <$> node_calls leader now pj r) <$> runs).

Lemma fleet_reports σ0 n leader now pj t ch runs :
  processors_keep → has_byte ":"%char n = false → valid_utf8 n = true →
  Forall (λ r, run_fine n r ∧ (node_run pj r).1 = Ok tt) runs →
  let qs := fleet_requests leader now pj t ch runs in
  Forall (request_counts σ0) qs ∧
  ∃ oks, Forall2 (λ r ok, ok = true ↔ succeeds r.(nr_executors) pj) runs oks ∧
    ∀ b, length (filter (reports b n) qs) = length (filter (.= b) oks).
Proof.
  intros Hp Hc Hu HF. unfold fleet_requests. induction HF as [|r runs [Hr Hok] _ [IH1 (oks & IH2 & IH3)]].
  { split; [done|]. by exists []. }
  destruct (node_requests σ0 n leader now pj r t ch Hp Hc Hu Hr Hok) as [H1 (ok & H2 & H3)].
  rewrite fmap_cons. cbn [concat]. split; [by apply Forall_app_2|]. exists (ok :: oks). split; [by constructor|].
  intros b. rewrite filter_app, length_app, IH3, H3, filter_cons. by case_decide.
Qed.

End Fleet.
End Results.
