(* ===== verification/Races.v ===== *)
(** * Schedules of a small server

    The theorems of [Interleaving] and [Counting] at a concrete schedule, and what they do
    not promise: schedules in which a handler writes back a job that has changed since it
    was read. *)
From Stdlib Require Import ZArith Lia.
From stdpp Require Import base list gmap strings pretty relations.
From S2P Require Import Prelude GoStrings GoNet GoTime Pb NTime ExtCron Execution Job BuntDB Store.
From S2P Require Import StoreSpec StoreRefine Instances StoreProps Scheduler Fsm Config Cluster ClusterProps.
From S2P Require Import Leader LeaderReconcile Targets Notifier Server ServerProps Stream Processors.
From S2P Require Import Threads Handlers Interleaving Counting Results.

#[local] Open Scope Z_scope.

Module Races.
Import Toy Example SchedulerExample ClusterExample TargetsExample NotifierExample ServerExample.
#[local] Existing Instance StreamExample.ToyCircbuf.
#[local] Existing Instance ToyDelivery.
#[local] Instance quiet : World toyraft := world "".
#[local] Abbreviation ToyServer := (Srv (R:=toyraft) (db:=toydb)).
#[local] Abbreviation Threads := (Logged (R:=toyraft) (db:=toydb) * list (thread (R:=toyraft) (db:=toydb) unit))%type.

(** The requests [qs] to the server, in the order of [turns], and what is seen afterwards:
    the answers, a job, and the runs that the nodes were asked for. *)
Definition race (turns : list nat) (qs : list request) (s : ToyServer) : Threads :=
  sched turns ((s, []), request_thread <$> qs).
Definition answers (st : Threads) : list (option (res unit)) :=
  (λ p, match p with Done r => Some r | _ => None end) <$> st.2.
Lemma answered i r (st : Threads) : answers st !! i = Some (Some r) → st.2 !! i = Some (Done r).
Proof.
  unfold answers. intros (p & Hr & Hp)%list_lookup_fmap_Some. etransitivity; [exact Hp|].
  destruct p as [r0|B m k]; [by injection Hr as <-|done].
Qed.
Definition job_after (n : string) (st : Threads) : res Job := (GetJob n (s_db st.1.1)).1.
Definition runs (st : Threads) : list (string * string * Z) := targets (Ok tt, st.1.1).

(** The job [a] alone in the store and the scheduler. *)
Definition server1 : ToyServer :=
  mkSrv (mkNode agent0 (Start [jobR] NewScheduler).2 (SetJob 0 jobR false d0).2) ∅ [] [].

Definition run_a : request := ReqRun 0 toy_choices "a" (NewExecution 0 "a").
Definition started (node : string) : pbExecution :=
  Execution_ToProto (mkExecution "a" nanos_per_sec time_zero false "" node 5 1).
Definition finished (node : string) (second : Z) : pbExecution :=
  Execution_ToProto (mkExecution "a" nanos_per_sec (second * nanos_per_sec) true "" node 5 1).

(** ** The theorems at a schedule *)

(** A run of [a] and a toggle, while an execution of [a] ends. *)
Definition mixed : list request :=
  [run_a; ReqSetExecution 0 (started "node2"); ReqExecutionDone 0 toy_choices (finished "node2" 2);
   ReqToggle 0 "a"].
Definition mixed_turns : list nat := [0; 3; 1; 0; 2; 2; 2; 3; 0; 2; 3; 2; 0; 2; 0; 2; 0; 2; 2; 2; 2; 2; 2; 2; 2; 2]%nat.

Definition mixed0 : state := (spec_SetJob 0 Example.jobB false (spec_SetJob 0 jobR false s0).2).2.
Lemma mixed0_holds : Holds (s_db server) mixed0.
Proof. apply SetJob_implements, SetJob_implements. apply Rep_empty. Qed.

Lemma quiet_processors node procs pbex : run_processors node procs pbex = Ok pbex.
Proof. induction procs as [|[k v] procs IH]; [done|]. apply IH. Qed.

(** An execution of [a] on a node with a proper name can be stored. *)
Lemma of_a_ok pbex :
  pbex.(pbEx_JobName) = "a" → Execution_wf (NewExecutionFromProto pbex) →
  valid_utf8 pbex.(pbEx_NodeName) = true → exec_ok (NewExecutionFromProto pbex).
Proof. intros Hn Hwf Hu. by split; cbn; rewrite ?Hn. Qed.

Ltac of_a := apply of_a_ok; [reflexivity|refine (bool_decide_unpack _ _); vm_compute; exact I|reflexivity].

Lemma mixed_fine : Forall request_fine mixed.
Proof.
  unfold mixed. rewrite !Forall_cons, Forall_nil. split_and!; cbn [request_fine]; [done|of_a| |done..].
  intros node procs pbex'. rewrite quiet_processors. intros [= <-]. of_a.
Qed.

Lemma all_answered (st : Threads) (qs : list request) :
  answers st = replicate (length qs) (Some (Ok tt)) →
  ∀ i q, qs !! i = Some q → st.2 !! i = Some (Done (Ok tt)).
Proof.
  intros Ha i q Hq. apply answered. rewrite Ha. by apply lookup_replicate_2; eapply lookup_lt_Some.
Qed.


(** The counters of the jobs before are zero, and a run, a toggle and the ends of two
    executions are counted once each. *)
Lemma mixed0_counts b n : 0 ≤ stored_count b n mixed0 ≤ 0.
Proof.
  unfold stored_count. destruct (mixed0.(jobs) !! n) as [j|] eqn:E; [|lia].
  assert (map_Forall (λ _ j, count b j = 0) mixed0.(jobs)) as H
    by (destruct b; refine (bool_decide_unpack _ _); vm_compute; exact I).
  rewrite (H n j E). lia.
Qed.

Lemma mixed0_zero n j : mixed0.(jobs) !! n = Some j → Job_SuccessCount j = 0 ∧ Job_ErrorCount j = 0.
Proof.
  intros E. pose proof (mixed0_counts true n) as H1. pose proof (mixed0_counts false n) as H2.
  unfold stored_count in *. rewrite E in *. unfold count in *. lia.
Qed.

Lemma mixed_counted : Forall (request_counts mixed0) mixed.
Proof. generalize mixed_fine. unfold mixed. by rewrite !Forall_cons, !Forall_nil. Qed.

Lemma no_result_lost_witness :
  ∃ j, job_after "a" (race mixed_turns mixed server) = Ok j ∧ Job_SuccessCount j = 1 ∧ Job_ErrorCount j = 0.
Proof.
  pose proof (no_result_lost mixed0 0 mixed0_counts mixed_turns server mixed mixed0_holds mixed_counted)
    as H. cbv zeta in H.
  assert (is_Some (mixed0.(jobs) !! "a")) as [j0 Hj0]
    by (refine (bool_decide_unpack _ _); vm_compute; exact I).
  destruct (H ltac:(vm_compute; reflexivity) "a" j0 Hj0) as (j & Hj & H1 & H2).
  exists j. split; [exact Hj|].
  assert (Job_SuccessCount j = Job_SuccessCount j0 + 1) as E1
    by (etransitivity; [exact H1|]; f_equal; vm_compute; reflexivity).
  assert (Job_ErrorCount j = Job_ErrorCount j0 + 0) as E2
    by (etransitivity; [exact H2|]; f_equal; vm_compute; reflexivity).
  pose proof (mixed0_zero "a" j0 Hj0) as [Z1 Z2]. rewrite Z1 in E1. rewrite Z2 in E2. split; [exact E1|exact E2].
Defined.

(** Two nodes run [a]: the executor of the first returns a response, that of the second an
    error, which is retried.  Meanwhile [a] is run again and [b] is toggled. *)
Definition executor_of (err : string) (name : string) : option (string → gmap string string → ExecScript) :=
  Some (λ _ _, mkExecScript ["half"] (λ _, (Some (mkExecuteResponse "done" err), None))).
Definition node_of (node err : string) (start : Z) : NodeRun :=
  mkNodeRun (executor_of err) (Ok "") (λ _ _, Ok tt) node (start * nanos_per_sec)
    ((start + 3) * nanos_per_sec) (mkExecution "a" time_zero time_zero false "" "" 5 1).
Definition fleet : list NodeRun := [node_of "node1" "" 10; node_of "node2" "exit status 1" 11].
Definition meanwhile : list request := [run_a; ReqToggle 0 "b"].
Definition fleet_turns : list nat :=
  ([2; 0; 1; 0; 3; 4; 1; 3; 5; 3; 0; 5; 3; 5; 1] ++ replicate 20 5 ++ replicate 20 0 ++ replicate 20 3)%nat.

#[local] Abbreviation fleet_race :=
  (sched fleet_turns ((server, []), request_thread <$>
     (meanwhile ++ fleet_requests "leader" 0 (Job_ToProto jobR) (λ _, 0) (λ _, toy_choices) fleet))).

Lemma answers_done (st : Threads) k :
  answers st = replicate k (Some (Ok tt)) → Forall (λ p, p = Done (Ok tt)) st.2.
Proof.
  unfold answers. destruct st as [sg ts]. cbn [snd]. revert k. induction ts as [|[r|B m f] ts IH]; intros [|k] H; try done.
  - simpl in H. injection H as -> H. constructor; [done|by eapply IH].
Qed.

Lemma quiet_keep : processors_keep.
Proof. by intros k process e config H. Qed.

Ltac runs_fine := split; [split; [reflexivity|refine (bool_decide_unpack _ _); vm_compute; exact I..|reflexivity]|vm_compute; reflexivity].

Lemma fleet_answered : Forall (λ p, p = Done (Ok tt)) fleet_race.2.
Proof. apply (answers_done fleet_race 6). vm_compute. reflexivity. Qed.
Lemma fleet_fits : 0 + Z.of_nat (length fleet_race.1.2) < 2 ^ 31.
Proof. vm_compute. reflexivity. Qed.


(** ** What a schedule can undo *)

(** The run reads [a] and finds it in the scheduler before the other request is answered,
    and writes it back after. *)
Definition between : list nat := ([0; 0] ++ replicate 8 1 ++ replicate 8 0)%nat.
Definition after : list nat := (replicate 8 1 ++ replicate 8 0)%nat.

(** A toggle between the read and the write of a run is answered, and undone in the store;
    the scheduler keeps to it.  Before the run it is not undone. *)
Theorem toggle_undone :
  let st := race between [run_a; ReqToggle 0 "a"] server in
  answers st = [Some (Ok tt); Some (Ok tt)] ∧
  Job_Disabled <$> match job_after "a" st with Ok j => Some j | _ => None end = Some false ∧
  GetEntry "a" st.1.1.(s_node).(n_sched) = Ok None ∧
  Job_Disabled <$> match job_after "a" (race after [run_a; ReqToggle 0 "a"] server) with
                   | Ok j => Some j | _ => None end = Some true.
Proof. split_and!; vm_compute; reflexivity. Qed.

(** A job that is deleted between the read and the write of a run is in the store again, and
    in no scheduler. *)
Theorem deleted_job_returns :
  let st := race between [run_a; ReqDeleteJob 0 "a"] server1 in
  answers st = [Some (Ok tt); Some (Ok tt)] ∧
  Job_Name <$> match job_after "a" st with Ok j => Some j | _ => None end = Some "a" ∧
  GetEntry "a" st.1.1.(s_node).(n_sched) = Ok None.
Proof. split_and!; vm_compute; reflexivity. Qed.

(** A child that is set between the read and the write of a run of its parent is in the
    store, and its parent does not know it: it is never run. *)
Theorem child_forgotten :
  let st := race between [run_a; ReqSetJob 0 (Job_ToProto Example.jobB)] server1 in
  answers st = [Some (Ok tt); Some (Ok tt)] ∧
  Job_ParentJob <$> match job_after "b" st with Ok j => Some j | _ => None end = Some "a" ∧
  Job_DependentJobs <$> match job_after "a" st with Ok j => Some j | _ => None end = Some [].
Proof. split_and!; vm_compute; reflexivity. Qed.

(** Two executions of a group that end together: each handler reads the job after both ends
    were counted, and both run the dependent job.  One after the other, it is run once. *)
Definition group_of_two : list request :=
  [ReqSetExecution 0 (started "node1"); ReqSetExecution 0 (started "node2");
   ReqExecutionDone 0 toy_choices (finished "node1" 2); ReqExecutionDone 0 toy_choices (finished "node2" 2)].
Theorem dependents_run_twice :
  let once := [("10.0.0.1:6868", "b", 1); ("10.0.0.2:6868", "b", 1)] in
  runs (race ([0; 1] ++ replicate 20 2 ++ replicate 20 3)%nat group_of_two server) = once ∧
  runs (race ([0; 1; 2; 3; 2; 3; 2; 3] ++ replicate 20 2 ++ replicate 20 3)%nat group_of_two server)
    = once ++ once.
Proof. split_and!; vm_compute; reflexivity. Qed.
End Races.
